(* ===== verification/_CoqProject ===== *)
-Q . S2P
Prelude.v
Text.v
Felt.v
Tx.v
TxHash.v
Version.v
Block.v
Receipt.v
PoolTypes.v
BTreeSet.v
Pool.v
PoolProofs.v
PoolOrder.v
PoolDelivery.v
Executor.v
Validator.v
ValidatorProofs.v
Codec.v
Versioned.v
BTreeMap.v
DaEncoding.v
DaBlob.v
Mdbx.v
DbProvider.v
DbState.v
ChangeLog.v
DbHistory.v
DbLatest.v
DbBlocks.v
DbUpdates.v
Events.v
EventPages.v
RpcError.v
RpcEvents.v
Gateway.v
Pipeline.v
Stages.v
StagesProofs.v
GasOracle.v
Backend.v
BackendProofs.v
Processor.v
BlockProducer.v
BlockProducerProofs.v
ForkBackend.v
ForkBackendProofs.v
ForkProvider.v
ForkProviderProofs.v
Messaging.v
MessagingProofs.v
TrieDb.v
TrieDbProofs.v
Prune.v
PruneProofs.v
Service.v
ServiceProofs.v
RpcTypes.v
RpcForking.v
RpcStarknet.v
RpcStarknetProofs.v
PendingState.v
RpcTrace.v
RpcWrite.v
RpcExecution.v
RpcExecutionProofs.v
Genesis.v
GenesisProofs.v
GenesisTxs.v
GenesisTxsProofs.v
GenesisServed.v
StateTrie.v
StateTrieProofs.v
RollupGenesis.v
GenesisJson.v
GenesisJsonProofs.v
