(* ===== verification/Prelude.v ===== *)
(** * Verification of the Katana sequencer

    Katana is a Starknet sequencer for development.  A transaction enters a pool,
    which validates and orders it; block producers execute pending transactions on
    blockifier's machine, close blocks and commit them; a database keeps blocks,
    transactions, receipts and the history of the state; RPC handlers read from it;
    a sync pipeline fills the same database from a feeder gateway; state updates are
    encoded for data availability.  A node can be forked off a remote network, whose
    state it reads through a client, and receives messages from a settlement chain.
    Paths below are relative to [src/crates/].

    ** Files

    - [Prelude]: results, machine integers, shared lemmas on lists and maps.
    - [Text], [Felt]: decimal and hexadecimal text, field elements and bytes.
    - [Tx], [TxHash]: transactions of every version and their hashes
      (primitives/src/transaction.rs, utils/transaction.rs, fee.rs, chain.rs).
    - [Version], [Block], [Receipt]: protocol versions, headers and blocks, state
      updates, receipts, events, execution results (primitives/src/version.rs,
      block.rs, state.rs, receipt.rs, execution.rs, executor/src/abstraction/mod.rs).
    - [PoolTypes], [BTreeSet], [Pool]: the pool with its ordered set, listeners and
      subscribers (pool/src).  [PoolProofs]: its operations; [PoolOrder]: the order
      of its transactions; [PoolDelivery]: its streams under concurrent use.
    - [Executor], [Validator], [ValidatorProofs]: conversion of transactions for
      blockifier and the stateful validator (executor/src/implementation/blockifier,
      pool/src/validation).
    - [Codec], [Versioned]: keys and values of tables as bytes, rows of older
      versions (storage/db/src/codecs, models).
    - [BTreeMap], [DaEncoding], [DaBlob]: the data availability encoding of state
      updates and blobs (primitives/src/da).
    - [Mdbx], [DbProvider], [DbState]: tables and cursors, the database provider and
      its state providers (storage/provider/src/providers/db).  [ChangeLog],
      [DbHistory], [DbLatest], [DbBlocks], [DbUpdates]: what they answer after any
      sequence of insertions.
    - [Events], [EventPages], [RpcError], [RpcEvents]: event queries and their paging,
      API errors (rpc/rpc/src/utils/events.rs, starknet/mod.rs, forking.rs,
      rpc-api/src/error).
    - [Gateway], [Pipeline], [Stages], [StagesProofs]: gateway types, the pipeline and
      its stages (feeder-gateway/src/types, sync/pipeline, sync/stage).
    - [GasOracle], [Backend], [BackendProofs]: prices, block environments, closing and
      storing a block, the development genesis (core/src/backend).
    - [Processor], [BlockProducer], [BlockProducerProofs]: the block executor and the
      interval and instant producers (executor/src, core/src/service).
    - [Service], [ServiceProofs]: the task that moves transactions from the pool to the
      producer and mined ones out of the pool (core/src/service/mod.rs).
    - [ForkBackend], [ForkBackendProofs]: the backend that asks the remote network on
      behalf of its clients; [ForkProvider], [ForkProviderProofs]: the state of a forked
      node over it (storage/fork, storage/provider/src/providers/fork).
    - [Messaging], [MessagingProofs]: gathering messages from a settlement chain
      (messaging/src).
    - [TrieDb], [TrieDbProofs]: the tables of a trie, its snapshots
      (storage/db/src/trie, models/trie.rs); [Prune], [PruneProofs]: pruning their
      history (src/bin/katana/src/cli/db/prune.rs).
    - [RpcTypes], [RpcTrace]: what the API shows of transactions, receipts, blocks,
      state updates, proofs and traces, and the transactions it is sent
      (rpc/rpc-types/src).  [RpcForking]: the client of the forked network
      (rpc/rpc/src/starknet/forking.rs).
    - [RpcStarknet], [RpcStarknetProofs]: the read handlers and the builders of their
      answers (rpc/rpc/src/starknet/mod.rs, rpc/rpc-types-builder/src);
      [PendingState]: the state of the pending block behind them
      (executor/src/implementation/blockifier/state.rs).
    - [RpcWrite]: submitting transactions, setting the clock (starknet/write.rs, dev.rs).
      [RpcExecution], [RpcExecutionProofs]: calls, fee estimation, simulation and traces
      (starknet/read.rs, trace.rs, blockifier.rs, executor's call.rs).
    - [Genesis], [GenesisProofs]: allocations and the state of a development chain
      (primitives/src/genesis, chain-spec/src/dev.rs); [GenesisServed]: what a node over
      it answers.  [GenesisTxs], [GenesisTxsProofs]: the genesis transactions of a rollup
      (chain-spec/src/rollup/utils.rs); [RollupGenesis]: executing and storing them
      (core/src/backend/mod.rs).  [GenesisJson], [GenesisJsonProofs]: the genesis file
      (primitives/src/genesis/json.rs).
    - [StateTrie], [StateTrieProofs]: writing state updates to the classes, contracts
      and storage tries (storage/provider/src/providers/db/trie.rs, trie/src).

    ** Conventions

    A Rust [Result] is [result], an [Option] is [option]; where a call can also panic
    ([unwrap], [expect], indexing) the outer [option] is [None] then.  A w-bit integer
    is a [Z]; where the code adds without a check the wrap of release builds is
    written out.  BTreeMap and BTreeSet are sorted lists, hash maps are [gmap]s or
    lists in the order of iteration.  Code outside the repository is a class or a
    section variable with its documented behaviour as laws: hash functions
    ([poseidon], [pedersen]; binding results conclude with equality or a collision),
    channels ([UnboundedChannel]; a receive on a channel that holds something may still
    answer pending, and then wakes its task again), libmdbx ([Mdbx]), roaring bitmaps
    ([RoaringTreemap]), serde codecs ([FeltPostcard], [BytesPostcard]), blockifier
    ([Blockifier]), tries ([TrieWriter]), the gateway client, the remote node of a fork
    ([Remote], [RemoteNode]), the reads of blockifier's cached state
    ([BlockifierCache]) and the nodes of a settlement chain.  The block production
    service sees its producer through the class [Producer], the handlers that submit
    transactions see the pool through [TransactionPool], which the pool implements over
    a validator that keeps the transaction ([KeepingValidator]).  Each has an instance
    with which the witnesses run.  A state trie is the map of its leaves, its root a
    function of it.

    ** What is proved

    - Hashes of transactions, blocks, receipts bind what they should.
    - The pool: additions, removals and notifications in every case, its invariant,
      the order of its transactions, and that its stream loses nothing in any
      interleaving and cannot stall; the validator: when it panics and otherwise which
      of valid, invalid, dependent and error it answers ([answers]), for which reason,
      and what that does to its nonces, chains of nonces included.
    - The service: a poll of its task ends, with the stream drained or the task woken
      again; in every interleaving with callers and blocking tasks what the pool
      accepted is with the producer or still in the stream, and in the pool until the
      database has a block that lists it.
    - The database: codecs invert and keep order; blocks, transactions and state
      updates are read back; the historical and the latest state refine the abstract
      history of a chain of blocks.
    - Queries: following continuation tokens returns every matching event once, in
      order, and ends.  State, block, transaction, receipt, status, trace and state
      update queries answer for the abstract chain whichever way the block is named
      (the nonce of a contract that sent nothing is where the ways differ, [fresh_nonce]);
      those for the pending block answer for the chain with the pending writes over it.
    - Submission and execution: an accepted transaction is served as it was sent (on a
      forked node the remote is asked instead), one with a query version is refused; fee
      estimation is simulation up to the first failure; storage proofs survive their
      conversion to the API and back.
    - Genesis: the development genesis deploys and funds what its specification
      allocates and a node over it answers so; the transactions of a rollup genesis are
      the steps it should take, in order and with consecutive nonces; a node that stored
      a genesis through the tries of its database accepts it again when it recomputes it
      in memory, panics there if a touched contract has no class, and refuses one with
      another hash; the genesis file is sound and reads back.
    - Data availability: decoding inverts encoding, and recovering a blob of 4096
      field elements inverts the transform.
    - Sync: checkpoints are sound however a run ends, runs reach their tips, syncing an
      empty database gives the gateway's blocks from 1 on and the artifacts of the Sierra
      classes they declare, and of no other.
    - Block production: mined blocks are linked and hold what succeeded; when the tasks
      of the interval producer finish in the order they were started, what arrived is, in
      order, in the outputs taken from the executor, on it or still to execute, and the
      database has the blocks of the outputs whose closing succeeded, in order and each
      with the successful transactions of its output.  What was taken by a closing that
      failed or panicked is lost ([panic_loses_output]).
    - Forking: the backend answers every request once and nobody is left waiting; the
      forked state is the local chain over the remote state, at every block; the API
      shows nothing of the remote chain above the fork block, except by transaction hash.
    - Messaging: on Ethereum and on Starknet messages are gathered once and in order,
      with requests failing at any time, except that a failing fetch of Starknet events
      panics and ends the run.
    - Tries: a snapshot at a block reads the trie as it was then; pruning leaves the
      history of the blocks after the cut and removes what it announces; the state tries
      hold the state after every chain of blocks, and the two trie writers agree.
    - Where the code does not do what it means to, the theorem says what it does:
      [nonce_gap_accepted], [fork_widens_range], [pending_events_lost],
      [dev_genesis_init], [late_execution_lost], [panic_loses_output],
      [forced_block_overwritten],
      [instant_drops_leftovers], [stale_read_overwrites], [behind_node_rewinds],
      [l1_message_dropped], [snapshot_keeps_removed], [pruned_block_loses_nodes],
      [rpc_pooled_transaction], [rpc_fresh_nonce_by_hash],
      [state_update_unknown_hash_panics], [pending_query_uses_timestamp],
      [pending_system_storage_hidden], [pending_large_key_panics],
      [fork_transaction_unguarded], [to_rpc_trace_defined].

    ** Fuel

    Loops without a structural measure take fuel, and the theorems give a bound that
    is enough: two turns for a poll of a subscription, the length of the channel for
    draining it, the highest tip for the pipeline, the number of matching events for
    following continuation tokens, the number of pages a settlement node splits its
    events into, what the pool's stream holds for the miner, the entries of a table for
    pruning it.  The passes of the backend of a fork and of the service's task go over a
    list of what the outside does in each.

    ** Not modelled

    Execution of transactions (blockifier) and the node algorithms of the tries
    (bonsai-trie): other code, behind classes and parameters.  JSON and other derived
    serialisation, base64, the files of chain specifications, libmdbx and the HTTP
    server: input and output around the modelled functions.  The thread pools and
    permits the handlers run on, task management, the sequencing stage, the wiring of
    the node and its command line: they start the modelled parts.  The Cartridge
    paymaster with its pre-deployment of controllers, the database commands other than
    pruning, metrics.
    The text of error messages is left out unless code reads it. *)

From Stdlib Require Import ZArith Lia.
From stdpp Require Import base list gmap numbers option sorting.

#[global] Set Default Goal Selector "!".
Declare Scope katana_scope.
Delimit Scope katana_scope with katana.
Open Scope Z_scope.

(** ** Results

    Rust's [Result<A, E>].  The error type comes first so that [result E] is a
    monad; [?] on a result is the bind. *)
Inductive result (E A : Type) : Type :=
  | Ok (a : A)
  | Err (e : E).
Arguments Ok {E A} a.
Arguments Err {E A} e.

#[export] Instance result_ret {E} : MRet (result E) := fun A a => Ok a.
#[export] Instance result_bind {E} : MBind (result E) := fun A B f m =>
  match m with Ok a => f a | Err e => Err e end.
#[export] Instance result_fmap {E} : FMap (result E) := fun A B f m =>
  match m with Ok a => Ok (f a) | Err e => Err e end.

(** [Option::ok_or]. *)
Definition ok_or {E A} (o : option A) (e : E) : result E A :=
  match o with Some a => Ok a | None => Err e end.

(** [Result::map_err]. *)
Definition map_err {E F A} (f : E -> F) (m : result E A) : result F A :=
  match m with Ok a => Ok a | Err e => Err (f e) end.

Definition is_ok {E A} (m : result E A) : bool :=
  match m with Ok _ => true | Err _ => false end.

(** [iter().map(f).collect::<Result<Vec<_>, _>>()]: the first error wins. *)
Fixpoint try_collect {E A B} (f : A -> result E B) (l : list A) : result E (list B) :=
  match l with
  | [] => Ok []
  | a :: l => b ← f a; bs ← try_collect f l; Ok (b :: bs)
  end.

(** ** Machine integers: a w-bit unsigned integer is a [Z] in its range. *)
Definition u64_bound : Z := 2 ^ 64.
Definition u128_bound : Z := 2 ^ 128.
Definition is_u32 (z : Z) : Prop := 0 <= z < 2 ^ 32.
Definition is_u64 (z : Z) : Prop := 0 <= z < u64_bound.
Definition is_u128 (z : Z) : Prop := 0 <= z < u128_bound.

#[export] Instance is_u32_dec z : Decision (is_u32 z).
Proof. unfold is_u32. apply _. Defined.
#[export] Instance is_u64_dec z : Decision (is_u64 z).
Proof. unfold is_u64. apply _. Defined.
#[export] Instance is_u128_dec z : Decision (is_u128 z).
Proof. unfold is_u128. apply _. Defined.

(** Wrapping addition on [u64] ([AtomicU64::fetch_add], release-mode [+]). *)
Definition wrap64 (z : Z) : Z := z mod u64_bound.
Definition wrap128 (z : Z) : Z := z mod u128_bound.

(** ** Rust ranges [lo..hi] over [u64], as lists. *)
Definition urange (lo hi : Z) : list Z := seqZ lo (hi - lo).

Lemma urange_cons lo hi : lo < hi -> urange lo hi = lo :: urange (lo + 1) hi.
Proof.
  intros Hlt. unfold urange. rewrite seqZ_cons by lia. f_equal. f_equal; lia.
Qed.
Lemma urange_nil lo hi : hi <= lo -> urange lo hi = [].
Proof. intros Hle. unfold urange. apply seqZ_nil. lia. Qed.

Lemma elem_of_urange lo hi i : i ∈ urange lo hi <-> lo <= i < hi.
Proof. unfold urange. rewrite elem_of_seqZ. lia. Qed.

Lemma urange_app a b c : a <= b <= c -> urange a b ++ urange b c = urange a c.
Proof.
  intros Habc. unfold urange. replace (c - a) with ((b - a) + (c - b)) by lia.
  rewrite seqZ_app by lia. do 2 f_equal. lia.
Qed.

(** ** Tactics *)

(** Case analysis on the innermost [match] of a hypothesis or of the goal. *)
Ltac destruct_match_in H :=
  match type of H with
  | context [match ?x with _ => _ end] =>
      lazymatch x with
      | context [match _ with _ => _ end] => fail
      | _ => destruct x eqn:?
      end
  end.
Ltac destruct_match_goal :=
  match goal with
  | |- context [match ?x with _ => _ end] =>
      lazymatch x with
      | context [match _ with _ => _ end] => fail
      | _ => destruct x eqn:?
      end
  end.
(** Solve goals about results once the cases are split. *)
Ltac rinv := simplify_eq/=; try congruence; auto.

Create HintDb katana.

(** ** Generic list lemmas *)
Section Lists.
Context {A : Type}.
Implicit Types (l : list A) (x y : A).

Lemma filter_all (P : A -> Prop) `{!∀ x, Decision (P x)} l :
  Forall P l -> filter P l = l.
Proof.
  induction 1 as [|x l HP _ IH]; [done|].
  by rewrite filter_cons_True, IH.
Qed.

Lemma filter_none (P : A -> Prop) `{!∀ x, Decision (P x)} l :
  Forall (fun x => ~ P x) l -> filter P l = [].
Proof.
  induction 1 as [|x l HP _ IH]; [done|].
  by rewrite filter_cons_False.
Qed.

Lemma sorted_filter (R : A -> A -> Prop) (P : A -> Prop) `{!∀ x, Decision (P x)} l :
  StronglySorted R l -> StronglySorted R (filter P l).
Proof.
  induction 1 as [|x l Hs IH Hall]; [constructor|]. rewrite filter_cons.
  case_decide; [|done]. constructor; [done|]. rewrite !List.Forall_forall in *.
  intros y Hy. apply Hall. rewrite <- !list_elem_of_In in *.
  by apply list_elem_of_filter in Hy as [_ Hy].
Qed.

(** Peel a list equation without normalising the elements. *)
Lemma cons_eq_inv x y l l' : x :: l = y :: l' -> x = y /\ l = l'.
Proof. by intros [= -> ->]. Qed.

Lemma last_app_cons l x l' : last (l ++ x :: l') = last (x :: l').
Proof.
  induction l as [|y l IH]; [done|].
  rewrite <- app_comm_cons. destruct l; [done|]. exact IH.
Qed.
End Lists.

(** Split a list equation into the equations of its elements. *)
Ltac peel_cons H :=
  lazymatch type of H with
  | _ :: _ = _ :: _ =>
      let H' := fresh "Heq" in apply cons_eq_inv in H as [H' H]; peel_cons H
  | [] = [] => clear H
  | [] = _ :: _ => discriminate H
  | _ :: _ = [] => discriminate H
  | _ => idtac
  end.

Lemma try_collect_ok {E A B} (f : A -> result E B) l bs :
  try_collect f l = Ok bs <-> Forall2 (fun a b => f a = Ok b) l bs.
Proof.
  revert bs. induction l as [|a l IH]; intros bs; simpl.
  - split; [intros [= <-]; constructor | by inversion 1].
  - split.
    + destruct (f a) as [b|] eqn:Hf; simpl; [|done].
      destruct (try_collect f l) as [bs'|] eqn:Hc; simpl; [|done].
      intros [= <-]. constructor; [done|]. by apply IH.
    + inversion 1 as [|? b ? bs' Hf Hr]; subst. rewrite Hf. simpl.
      apply IH in Hr. by rewrite Hr.
Qed.

Lemma bind_ok {E A B} (m : result E A) (f : A -> result E B) b :
  (m ≫= f) = Ok b <-> exists a, m = Ok a /\ f a = Ok b.
Proof. destruct m; simpl; split; [eauto|naive_solver|done|naive_solver]. Qed.
