(* ===== verification/Text.v ===== *)
(** * Strings of the standard library the sources parse and print

    Strings are lists of character codes.  Splitting on a separator, integers read
    in a radix ([from_str_radix]) and printed in hexadecimal ([{:x}]). *)

From Stdlib Require Import ZArith Lia.
From stdpp Require Import base list numbers.
From S2P Require Import Prelude.

Definition c_zero : Z := 48.
Definition c_plus : Z := 43.
Definition c_minus : Z := 45.

(** ** [str::split]: always at least one part *)
Fixpoint split_on (sep : Z) (l : list Z) : list (list Z) :=
  match l with
  | [] => [[]]
  | c :: l =>
      if Z.eqb c sep then [] :: split_on sep l
      else match split_on sep l with
           | p :: ps => (c :: p) :: ps
           | [] => [[c]]
           end
  end.

Lemma split_on_clean sep l : Forall (fun c => c <> sep) l -> split_on sep l = [l].
Proof.
  induction 1 as [|c l Hc Hl IH]; [done|]. simpl.
  destruct (Z.eqb_spec c sep); [done|]. by rewrite IH.
Qed.

Lemma split_on_sep sep l r :
  Forall (fun c => c <> sep) l -> split_on sep (l ++ sep :: r) = l :: split_on sep r.
Proof.
  induction 1 as [|c l Hc Hl IH]; simpl; [by rewrite Z.eqb_refl|].
  destruct (Z.eqb_spec c sep); [done|]. by rewrite IH.
Qed.

(** ** Integers *)
Inductive IntErrorKind := IntEmpty | IntInvalidDigit | IntPosOverflow.

(** [char::to_digit]. *)
Definition to_digit (radix c : Z) : option Z :=
  let d := if Z.leb 48 c && Z.leb c 57 then c - 48
           else if Z.leb 97 c && Z.leb c 122 then c - 87
           else if Z.leb 65 c && Z.leb c 90 then c - 55
           else radix in
  if Z.ltb d radix then Some d else None.

(** The checked loop of [from_str_radix], for an unsigned type of [bound] values. *)
Fixpoint parse_digits (radix bound acc : Z) (l : list Z) : result IntErrorKind Z :=
  match l with
  | [] => Ok acc
  | c :: l =>
      match to_digit radix c with
      | None => Err IntInvalidDigit
      | Some d =>
          if Z.leb bound (acc * radix) then Err IntPosOverflow
          else if Z.leb bound (acc * radix + d) then Err IntPosOverflow
          else parse_digits radix bound (acc * radix + d) l
      end
  end.

(** A leading [+] is allowed, a lone sign is not. *)
Definition from_str_radix (radix bound : Z) (l : list Z) : result IntErrorKind Z :=
  match l with
  | [] => Err IntEmpty
  | [c] =>
      if Z.eqb c c_plus || Z.eqb c c_minus then Err IntInvalidDigit
      else parse_digits radix bound 0 l
  | c :: r => if Z.eqb c c_plus then parse_digits radix bound 0 r else parse_digits radix bound 0 l
  end.

(** [{:x}] of a 64-bit integer: lowercase, no leading zeros, at most sixteen digits. *)
Definition hex_digit (d : Z) : Z := if Z.ltb d 10 then 48 + d else 87 + d.
Fixpoint hex_digits (fuel : nat) (n : Z) : list Z :=
  match fuel with
  | O => []
  | S fuel => (if Z.ltb n 16 then [] else hex_digits fuel (n / 16)) ++ [hex_digit (n mod 16)]
  end.
Definition show_hex (n : Z) : list Z := hex_digits 16 n.

Definition is_hex_char (c : Z) : Prop := 48 <= c <= 57 \/ 97 <= c <= 102.

Lemma hex_digit_char d : 0 <= d < 16 -> is_hex_char (hex_digit d) /\ to_digit 16 (hex_digit d) = Some d.
Proof.
  intros Hd. unfold is_hex_char, hex_digit, to_digit.
  destruct (Z.ltb_spec d 10).
  - split; [lia|]. rewrite !(proj2 (Z.leb_le _ _)) by lia. simpl.
    replace (48 + d - 48) with d by lia. by rewrite (proj2 (Z.ltb_lt _ _)) by lia.
  - split; [lia|]. rewrite (proj2 (Z.leb_le 48 _)) by lia. rewrite (proj2 (Z.leb_gt _ 57)) by lia.
    simpl. rewrite !(proj2 (Z.leb_le _ _)) by lia. simpl.
    replace (87 + d - 87) with d by lia. by rewrite (proj2 (Z.ltb_lt _ _)) by lia.
Qed.

Lemma hex_digits_chars fuel n : 0 <= n -> Forall is_hex_char (hex_digits fuel n).
Proof.
  revert n. induction fuel as [|fuel IH]; intros n Hn; [constructor|]. simpl. apply Forall_app. split.
  - destruct (Z.ltb n 16); [constructor|]. apply IH. apply Z.div_pos; lia.
  - constructor; [|constructor]. apply hex_digit_char, Z.mod_pos_bound. lia.
Qed.

Lemma parse_hex_digits fuel n rest :
  0 <= n < u64_bound -> n < 16 ^ Z.of_nat fuel ->
  parse_digits 16 u64_bound 0 (hex_digits fuel n ++ rest) = parse_digits 16 u64_bound n rest.
Proof.
  revert n rest. induction fuel as [|fuel IH]; intros n rest Hn Hf.
  { simpl in *. by replace n with 0 by lia. }
  rewrite Nat2Z.inj_succ, Z.pow_succ_r in Hf by lia. simpl hex_digits. rewrite <- app_assoc.
  destruct (hex_digit_char (n mod 16)) as [_ Hd]; [apply Z.mod_pos_bound; lia|].
  pose proof (Z.div_mod n 16 ltac:(lia)) as Hdm. pose proof (Z.mod_pos_bound n 16 ltac:(lia)) as Hm.
  assert (parse_digits 16 u64_bound (n / 16) ([hex_digit (n mod 16)] ++ rest)
          = parse_digits 16 u64_bound n rest) as Hlast.
  { cbn [app parse_digits]. rewrite Hd.
    destruct (Z.leb_spec u64_bound (n / 16 * 16)); [lia|].
    destruct (Z.leb_spec u64_bound (n / 16 * 16 + n mod 16)); [lia|]. f_equal. lia. }
  destruct (Z.ltb_spec n 16) as [Hlt|Hge].
  - rewrite <- Hlast. by rewrite Z.div_small by lia.
  - rewrite IH; [done| |]; pose proof (Z.div_pos n 16); lia.
Qed.

Lemma hex_digits_nonnil fuel n : hex_digits (S fuel) n <> [].
Proof. simpl. intros [_ H]%app_eq_nil. done. Qed.

(** A printed integer parses back to itself. *)
Lemma from_str_show_hex n : is_u64 n -> from_str_radix 16 u64_bound (show_hex n) = Ok n.
Proof.
  intros Hn. unfold is_u64 in Hn.
  assert (parse_digits 16 u64_bound 0 (show_hex n) = Ok n) as Hp.
  { unfold show_hex. rewrite <- (app_nil_r (hex_digits 16 n)).
    rewrite parse_hex_digits; [done|done|]. unfold u64_bound in Hn. change (16 ^ Z.of_nat 16) with (2 ^ 64). lia. }
  assert (Forall is_hex_char (show_hex n)) as Hc by (apply hex_digits_chars; lia).
  destruct (show_hex n) as [|c [|c2 l]] eqn:Hs.
  - by apply hex_digits_nonnil in Hs.
  - apply Forall_cons_iff in Hc as [Hc _]. unfold is_hex_char in Hc. unfold from_str_radix, c_plus, c_minus.
    destruct (Z.eqb_spec c 43), (Z.eqb_spec c 45); try lia. simpl orb. exact Hp.
  - apply Forall_cons_iff in Hc as [Hc _]. unfold is_hex_char in Hc. unfold from_str_radix, c_plus.
    destruct (Z.eqb_spec c 43); [lia|]. exact Hp.
Qed.
