(* ===== verification/Felt.v ===== *)
(** * Field elements and byte strings

    [Felt] is an element of the Stark field, a [Z] in [0, P); the byte-level
    encodings are the big-endian ones the sources use ([to_be_bytes],
    [Felt::to_bytes_be], [Felt::from_bytes_be_slice]). *)

From Stdlib Require Import ZArith Lia.
From stdpp Require Import base list numbers.
From S2P Require Import Prelude.

(** The prime of the Stark field, 2^251 + 17 * 2^192 + 1. *)
Definition P : Z := 2 ^ 251 + 17 * 2 ^ 192 + 1.

Definition is_felt (z : Z) : Prop := 0 <= z < P.
#[export] Instance is_felt_dec z : Decision (is_felt z).
Proof. unfold is_felt. apply _. Defined.

(** Field addition and subtraction; [Felt::from] of an integer reduces it. *)
Definition felt_of (z : Z) : Z := z mod P.
Definition felt_add (a b : Z) : Z := felt_of (a + b).
Definition felt_sub (a b : Z) : Z := felt_of (a - b).

(** [Felt::from_raw]: the element whose Montgomery representative (radix
    2^256) has the given 64-bit limbs, most significant limb first. *)
Definition limbs_to_Z (l : list Z) : Z := fold_left (fun acc x => acc * 2 ^ 64 + x) l 0.
Definition mont_r_inv : Z :=
  113078212145816603762751633895895194930089271709401121343797004406777446400.
Definition felt_from_raw (limbs : list Z) : Z := felt_of (limbs_to_Z limbs * mont_r_inv).

Lemma mont_r_inv_spec : (2 ^ 256 * mont_r_inv) mod P = 1.
Proof. by vm_compute. Qed.

(** ** Big-endian bytes *)
Fixpoint be_bytes (n : nat) (z : Z) : list Z :=
  match n with
  | O => []
  | S n => (z / 256 ^ Z.of_nat n) mod 256 :: be_bytes n z
  end.

Definition be_to_Z (l : list Z) : Z := fold_left (fun acc b => acc * 256 + b) l 0.

(** [Felt::from_bytes_be_slice] reduces the integer modulo the prime. *)
Definition felt_from_bytes_be (l : list Z) : Z := felt_of (be_to_Z l).

Definition is_byte (b : Z) : Prop := 0 <= b < 256.

Lemma P_pos : 0 < P.
Proof. reflexivity. Qed.

Lemma felt_of_range z : is_felt (felt_of z).
Proof. unfold is_felt, felt_of. apply Z.mod_pos_bound, P_pos. Qed.

Lemma felt_of_small z : is_felt z -> felt_of z = z.
Proof. intros H. unfold felt_of. by apply Z.mod_small. Qed.

Lemma felt_add_small a b : 0 <= a + b < P -> felt_add a b = a + b.
Proof. intros. by apply felt_of_small. Qed.

Lemma be_bytes_length n z : length (be_bytes n z) = n.
Proof. induction n; simpl; auto. Qed.

Lemma be_bytes_byte n z : Forall is_byte (be_bytes n z).
Proof.
  induction n; simpl; constructor; [|done].
  unfold is_byte. apply Z.mod_pos_bound. lia.
Qed.

Lemma be_fold_acc l acc :
  fold_left (fun acc b => acc * 256 + b) l acc = acc * 256 ^ Z.of_nat (length l) + be_to_Z l.
Proof.
  unfold be_to_Z. revert acc. induction l as [|b l IH]; intros acc; [simpl; lia|].
  cbn [fold_left length]. rewrite IH, (IH (0 * 256 + b)).
  rewrite Nat2Z.inj_succ, Z.pow_succ_r by lia. lia.
Qed.

Lemma be_to_Z_cons b l : be_to_Z (b :: l) = b * 256 ^ Z.of_nat (length l) + be_to_Z l.
Proof. unfold be_to_Z at 1. simpl. by rewrite be_fold_acc. Qed.

Lemma be_to_Z_app l1 l2 :
  be_to_Z (l1 ++ l2) = be_to_Z l1 * 256 ^ Z.of_nat (length l2) + be_to_Z l2.
Proof. unfold be_to_Z at 1. by rewrite fold_left_app, be_fold_acc. Qed.

Lemma be_to_Z_be_bytes_mod n z : be_to_Z (be_bytes n z) = z mod 256 ^ Z.of_nat n.
Proof.
  induction n as [|n IH]; [by rewrite Z.mod_1_r|].
  simpl be_bytes. rewrite be_to_Z_cons, be_bytes_length, IH.
  rewrite Nat2Z.inj_succ, Z.pow_succ_r by lia.
  rewrite (Z.mul_comm 256), Z.rem_mul_r by lia. lia.
Qed.

Lemma be_to_Z_be_bytes n z : 0 <= z < 256 ^ Z.of_nat n -> be_to_Z (be_bytes n z) = z.
Proof. intros. rewrite be_to_Z_be_bytes_mod. by apply Z.mod_small. Qed.

Lemma be_to_Z_bound l : Forall is_byte l -> 0 <= be_to_Z l < 256 ^ Z.of_nat (length l).
Proof.
  induction 1 as [|b l Hb _ IH]; [done|].
  rewrite be_to_Z_cons. simpl length. rewrite Nat2Z.inj_succ, Z.pow_succ_r by lia.
  unfold is_byte in Hb. nia.
Qed.

Lemma byte_digit_mod z m k :
  (m < k)%nat ->
  (z mod 256 ^ Z.of_nat k / 256 ^ Z.of_nat m) mod 256 = (z / 256 ^ Z.of_nat m) mod 256.
Proof.
  intros Hk.
  replace (Z.of_nat k) with (Z.of_nat m + (1 + Z.of_nat (k - S m))) by lia.
  rewrite !Z.pow_add_r, Z.pow_1_r by lia.
  rewrite Z.rem_mul_r by lia.
  rewrite (Z.mul_comm (256 ^ Z.of_nat m)), Z.div_add by lia.
  rewrite (Z.div_small (z mod _)) by (apply Z.mod_pos_bound; lia).
  rewrite Z.add_0_l, Z.rem_mul_r by lia.
  rewrite (Z.mul_comm 256), Z.mod_add by lia. by rewrite Z.mod_mod by lia.
Qed.

Lemma be_bytes_mod n z : be_bytes n (z mod 256 ^ Z.of_nat n) = be_bytes n z.
Proof.
  assert (forall m k, (m <= k)%nat -> be_bytes m (z mod 256 ^ Z.of_nat k) = be_bytes m z) as H.
  { induction m as [|m IH]; intros k Hk; simpl; [done|].
    f_equal; [by apply byte_digit_mod | apply IH; lia]. }
  apply H. lia.
Qed.

Lemma be_bytes_be_to_Z l : Forall is_byte l -> be_bytes (length l) (be_to_Z l) = l.
Proof.
  induction 1 as [|b l Hb Hl IH]; [done|].
  pose proof (be_to_Z_bound _ Hl) as Hbd. simpl. rewrite be_to_Z_cons. f_equal.
  - rewrite Z.div_add_l by lia. rewrite (Z.div_small (be_to_Z l)) by done.
    rewrite Z.add_0_r. by apply Z.mod_small.
  - rewrite <- be_bytes_mod, Z.add_comm, Z.mod_add by lia. by rewrite be_bytes_mod.
Qed.

Lemma be_bytes_inj n a b :
  0 <= a < 256 ^ Z.of_nat n -> 0 <= b < 256 ^ Z.of_nat n ->
  be_bytes n a = be_bytes n b -> a = b.
Proof.
  intros Ha Hb Heq. by rewrite <- (be_to_Z_be_bytes n a), Heq, be_to_Z_be_bytes.
Qed.
