(* ===== verification/Tx.v ===== *)
(** * Transactions ([crates/primitives/src/transaction.rs], [chain.rs], [fee.rs])

    The transaction types with the sources' constructors and fields, the
    accessors, and the conversions between the executable and the stored form.
    [C] is the type of contract classes, whose definition is a third-party
    artifact format.  [Felt], [Nonce], [ClassHash], [ContractAddress] are
    integers in the field's range; [u64] and [u128] are integers in theirs. *)

From Stdlib Require Import ZArith Lia String Ascii.
From stdpp Require Import base list numbers.
From S2P Require Import Prelude Felt.

(** A cairo short string: the big-endian integer of its ASCII bytes. *)
Definition ascii_bytes (s : string) : list Z :=
  List.map (fun a => Z.of_N (N_of_ascii a)) (list_ascii_of_string s).
Definition short_string (s : string) : Z := be_to_Z (ascii_bytes s).

(** ** Chain ids *)
Inductive NamedChainId := Mainnet | Goerli | Sepolia.

Definition named_chain_id (c : NamedChainId) : Z :=
  match c with
  | Mainnet => short_string "SN_MAIN"
  | Goerli => short_string "SN_GOERLI"
  | Sepolia => short_string "SN_SEPOLIA"
  end.

Definition named_chain_try_from (value : Z) : result Z NamedChainId :=
  if decide (value = named_chain_id Mainnet) then Ok Mainnet
  else if decide (value = named_chain_id Goerli) then Ok Goerli
  else if decide (value = named_chain_id Sepolia) then Ok Sepolia
  else Err value.

Inductive ChainId := Named (c : NamedChainId) | Id (id : Z).

Definition chain_id (c : ChainId) : Z :=
  match c with Named n => named_chain_id n | Id id => id end.

(** ** Resource bounds and data-availability modes *)
Record ResourceBounds := {
  max_amount : Z;          (* u64 *)
  max_price_per_unit : Z;  (* u128 *)
}.
Definition ResourceBounds_ZERO : ResourceBounds :=
  {| max_amount := 0; max_price_per_unit := 0 |}.

Record AllResourceBoundsMapping := {
  l1_gas : ResourceBounds;
  l2_gas : ResourceBounds;
  l1_data_gas : ResourceBounds;
}.

Inductive ResourceBoundsMapping :=
  | L1Gas (b : ResourceBounds)
  | AllBounds (b : AllResourceBoundsMapping).

Inductive DataAvailabilityMode := DaL1 | DaL2.

(** The discriminant, [mode as u64]. *)
Definition da_mode_as_u64 (m : DataAvailabilityMode) : Z :=
  match m with DaL1 => 0 | DaL2 => 1 end.

(** ** Invoke *)
Record InvokeTxV0 := {
  iv0_contract_address : Z;
  iv0_entry_point_selector : Z;
  iv0_calldata : list Z;
  iv0_signature : list Z;
  iv0_max_fee : Z;
}.

Record InvokeTxV1 := {
  iv1_chain_id : ChainId;
  iv1_sender_address : Z;
  iv1_nonce : Z;
  iv1_calldata : list Z;
  iv1_signature : list Z;
  iv1_max_fee : Z;
}.

Record InvokeTxV3 := {
  iv3_chain_id : ChainId;
  iv3_sender_address : Z;
  iv3_nonce : Z;
  iv3_calldata : list Z;
  iv3_signature : list Z;
  iv3_resource_bounds : ResourceBoundsMapping;
  iv3_tip : Z;
  iv3_paymaster_data : list Z;
  iv3_account_deployment_data : list Z;
  iv3_nonce_da_mode : DataAvailabilityMode;
  iv3_fee_da_mode : DataAvailabilityMode;
}.

Inductive InvokeTx :=
  | InvokeV0 (tx : InvokeTxV0)
  | InvokeV1 (tx : InvokeTxV1)
  | InvokeV3 (tx : InvokeTxV3).

(** ** Declare *)
Record DeclareTxV0 := {
  dv0_chain_id : ChainId;
  dv0_sender_address : Z;
  dv0_signature : list Z;
  dv0_class_hash : Z;
  dv0_max_fee : Z;
}.

Record DeclareTxV1 := {
  dv1_chain_id : ChainId;
  dv1_sender_address : Z;
  dv1_nonce : Z;
  dv1_signature : list Z;
  dv1_class_hash : Z;
  dv1_max_fee : Z;
}.

Record DeclareTxV2 := {
  dv2_chain_id : ChainId;
  dv2_sender_address : Z;
  dv2_nonce : Z;
  dv2_signature : list Z;
  dv2_class_hash : Z;
  dv2_compiled_class_hash : Z;
  dv2_max_fee : Z;
}.

Record DeclareTxV3 := {
  dv3_chain_id : ChainId;
  dv3_sender_address : Z;
  dv3_nonce : Z;
  dv3_signature : list Z;
  dv3_class_hash : Z;
  dv3_compiled_class_hash : Z;
  dv3_resource_bounds : ResourceBoundsMapping;
  dv3_tip : Z;
  dv3_paymaster_data : list Z;
  dv3_account_deployment_data : list Z;
  dv3_nonce_da_mode : DataAvailabilityMode;
  dv3_fee_da_mode : DataAvailabilityMode;
}.

Inductive DeclareTx :=
  | DeclareV0 (tx : DeclareTxV0)
  | DeclareV1 (tx : DeclareTxV1)
  | DeclareV2 (tx : DeclareTxV2)
  | DeclareV3 (tx : DeclareTxV3).

Definition declare_class_hash (tx : DeclareTx) : Z :=
  match tx with
  | DeclareV0 tx => dv0_class_hash tx
  | DeclareV1 tx => dv1_class_hash tx
  | DeclareV2 tx => dv2_class_hash tx
  | DeclareV3 tx => dv3_class_hash tx
  end.

(** ** L1 handler *)
Record L1HandlerTx := {
  l1h_nonce : Z;
  l1h_chain_id : ChainId;
  l1h_paid_fee_on_l1 : Z;
  l1h_version : Z;
  l1h_message_hash : Z;
  l1h_calldata : list Z;
  l1h_contract_address : Z;
  l1h_entry_point_selector : Z;
}.

(** ** Deploy account and legacy deploy *)
Record DeployAccountTxV1 := {
  da1_chain_id : ChainId;
  da1_nonce : Z;
  da1_signature : list Z;
  da1_class_hash : Z;
  da1_contract_address : Z;
  da1_contract_address_salt : Z;
  da1_constructor_calldata : list Z;
  da1_max_fee : Z;
}.

Record DeployAccountTxV3 := {
  da3_chain_id : ChainId;
  da3_nonce : Z;
  da3_signature : list Z;
  da3_class_hash : Z;
  da3_contract_address : Z;
  da3_contract_address_salt : Z;
  da3_constructor_calldata : list Z;
  da3_resource_bounds : ResourceBoundsMapping;
  da3_tip : Z;
  da3_paymaster_data : list Z;
  da3_nonce_da_mode : DataAvailabilityMode;
  da3_fee_da_mode : DataAvailabilityMode;
}.

Inductive DeployAccountTx :=
  | DeployAccountV1 (tx : DeployAccountTxV1)
  | DeployAccountV3 (tx : DeployAccountTxV3).

Definition deploy_account_contract_address (tx : DeployAccountTx) : Z :=
  match tx with
  | DeployAccountV1 tx => da1_contract_address tx
  | DeployAccountV3 tx => da3_contract_address tx
  end.

Record DeployTx := {
  dep_contract_address : Z;
  dep_contract_address_salt : Z;
  dep_constructor_calldata : list Z;
  dep_class_hash : Z;
  dep_version : Z;
}.

(** ** The stored transaction *)
Inductive TxType := TInvoke | TDeclare | TDeployAccount | TL1Handler | TDeploy.

Inductive Tx :=
  | TxInvoke (tx : InvokeTx)
  | TxDeclare (tx : DeclareTx)
  | TxL1Handler (tx : L1HandlerTx)
  | TxDeployAccount (tx : DeployAccountTx)
  | TxDeploy (tx : DeployTx).

Definition tx_version (tx : Tx) : Z :=
  match tx with
  | TxInvoke (InvokeV0 _) => 0
  | TxInvoke (InvokeV1 _) => 1
  | TxInvoke (InvokeV3 _) => 3
  | TxDeclare (DeclareV0 _) => 0
  | TxDeclare (DeclareV1 _) => 1
  | TxDeclare (DeclareV2 _) => 2
  | TxDeclare (DeclareV3 _) => 3
  | TxL1Handler tx => l1h_version tx
  | TxDeployAccount (DeployAccountV1 _) => 1
  | TxDeployAccount (DeployAccountV3 _) => 3
  | TxDeploy tx => dep_version tx
  end.

Definition tx_type (tx : Tx) : TxType :=
  match tx with
  | TxInvoke _ => TInvoke
  | TxDeploy _ => TDeploy
  | TxDeclare _ => TDeclare
  | TxL1Handler _ => TL1Handler
  | TxDeployAccount _ => TDeployAccount
  end.

Record TxWithHash := { twh_hash : Z; twh_transaction : Tx }.

(** ** Executable transactions *)
Section Executable.
Context {C : Type}.

Record DeclareTxWithClass := {
  dwc_class : C;
  dwc_transaction : DeclareTx;
}.

Inductive ExecutableTx :=
  | ExInvoke (tx : InvokeTx)
  | ExL1Handler (tx : L1HandlerTx)
  | ExDeclare (tx : DeclareTxWithClass)
  | ExDeployAccount (tx : DeployAccountTx).

Record ExecutableTxWithHash := {
  ewh_hash : Z;
  ewh_transaction : ExecutableTx;
}.

Definition executable_type (tx : ExecutableTx) : TxType :=
  match tx with
  | ExInvoke _ => TInvoke
  | ExDeclare _ => TDeclare
  | ExL1Handler _ => TL1Handler
  | ExDeployAccount _ => TDeployAccount
  end.

(** [ExecutableTx::tx_ref] followed by [Tx::from(TxRef)]. *)
Definition tx_of_executable (tx : ExecutableTx) : Tx :=
  match tx with
  | ExInvoke tx => TxInvoke tx
  | ExL1Handler tx => TxL1Handler tx
  | ExDeclare tx => TxDeclare (dwc_transaction tx)
  | ExDeployAccount tx => TxDeployAccount tx
  end.

Definition tx_with_hash_of_executable (tx : ExecutableTxWithHash) : TxWithHash :=
  {| twh_hash := ewh_hash tx; twh_transaction := tx_of_executable (ewh_transaction tx) |}.
End Executable.
Arguments DeclareTxWithClass : clear implicits.
Arguments ExecutableTx : clear implicits.
Arguments ExecutableTxWithHash : clear implicits.

(** ** Decidable equality *)
#[export] Instance NamedChainId_eq_dec : EqDecision NamedChainId.
Proof. solve_decision. Defined.
#[export] Instance ChainId_eq_dec : EqDecision ChainId.
Proof. solve_decision. Defined.
#[export] Instance ResourceBounds_eq_dec : EqDecision ResourceBounds.
Proof. solve_decision. Defined.
#[export] Instance AllResourceBoundsMapping_eq_dec : EqDecision AllResourceBoundsMapping.
Proof. solve_decision. Defined.
#[export] Instance ResourceBoundsMapping_eq_dec : EqDecision ResourceBoundsMapping.
Proof. solve_decision. Defined.
#[export] Instance DataAvailabilityMode_eq_dec : EqDecision DataAvailabilityMode.
Proof. solve_decision. Defined.
#[export] Instance TxType_eq_dec : EqDecision TxType.
Proof. solve_decision. Defined.

(** Storing an executable transaction keeps its hash and its type. *)
Lemma tx_of_executable_type {C} (tx : ExecutableTx C) :
  tx_type (tx_of_executable tx) = executable_type tx.
Proof. by destruct tx. Qed.

(** A named chain id is recovered from its value. *)
Lemma named_chain_roundtrip c : named_chain_try_from (named_chain_id c) = Ok c.
Proof. by destruct c; vm_compute. Qed.

Lemma named_chain_try_from_sound v c : named_chain_try_from v = Ok c -> named_chain_id c = v.
Proof. unfold named_chain_try_from. repeat case_decide; intros [= <-]; done. Qed.
