(* ===== verification/TxHash.v ===== *)
(** * Transaction hashes ([crates/primitives/src/utils/transaction.rs] and the
    [calculate_hash] methods of [transaction.rs])

    The two hash functions, Pedersen over a list ([compute_hash_on_elements])
    and Poseidon over a list ([poseidon_hash_many]), are parameters of the
    section: nothing is assumed of them.  Binding is stated as a reduction: two
    transactions with the same hash agree on every signed field, or an explicit
    collision of the hash functions has been found. *)

From Stdlib Require Import ZArith Lia String.
From stdpp Require Import base list numbers.
From S2P Require Import Prelude Felt Tx.

(** ** Constants *)
Definition QUERY_VERSION_OFFSET : Z :=
  felt_from_raw [576460752142434320; 18446744073709551584; 17407; 18446744073700081665].
Definition PREFIX_INVOKE : Z :=
  felt_from_raw [513398556346534256; 18446744073709551615;
                 18446744073709551615; 18443034532770911073].
Definition PREFIX_DECLARE : Z :=
  felt_from_raw [191557713328401194; 18446744073709551615;
                 18446744073709551615; 17542456862011667323].
Definition PREFIX_DEPLOY_ACCOUNT : Z :=
  felt_from_raw [461298303000467581; 18446744073709551615;
                 18443211694809419988; 3350261884043292318].
Definition PREFIX_L1_HANDLER : Z :=
  felt_from_raw [157895833347907735; 18446744073709551615;
                 18446744073708665300; 1365666230910873368].

(** ** Fee fields *)

(** A 32-byte buffer: the resource name right-aligned in 8 bytes, the maximum
    amount in 8 bytes, the maximum price in 16 bytes.  The two callers' names
    have at most 7 bytes, so the padding never underflows. *)
Definition encode_gas_bound (name : list Z) (bound : ResourceBounds) : Z :=
  felt_from_bytes_be
    (replicate (8 - length name) 0 ++ name
       ++ be_bytes 8 (max_amount bound)
       ++ be_bytes 16 (max_price_per_unit bound)).

Definition encode_da_mode (nonce_da_mode fee_da_mode : DataAvailabilityMode) : Z :=
  let nonce := Z.shiftl (da_mode_as_u64 nonce_da_mode) 32 in
  let fee := da_mode_as_u64 fee_da_mode in
  felt_of (nonce + fee).

Section Hash.
(** [compute_hash_on_elements] and [poseidon_hash_many]. *)
Variables (pedersen poseidon : list Z -> Z).

Definition hash_fee_fields (tip : Z) (l1_gas_bounds l2_gas_bounds : ResourceBounds)
    (l1_data_gas_bounds : option ResourceBounds) : Z :=
  match l1_data_gas_bounds with
  | Some data_gas_bounds =>
      poseidon [felt_of tip;
                encode_gas_bound (ascii_bytes "L1_GAS") l1_gas_bounds;
                encode_gas_bound (ascii_bytes "L2_GAS") l2_gas_bounds;
                encode_gas_bound (ascii_bytes "L1_DATA") data_gas_bounds]
  | None =>
      poseidon [felt_of tip;
                encode_gas_bound (ascii_bytes "L1_GAS") l1_gas_bounds;
                encode_gas_bound (ascii_bytes "L2_GAS") l2_gas_bounds]
  end.

(** [if is_query { QUERY_VERSION_OFFSET + v } else { v }]. *)
Definition query_version (is_query : bool) (v : Z) : Z :=
  if is_query then felt_add QUERY_VERSION_OFFSET v else v.

(** ** Hashes of each transaction kind *)
Definition compute_deploy_account_v1_tx_hash (sender_address : Z)
    (constructor_calldata : list Z) (class_hash contract_address_salt max_fee chain_id nonce : Z)
    (is_query : bool) : Z :=
  let calldata_to_hash := [class_hash; contract_address_salt] ++ constructor_calldata in
  pedersen [PREFIX_DEPLOY_ACCOUNT; query_version is_query 1; sender_address; 0;
            pedersen calldata_to_hash; felt_of max_fee; chain_id; nonce].

Definition compute_deploy_account_v3_tx_hash (contract_address : Z)
    (constructor_calldata : list Z) (class_hash contract_address_salt tip : Z)
    (l1_gas_bounds l2_gas_bounds : ResourceBounds) (l1_data_gas_bounds : option ResourceBounds)
    (paymaster_data : list Z) (chain_id nonce : Z)
    (nonce_da_mode fee_da_mode : DataAvailabilityMode) (is_query : bool) : Z :=
  poseidon [PREFIX_DEPLOY_ACCOUNT; query_version is_query 3; contract_address;
            hash_fee_fields tip l1_gas_bounds l2_gas_bounds l1_data_gas_bounds;
            poseidon paymaster_data; chain_id; nonce;
            encode_da_mode nonce_da_mode fee_da_mode;
            poseidon constructor_calldata; class_hash; contract_address_salt].

Definition compute_declare_v0_tx_hash (sender_address class_hash max_fee chain_id : Z)
    (is_query : bool) : Z :=
  pedersen [PREFIX_DECLARE; query_version is_query 0; sender_address; 0;
            pedersen []; felt_of max_fee; chain_id; class_hash].

Definition compute_declare_v1_tx_hash (sender_address class_hash max_fee chain_id nonce : Z)
    (is_query : bool) : Z :=
  pedersen [PREFIX_DECLARE; query_version is_query 1; sender_address; 0;
            pedersen [class_hash]; felt_of max_fee; chain_id; nonce].

Definition compute_declare_v2_tx_hash
    (sender_address class_hash max_fee chain_id nonce compiled_class_hash : Z)
    (is_query : bool) : Z :=
  pedersen [PREFIX_DECLARE; query_version is_query 2; sender_address; 0;
            pedersen [class_hash]; felt_of max_fee; chain_id; nonce; compiled_class_hash].

Definition compute_declare_v3_tx_hash (sender_address class_hash compiled_class_hash tip : Z)
    (l1_gas_bounds l2_gas_bounds : ResourceBounds) (l1_data_gas_bounds : option ResourceBounds)
    (paymaster_data : list Z) (chain_id nonce : Z)
    (nonce_da_mode fee_da_mode : DataAvailabilityMode)
    (account_deployment_data : list Z) (is_query : bool) : Z :=
  poseidon [PREFIX_DECLARE; query_version is_query 3; sender_address;
            hash_fee_fields tip l1_gas_bounds l2_gas_bounds l1_data_gas_bounds;
            poseidon paymaster_data; chain_id; nonce;
            encode_da_mode nonce_da_mode fee_da_mode;
            poseidon account_deployment_data; class_hash; compiled_class_hash].

Definition compute_invoke_v1_tx_hash (sender_address : Z) (calldata : list Z)
    (max_fee chain_id nonce : Z) (is_query : bool) : Z :=
  pedersen [PREFIX_INVOKE; query_version is_query 1; sender_address; 0;
            pedersen calldata; felt_of max_fee; chain_id; nonce].

Definition compute_invoke_v3_tx_hash (sender_address : Z) (calldata : list Z) (tip : Z)
    (l1_gas_bounds l2_gas_bounds : ResourceBounds) (l1_data_gas_bounds : option ResourceBounds)
    (paymaster_data : list Z) (chain_id nonce : Z)
    (nonce_da_mode fee_da_mode : DataAvailabilityMode)
    (account_deployment_data : list Z) (is_query : bool) : Z :=
  poseidon [PREFIX_INVOKE; query_version is_query 3; sender_address;
            hash_fee_fields tip l1_gas_bounds l2_gas_bounds l1_data_gas_bounds;
            poseidon paymaster_data; chain_id; nonce;
            encode_da_mode nonce_da_mode fee_da_mode;
            poseidon account_deployment_data; poseidon calldata].

Definition compute_l1_handler_tx_hash (version contract_address entry_point_selector : Z)
    (calldata : list Z) (chain_id nonce : Z) : Z :=
  pedersen [PREFIX_L1_HANDLER; version; contract_address; entry_point_selector;
            pedersen calldata; 0; chain_id; nonce].

(** ** [calculate_hash]; [None] is the [todo!()] of an invoke v0. *)
Definition invoke_calculate_hash (tx : InvokeTx) (is_query : bool) : option Z :=
  match tx with
  | InvokeV0 _ => None
  | InvokeV1 tx =>
      Some (compute_invoke_v1_tx_hash (iv1_sender_address tx) (iv1_calldata tx)
              (iv1_max_fee tx) (chain_id (iv1_chain_id tx)) (iv1_nonce tx) is_query)
  | InvokeV3 tx =>
      match iv3_resource_bounds tx with
      | AllBounds bounds =>
          Some (compute_invoke_v3_tx_hash (iv3_sender_address tx) (iv3_calldata tx)
                  (iv3_tip tx) (l1_gas bounds) (l2_gas bounds) (Some (l1_data_gas bounds))
                  (iv3_paymaster_data tx) (chain_id (iv3_chain_id tx)) (iv3_nonce tx)
                  (iv3_nonce_da_mode tx) (iv3_fee_da_mode tx)
                  (iv3_account_deployment_data tx) is_query)
      | L1Gas bounds =>
          Some (compute_invoke_v3_tx_hash (iv3_sender_address tx) (iv3_calldata tx)
                  (iv3_tip tx) bounds ResourceBounds_ZERO None
                  (iv3_paymaster_data tx) (chain_id (iv3_chain_id tx)) (iv3_nonce tx)
                  (iv3_nonce_da_mode tx) (iv3_fee_da_mode tx)
                  (iv3_account_deployment_data tx) is_query)
      end
  end.

Definition declare_calculate_hash (tx : DeclareTx) (is_query : bool) : Z :=
  match tx with
  | DeclareV0 tx =>
      compute_declare_v0_tx_hash (dv0_sender_address tx) (dv0_class_hash tx)
        (dv0_max_fee tx) (chain_id (dv0_chain_id tx)) is_query
  | DeclareV1 tx =>
      compute_declare_v1_tx_hash (dv1_sender_address tx) (dv1_class_hash tx)
        (dv1_max_fee tx) (chain_id (dv1_chain_id tx)) (dv1_nonce tx) is_query
  | DeclareV2 tx =>
      compute_declare_v2_tx_hash (dv2_sender_address tx) (dv2_class_hash tx)
        (dv2_max_fee tx) (chain_id (dv2_chain_id tx)) (dv2_nonce tx)
        (dv2_compiled_class_hash tx) is_query
  | DeclareV3 tx =>
      match dv3_resource_bounds tx with
      | AllBounds bounds =>
          compute_declare_v3_tx_hash (dv3_sender_address tx) (dv3_class_hash tx)
            (dv3_compiled_class_hash tx) (dv3_tip tx) (l1_gas bounds) (l2_gas bounds)
            (Some (l1_data_gas bounds)) (dv3_paymaster_data tx)
            (chain_id (dv3_chain_id tx)) (dv3_nonce tx) (dv3_nonce_da_mode tx)
            (dv3_fee_da_mode tx) (dv3_account_deployment_data tx) is_query
      | L1Gas bounds =>
          compute_declare_v3_tx_hash (dv3_sender_address tx) (dv3_class_hash tx)
            (dv3_compiled_class_hash tx) (dv3_tip tx) bounds ResourceBounds_ZERO None
            (dv3_paymaster_data tx) (chain_id (dv3_chain_id tx)) (dv3_nonce tx)
            (dv3_nonce_da_mode tx) (dv3_fee_da_mode tx)
            (dv3_account_deployment_data tx) is_query
      end
  end.

Definition l1_handler_calculate_hash (tx : L1HandlerTx) : Z :=
  compute_l1_handler_tx_hash (l1h_version tx) (l1h_contract_address tx)
    (l1h_entry_point_selector tx) (l1h_calldata tx) (chain_id (l1h_chain_id tx))
    (l1h_nonce tx).

Definition deploy_account_calculate_hash (tx : DeployAccountTx) (is_query : bool) : Z :=
  match tx with
  | DeployAccountV1 tx =>
      compute_deploy_account_v1_tx_hash (da1_contract_address tx)
        (da1_constructor_calldata tx) (da1_class_hash tx) (da1_contract_address_salt tx)
        (da1_max_fee tx) (chain_id (da1_chain_id tx)) (da1_nonce tx) is_query
  | DeployAccountV3 tx =>
      match da3_resource_bounds tx with
      | AllBounds bounds =>
          compute_deploy_account_v3_tx_hash (da3_contract_address tx)
            (da3_constructor_calldata tx) (da3_class_hash tx)
            (da3_contract_address_salt tx) (da3_tip tx) (l1_gas bounds) (l2_gas bounds)
            (Some (l1_data_gas bounds)) (da3_paymaster_data tx)
            (chain_id (da3_chain_id tx)) (da3_nonce tx) (da3_nonce_da_mode tx)
            (da3_fee_da_mode tx) is_query
      | L1Gas bounds =>
          compute_deploy_account_v3_tx_hash (da3_contract_address tx)
            (da3_constructor_calldata tx) (da3_class_hash tx)
            (da3_contract_address_salt tx) (da3_tip tx) bounds ResourceBounds_ZERO None
            (da3_paymaster_data tx) (chain_id (da3_chain_id tx)) (da3_nonce tx)
            (da3_nonce_da_mode tx) (da3_fee_da_mode tx) is_query
      end
  end.

Definition executable_calculate_hash {C} (tx : ExecutableTx C) (is_query : bool) : option Z :=
  match tx with
  | ExL1Handler tx => Some (l1_handler_calculate_hash tx)
  | ExInvoke tx => invoke_calculate_hash tx is_query
  | ExDeclare tx => Some (declare_calculate_hash (dwc_transaction tx) is_query)
  | ExDeployAccount tx => Some (deploy_account_calculate_hash tx is_query)
  end.

(** [ExecutableTxWithHash::new_query]; [new] is the case [is_query = false]. *)
Definition executable_new_query {C} (tx : ExecutableTx C) (is_query : bool)
    : option (ExecutableTxWithHash C) :=
  match executable_calculate_hash tx is_query with
  | Some hash => Some {| ewh_hash := hash; ewh_transaction := tx |}
  | None => None
  end.

Definition executable_new {C} (tx : ExecutableTx C) : option (ExecutableTxWithHash C) :=
  executable_new_query tx false.
End Hash.

(** ** The constants are the short strings their comments name. *)
Lemma prefix_constants :
  QUERY_VERSION_OFFSET = 2 ^ 128 /\ PREFIX_INVOKE = short_string "invoke" /\
  PREFIX_DECLARE = short_string "declare" /\
  PREFIX_DEPLOY_ACCOUNT = short_string "deploy_account" /\
  PREFIX_L1_HANDLER = short_string "l1_handler".
Proof. by vm_compute. Qed.

(** ** Fee-field encodings are injective *)
Definition wf_bounds (b : ResourceBounds) : Prop :=
  is_u64 (max_amount b) /\ is_u128 (max_price_per_unit b).
#[export] Instance wf_bounds_dec b : Decision (wf_bounds b).
Proof. unfold wf_bounds. apply _. Defined.

Lemma be_to_Z_zeros n l : be_to_Z (replicate n 0 ++ l) = be_to_Z l.
Proof. induction n as [|n IH]; [done|]. simpl. rewrite be_to_Z_cons, IH. lia. Qed.

Lemma felt_from_bytes_small l :
  Forall is_byte l -> (length l <= 31)%nat -> felt_from_bytes_be l = be_to_Z l.
Proof.
  intros Hl Hlen. unfold felt_from_bytes_be. apply felt_of_small.
  pose proof (be_to_Z_bound _ Hl) as Hb. unfold is_felt.
  assert (256 ^ Z.of_nat (length l) <= 256 ^ 31) by (apply Z.pow_le_mono_r; lia).
  assert (256 ^ 31 < P) by done. lia.
Qed.

(** The encoded bound as an integer: name, amount and price occupy disjoint bits. *)
Lemma encode_gas_bound_value name b :
  Forall is_byte name -> (length name <= 7)%nat -> wf_bounds b ->
  encode_gas_bound name b
  = be_to_Z name * 2 ^ 192 + max_amount b * 2 ^ 128 + max_price_per_unit b.
Proof.
  intros Hn Hlen [Ha Hp]. unfold encode_gas_bound, felt_from_bytes_be.
  rewrite be_to_Z_zeros. fold (felt_from_bytes_be (name ++ be_bytes 8 (max_amount b)
    ++ be_bytes 16 (max_price_per_unit b))).
  rewrite felt_from_bytes_small.
  - rewrite !be_to_Z_app, !length_app, !be_bytes_length.
    unfold is_u64, u64_bound, is_u128, u128_bound in *.
    rewrite (be_to_Z_be_bytes 8), (be_to_Z_be_bytes 16) by (simpl; lia).
    simpl (Z.of_nat _). lia.
  - rewrite !Forall_app. auto using be_bytes_byte.
  - rewrite !length_app, !be_bytes_length. lia.
Qed.

Lemma encode_gas_bound_inj name b1 b2 :
  Forall is_byte name -> (length name <= 7)%nat -> wf_bounds b1 -> wf_bounds b2 ->
  encode_gas_bound name b1 = encode_gas_bound name b2 -> b1 = b2.
Proof.
  intros Hn Hlen H1 H2. rewrite !encode_gas_bound_value by done.
  destruct b1 as [a1 p1], b2 as [a2 p2], H1, H2; simpl in *.
  unfold is_u64, u64_bound, is_u128, u128_bound in *. intros Heq. f_equal; lia.
Qed.

Lemma ascii_gas_names :
  Forall (fun s => Forall is_byte (ascii_bytes s) /\ (length (ascii_bytes s) <= 7)%nat)
    ["L1_GAS"%string; "L2_GAS"%string; "L1_DATA"%string].
Proof.
  repeat constructor; simpl; unfold is_byte; lia.
Qed.

Lemma encode_gas_bound_named s b1 b2 :
  In s ["L1_GAS"%string; "L2_GAS"%string; "L1_DATA"%string] ->
  wf_bounds b1 -> wf_bounds b2 ->
  encode_gas_bound (ascii_bytes s) b1 = encode_gas_bound (ascii_bytes s) b2 -> b1 = b2.
Proof.
  intros Hs H1 H2. pose proof ascii_gas_names as Hn. rewrite Forall_forall in Hn.
  destruct (Hn s Hs). by apply encode_gas_bound_inj.
Qed.

Lemma encode_da_mode_inj n1 f1 n2 f2 :
  encode_da_mode n1 f1 = encode_da_mode n2 f2 -> n1 = n2 /\ f1 = f2.
Proof. destruct n1, f1, n2, f2; vm_compute; done. Qed.

Lemma query_version_inj q1 q2 v1 v2 :
  0 <= v1 <= 3 -> 0 <= v2 <= 3 ->
  query_version q1 v1 = query_version q2 v2 -> q1 = q2 /\ v1 = v2.
Proof.
  intros H1 H2. unfold query_version. rewrite (proj1 prefix_constants).
  assert (2 ^ 128 + 3 < P) by done.
  destruct q1, q2; rewrite ?felt_add_small by lia; intros; split; try done; lia.
Qed.

Lemma felt_of_u128_inj a b : is_u128 a -> is_u128 b -> felt_of a = felt_of b -> a = b.
Proof.
  unfold is_u128, u128_bound. intros Ha Hb. assert (2 ^ 128 < P) by done.
  rewrite !felt_of_small by (unfold is_felt; lia). done.
Qed.
Lemma felt_of_u64_inj a b : is_u64 a -> is_u64 b -> felt_of a = felt_of b -> a = b.
Proof.
  unfold is_u64, u64_bound. intros Ha Hb. assert (2 ^ 64 < 2 ^ 128) by done.
  apply felt_of_u128_inj; unfold is_u128, u128_bound; lia.
Qed.

(** ** What a transaction hash commits to *)

(** The integer fields are in their machine ranges. *)
Definition wf_mapping (m : ResourceBoundsMapping) : Prop :=
  match m with
  | L1Gas b => wf_bounds b
  | AllBounds b => wf_bounds (l1_gas b) /\ wf_bounds (l2_gas b) /\ wf_bounds (l1_data_gas b)
  end.

Definition wf_executable {C} (tx : ExecutableTx C) : Prop :=
  match tx with
  | ExInvoke (InvokeV0 tx) => is_u128 (iv0_max_fee tx)
  | ExInvoke (InvokeV1 tx) => is_u128 (iv1_max_fee tx)
  | ExInvoke (InvokeV3 tx) => is_u64 (iv3_tip tx) /\ wf_mapping (iv3_resource_bounds tx)
  | ExL1Handler tx => is_u128 (l1h_paid_fee_on_l1 tx)
  | ExDeclare tx =>
      match dwc_transaction tx with
      | DeclareV0 tx => is_u128 (dv0_max_fee tx)
      | DeclareV1 tx => is_u128 (dv1_max_fee tx)
      | DeclareV2 tx => is_u128 (dv2_max_fee tx)
      | DeclareV3 tx => is_u64 (dv3_tip tx) /\ wf_mapping (dv3_resource_bounds tx)
      end
  | ExDeployAccount (DeployAccountV1 tx) => is_u128 (da1_max_fee tx)
  | ExDeployAccount (DeployAccountV3 tx) =>
      is_u64 (da3_tip tx) /\ wf_mapping (da3_resource_bounds tx)
  end.

(** The fields of a v3 transaction that its hash covers, whatever its kind. *)
Record V3Content := {
  v3_sender : Z; v3_tip : Z; v3_bounds : ResourceBoundsMapping; v3_paymaster : list Z;
  v3_chain : Z; v3_nonce : Z; v3_nonce_da : DataAvailabilityMode;
  v3_fee_da : DataAvailabilityMode;
}.

(** Everything in a transaction but its signature, its class artifact and the
    L1-side data of an L1 handler; a chain id counts by its value. *)
Inductive SignedContent :=
  | SInvokeV1 (q : bool) (sender : Z) (calldata : list Z) (max_fee chain nonce : Z)
  | SInvokeV3 (q : bool) (c : V3Content) (account_deployment_data calldata : list Z)
  | SDeclareV0 (q : bool) (sender max_fee chain class_hash : Z)
  | SDeclareV1 (q : bool) (sender class_hash max_fee chain nonce : Z)
  | SDeclareV2 (q : bool) (sender class_hash max_fee chain nonce compiled_class_hash : Z)
  | SDeclareV3 (q : bool) (c : V3Content) (account_deployment_data : list Z)
      (class_hash compiled_class_hash : Z)
  | SL1Handler (version contract selector : Z) (calldata : list Z) (chain nonce : Z)
  | SDeployAccountV1 (q : bool) (sender class_hash salt : Z) (calldata : list Z)
      (max_fee chain nonce : Z)
  | SDeployAccountV3 (q : bool) (c : V3Content) (calldata : list Z) (class_hash salt : Z).

Definition signed_content {C} (tx : ExecutableTx C) (q : bool) : option SignedContent :=
  match tx with
  | ExInvoke (InvokeV0 _) => None
  | ExInvoke (InvokeV1 tx) =>
      Some (SInvokeV1 q (iv1_sender_address tx) (iv1_calldata tx) (iv1_max_fee tx)
              (chain_id (iv1_chain_id tx)) (iv1_nonce tx))
  | ExInvoke (InvokeV3 tx) =>
      Some (SInvokeV3 q
              {| v3_sender := iv3_sender_address tx; v3_tip := iv3_tip tx;
                 v3_bounds := iv3_resource_bounds tx; v3_paymaster := iv3_paymaster_data tx;
                 v3_chain := chain_id (iv3_chain_id tx); v3_nonce := iv3_nonce tx;
                 v3_nonce_da := iv3_nonce_da_mode tx; v3_fee_da := iv3_fee_da_mode tx |}
              (iv3_account_deployment_data tx) (iv3_calldata tx))
  | ExL1Handler tx =>
      Some (SL1Handler (l1h_version tx) (l1h_contract_address tx)
              (l1h_entry_point_selector tx) (l1h_calldata tx)
              (chain_id (l1h_chain_id tx)) (l1h_nonce tx))
  | ExDeclare tx =>
      match dwc_transaction tx with
      | DeclareV0 tx =>
          Some (SDeclareV0 q (dv0_sender_address tx) (dv0_max_fee tx)
                  (chain_id (dv0_chain_id tx)) (dv0_class_hash tx))
      | DeclareV1 tx =>
          Some (SDeclareV1 q (dv1_sender_address tx) (dv1_class_hash tx) (dv1_max_fee tx)
                  (chain_id (dv1_chain_id tx)) (dv1_nonce tx))
      | DeclareV2 tx =>
          Some (SDeclareV2 q (dv2_sender_address tx) (dv2_class_hash tx) (dv2_max_fee tx)
                  (chain_id (dv2_chain_id tx)) (dv2_nonce tx) (dv2_compiled_class_hash tx))
      | DeclareV3 tx =>
          Some (SDeclareV3 q
                  {| v3_sender := dv3_sender_address tx; v3_tip := dv3_tip tx;
                     v3_bounds := dv3_resource_bounds tx;
                     v3_paymaster := dv3_paymaster_data tx;
                     v3_chain := chain_id (dv3_chain_id tx); v3_nonce := dv3_nonce tx;
                     v3_nonce_da := dv3_nonce_da_mode tx; v3_fee_da := dv3_fee_da_mode tx |}
                  (dv3_account_deployment_data tx) (dv3_class_hash tx)
                  (dv3_compiled_class_hash tx))
      end
  | ExDeployAccount (DeployAccountV1 tx) =>
      Some (SDeployAccountV1 q (da1_contract_address tx) (da1_class_hash tx)
              (da1_contract_address_salt tx) (da1_constructor_calldata tx)
              (da1_max_fee tx) (chain_id (da1_chain_id tx)) (da1_nonce tx))
  | ExDeployAccount (DeployAccountV3 tx) =>
      Some (SDeployAccountV3 q
              {| v3_sender := da3_contract_address tx; v3_tip := da3_tip tx;
                 v3_bounds := da3_resource_bounds tx; v3_paymaster := da3_paymaster_data tx;
                 v3_chain := chain_id (da3_chain_id tx); v3_nonce := da3_nonce tx;
                 v3_nonce_da := da3_nonce_da_mode tx; v3_fee_da := da3_fee_da_mode tx |}
              (da3_constructor_calldata tx) (da3_class_hash tx)
              (da3_contract_address_salt tx))
  end.

Definition wf_v3 (c : V3Content) : Prop := is_u64 (v3_tip c) /\ wf_mapping (v3_bounds c).

Definition wf_content (c : SignedContent) : Prop :=
  match c with
  | SInvokeV1 _ _ _ fee _ _ | SDeclareV0 _ _ fee _ _ | SDeclareV1 _ _ _ fee _ _
  | SDeclareV2 _ _ _ fee _ _ _ | SDeployAccountV1 _ _ _ _ _ fee _ _ => is_u128 fee
  | SInvokeV3 _ c _ _ | SDeclareV3 _ c _ _ _ | SDeployAccountV3 _ c _ _ _ => wf_v3 c
  | SL1Handler _ _ _ _ _ _ => True
  end.

(** The prefixes of the four transaction kinds are pairwise different. *)
Lemma prefixes_distinct :
  PREFIX_INVOKE <> PREFIX_DECLARE /\ PREFIX_INVOKE <> PREFIX_DEPLOY_ACCOUNT /\
  PREFIX_INVOKE <> PREFIX_L1_HANDLER /\ PREFIX_DECLARE <> PREFIX_DEPLOY_ACCOUNT /\
  PREFIX_DECLARE <> PREFIX_L1_HANDLER /\ PREFIX_DEPLOY_ACCOUNT <> PREFIX_L1_HANDLER.
Proof. vm_compute. repeat split; discriminate. Qed.

#[local] Opaque PREFIX_INVOKE PREFIX_DECLARE PREFIX_DEPLOY_ACCOUNT PREFIX_L1_HANDLER.
#[local] Opaque query_version felt_of encode_da_mode encode_gas_bound.

Section Binding.
Variables (pedersen poseidon : list Z -> Z).

(** Two different inputs with the same hash, or one value reached by both functions. *)
Definition HashCollision : Prop :=
  (exists l1 l2, l1 <> l2 /\ pedersen l1 = pedersen l2) \/
  (exists l1 l2, l1 <> l2 /\ poseidon l1 = poseidon l2) \/
  (exists l1 l2, pedersen l1 = poseidon l2).

(** The outermost hash of a transaction hash and the list it is applied to. *)
Inductive Preimage := Ped (l : list Z) | Pos (l : list Z).
Definition eval_preimage (p : Preimage) : Z :=
  match p with Ped l => pedersen l | Pos l => poseidon l end.

Definition mapping_fee (tip : Z) (m : ResourceBoundsMapping) : Z :=
  match m with
  | AllBounds b => hash_fee_fields poseidon tip (l1_gas b) (l2_gas b) (Some (l1_data_gas b))
  | L1Gas b => hash_fee_fields poseidon tip b ResourceBounds_ZERO None
  end.

Definition v3_prefix (prefix : Z) (q : bool) (c : V3Content) (rest : list Z) : list Z :=
  prefix :: query_version q 3 :: v3_sender c :: mapping_fee (v3_tip c) (v3_bounds c)
    :: poseidon (v3_paymaster c) :: v3_chain c :: v3_nonce c
    :: encode_da_mode (v3_nonce_da c) (v3_fee_da c) :: rest.

Definition content_preimage (c : SignedContent) : Preimage :=
  match c with
  | SInvokeV1 q sender calldata fee chain nonce =>
      Ped [PREFIX_INVOKE; query_version q 1; sender; 0; pedersen calldata;
           felt_of fee; chain; nonce]
  | SInvokeV3 q c add calldata =>
      Pos (v3_prefix PREFIX_INVOKE q c [poseidon add; poseidon calldata])
  | SDeclareV0 q sender fee chain class_hash =>
      Ped [PREFIX_DECLARE; query_version q 0; sender; 0; pedersen [];
           felt_of fee; chain; class_hash]
  | SDeclareV1 q sender class_hash fee chain nonce =>
      Ped [PREFIX_DECLARE; query_version q 1; sender; 0; pedersen [class_hash];
           felt_of fee; chain; nonce]
  | SDeclareV2 q sender class_hash fee chain nonce compiled =>
      Ped [PREFIX_DECLARE; query_version q 2; sender; 0; pedersen [class_hash];
           felt_of fee; chain; nonce; compiled]
  | SDeclareV3 q c add class_hash compiled =>
      Pos (v3_prefix PREFIX_DECLARE q c [poseidon add; class_hash; compiled])
  | SL1Handler version contract selector calldata chain nonce =>
      Ped [PREFIX_L1_HANDLER; version; contract; selector; pedersen calldata; 0; chain; nonce]
  | SDeployAccountV1 q sender class_hash salt calldata fee chain nonce =>
      Ped [PREFIX_DEPLOY_ACCOUNT; query_version q 1; sender; 0;
           pedersen ([class_hash; salt] ++ calldata); felt_of fee; chain; nonce]
  | SDeployAccountV3 q c calldata class_hash salt =>
      Pos (v3_prefix PREFIX_DEPLOY_ACCOUNT q c [poseidon calldata; class_hash; salt])
  end.

(** The hash of a transaction is a function of its signed content only. *)
Lemma calculate_hash_content {C} (tx : ExecutableTx C) q :
  executable_calculate_hash pedersen poseidon tx q
  = (fun c => eval_preimage (content_preimage c)) <$> signed_content tx q.
Proof.
  destruct tx as [[]|[]|[? []]|[]]; simpl; try done;
    match goal with tx : _ |- _ => destruct tx as []; simpl; by destruct_match_goal end.
Qed.

Lemma wf_signed_content {C} (tx : ExecutableTx C) q c :
  wf_executable tx -> signed_content tx q = Some c -> wf_content c.
Proof. destruct tx as [[]|[]|[? []]|[]]; simpl; intros Hwf [= <-]; done. Qed.

Lemma pedersen_eq l1 l2 : pedersen l1 = pedersen l2 -> l1 = l2 \/ HashCollision.
Proof. intros H. destruct (decide (l1 = l2)); [by left|]. right. left. eauto. Qed.
Lemma poseidon_eq l1 l2 : poseidon l1 = poseidon l2 -> l1 = l2 \/ HashCollision.
Proof. intros H. destruct (decide (l1 = l2)); [by left|]. right. right. left. eauto. Qed.

Lemma eval_preimage_eq p1 p2 :
  eval_preimage p1 = eval_preimage p2 -> p1 = p2 \/ HashCollision.
Proof.
  destruct p1, p2; simpl; intros H.
  - destruct (pedersen_eq _ _ H) as [->|]; auto.
  - right. right. right. eauto.
  - right. right. right. eauto.
  - destruct (poseidon_eq _ _ H) as [->|]; auto.
Qed.

(** Use the injectivity-or-collision lemmas on every hash equation in sight. *)
Ltac peel :=
  repeat match goal with
  | H : pedersen _ = pedersen _ |- _ =>
      destruct (pedersen_eq _ _ H) as [?|]; [clear H; simplify_eq|by right]
  | H : poseidon _ = poseidon _ |- _ =>
      destruct (poseidon_eq _ _ H) as [?|]; [clear H; simplify_eq|by right]
  end.

Lemma mapping_fee_eq t1 m1 t2 m2 :
  is_u64 t1 -> is_u64 t2 -> wf_mapping m1 -> wf_mapping m2 ->
  mapping_fee t1 m1 = mapping_fee t2 m2 -> (t1 = t2 /\ m1 = m2) \/ HashCollision.
Proof.
  intros Ht1 Ht2 H1 H2. unfold mapping_fee, hash_fee_fields.
  destruct m1 as [b1|b1], m2 as [b2|b2]; simpl in H1, H2; intros H;
    (destruct (poseidon_eq _ _ H) as [Heq|]; [clear H|right; assumption]).
  - peel_cons Heq. left. split; [by apply felt_of_u64_inj|]. f_equal.
    eapply (encode_gas_bound_named "L1_GAS"); [simpl; auto|done|done|done].
  - by peel_cons Heq.
  - by peel_cons Heq.
  - peel_cons Heq. left. split; [by apply felt_of_u64_inj|]. f_equal.
    destruct H1 as (?&?&?), H2 as (?&?&?), b1, b2; simpl in *. f_equal.
    + eapply (encode_gas_bound_named "L1_GAS"); [simpl; auto|done|done|done].
    + eapply (encode_gas_bound_named "L2_GAS"); [simpl; auto|done|done|done].
    + eapply (encode_gas_bound_named "L1_DATA"); [simpl; auto|done|done|done].
Qed.

Lemma v3_prefix_eq p1 q1 c1 r1 p2 q2 c2 r2 :
  wf_v3 c1 -> wf_v3 c2 -> v3_prefix p1 q1 c1 r1 = v3_prefix p2 q2 c2 r2 ->
  (p1 = p2 /\ q1 = q2 /\ c1 = c2 /\ r1 = r2) \/ HashCollision.
Proof.
  intros [Ht1 Hm1] [Ht2 Hm2] H. destruct c1, c2; unfold v3_prefix in H; simpl in *.
  injection H as Hp Hq Hs Hf Hpm Hc Hn Hda Hr.
  apply query_version_inj in Hq as [-> _]; [|lia|lia].
  apply encode_da_mode_inj in Hda as [-> ->].
  apply mapping_fee_eq in Hf as [[-> ->]|]; [|by right|done..].
  peel. left. done.
Qed.

Lemma Pos_inj l1 l2 : Pos l1 = Pos l2 -> l1 = l2.
Proof. by intros [= ->]. Qed.

Lemma content_preimage_eq c1 c2 :
  wf_content c1 -> wf_content c2 ->
  content_preimage c1 = content_preimage c2 -> c1 = c2 \/ HashCollision.
Proof.
  intros H1 H2. pose proof prefixes_distinct as HD. revert HD. unfold content_preimage.
  generalize PREFIX_INVOKE PREFIX_DECLARE PREFIX_DEPLOY_ACCOUNT PREFIX_L1_HANDLER.
  intros p1 p2 p3 p4 HD H. destruct HD as (?&?&?&?&?&?).
  destruct c1, c2; simpl in H1, H2; try discriminate H;
    first [ apply Pos_inj, v3_prefix_eq in H as [(?&->&->&?)|]; [|by right|done|done]
          | injection H as H ];
    simplify_eq;
    try match goal with
      Hq : query_version _ _ = query_version _ _ |- _ =>
        apply query_version_inj in Hq as [-> ?]; [|lia|lia]; try lia end;
    try match goal with
      Hf : felt_of _ = felt_of _ |- _ => apply felt_of_u128_inj in Hf; [|done|done]; subst end;
    peel; by left.
Qed.

(** C1. Transaction hashes are binding: two executable transactions (with
    integer fields in their machine ranges) that hash to the same value agree
    on kind, version, query flag and every signed field, unless the equality
    exhibits a collision of the underlying hash functions. *)
Theorem tx_hash_binding {C} (tx1 tx2 : ExecutableTx C) q1 q2 h :
  wf_executable tx1 -> wf_executable tx2 ->
  executable_calculate_hash pedersen poseidon tx1 q1 = Some h ->
  executable_calculate_hash pedersen poseidon tx2 q2 = Some h ->
  signed_content tx1 q1 = signed_content tx2 q2 \/ HashCollision.
Proof.
  intros W1 W2. rewrite !calculate_hash_content.
  destruct (signed_content tx1 q1) as [c1|] eqn:E1; [|done].
  destruct (signed_content tx2 q2) as [c2|] eqn:E2; [|done].
  simpl. intros [= <-] [= H].
  apply (wf_signed_content _ _ _ W1) in E1. apply (wf_signed_content _ _ _ W2) in E2.
  destruct (eval_preimage_eq _ _ H) as [Hp|]; [|by right].
  apply content_preimage_eq in Hp as [->|]; auto.
Qed.
End Binding.

(** A toy hash and two invoke transactions that differ in their signature only. *)
Definition toy_hash (l : list Z) : Z := fold_left (fun acc x => felt_of (acc * 31 + x + 7)) l 1.
Definition toy_invoke (signature : list Z) : ExecutableTx unit :=
  ExInvoke (InvokeV3 {|
    iv3_chain_id := Named Sepolia; iv3_sender_address := 16; iv3_nonce := 3;
    iv3_calldata := [1; 2; 3]; iv3_signature := signature;
    iv3_resource_bounds := AllBounds {|
      l1_gas := {| max_amount := 10; max_price_per_unit := 20 |};
      l2_gas := {| max_amount := 30; max_price_per_unit := 40 |};
      l1_data_gas := {| max_amount := 50; max_price_per_unit := 60 |} |};
    iv3_tip := 5; iv3_paymaster_data := []; iv3_account_deployment_data := [];
    iv3_nonce_da_mode := DaL1; iv3_fee_da_mode := DaL2 |}).

Lemma tx_hash_binding_witness :
  signed_content (toy_invoke [1]) false = signed_content (toy_invoke [2]) false
  \/ HashCollision toy_hash toy_hash.
Proof.
  apply (tx_hash_binding toy_hash toy_hash (toy_invoke [1]) (toy_invoke [2]) false false
           (default 0 (executable_calculate_hash toy_hash toy_hash (toy_invoke [1]) false))).
  - repeat split; vm_compute; discriminate.
  - repeat split; vm_compute; discriminate.
  - vm_compute. reflexivity.
  - vm_compute. reflexivity.
Defined.
