(* ===== verification/Version.v ===== *)
(** * Protocol versions ([crates/primitives/src/version.rs])

    A version is four [u8] segments; strings are lists of ASCII codes.  The
    database stores a version by its printed form, so printing and parsing must
    be inverse. *)

From Stdlib Require Import ZArith Lia.
From stdpp Require Import base list numbers.
From S2P Require Import Prelude Text Felt.

(** ** Integers in decimal ([Display for u8], [str::parse::<u8>]) *)
Definition c_dot : Z := 46.

Definition digit (d : Z) : Z := c_zero + d.

Definition show_u8 (n : Z) : list Z :=
  if Z.ltb n 10 then [digit n]
  else if Z.ltb n 100 then [digit (n / 10); digit (n mod 10)]
  else [digit (n / 100); digit (n / 10 mod 10); digit (n mod 10)].

(** [str::parse::<u8>]. *)
Definition parse_u8 (l : list Z) : result IntErrorKind Z := from_str_radix 10 256 l.

(** ** [ProtocolVersion] *)
Record ProtocolVersion := { segments : list Z }.

Definition wf_version (v : ProtocolVersion) : Prop :=
  length (segments v) = 4%nat /\ Forall is_byte (segments v).

Definition CURRENT_STARKNET_VERSION : ProtocolVersion := {| segments := [0; 13; 1; 1] |}.
Definition ProtocolVersion_default : ProtocolVersion := {| segments := [0; 1; 0; 0] |}.

Inductive ParseVersionError :=
  | InvalidFormat
  | ParseSegment (e : IntErrorKind).

(** The loop over [buffer.iter_mut().zip(segments)]: [n] slots remain. *)
Fixpoint parse_segments (n : nat) (segs : list (list Z)) : result ParseVersionError (list Z) :=
  match n, segs with
  | O, _ => Ok []
  | n, [] => Ok (replicate n 0)
  | S n, seg :: segs =>
      b ← (match seg with
           | [] => Ok 0
           | _ => map_err ParseSegment (parse_u8 seg)
           end);
      rest ← parse_segments n segs;
      Ok (b :: rest)
  end.

Definition version_parse (version : list Z) : result ParseVersionError ProtocolVersion :=
  match version with
  | [] => Err InvalidFormat
  | _ =>
      let segs := split_on c_dot version in
      if Nat.ltb 4 (length segs) then Err InvalidFormat
      else buffer ← parse_segments 4 segs; Ok {| segments := buffer |}
  end.

(** [Display]: the fourth segment is not printed when it is zero. *)
Definition version_display (v : ProtocolVersion) : list Z :=
  concat (imap (fun idx segment =>
    if Nat.eqb idx (length (segments v) - 1)
    then if Z.eqb segment 0 then [] else c_dot :: show_u8 segment
    else if Nat.eqb idx 0 then show_u8 segment
    else c_dot :: show_u8 segment) (segments v)).

(** ** Proofs *)

(** A statement about every byte, by computation. *)
Lemma byte_forall (f : Z -> bool) :
  forallb f (seqZ 0 256) = true -> forall b, is_byte b -> f b = true.
Proof.
  intros H b Hb. rewrite forallb_forall in H. apply H.
  apply list_elem_of_In, elem_of_seqZ. unfold is_byte in Hb. lia.
Qed.

Lemma parse_show_u8 b : is_byte b -> parse_u8 (show_u8 b) = Ok b.
Proof.
  intros Hb.
  assert (match parse_u8 (show_u8 b) with Ok x => Z.eqb x b | Err _ => false end = true) as H.
  { apply (byte_forall (fun b => match parse_u8 (show_u8 b) with
                                 | Ok x => Z.eqb x b | Err _ => false end)); [|done].
    by vm_compute. }
  destruct (parse_u8 (show_u8 b)) as [x|]; [|done]. apply Z.eqb_eq in H. by subst.
Qed.

Definition plain_text (l : list Z) : bool :=
  match l with [] => false | _ => forallb (fun c => negb (Z.eqb c c_dot) && Z.ltb 0 c && Z.ltb c 128) l end.

Lemma show_u8_plain b : is_byte b ->
  plain_text (show_u8 b) = true /\ (length (show_u8 b) <= 3)%nat.
Proof.
  intros Hb.
  assert (plain_text (show_u8 b) && Nat.leb (length (show_u8 b)) 3 = true) as H.
  { apply (byte_forall (fun b => plain_text (show_u8 b) && Nat.leb (length (show_u8 b)) 3));
      [by vm_compute|done]. }
  apply andb_true_iff in H as [? H]. apply Nat.leb_le in H. done.
Qed.

Lemma plain_no_dot l : plain_text l = true -> Forall (fun c => c <> c_dot) l.
Proof.
  intros H. apply Forall_forall. intros x Hx. destruct l; [done|].
  unfold plain_text in H. rewrite forallb_forall in H. specialize (H x Hx).
  rewrite !andb_true_iff in H. destruct H as [[H _] _]. intros ->. by rewrite Z.eqb_refl in H.
Qed.

Lemma split_on_plain l : plain_text l = true -> split_on c_dot l = [l].
Proof. intros H. by apply split_on_clean, plain_no_dot. Qed.

Lemma split_on_app l r :
  plain_text l = true -> split_on c_dot (l ++ c_dot :: r) = l :: split_on c_dot r.
Proof. intros H. by apply split_on_sep, plain_no_dot. Qed.

(** The printed form of a version, segment by segment. *)
Lemma version_display_eq a b c d :
  version_display {| segments := [a; b; c; d] |}
  = show_u8 a ++ c_dot :: show_u8 b ++ c_dot :: show_u8 c
      ++ (if Z.eqb d 0 then [] else c_dot :: show_u8 d).
Proof.
  unfold version_display. simpl. by rewrite app_nil_r.
Qed.

(** A printed segment parses back to itself. *)
Lemma parse_segments_show n b segs :
  is_byte b ->
  parse_segments (S n) (show_u8 b :: segs) = (rest ← parse_segments n segs; Ok (b :: rest)).
Proof.
  intros Hb. destruct (show_u8_plain b Hb) as [Hp _]. simpl.
  destruct (show_u8 b) as [|x l] eqn:E; [done|]. by rewrite <- E, parse_show_u8.
Qed.

Lemma version_parse_nonempty l :
  l <> [] ->
  version_parse l =
    if Nat.ltb 4 (length (split_on c_dot l)) then Err InvalidFormat
    else buffer ← parse_segments 4 (split_on c_dot l); Ok {| segments := buffer |}.
Proof. by destruct l. Qed.

Lemma version_parse_display v :
  wf_version v -> version_parse (version_display v) = Ok v.
Proof.
  intros [Hlen Hb]. destruct v as [[|a [|b [|c [|d [|]]]]]]; try done.
  simpl in Hb. rewrite !Forall_cons_iff in Hb. destruct Hb as (Ha&Hb&Hc&Hd&_).
  rewrite version_display_eq.
  destruct (show_u8_plain a Ha) as [Hpa _], (show_u8_plain b Hb) as [Hpb _],
    (show_u8_plain c Hc) as [Hpc _], (show_u8_plain d Hd) as [Hpd _].
  rewrite version_parse_nonempty by (by destruct (show_u8 a)).
  destruct (Z.eqb_spec d 0) as [->|].
  - rewrite app_nil_r, !split_on_app, split_on_plain by done. simpl (Nat.ltb _ _).
    cbv iota. by rewrite !parse_segments_show by done.
  - rewrite !split_on_app, split_on_plain by done. simpl (Nat.ltb _ _).
    cbv iota. by rewrite !parse_segments_show by done.
Qed.

(** Parsing inverts printing for every protocol version: four [u8] segments,
    the last one printed only when it is not zero. *)
Theorem version_roundtrip v :
  wf_version v -> version_parse (version_display v) = Ok v.
Proof. apply version_parse_display. Qed.

Lemma version_roundtrip_witness :
  version_parse (version_display CURRENT_STARKNET_VERSION) = Ok CURRENT_STARKNET_VERSION.
Proof.
  apply version_roundtrip. split; [reflexivity|].
  repeat constructor; vm_compute; try discriminate; reflexivity.
Defined.

(** The printed form fits a cairo short string: at most 15 ASCII characters. *)
Lemma version_display_short v :
  wf_version v ->
  (length (version_display v) <= 15)%nat /\ Forall (fun c => 0 < c < 128) (version_display v).
Proof.
  intros [Hlen Hb]. destruct v as [[|a [|b [|c [|d [|]]]]]]; try done.
  simpl in Hb. rewrite !Forall_cons_iff in Hb. destruct Hb as (Ha&Hb&Hc&Hd&_).
  rewrite version_display_eq.
  assert (forall x, is_byte x -> (length (show_u8 x) <= 3)%nat /\
                      Forall (fun c => 0 < c < 128) (show_u8 x)) as Hshow.
  { intros x Hx. destruct (show_u8_plain x Hx) as [Hp Hl]. split; [done|].
    apply Forall_forall. intros y Hy. unfold plain_text in Hp.
    destruct (show_u8 x) as [|z l]; [done|].
    rewrite forallb_forall in Hp. specialize (Hp y).
    specialize (Hp Hy). rewrite !andb_true_iff in Hp. lia. }
  destruct (Hshow a Ha), (Hshow b Hb), (Hshow c Hc), (Hshow d Hd).
  split.
  - destruct (Z.eqb d 0); rewrite ?length_app; simpl; rewrite ?length_app; simpl;
      rewrite ?length_app; simpl; lia.
  - assert (0 < c_dot < 128) by (unfold c_dot; lia).
    destruct (Z.eqb d 0); rewrite ?Forall_app, ?Forall_cons_iff, ?Forall_app, ?Forall_cons_iff,
      ?Forall_app, ?Forall_cons_iff; auto 10.
Qed.

Lemma version_display_inj v1 v2 :
  wf_version v1 -> wf_version v2 -> version_display v1 = version_display v2 -> v1 = v2.
Proof.
  intros H1 H2 Heq. apply version_parse_display in H1. apply version_parse_display in H2.
  rewrite Heq, H2 in H1. by injection H1.
Qed.
