(* ===== verification/Block.v ===== *)
(** * Blocks and state updates ([crates/primitives/src/block.rs], [state.rs])

    Header hashing and sealing, and the state-diff commitment.  A [BTreeMap] is
    the list of its entries in ascending key order, which is how the sources
    iterate over it.  [Poseidon::hash_array] is a parameter. *)

From Stdlib Require Import ZArith Lia String.
From stdpp Require Import base list numbers.
From S2P Require Import Prelude Felt Tx Version.

Inductive BlockHashOrNumber := BHash (h : Z) | BNum (n : Z).
Inductive FinalityStatus := AcceptedOnL2 | AcceptedOnL1.
Inductive L1DataAvailabilityMode := Blob | Calldata.

#[export] Instance FinalityStatus_eq_dec : EqDecision FinalityStatus.
Proof. solve_decision. Defined.
#[export] Instance L1DataAvailabilityMode_eq_dec : EqDecision L1DataAvailabilityMode.
Proof. solve_decision. Defined.

(** [NonZeroU128] prices. *)
Record GasPrice := { gp_eth : Z; gp_strk : Z }.
Definition GasPrice_MIN : GasPrice := {| gp_eth := 1; gp_strk := 1 |}.

Record Header := {
  parent_hash : Z;
  number : Z;
  state_diff_commitment : Z;
  transactions_commitment : Z;
  receipts_commitment : Z;
  events_commitment : Z;
  state_root : Z;
  transaction_count : Z;   (* u32 *)
  events_count : Z;        (* u32 *)
  state_diff_length : Z;   (* u32 *)
  timestamp : Z;           (* u64 *)
  sequencer_address : Z;
  l1_gas_prices : GasPrice;
  l1_data_gas_prices : GasPrice;
  l2_gas_prices : GasPrice;
  l1_da_mode : L1DataAvailabilityMode;
  protocol_version : ProtocolVersion;
}.

Definition Header_default : Header := {|
  parent_hash := 0; number := 0; state_diff_commitment := 0; transactions_commitment := 0;
  receipts_commitment := 0; events_commitment := 0; state_root := 0; transaction_count := 0;
  events_count := 0; state_diff_length := 0; timestamp := 0; sequencer_address := 0;
  l1_gas_prices := GasPrice_MIN; l1_data_gas_prices := GasPrice_MIN;
  l2_gas_prices := GasPrice_MIN; l1_da_mode := Calldata;
  protocol_version := ProtocolVersion_default |}.

Definition to_64_bits (num : Z) : list Z := be_bytes 8 num.

Definition l1_data_availability_byte (m : L1DataAvailabilityMode) : Z :=
  match m with Calldata => 0 | Blob => 128 end.

Definition concat_counts (transaction_count event_count state_diff_length : Z)
    (m : L1DataAvailabilityMode) : Z :=
  felt_from_bytes_be
    (to_64_bits transaction_count ++ to_64_bits event_count ++ to_64_bits state_diff_length
       ++ [l1_data_availability_byte m] ++ replicate 7 0).

Section Hashing.
Variable poseidon : list Z -> Z.

(** The list the block hash is the Poseidon hash of.  The [unwrap] of the
    version's short string cannot fail ([version_display_short]). *)
Definition header_elements (h : Header) : list Z :=
  [short_string "STARKNET_BLOCK_HASH0"; felt_of (number h); state_root h;
   sequencer_address h; felt_of (timestamp h);
   concat_counts (transaction_count h) (events_count h) (state_diff_length h) (l1_da_mode h);
   state_diff_commitment h; transactions_commitment h; events_commitment h;
   receipts_commitment h; felt_of (gp_eth (l1_gas_prices h));
   felt_of (gp_strk (l1_gas_prices h)); felt_of (gp_eth (l1_data_gas_prices h));
   felt_of (gp_strk (l1_data_gas_prices h)); be_to_Z (version_display (protocol_version h));
   0; parent_hash h].

Definition compute_hash (h : Header) : Z := poseidon (header_elements h).

Record Block := { block_header : Header; block_body : list TxWithHash }.
Record BlockWithTxHashes := { bth_header : Header; bth_body : list Z }.
Record SealedBlock := { sb_hash : Z; sb_header : Header; sb_body : list TxWithHash }.
Record SealedBlockWithStatus := { sbs_block : SealedBlock; sbs_status : FinalityStatus }.

Definition seal_with_hash (b : Block) (hash : Z) : SealedBlock :=
  {| sb_hash := hash; sb_header := block_header b; sb_body := block_body b |}.
Definition seal (b : Block) : SealedBlock :=
  {| sb_hash := compute_hash (block_header b); sb_header := block_header b;
     sb_body := block_body b |}.
Definition seal_with_hash_and_status (b : Block) (hash : Z) (status : FinalityStatus)
    : SealedBlockWithStatus :=
  {| sbs_block := seal_with_hash b hash; sbs_status := status |}.
Definition unseal (b : SealedBlock) : Block :=
  {| block_header := sb_header b; block_body := sb_body b |}.
End Hashing.

(** ** State updates *)
Record StateUpdates := {
  nonce_updates : list (Z * Z);
  storage_updates : list (Z * list (Z * Z));
  deployed_contracts : list (Z * Z);
  declared_classes : list (Z * Z);
  deprecated_declared_classes : list Z;
  replaced_classes : list (Z * Z);
}.

Record StateUpdatesWithClasses (C : Type) := {
  state_updates : StateUpdates;
  classes : list (Z * C);
}.
Arguments state_updates {C}.
Arguments classes {C}.
Arguments Build_StateUpdatesWithClasses {C}.

Definition state_updates_len (s : StateUpdates) : Z :=
  let len := 0 in
  let len := len + Z.of_nat (length (deployed_contracts s)) in
  let len := len + Z.of_nat (length (replaced_classes s)) in
  let len := len + Z.of_nat (length (declared_classes s)) in
  let len := len + Z.of_nat (length (deprecated_declared_classes s)) in
  let len := len + Z.of_nat (length (nonce_updates s)) in
  fold_left (fun len updates => len + Z.of_nat (length updates.2)) (storage_updates s) len.

Definition felt_len {A} (l : list A) : Z := felt_of (Z.of_nat (length l)).

(** [flat_map(|(a, b)| vec![a, b])]. *)
Definition flat_pairs (l : list (Z * Z)) : list Z := flat_map (fun e => [e.1; e.2]) l.

Definition storage_elements (l : list (Z * list (Z * Z))) : list Z :=
  flat_map (fun update => update.1 :: felt_len update.2 :: flat_pairs update.2) l.

Definition state_diff_elements (s : StateUpdates) : list Z :=
  let updated_contracts := deployed_contracts s ++ replaced_classes s in
  [short_string "STARKNET_STATE_DIFF0"]
    ++ [felt_of (Z.of_nat (length (deployed_contracts s)) + Z.of_nat (length (replaced_classes s)))]
    ++ flat_pairs updated_contracts
    ++ [felt_len (declared_classes s)] ++ flat_pairs (declared_classes s)
    ++ [felt_len (deprecated_declared_classes s)] ++ deprecated_declared_classes s
    ++ [1] ++ [0]
    ++ [felt_len (storage_updates s)] ++ storage_elements (storage_updates s)
    ++ [felt_len (nonce_updates s)] ++ flat_pairs (nonce_updates s).

Definition compute_state_diff_hash (poseidon : list Z -> Z) (s : StateUpdates) : Z :=
  poseidon (state_diff_elements s).

(** ** Proofs: counts, block hash *)

Definition wf_gas_price (g : GasPrice) : Prop := is_u128 (gp_eth g) /\ is_u128 (gp_strk g).
Definition wf_header (h : Header) : Prop :=
  is_u64 (number h) /\ is_u64 (timestamp h) /\ is_u32 (transaction_count h) /\
  is_u32 (events_count h) /\ is_u32 (state_diff_length h) /\
  wf_gas_price (l1_gas_prices h) /\ wf_gas_price (l1_data_gas_prices h) /\
  wf_version (protocol_version h).

Lemma concat_counts_value t e d m :
  is_u32 t -> is_u32 e -> is_u32 d ->
  concat_counts t e d m
  = t * 2 ^ 192 + e * 2 ^ 128 + d * 2 ^ 64 + l1_data_availability_byte m * 2 ^ 56.
Proof.
  unfold is_u32, concat_counts, to_64_bits, felt_from_bytes_be. intros Ht He Hd.
  rewrite !be_to_Z_app, !length_app, !be_bytes_length.
  rewrite !be_to_Z_be_bytes by (simpl; lia).
  rewrite length_replicate. simpl (Z.of_nat _).
  replace (be_to_Z (replicate 7 0)) with 0 by done.
  replace (be_to_Z [l1_data_availability_byte m]) with (l1_data_availability_byte m)
    by (by destruct m).
  assert (0 <= l1_data_availability_byte m <= 128) by (destruct m; simpl; lia).
  rewrite felt_of_small; [lia|]. unfold is_felt, P. lia.
Qed.

Lemma concat_counts_determined t1 e1 d1 m1 t2 e2 d2 m2 :
  is_u32 t1 -> is_u32 e1 -> is_u32 d1 -> is_u32 t2 -> is_u32 e2 -> is_u32 d2 ->
  concat_counts t1 e1 d1 m1 = concat_counts t2 e2 d2 m2 ->
  t1 = t2 /\ e1 = e2 /\ d1 = d2 /\ m1 = m2.
Proof.
  intros. rewrite !concat_counts_value in * by done. unfold is_u32 in *.
  destruct m1, m2; simpl (l1_data_availability_byte _) in *; repeat split; try done; lia.
Qed.

(** The packed counter word of a block hash determines the transaction
    count, the event count, the state-diff length and the data-availability
    mode it was built from, for all values the header fields can hold. *)
Theorem concat_counts_inj t1 e1 d1 m1 t2 e2 d2 m2 :
  is_u32 t1 -> is_u32 e1 -> is_u32 d1 -> is_u32 t2 -> is_u32 e2 -> is_u32 d2 ->
  concat_counts t1 e1 d1 m1 = concat_counts t2 e2 d2 m2 ->
  t1 = t2 /\ e1 = e2 /\ d1 = d2 /\ m1 = m2.
Proof. apply concat_counts_determined. Qed.

Lemma concat_counts_inj_witness : 100 = 100 /\ 200 = 200 /\ 300 = 300 /\ Blob = Blob.
Proof.
  apply (concat_counts_inj 100 200 300 Blob 100 200 300 Blob);
    try (split; vm_compute; congruence); reflexivity.
Defined.

Lemma be_to_Z_inj_nonzero l1 l2 :
  Forall (fun b => 0 < b < 256) l1 -> Forall (fun b => 0 < b < 256) l2 ->
  be_to_Z l1 = be_to_Z l2 -> l1 = l2.
Proof.
  assert (forall l, Forall (fun b => 0 < b < 256) l -> 0 <= be_to_Z l) as Hpos.
  { intros l Hl. apply be_to_Z_bound. eapply Forall_impl; [|exact Hl].
    unfold is_byte. simpl. lia. }
  intros H1. revert l2. induction l1 as [|b1 l1 IH] using rev_ind;
    intros l2 H2; destruct l2 as [|b2 l2 _] using rev_ind; intros Heq.
  - done.
  - apply Forall_app in H2 as [H2 Hb]. apply Forall_cons_iff in Hb as [Hb _].
    specialize (Hpos _ H2). rewrite be_to_Z_app in Heq. unfold be_to_Z in *. simpl in *. lia.
  - apply Forall_app in H1 as [H1 Hb]. apply Forall_cons_iff in Hb as [Hb _].
    specialize (Hpos _ H1). rewrite be_to_Z_app in Heq. unfold be_to_Z in *. simpl in *. lia.
  - apply Forall_app in H1 as [H1 Hb1]. apply Forall_cons_iff in Hb1 as [Hb1 _].
    apply Forall_app in H2 as [H2 Hb2]. apply Forall_cons_iff in Hb2 as [Hb2 _].
    rewrite !be_to_Z_app in Heq.
    replace (be_to_Z [b1]) with b1 in Heq by (unfold be_to_Z; simpl; lia).
    replace (be_to_Z [b2]) with b2 in Heq by (unfold be_to_Z; simpl; lia).
    simpl length in Heq. rewrite Z.pow_1_r in Heq.
    rewrite (IH H1 l2 H2) by lia. f_equal. f_equal. lia.
Qed.

Lemma version_felt_inj v1 v2 :
  wf_version v1 -> wf_version v2 ->
  be_to_Z (version_display v1) = be_to_Z (version_display v2) -> v1 = v2.
Proof.
  intros H1 H2 Heq. apply version_display_inj; [done|done|].
  assert (forall v, wf_version v -> Forall (fun b => 0 < b < 256) (version_display v)) as Hb.
  { intros v Hv. eapply Forall_impl; [|apply version_display_short, Hv]. simpl. lia. }
  apply be_to_Z_inj_nonzero; auto.
Qed.

Lemma felt_of_inj_small a b : is_u128 a -> is_u128 b -> felt_of a = felt_of b -> a = b.
Proof.
  unfold is_u128, u128_bound. intros Ha Hb. assert (2 ^ 128 < P) by done.
  rewrite !felt_of_small by (unfold is_felt; lia). done.
Qed.

Lemma u64_u128 a : is_u64 a -> is_u128 a.
Proof. unfold is_u64, is_u128, u64_bound, u128_bound. lia. Qed.

(** The header with its L2 gas prices replaced: the one field the hash omits. *)
Definition with_l2_gas_prices (h : Header) (g : GasPrice) : Header := {|
  parent_hash := parent_hash h; number := number h;
  state_diff_commitment := state_diff_commitment h;
  transactions_commitment := transactions_commitment h;
  receipts_commitment := receipts_commitment h; events_commitment := events_commitment h;
  state_root := state_root h; transaction_count := transaction_count h;
  events_count := events_count h; state_diff_length := state_diff_length h;
  timestamp := timestamp h; sequencer_address := sequencer_address h;
  l1_gas_prices := l1_gas_prices h; l1_data_gas_prices := l1_data_gas_prices h;
  l2_gas_prices := g; l1_da_mode := l1_da_mode h;
  protocol_version := protocol_version h |}.

#[local] Opaque felt_of concat_counts version_display short_string.

(** The element list determines every header field it is built from. *)
Lemma header_elements_inj h1 h2 :
  wf_header h1 -> wf_header h2 -> header_elements h1 = header_elements h2 ->
  with_l2_gas_prices h1 (l2_gas_prices h2) = h2.
Proof.
  intros (?&?&?&?&?&[]&[]&?) (?&?&?&?&?&[]&[]&?) Heq.
  unfold header_elements in Heq. peel_cons Heq.
  destruct h1, h2; unfold with_l2_gas_prices; simpl in *.
  repeat match goal with
  | g : GasPrice |- _ => destruct g; simpl in *
  | H : felt_of ?a = felt_of ?b |- _ =>
      apply felt_of_inj_small in H; [subst|by auto using u64_u128..]
  | H : be_to_Z (version_display _) = _ |- _ => apply version_felt_inj in H; [subst|done|done]
  | H : concat_counts _ _ _ _ = concat_counts _ _ _ _ |- _ =>
      apply concat_counts_determined in H as (->&->&->&->); [|done..]
  end.
  f_equal; done.
Qed.

(** C39. Block hashes are binding: two headers with the same hash are equal in
    every field but the L2 gas prices (which the hash does not cover), unless a
    collision of the Poseidon hash has been found. *)
Theorem block_hash_binding poseidon h1 h2 :
  wf_header h1 -> wf_header h2 ->
  compute_hash poseidon h1 = compute_hash poseidon h2 ->
  with_l2_gas_prices h1 (l2_gas_prices h2) = h2 \/
  exists l1 l2, l1 <> l2 /\ poseidon l1 = poseidon l2.
Proof.
  intros H1 H2 H. unfold compute_hash in H.
  destruct (decide (header_elements h1 = header_elements h2)) as [Heq|Hne].
  - left. by apply header_elements_inj.
  - right. eauto.
Qed.

Lemma block_hash_binding_witness :
  with_l2_gas_prices Header_default (l2_gas_prices Header_default) = Header_default \/
  exists l1 l2, l1 <> l2 /\ (fun l => fold_left Z.add l 0) l1 = (fun l => fold_left Z.add l 0) l2.
Proof.
  apply (block_hash_binding (fun l => fold_left Z.add l 0) Header_default Header_default).
  - repeat (first [split | constructor]); vm_compute; congruence.
  - repeat (first [split | constructor]); vm_compute; congruence.
  - reflexivity.
Defined.

(** ** Proofs: state-diff commitment *)

Lemma flat_pairs_app_inj l1 l2 r1 r2 :
  length l1 = length l2 -> flat_pairs l1 ++ r1 = flat_pairs l2 ++ r2 -> l1 = l2 /\ r1 = r2.
Proof.
  revert l2. induction l1 as [|[a b] l1 IH]; intros [|[c d] l2]; simpl; try done.
  intros [= Hlen] [= -> -> Heq]. by destruct (IH _ Hlen Heq) as [-> ->].
Qed.

Lemma list_app_inj {A} (l1 l2 r1 r2 : list A) :
  length l1 = length l2 -> l1 ++ r1 = l2 ++ r2 -> l1 = l2 /\ r1 = r2.
Proof. intros. by apply app_inj_1. Qed.

#[local] Transparent felt_of.
Lemma felt_len_inj {A B} (l1 : list A) (l2 : list B) :
  Z.of_nat (length l1) < P -> Z.of_nat (length l2) < P ->
  felt_len l1 = felt_len l2 -> length l1 = length l2.
Proof.
  unfold felt_len, felt_of. intros. rewrite !Z.mod_small in * by lia. lia.
Qed.
#[local] Opaque felt_of.

(** No map or set of the update is longer than a field element can count. *)
Definition wf_lengths (s : StateUpdates) : Prop :=
  Z.of_nat (length (deployed_contracts s)) + Z.of_nat (length (replaced_classes s)) < P /\
  Z.of_nat (length (declared_classes s)) < P /\
  Z.of_nat (length (deprecated_declared_classes s)) < P /\
  Z.of_nat (length (storage_updates s)) < P /\
  Forall (fun u => Z.of_nat (length u.2) < P) (storage_updates s) /\
  Z.of_nat (length (nonce_updates s)) < P.

Lemma storage_elements_app_inj l1 l2 r1 r2 :
  Forall (fun u => Z.of_nat (length u.2) < P) l1 ->
  Forall (fun u => Z.of_nat (length u.2) < P) l2 ->
  length l1 = length l2 ->
  storage_elements l1 ++ r1 = storage_elements l2 ++ r2 -> l1 = l2 /\ r1 = r2.
Proof.
  intros H1. revert l2. induction H1 as [|[a e1] l1 He1 _ IH]; intros [|[b e2] l2] H2; try done.
  simpl. intros [= Hlen] Heq. apply Forall_cons_iff in H2 as [He2 H2].
  rewrite <- !app_assoc in Heq. simpl in Heq.
  apply cons_eq_inv in Heq as [-> Heq]. apply cons_eq_inv in Heq as [Hl Heq].
  apply felt_len_inj in Hl; [|done|done].
  apply flat_pairs_app_inj in Heq as [-> Heq]; [|done].
  by destruct (IH _ H2 Hlen Heq) as [-> ->].
Qed.

(** What the commitment covers: deployed and replaced classes as one list. *)
Definition diff_content (s : StateUpdates)
    : list (Z * Z) * list (Z * Z) * list Z * list (Z * list (Z * Z)) * list (Z * Z) :=
  (deployed_contracts s ++ replaced_classes s, declared_classes s,
   deprecated_declared_classes s, storage_updates s, nonce_updates s).

Lemma state_diff_elements_inj s1 s2 :
  wf_lengths s1 -> wf_lengths s2 ->
  state_diff_elements s1 = state_diff_elements s2 -> diff_content s1 = diff_content s2.
Proof.
  intros (?&?&?&?&?&?) (?&?&?&?&?&?) Heq. unfold diff_content, state_diff_elements in *.
  cbv zeta in Heq. simpl in Heq.
  apply cons_eq_inv in Heq as [_ Heq]. apply cons_eq_inv in Heq as [Hn Heq].
  assert (length (deployed_contracts s1 ++ replaced_classes s1)
          = length (deployed_contracts s2 ++ replaced_classes s2)) as Hlen.
  { apply felt_len_inj; rewrite ?length_app, ?Nat2Z.inj_add; [done..|].
    unfold felt_len. by rewrite !length_app, !Nat2Z.inj_add. }
  apply flat_pairs_app_inj in Heq as [-> Heq]; [|done].
  apply cons_eq_inv in Heq as [Hd Heq]. apply felt_len_inj in Hd; [|done|done].
  apply flat_pairs_app_inj in Heq as [-> Heq]; [|done].
  apply cons_eq_inv in Heq as [Hp Heq]. apply felt_len_inj in Hp; [|done|done].
  apply list_app_inj in Heq as [-> Heq]; [|done].
  do 2 apply cons_eq_inv in Heq as [_ Heq].
  apply cons_eq_inv in Heq as [Hs Heq]. apply felt_len_inj in Hs; [|done|done].
  apply storage_elements_app_inj in Heq as [-> Heq]; [|done..].
  apply cons_eq_inv in Heq as [Hnn Heq]. apply felt_len_inj in Hnn; [|done|done].
  rewrite <- (app_nil_r (flat_pairs (nonce_updates s1))),
    <- (app_nil_r (flat_pairs (nonce_updates s2))) in Heq.
  by apply flat_pairs_app_inj in Heq as [-> _].
Qed.

(** The state-diff commitment is binding: two state updates with the same
    commitment have the same updated contracts (deployed followed by replaced),
    declared classes, deprecated classes, storage entries and nonces, unless a
    collision of the Poseidon hash has been found. *)
Theorem state_diff_binding poseidon s1 s2 :
  wf_lengths s1 -> wf_lengths s2 ->
  compute_state_diff_hash poseidon s1 = compute_state_diff_hash poseidon s2 ->
  diff_content s1 = diff_content s2 \/
  exists l1 l2, l1 <> l2 /\ poseidon l1 = poseidon l2.
Proof.
  intros H1 H2 H. unfold compute_state_diff_hash in H.
  destruct (decide (state_diff_elements s1 = state_diff_elements s2)) as [Heq|Hne].
  - left. by apply state_diff_elements_inj.
  - right. eauto.
Qed.

Definition sample_updates : StateUpdates := {|
  nonce_updates := [(1, 5)]; storage_updates := [(1, [(7, 8); (9, 10)]); (2, [])];
  deployed_contracts := [(3, 33)]; declared_classes := [(33, 34)];
  deprecated_declared_classes := [44]; replaced_classes := [(4, 33)] |}.

Lemma state_diff_binding_witness :
  diff_content sample_updates = diff_content sample_updates \/
  exists l1 l2, l1 <> l2 /\ (fun l => fold_left Z.add l 0) l1 = (fun l => fold_left Z.add l 0) l2.
Proof.
  apply (state_diff_binding (fun l => fold_left Z.add l 0) sample_updates sample_updates).
  - repeat (first [split | constructor]); vm_compute; congruence.
  - repeat (first [split | constructor]); vm_compute; congruence.
  - reflexivity.
Defined.

(** The diff length counts the entries of every map. *)
Lemma fold_len_acc (l : list (Z * list (Z * Z))) acc :
  fold_left (fun len updates => len + Z.of_nat (length updates.2)) l acc
  = acc + Z.of_nat (sum_list ((fun u => length u.2) <$> l)).
Proof.
  revert acc. induction l as [|u l IH]; intros acc; [simpl; lia|].
  rewrite fmap_cons. cbn [fold_left sum_list sum_list_with]. rewrite IH.
  change (sum_list_with id) with sum_list. unfold id. lia.
Qed.

Lemma state_updates_len_eq s :
  state_updates_len s =
  Z.of_nat (length (deployed_contracts s) + length (replaced_classes s)
            + length (declared_classes s) + length (deprecated_declared_classes s)
            + length (nonce_updates s)
            + sum_list ((fun u => length u.2) <$> storage_updates s)).
Proof. unfold state_updates_len. rewrite fold_len_acc. lia. Qed.
