(* ===== verification/Receipt.v ===== *)
(** * Receipts, execution results and their hashes

    [primitives/src/receipt.rs], the fee information of [fee.rs], the typed traces
    of [execution.rs] and the results of [executor/src/abstraction/mod.rs].  The
    VM resources and the trace of an execution belong to blockifier and stay
    abstract types; Poseidon and Starknet's Keccak are parameters. *)

From Stdlib Require Import ZArith Lia.
From stdpp Require Import base numbers list.
From S2P Require Import Prelude Felt Tx Block.

Inductive PriceUnit := Wei | Fri.
Record FeeInfo := mkFeeInfo {
  fee_l1_gas_price : Z;        (* u128 *)
  fee_l2_gas_price : Z;        (* u128 *)
  fee_l1_data_gas_price : Z;   (* u128 *)
  overall_fee : Z;             (* u128 *)
  fee_unit : PriceUnit;
}.
Definition FeeInfo_default : FeeInfo := mkFeeInfo 0 0 0 0 Fri.

Record Event := mkEvent {
  from_address : Z;
  event_keys : list Z;
  event_data : list Z;
}.
Record MessageToL1 := mkMessageToL1 {
  msg_from_address : Z;
  msg_to_address : Z;
  msg_payload : list Z;
}.
Record GasUsed := mkGasUsed { gu_l2_gas : Z; gu_l1_gas : Z; gu_l1_data_gas : Z }.
Record DataAvailabilityResources := mkDaResources { dar_l1_gas : Z; dar_l1_data_gas : Z }.

Section Receipts.
(** [VmResources] of cairo-vm. *)
Context {Vm : Type}.

Record ExecutionResources := mkExecutionResources {
  er_gas : GasUsed;
  er_computation_resources : Vm;
  er_da_resources : DataAvailabilityResources;
}.

Record InvokeTxReceipt := {
  ir_fee : FeeInfo; ir_events : list Event; ir_messages_sent : list MessageToL1;
  ir_revert_error : option (list Z); ir_execution_resources : ExecutionResources;
}.
Record DeclareTxReceipt := {
  dr_fee : FeeInfo; dr_events : list Event; dr_messages_sent : list MessageToL1;
  dr_revert_error : option (list Z); dr_execution_resources : ExecutionResources;
}.
Record L1HandlerTxReceipt := {
  lr_fee : FeeInfo; lr_events : list Event; lr_message_hash : Z;
  lr_messages_sent : list MessageToL1; lr_revert_error : option (list Z);
  lr_execution_resources : ExecutionResources;
}.
Record DeployAccountTxReceipt := {
  ar_fee : FeeInfo; ar_events : list Event; ar_messages_sent : list MessageToL1;
  ar_revert_error : option (list Z); ar_execution_resources : ExecutionResources;
  ar_contract_address : Z;
}.
Inductive Receipt :=
  | RInvoke (r : InvokeTxReceipt)
  | RDeclare (r : DeclareTxReceipt)
  | RL1Handler (r : L1HandlerTxReceipt)
  | RDeployAccount (r : DeployAccountTxReceipt).

Definition revert_reason (r : Receipt) : option (list Z) :=
  match r with
  | RInvoke rct => ir_revert_error rct
  | RDeclare rct => dr_revert_error rct
  | RL1Handler rct => lr_revert_error rct
  | RDeployAccount rct => ar_revert_error rct
  end.
Definition is_reverted (r : Receipt) : bool :=
  match revert_reason r with Some _ => true | None => false end.
Definition messages_sent (r : Receipt) : list MessageToL1 :=
  match r with
  | RInvoke rct => ir_messages_sent rct
  | RDeclare rct => dr_messages_sent rct
  | RL1Handler rct => lr_messages_sent rct
  | RDeployAccount rct => ar_messages_sent rct
  end.
Definition receipt_events (r : Receipt) : list Event :=
  match r with
  | RInvoke rct => ir_events rct
  | RDeclare rct => dr_events rct
  | RL1Handler rct => lr_events rct
  | RDeployAccount rct => ar_events rct
  end.
Definition resources_used (r : Receipt) : ExecutionResources :=
  match r with
  | RInvoke rct => ir_execution_resources rct
  | RDeclare rct => dr_execution_resources rct
  | RL1Handler rct => lr_execution_resources rct
  | RDeployAccount rct => ar_execution_resources rct
  end.
Definition receipt_fee (r : Receipt) : FeeInfo :=
  match r with
  | RInvoke rct => ir_fee rct
  | RDeclare rct => dr_fee rct
  | RL1Handler rct => lr_fee rct
  | RDeployAccount rct => ar_fee rct
  end.
Definition receipt_type (r : Receipt) : TxType :=
  match r with
  | RInvoke _ => TInvoke
  | RDeclare _ => TDeclare
  | RL1Handler _ => TL1Handler
  | RDeployAccount _ => TDeployAccount
  end.

Record ReceiptWithTxHash := mkReceiptWithTxHash { rct_tx_hash : Z; rct_receipt : Receipt }.

(** ** Hashes *)
Section Hash.
Context (poseidon : list Z -> Z) (starknet_keccak : list Z -> Z).

Definition message_elements (msg : MessageToL1) : list Z :=
  [msg_from_address msg; msg_to_address msg;
   poseidon (felt_of (Z.of_nat (length (msg_payload msg))) :: msg_payload msg)].

Definition compute_messages_to_l1_hash (r : ReceiptWithTxHash) : Z :=
  let messages := messages_sent (rct_receipt r) in
  poseidon (fold_left (fun acc msg => acc ++ message_elements msg) messages
              [felt_of (Z.of_nat (length messages))]).

Definition receipt_compute_hash (r : ReceiptWithTxHash) : Z :=
  let gas := er_gas (resources_used (rct_receipt r)) in
  let gas_usage :=
    poseidon [felt_of (gu_l2_gas gas); felt_of (gu_l1_gas gas); felt_of (gu_l1_data_gas gas)] in
  let revert_reason_hash :=
    match revert_reason (rct_receipt r) with
    | Some reason => starknet_keccak reason
    | None => 0
    end in
  poseidon [rct_tx_hash r; felt_of (overall_fee (receipt_fee (rct_receipt r)));
            compute_messages_to_l1_hash r; revert_reason_hash; gas_usage].
End Hash.

(** ** Execution results *)
Context {Trace Error : Type}.

Inductive ExecutionResult :=
  | Success (receipt : Receipt) (trace : Trace)
  | Failed (error : Error).

Definition result_is_success (r : ExecutionResult) : bool :=
  match r with Success _ _ => true | Failed _ => false end.
Definition result_receipt (r : ExecutionResult) : option Receipt :=
  match r with Success receipt _ => Some receipt | _ => None end.
Definition result_trace (r : ExecutionResult) : option Trace :=
  match r with Success _ trace => Some trace | _ => None end.

Inductive TypedTransactionExecutionInfo :=
  | InfoInvoke (info : Trace) | InfoDeclare (info : Trace)
  | InfoL1Handler (info : Trace) | InfoDeployAccount (info : Trace).

(** [None] is the [unimplemented!] of a deploy transaction. *)
Definition typed_info_new (type : TxType) (info : Trace) : option TypedTransactionExecutionInfo :=
  match type with
  | TDeclare => Some (InfoDeclare info)
  | TInvoke => Some (InfoInvoke info)
  | TDeployAccount => Some (InfoDeployAccount info)
  | TL1Handler => Some (InfoL1Handler info)
  | TDeploy => None
  end.
Definition typed_info (t : TypedTransactionExecutionInfo) : Trace :=
  match t with
  | InfoInvoke info => info | InfoDeclare info => info
  | InfoL1Handler info => info | InfoDeployAccount info => info
  end.
Definition typed_info_type (t : TypedTransactionExecutionInfo) : TxType :=
  match t with
  | InfoInvoke _ => TInvoke | InfoDeclare _ => TDeclare
  | InfoL1Handler _ => TL1Handler | InfoDeployAccount _ => TDeployAccount
  end.

(** A receipt's type never is that of a deploy, so typing its trace succeeds. *)
Lemma typed_info_of_receipt r info :
  exists t, typed_info_new (receipt_type r) info = Some t
    /\ typed_info t = info /\ typed_info_type t = receipt_type r.
Proof. destruct r; eexists; repeat split. Qed.
End Receipts.
Arguments ExecutionResources : clear implicits.
Arguments InvokeTxReceipt : clear implicits.
Arguments DeclareTxReceipt : clear implicits.
Arguments L1HandlerTxReceipt : clear implicits.
Arguments DeployAccountTxReceipt : clear implicits.
Arguments Receipt : clear implicits.
Arguments ReceiptWithTxHash : clear implicits.
Arguments ExecutionResult : clear implicits.
Arguments TypedTransactionExecutionInfo : clear implicits.

(** ** Receipt hashes are binding *)
Section Binding.
Context {Vm : Type} (poseidon starknet_keccak : list Z -> Z).
Implicit Types (r : ReceiptWithTxHash Vm).

Definition Collision (h : list Z -> Z) : Prop := exists l1 l2, l1 <> l2 /\ h l1 = h l2.

Lemma hash_eq (h : list Z -> Z) l1 l2 : h l1 = h l2 -> l1 = l2 \/ Collision h.
Proof. intros H. destruct (decide (l1 = l2)); [by left|right]. by exists l1, l2. Qed.

(** Machine-sized amounts and lengths. *)
Definition wf_receipt r : Prop :=
  let gas := er_gas (resources_used (rct_receipt r)) in
  is_u128 (overall_fee (receipt_fee (rct_receipt r))) /\
  is_u64 (gu_l2_gas gas) /\ is_u64 (gu_l1_gas gas) /\ is_u64 (gu_l1_data_gas gas) /\
  is_u64 (Z.of_nat (length (messages_sent (rct_receipt r)))).

(** What the hash covers, the revert reason apart. *)
Definition hashed_content r : Z * Z * list MessageToL1 * GasUsed :=
  (rct_tx_hash r, overall_fee (receipt_fee (rct_receipt r)), messages_sent (rct_receipt r),
   er_gas (resources_used (rct_receipt r))).

Lemma fold_message_elements ms acc :
  fold_left (fun acc msg => acc ++ message_elements poseidon msg) ms acc
  = acc ++ flat_map (message_elements poseidon) ms.
Proof.
  revert acc. induction ms as [|m ms IH]; intros acc; cbn [fold_left flat_map].
  - by rewrite app_nil_r.
  - by rewrite IH, <- app_assoc.
Qed.

Lemma message_elements_inj ms1 ms2 :
  length ms1 = length ms2 ->
  flat_map (message_elements poseidon) ms1 = flat_map (message_elements poseidon) ms2 ->
  ms1 = ms2 \/ Collision poseidon.
Proof.
  revert ms2. induction ms1 as [|m1 ms1 IH]; intros [|m2 ms2] Hl Heq; try done; [by left|].
  cbn [flat_map message_elements app] in Heq. peel_cons Heq.
  destruct (IH ms2) as [->|]; [simpl in Hl; lia|done| |by right].
  destruct (hash_eq _ _ _ Heq2) as [Hp|]; [|by right]. peel_cons Hp.
  left. f_equal. destruct m1, m2; simpl in *. congruence.
Qed.

(** Receipt hashes are binding: receipts with the same hash have the same
    transaction hash, fee, messages to L1 and gas, and the same revert reason,
    unless a collision of Poseidon, a collision of the Keccak hash or a reason
    that hashes to zero has been found. *)
Theorem receipt_hash_binding r1 r2 :
  wf_receipt r1 -> wf_receipt r2 ->
  receipt_compute_hash poseidon starknet_keccak r1
  = receipt_compute_hash poseidon starknet_keccak r2 ->
  (hashed_content r1 = hashed_content r2
   /\ (revert_reason (rct_receipt r1) = revert_reason (rct_receipt r2)
       \/ Collision starknet_keccak \/ exists reason, starknet_keccak reason = 0))
  \/ Collision poseidon.
Proof.
  intros (Hf1 & Ha1 & Hb1 & Hc1 & Hl1) (Hf2 & Ha2 & Hb2 & Hc2 & Hl2) Heq.
  apply hash_eq in Heq as [Heq|]; [|by right]. peel_cons Heq.
  apply hash_eq in Heq4 as [Hg|]; [|by right]. peel_cons Hg.
  apply hash_eq in Heq2 as [Hm|]; [|by right].
  rewrite !fold_message_elements in Hm. cbn [app] in Hm. peel_cons Hm.
  repeat match goal with H : felt_of _ = felt_of _ |- _ =>
    apply felt_of_inj_small in H; [|by auto using u64_u128..] end.
  apply Nat2Z.inj in Heq2.
  destruct (message_elements_inj _ _ Heq2 Hm) as [Hms|]; [|by right]. left. split.
  - unfold hashed_content. rewrite Heq0, Heq1, Hms.
    destruct (er_gas (resources_used (rct_receipt r1))), (er_gas (resources_used (rct_receipt r2))).
    simpl in *. congruence.
  - destruct (revert_reason (rct_receipt r1)) as [x|], (revert_reason (rct_receipt r2)) as [y|].
    + destruct (hash_eq starknet_keccak x y Heq3) as [->|]; auto.
    + right. right. by exists x.
    + right. right. by exists y.
    + by left.
Qed.
End Binding.

Definition sample_receipt : ReceiptWithTxHash unit := mkReceiptWithTxHash 11 (RInvoke {|
  ir_fee := FeeInfo_default; ir_events := [mkEvent 1 [2] [3]];
  ir_messages_sent := [mkMessageToL1 1 2 [3; 4]]; ir_revert_error := None;
  ir_execution_resources :=
    mkExecutionResources (mkGasUsed 5 6 7) tt (mkDaResources 0 0) |}).

Lemma receipt_hash_binding_witness :
  (hashed_content sample_receipt = hashed_content sample_receipt
   /\ (revert_reason (rct_receipt sample_receipt) = revert_reason (rct_receipt sample_receipt)
       \/ Collision be_to_Z \/ exists reason, be_to_Z reason = 0))
  \/ Collision be_to_Z.
Proof.
  apply (receipt_hash_binding be_to_Z be_to_Z sample_receipt sample_receipt);
    [by repeat split..|reflexivity].
Defined.
