(* ===== verification/PoolTypes.v ===== *)
(** * Pool transactions and their ordering
    ([crates/pool/src/tx.rs], [ordering.rs], [validation/mod.rs], [validation/error.rs])

    The traits [PoolTransaction], [PoolOrd] and [Validator] are type classes;
    methods that mutate through interior mutability thread the state, and a
    method that can panic returns an option ([None] is the panic). *)

From Stdlib Require Import ZArith Lia.
From stdpp Require Import base list numbers.
From S2P Require Import Prelude Felt Tx.

(** ** Interfaces *)
Class PoolTransaction (T : Type) := {
  pt_hash : T -> Z;
  pt_nonce : T -> option Z;
  pt_sender : T -> Z;
  pt_max_fee : T -> Z;
  pt_tip : T -> Z;
}.

Class PoolOrd (O T : Type) := {
  PriorityValue : Type;
  pr_cmp : PriorityValue -> PriorityValue -> comparison;
  priority : O -> T -> PriorityValue * O;
}.
Arguments PriorityValue O T {_}.

(** ** Transaction ids *)
Record TxId := { txid_sender : Z; txid_nonce : Z }.

Definition txid_parent (id : TxId) : option TxId :=
  if decide (txid_nonce id = 0) then None
  else Some {| txid_sender := txid_sender id; txid_nonce := felt_sub (txid_nonce id) 1 |}.

Definition txid_descendent (id : TxId) : TxId :=
  {| txid_sender := txid_sender id; txid_nonce := felt_add (txid_nonce id) 1 |}.

(** ** Pending transactions *)
Record PendingTx (T PV : Type) := mkPendingTx {
  ptx_id : TxId;
  ptx_tx : T;
  ptx_priority : PV;
  ptx_added_at : Z;  (* Instant::now() *)
}.
Arguments mkPendingTx {T PV}.
Arguments ptx_id {T PV}.
Arguments ptx_tx {T PV}.
Arguments ptx_priority {T PV}.
Arguments ptx_added_at {T PV}.

Section Ordering.
Context {O T : Type} `{PO : PoolOrd O T}.
Abbreviation PTx := (PendingTx T (PriorityValue O T)).

(** [Ord for PendingTx]: the nonce decides within a sender, the priority
    between senders, and a tie makes the left operand the greater one. *)
Definition pending_cmp (self other : PTx) : comparison :=
  if decide (txid_sender (ptx_id self) = txid_sender (ptx_id other)) then
    match Z.compare (txid_nonce (ptx_id self)) (txid_nonce (ptx_id other)) with
    | Eq => Gt
    | c => c
    end
  else
    match pr_cmp (ptx_priority self) (ptx_priority other) with
    | Eq => Gt
    | c => c
    end.

(** [PartialEq for PendingTx] looks at the priority only. *)
Definition pending_eq (self other : PTx) : bool :=
  match pr_cmp (ptx_priority self) (ptx_priority other) with Eq => true | _ => false end.
End Ordering.

(** ** First-come-first-serve ordering *)
Record FiFo := { fifo_nonce : Z }.  (* AtomicU64 *)
Definition FiFo_new : FiFo := {| fifo_nonce := 0 |}.

(** [nonce.fetch_add(1)] returns the old value and wraps. *)
Definition fifo_assign (f : FiFo) : Z * FiFo :=
  (fifo_nonce f, {| fifo_nonce := wrap64 (fifo_nonce f + 1) |}).

(** [Ord for TxSubmissionNonce]. *)
Definition submission_nonce_cmp (self other : Z) : comparison := Z.compare self other.

#[export] Instance FiFo_PoolOrd T : PoolOrd FiFo T := {
  PriorityValue := Z;
  pr_cmp := submission_nonce_cmp;
  priority f _ := fifo_assign f;
}.

(** ** Tip-based ordering: the higher tip comes first. *)
Record TipOrdering := mkTipOrdering {}.
Definition tip_cmp (self other : Z) : comparison := Z.compare other self.

#[export] Instance TipOrdering_PoolOrd T `{PoolTransaction T} : PoolOrd TipOrdering T := {
  PriorityValue := Z;
  pr_cmp := tip_cmp;
  priority o tx := (pt_tip tx, o);
}.

(** ** [PoolTransaction for ExecutableTxWithHash] *)
Section Executable.
Context {C : Type}.

(** [None] is the [unimplemented!] of the v0 transactions. *)
Definition executable_nonce (tx : ExecutableTxWithHash C) : option Z :=
  match ewh_transaction tx with
  | ExInvoke (InvokeV0 _) => None
  | ExInvoke (InvokeV1 v1) => Some (iv1_nonce v1)
  | ExInvoke (InvokeV3 v3) => Some (iv3_nonce v3)
  | ExL1Handler tx => Some (l1h_nonce tx)
  | ExDeclare tx =>
      match dwc_transaction tx with
      | DeclareV0 _ => None
      | DeclareV1 v1 => Some (dv1_nonce v1)
      | DeclareV2 v2 => Some (dv2_nonce v2)
      | DeclareV3 v3 => Some (dv3_nonce v3)
      end
  | ExDeployAccount (DeployAccountV1 v1) => Some (da1_nonce v1)
  | ExDeployAccount (DeployAccountV3 v3) => Some (da3_nonce v3)
  end.

Definition executable_sender (tx : ExecutableTxWithHash C) : Z :=
  match ewh_transaction tx with
  | ExInvoke (InvokeV0 v0) => iv0_contract_address v0
  | ExInvoke (InvokeV1 v1) => iv1_sender_address v1
  | ExInvoke (InvokeV3 v3) => iv3_sender_address v3
  | ExL1Handler tx => l1h_contract_address tx
  | ExDeclare tx =>
      match dwc_transaction tx with
      | DeclareV0 v0 => dv0_sender_address v0
      | DeclareV1 v1 => dv1_sender_address v1
      | DeclareV2 v2 => dv2_sender_address v2
      | DeclareV3 v3 => dv3_sender_address v3
      end
  | ExDeployAccount tx => deploy_account_contract_address tx
  end.

Definition executable_max_fee (tx : ExecutableTxWithHash C) : Z :=
  match ewh_transaction tx with
  | ExInvoke (InvokeV0 v0) => iv0_max_fee v0
  | ExInvoke (InvokeV1 v1) => iv1_max_fee v1
  | ExInvoke (InvokeV3 _) => 0
  | ExL1Handler tx => l1h_paid_fee_on_l1 tx
  | ExDeclare tx =>
      match dwc_transaction tx with
      | DeclareV0 v0 => dv0_max_fee v0
      | DeclareV1 v1 => dv1_max_fee v1
      | DeclareV2 v2 => dv2_max_fee v2
      | DeclareV3 _ => 0
      end
  | ExDeployAccount (DeployAccountV1 v1) => da1_max_fee v1
  | ExDeployAccount (DeployAccountV3 _) => 0
  end.

Definition executable_tip (tx : ExecutableTxWithHash C) : Z :=
  match ewh_transaction tx with
  | ExInvoke (InvokeV3 v3) => iv3_tip v3
  | ExInvoke _ => 0
  | ExL1Handler _ => 0
  | ExDeclare tx =>
      match dwc_transaction tx with DeclareV3 v3 => dv3_tip v3 | _ => 0 end
  | ExDeployAccount (DeployAccountV3 v3) => da3_tip v3
  | ExDeployAccount _ => 0
  end.

#[export] Instance Executable_PoolTransaction : PoolTransaction (ExecutableTxWithHash C) := {
  pt_hash := ewh_hash;
  pt_nonce := executable_nonce;
  pt_sender := executable_sender;
  pt_max_fee := executable_max_fee;
  pt_tip := executable_tip;
}.
End Executable.

(** ** Validation errors and outcomes ([validation/error.rs], [validation/mod.rs]);
    free-form messages are opaque integers. *)
Inductive InsufficientIntrinsicFeeError :=
  | InsufficientMaxFee (min max_fee : Z)
  | InsufficientResourceBounds (error : Z).

Inductive InsufficientFundsError :=
  | MaxFeeExceedsFunds (max_fee balance : Z)
  | L1GasBoundsExceedFunds (resource max_amount max_price balance : Z)
  | ResourceBoundsExceedFunds (error : Z).

Inductive InvalidTransactionError :=
  | InsufficientFunds (e : InsufficientFundsError)
  | InsufficientIntrinsicFee (e : InsufficientIntrinsicFeeError)
  | ValidationFailure (address class_hash error : Z)
  | NonAccount (address : Z)
  | InvalidNonce (address current_nonce tx_nonce : Z)
  | ClassAlreadyDeclared (class_hash : Z).

Inductive ValidationOutcome (T : Type) :=
  | Valid (tx : T)
  | Invalid (tx : T) (error : InvalidTransactionError)
  | Dependent (tx : T) (tx_nonce current_nonce : Z).
Arguments Valid {T}.
Arguments Invalid {T}.
Arguments Dependent {T}.

(** [validation::Error]: an unexpected failure, with the transaction's hash. *)
Record ValidationError := { verr_hash : Z; verr_error : Z }.

Abbreviation ValidationResult T := (result ValidationError (ValidationOutcome T)).

(** [validate] may change the validator's own state; [None] is a panic. *)
Class Validator (V T : Type) := {
  validate : V -> T -> option (ValidationResult T * V);
}.

(** The default method: validate in order, collecting every result. *)
Fixpoint validate_all {V T} `{Validator V T} (v : V) (txs : list T)
    : option (list (ValidationResult T) * V) :=
  match txs with
  | [] => Some ([], v)
  | tx :: txs =>
      match validate v tx with
      | None => None
      | Some (r, v) =>
          match validate_all v txs with
          | None => None
          | Some (rs, v) => Some (r :: rs, v)
          end
      end
  end.

Record NoopValidator := mkNoopValidator {}.
#[export] Instance Noop_Validator T : Validator NoopValidator T := {
  validate v tx := Some (Ok (Valid tx), v);
}.
