(* ===== verification/BTreeSet.v ===== *)
(** * [std::collections::BTreeSet] as the pool uses it

    A set is the list of its elements in iteration order.  The pool's elements
    are compared with an [Ord] that is neither reflexive nor transitive, so the
    set cannot be modelled as a sorted list of a total order.  What every
    B-tree search guarantees, whatever the shape of the tree, is local: a new
    element is put between a neighbour it compared [Greater] with and a
    neighbour it compared [Less] with.  [BTreeSetImpl] states exactly that, and
    the pool is verified against it.  [linear_insert], the search inside one
    node, is the instance used to run the model. *)

From Stdlib Require Import ZArith Lia.
From stdpp Require Import base list sets sorting.
From S2P Require Import Prelude.

(** [x] sits in a gap of [l] that its comparisons allow. *)
Definition in_gap {A} (cmp : A -> A -> comparison) (x : A) (l1 l2 : list A) : Prop :=
  (forall y, last l1 = Some y -> cmp x y = Gt) /\
  (forall y, head l2 = Some y -> cmp x y = Lt).

Class BTreeSetImpl := {
  bts_insert : forall {A}, (A -> A -> comparison) -> A -> list A -> list A;
  bts_insert_gap : forall {A} (cmp : A -> A -> comparison) x l,
    (forall y, y ∈ l -> cmp x y <> Eq) ->
    exists l1 l2, l = l1 ++ l2 /\ bts_insert cmp x l = l1 ++ x :: l2 /\ in_gap cmp x l1 l2;
}.

(** Search from the left until a comparison is not [Greater]; an equal element
    is kept and the new one dropped. *)
Fixpoint linear_insert {A} (cmp : A -> A -> comparison) (x : A) (l : list A) : list A :=
  match l with
  | [] => [x]
  | y :: l' =>
      match cmp x y with
      | Lt => x :: l
      | Eq => l
      | Gt => y :: linear_insert cmp x l'
      end
  end.

(** [pop_first]. *)
Definition pop_first {A} (l : list A) : option (A * list A) :=
  match l with [] => None | x :: l => Some (x, l) end.

Lemma linear_insert_gap {A} (cmp : A -> A -> comparison) x l :
  (forall y, y ∈ l -> cmp x y <> Eq) ->
  exists l1 l2, l = l1 ++ l2 /\ linear_insert cmp x l = l1 ++ x :: l2 /\ in_gap cmp x l1 l2.
Proof.
  induction l as [|y l IH]; intros Hne.
  - exists [], []. by repeat split.
  - simpl. destruct (cmp x y) eqn:E.
    + exfalso. by apply (Hne y); [left|].
    + exists [], (y :: l). repeat split; [done|]. simpl. by intros ? [= <-].
    + destruct IH as (l1 & l2 & -> & Heq & Hlast & Hhead).
      { intros z Hz. apply Hne. by right. }
      exists (y :: l1), l2. rewrite Heq. repeat split; [|done].
      intros z. destruct l1; [simpl; by intros [= <-] | apply Hlast].
Qed.

#[export] Instance linear_BTreeSet : BTreeSetImpl := {
  bts_insert A := linear_insert;
  bts_insert_gap A := linear_insert_gap;
}.

Section Facts.
Context `{BTreeSetImpl} {A : Type} (cmp : A -> A -> comparison).
Hypothesis cmp_ne : forall x y, cmp x y <> Eq.

(** A comparison that never answers [Equal] makes every insertion succeed. *)
Lemma bts_insert_perm x l : bts_insert cmp x l ≡ₚ x :: l.
Proof.
  destruct (bts_insert_gap cmp x l) as (l1 & l2 & -> & -> & _); [by intros|].
  by rewrite Permutation_middle.
Qed.

(** An element above every other one is appended, whatever the tree's shape. *)
Lemma bts_insert_max x l : (forall y, y ∈ l -> cmp x y = Gt) -> bts_insert cmp x l = l ++ [x].
Proof.
  intros Hgt. destruct (bts_insert_gap cmp x l) as (l1 & l2 & -> & -> & _ & Hh); [by intros|].
  destruct l2 as [|y l2]; [by rewrite app_nil_r|].
  specialize (Hh y eq_refl). rewrite Hgt in Hh; [done|].
  apply elem_of_app. right. by left.
Qed.

(** Where the comparisons with [x] cut the set in two, the position is unique. *)
Lemma bts_insert_cut x l1 l2 :
  (forall y, y ∈ l1 -> cmp x y = Gt) -> (forall y, y ∈ l2 -> cmp x y = Lt) ->
  bts_insert cmp x (l1 ++ l2) = l1 ++ x :: l2.
Proof.
  intros H1 H2.
  destruct (bts_insert_gap cmp x (l1 ++ l2)) as (k1 & k2 & Heq & -> & Hl & Hh); [by intros|].
  destruct (app_eq_app _ _ _ _ Heq) as [k [[-> ->]|[-> ->]]].
  - (* the gap is inside l1 *)
    destruct k as [|y k]; [by rewrite app_nil_r|].
    specialize (Hh y eq_refl). rewrite H1 in Hh; [done|]. set_solver.
  - destruct k as [|y k _] using rev_ind; [by rewrite app_nil_r|].
    specialize (Hl y). rewrite app_assoc, last_snoc in Hl. specialize (Hl eq_refl).
    rewrite H2 in Hl; [done|]. set_solver.
Qed.
End Facts.
