(* ===== verification/Pool.v ===== *)
(** * The transaction pool ([crates/pool/src/pool.rs], [pending.rs], [subscription.rs], [lib.rs])

    The pool's state is [Pool]: the ordered set of pending transactions, the
    listeners, the subscribers and the validator and ordering it was built
    with.  A subscriber is the sending half of an unbounded channel whose
    receiving half a [Subscription] holds, so both refer to the same entry of
    the channel store [chans].  The channel crates are interfaces
    ([UnboundedChannel] for tokio's unbounded mpsc, [try_send] for a bounded
    listener); a panic is [None]. *)

From Stdlib Require Import ZArith Lia.
From stdpp Require Import base numbers list sets.
From S2P Require Import Prelude Felt Tx PoolTypes BTreeSet.

(** ** Channels *)
Inductive Poll (A : Type) := Ready (a : A) | Pending.
Arguments Ready {A} a.
Arguments Pending {A}.

(** An unbounded channel: what was sent and not yet received, in order, whether the
    receiving half is still alive, and whether the channel itself will wake the task that
    polled it.  A poll of tokio's receiver may fail spuriously: it is then pending although
    messages are there, takes none of them, and its task is woken once the cause is gone. *)
Class UnboundedChannel (M : Type) := {
  chan : Type;
  chan_new : chan;
  chan_queue : chan -> list M;
  chan_open : chan -> bool;
  chan_rewakes : chan -> bool;
  chan_send : chan -> M -> option chan;
  chan_poll_recv : chan -> Poll (option M) * chan;
  chan_new_queue : chan_queue chan_new = [];
  chan_new_open : chan_open chan_new = true;
  chan_send_open c m : chan_open c = true ->
    exists c', chan_send c m = Some c' /\ chan_queue c' = chan_queue c ++ [m] /\
               chan_open c' = true;
  chan_send_closed c m : chan_open c = false -> chan_send c m = None;
  chan_recv_cons c m q : chan_queue c = m :: q ->
    exists c', chan_open c' = chan_open c /\
      ((chan_poll_recv c = (Ready (Some m), c') /\ chan_queue c' = q /\ chan_rewakes c' = false) \/
       (chan_poll_recv c = (Pending, c') /\ chan_queue c' = m :: q /\ chan_rewakes c' = true));
  chan_recv_nil c : chan_queue c = [] ->
    ((chan_poll_recv c).1 = Ready None \/ (chan_poll_recv c).1 = Pending) /\
    chan_queue (chan_poll_recv c).2 = [] /\ chan_open (chan_poll_recv c).2 = chan_open c;
}.
Arguments chan M {_}.

(** The instance used to run the model: the queue, the receiver's liveness, and how many
    of the next polls on a queue with messages fail spuriously. *)
Record QueueChan (M : Type) := mkQueueChan {
  qc_queue : list M; qc_open : bool; qc_rewakes : bool; qc_failures : nat }.
Arguments mkQueueChan {M}.
Arguments qc_queue {M}.
Arguments qc_open {M}.
Arguments qc_rewakes {M}.
Arguments qc_failures {M}.

Definition failing_channel (failures : nat) M : UnboundedChannel M.
Proof.
  refine {|
    chan := QueueChan M;
    chan_new := mkQueueChan [] true false failures;
    chan_queue := qc_queue;
    chan_open := qc_open;
    chan_rewakes := qc_rewakes;
    chan_send c m :=
      if qc_open c then Some (mkQueueChan (qc_queue c ++ [m]) true (qc_rewakes c) (qc_failures c)) else None;
    chan_poll_recv c :=
      match qc_queue c, qc_failures c with
      | [], _ => (Pending, c)
      | m :: q, 0%nat => (Ready (Some m), mkQueueChan q (qc_open c) false 0)
      | _ :: _, S n => (Pending, mkQueueChan (qc_queue c) (qc_open c) true n)
      end;
  |}.
  all: try done.
  - intros c m ->. eauto.
  - by intros c m ->.
  - intros c m q ->. destruct (qc_failures c); eexists; (split; [|eauto]); done.
  - intros c Hq. rewrite Hq. auto.
Defined.
#[export] Instance queue_channel M : UnboundedChannel M := failing_channel 0 M.

(** The answer of [futures::channel::mpsc::Sender::try_send]. *)
Inductive TrySend := SendOk | SendFull | SendDisconnected.

(** ** The retain loop over a [Vec], [for n in (0..v.len()).rev()] *)

(** [Vec::swap_remove]: the removed element is replaced by the last one;
    [None] is the out-of-bounds panic. *)
Definition swap_remove {A} (n : nat) (v : list A) : option (A * list A) :=
  match v !! n, last v with
  | Some x, Some l => Some (x, take (length v - 1) (<[n := l]> v))
  | _, _ => None
  end.

(** One pass: take element [n-1] out, send to it, push it back if retained. *)
Fixpoint retain_rev {A St} (send : A -> St -> bool * A * St) (n : nat) (v : list A) (s : St)
    : option (list A * St) :=
  match n with
  | 0%nat => Some (v, s)
  | S n =>
      match swap_remove n v with
      | None => None
      | Some (x, v) =>
          let '(retain, x, s) := send x s in
          retain_rev send n (if retain then v ++ [x] else v) s
      end
  end.

(** ** The pool *)
Inductive PoolError :=
  | InvalidTransaction (e : InvalidTransactionError)
  | Internal (e : Z).

Section Pool.
Context {T V O L : Type}.
Context `{PT : PoolTransaction T} `{VA : Validator V T} `{PO : PoolOrd O T}.
Context `{BT : BTreeSetImpl} `{CH : UnboundedChannel (PendingTx T (PriorityValue O T))}.
(** A listener's bounded channel. *)
Variable try_send : L -> Z -> TrySend * L.

Abbreviation PTx := (PendingTx T (PriorityValue O T)).

Record Pool := mkPool {
  transactions : list PTx;
  listeners : list L;
  subscribers : list nat;
  chans : list (chan PTx);
  validator : V;
  ordering : O;
}.

Definition pool_new (validator : V) (ordering : O) : Pool :=
  mkPool [] [] [] [] validator ordering.

Definition set_transactions (p : Pool) (txs : list PTx) : Pool :=
  mkPool txs (listeners p) (subscribers p) (chans p) (validator p) (ordering p).

(** A full listener is kept (the notification is lost), a closed one dropped. *)
Definition send_listener (hash : Z) (l : L) (s : unit) : bool * L * unit :=
  match try_send l hash with
  | (SendOk, l) => (true, l, s)
  | (SendFull, l) => (true, l, s)
  | (SendDisconnected, l) => (false, l, s)
  end.

Definition notify_listener (hash : Z) (p : Pool) : option Pool :=
  match retain_rev (send_listener hash) (length (listeners p)) (listeners p) tt with
  | None => None
  | Some (ls, _) =>
      Some (mkPool (transactions p) ls (subscribers p) (chans p) (validator p) (ordering p))
  end.

(** [sender.send(tx.clone())] through the channel store. *)
Definition send_subscriber (tx : PTx) (id : nat) (store : list (chan PTx))
    : bool * nat * list (chan PTx) :=
  match store !! id with
  | Some c =>
      match chan_send c tx with
      | Some c => (true, id, <[id := c]> store)
      | None => (false, id, store)
      end
  | None => (false, id, store)
  end.

Definition notify_subscribers (tx : PTx) (p : Pool) : option Pool :=
  match retain_rev (send_subscriber tx) (length (subscribers p)) (subscribers p) (chans p) with
  | None => None
  | Some (subs, store) =>
      Some (mkPool (transactions p) (listeners p) subs store (validator p) (ordering p))
  end.

Definition notify (tx : PTx) (p : Pool) : option Pool :=
  match notify_listener (pt_hash (ptx_tx tx)) p with
  | None => None
  | Some p => notify_subscribers tx p
  end.

(** *** [TransactionPool] *)

(** The insertion into the ordered set, under the transactions lock. *)
Definition insert_tx (tx : PTx) (p : Pool) : Pool :=
  set_transactions p (bts_insert pending_cmp tx (transactions p)).

Definition add_transaction (now : Z) (tx : T) (p : Pool) : option (result PoolError Z * Pool) :=
  let hash := pt_hash tx in
  match pt_nonce tx with
  | None => None
  | Some nonce =>
      let id := {| txid_sender := pt_sender tx; txid_nonce := nonce |} in
      match validate (validator p) tx with
      | None => None
      | Some (outcome, v) =>
          let p := mkPool (transactions p) (listeners p) (subscribers p) (chans p) v
                     (ordering p) in
          match outcome with
          | Ok (Valid tx) =>
              let '(prio, o) := priority (ordering p) tx in
              let p := mkPool (transactions p) (listeners p) (subscribers p) (chans p)
                         (validator p) o in
              let tx := mkPendingTx id tx prio now in
              match notify tx (insert_tx tx p) with
              | None => None
              | Some p => Some (Ok hash, p)
              end
          | Ok (Invalid _ error) => Some (Err (InvalidTransaction error), p)
          | Ok (Dependent tx tx_nonce current_nonce) =>
              Some (Err (InvalidTransaction
                           (InvalidNonce (pt_sender tx) current_nonce tx_nonce)), p)
          | Err error => Some (Err (Internal (verr_error error)), p)
          end
      end
  end.

Definition pool_get (hash : Z) (p : Pool) : option T :=
  ptx_tx <$> List.find (fun tx => Z.eqb (pt_hash (ptx_tx tx)) hash) (transactions p).

Definition contains (hash : Z) (p : Pool) : bool :=
  match pool_get hash p with Some _ => true | None => false end.

Definition remove_transactions (hashes : list Z) (p : Pool) : Pool :=
  set_transactions p
    (filter (fun t => ~ pt_hash (ptx_tx t) ∈ hashes) (transactions p)).

Definition size (p : Pool) : Z := Z.of_nat (length (transactions p)).

Definition add_listener (l : L) (p : Pool) : Pool :=
  mkPool (transactions p) (listeners p ++ [l]) (subscribers p) (chans p) (validator p)
    (ordering p).

(** *** Subscriptions *)
Record Subscription := mkSubscription {
  sub_txs : list PTx;
  sub_receiver : nat;
}.

Definition subscribe (p : Pool) : Subscription * Pool :=
  let id := length (chans p) in
  (mkSubscription [] id,
   mkPool (transactions p) (listeners p) (subscribers p ++ [id]) (chans p ++ [chan_new])
     (validator p) (ordering p)).

Record PendingTransactions := mkPendingTransactions {
  pend_all : list PTx;
  pend_subscription : Subscription;
}.

(** The struct fields are evaluated in order: subscribe first, snapshot second. *)
Definition pending_transactions (p : Pool) : PendingTransactions * Pool :=
  let '(subscription, p) := subscribe p in
  (mkPendingTransactions (transactions p) subscription, p).

(** [while let Poll::Ready(Some(tx)) = receiver.poll_recv(cx)]; the fuel bounds
    the number of messages in the channel. *)
Fixpoint drain (fuel : nat) (txs : list PTx) (c : chan PTx) : list PTx * chan PTx :=
  match fuel with
  | 0%nat => (txs, c)
  | S fuel =>
      match chan_poll_recv c with
      | (Ready (Some tx), c) => drain fuel (bts_insert pending_cmp tx txs) c
      | (_, c) => (txs, c)
      end
  end.

(** The [loop] of [Subscription::poll_next] on its buffer and its channel;
    [None] when the fuel runs out. *)
Fixpoint subscription_poll (fuel : nat) (txs : list PTx) (c : chan PTx)
    : option (Poll (option PTx) * list PTx * chan PTx) :=
  match fuel with
  | 0%nat => None
  | S fuel =>
      match pop_first txs with
      | Some (tx, txs) => Some (Ready (Some tx), txs, c)
      | None =>
          match chan_poll_recv c with
          | (Ready (Some tx), c) =>
              let '(txs, c) :=
                drain (S (length (chan_queue c))) (bts_insert pending_cmp tx txs) c in
              subscription_poll fuel txs c
          | (Ready None, c) => Some (Ready None, txs, c)
          | (Pending, c) => Some (Pending, txs, c)
          end
      end
  end.

(** [PendingTransactions::poll_next]: the snapshot first, then the subscription. *)
Definition pending_poll (fuel : nat) (all txs : list PTx) (c : chan PTx)
    : option (Poll (option PTx) * list PTx * list PTx * chan PTx) :=
  match all with
  | tx :: all => Some (Ready (Some tx), all, txs, c)
  | [] =>
      match subscription_poll fuel txs c with
      | Some (r, txs, c) => Some (r, [], txs, c)
      | None => None
      end
  end.
End Pool.
Arguments Pool T V O L {_ _}.
