(* ===== verification/PoolProofs.v ===== *)
(** * Properties of the transaction pool

    The retain loop, the operations of [TransactionPool] on every branch, the
    order of the pool under [FiFo], the delivery guarantees of the pending
    stream, and what the [Ord] implementation does not satisfy. *)

From Stdlib Require Import ZArith Lia.
From stdpp Require Import base numbers list sets.
From S2P Require Import Prelude Felt Tx PoolTypes BTreeSet Pool.

(** ** The retain loop *)

(** The reference: send to each element in the given order, keep the retained. *)
Fixpoint visit_all {A St} (send : A -> St -> bool * A * St) (l : list A) (s : St)
    : list A * St :=
  match l with
  | [] => ([], s)
  | x :: l =>
      let '(retain, x, s) := send x s in
      let '(kept, s) := visit_all send l s in
      (if retain then x :: kept else kept, s)
  end.

Lemma swap_remove_mid {A} (w v : list A) x :
  exists v', swap_remove (length w) (w ++ x :: v) = Some (x, w ++ v') /\ v' ≡ₚ v.
Proof.
  unfold swap_remove. rewrite list_lookup_middle by done.
  destruct v as [|y v _] using rev_ind.
  - exists []. rewrite last_snoc, length_app. simpl.
    rewrite insert_app_r_alt by lia. rewrite Nat.sub_diag. simpl.
    rewrite app_nil_r. split; [|done]. do 2 f_equal.
    replace (length w + 1 - 1)%nat with (length w) by lia. by rewrite take_app_length.
  - exists (y :: v). split; [|by rewrite Permutation_cons_append].
    rewrite app_comm_cons, app_assoc, last_snoc. rewrite !length_app. simpl.
    do 2 f_equal. rewrite <- app_assoc, insert_app_r_alt by lia.
    rewrite Nat.sub_diag. simpl.
    replace (length w + S (length v) + 1 - 1)%nat with (length w + S (length v))%nat by lia.
    rewrite take_app_add. simpl. by rewrite take_app_length.
Qed.

(** The loop visits every element exactly once, from the last to the first, and
    never indexes out of bounds. *)
Lemma retain_rev_spec {A St} (send : A -> St -> bool * A * St) w v s :
  exists v', retain_rev send (length w) (w ++ v) s
             = Some (v', (visit_all send (reverse w) s).2) /\
             v' ≡ₚ v ++ (visit_all send (reverse w) s).1.
Proof.
  revert v s. induction w as [|x w IH] using rev_ind; intros v s.
  - exists v. simpl. by rewrite app_nil_r.
  - rewrite length_app, Nat.add_1_r, reverse_snoc, <- app_assoc. simpl.
    destruct (swap_remove_mid w v x) as (v' & -> & Hv).
    destruct (send x s) as [[retain x'] s'].
    destruct (IH (v' ++ (if retain then [x'] else [])) s') as (r & Hr & Hperm).
    destruct (visit_all send (reverse w) s') as [kept s'']. simpl in *.
    exists r. split.
    + destruct retain; [rewrite <- app_assoc | rewrite app_nil_r in Hr]; done.
    + rewrite Hperm, Hv. destruct retain; [|by rewrite app_nil_r].
      by rewrite <- app_assoc.
Qed.

Lemma retain_rev_all {A St} (send : A -> St -> bool * A * St) v s :
  exists v', retain_rev send (length v) v s = Some (v', (visit_all send (reverse v) s).2) /\
             v' ≡ₚ (visit_all send (reverse v) s).1.
Proof.
  destruct (retain_rev_spec send v [] s) as (v' & Hr & Hp). rewrite app_nil_r in Hr. eauto.
Qed.

(** ** The comparison of pending transactions *)
Section Cmp.
Context {O T : Type} `{PO : PoolOrd O T}.

Lemma pending_cmp_ne (x y : PendingTx T (PriorityValue O T)) : pending_cmp x y <> Eq.
Proof. unfold pending_cmp. case_decide; by destruct_match_goal. Qed.

Lemma pending_cmp_refl (x : PendingTx T (PriorityValue O T)) : pending_cmp x x = Gt.
Proof. unfold pending_cmp. rewrite decide_True by done. by rewrite Z.compare_refl. Qed.
End Cmp.
#[export] Hint Resolve pending_cmp_ne : katana.

Section Proofs.
Context {T V O L : Type}.
Context `{PT : PoolTransaction T} `{VA : Validator V T} `{PO : PoolOrd O T}.
Context `{BT : BTreeSetImpl} `{CH : UnboundedChannel (PendingTx T (PriorityValue O T))}.
Variable try_send : L -> Z -> TrySend * L.
Abbreviation PTx := (PendingTx T (PriorityValue O T)).
Implicit Types (p : Pool T V O L) (tx : T) (ptx : PTx).

Lemma insert_tx_perm ptx p : transactions (insert_tx ptx p) ≡ₚ ptx :: transactions p.
Proof. simpl. apply bts_insert_perm. auto with katana. Qed.

(** *** Notifications *)

(** What a listener becomes: [None] when it is dropped. *)
Definition notified (hash : Z) (l : L) : option L :=
  match try_send l hash with
  | (SendDisconnected, _) => None
  | (_, l) => Some l
  end.

Lemma visit_listeners hash ls s :
  visit_all (send_listener try_send hash) ls s = (omap (notified hash) ls, s).
Proof.
  induction ls as [|l ls IH] in s |- *; [done|]. simpl. unfold send_listener, notified.
  destruct (try_send l hash) as [[] l']; rewrite IH; done.
Qed.

Lemma notify_listener_spec hash p :
  exists ls, notify_listener try_send hash p
    = Some (mkPool (transactions p) ls (subscribers p) (chans p) (validator p) (ordering p)) /\
    ls ≡ₚ omap (notified hash) (listeners p).
Proof.
  unfold notify_listener.
  destruct (retain_rev_all (send_listener try_send hash) (listeners p) tt) as (v' & -> & Hp).
  rewrite visit_listeners in Hp. simpl in Hp. eexists. split; [done|].
  rewrite Hp. by rewrite reverse_Permutation.
Qed.

Lemma notify_subscribers_spec ptx p :
  exists subs, notify_subscribers ptx p
    = Some (mkPool (transactions p) (listeners p) subs
              (visit_all (send_subscriber ptx) (reverse (subscribers p)) (chans p)).2
              (validator p) (ordering p)) /\
    subs ≡ₚ (visit_all (send_subscriber ptx) (reverse (subscribers p)) (chans p)).1.
Proof.
  unfold notify_subscribers.
  destruct (retain_rev_all (send_subscriber ptx) (subscribers p) (chans p)) as (v' & -> & Hp).
  eauto.
Qed.

(** Sending to distinct ids touches exactly their channels, once each. *)
Lemma visit_subscribers_lookup ptx ids (store : list (chan PTx)) i c :
  NoDup ids -> store !! i = Some c ->
  (visit_all (send_subscriber ptx) ids store).2 !! i
  = Some (if decide (i ∈ ids) then default c (chan_send c ptx) else c).
Proof.
  intros Hnd. revert store c. induction Hnd as [|j ids Hj Hnd IH]; intros store c Hi; [done|].
  simpl.
  destruct (send_subscriber ptx j store) as [[retain j'] store'] eqn:Esend.
  assert (store' !! i = Some (if decide (i = j) then default c (chan_send c ptx) else c)) as Hi'.
  { unfold send_subscriber in Esend. destruct (decide (i = j)) as [->|Hne].
    - rewrite Hi in Esend. destruct (chan_send c ptx) as [c'|]; injection Esend as <- <- <-.
      + rewrite list_lookup_insert_eq by (by eapply lookup_lt_Some). done.
      + done.
    - destruct (store !! j) as [cj|]; [destruct (chan_send cj ptx) as [c'|]|];
        injection Esend as <- <- <-; [by rewrite list_lookup_insert_ne|done|done]. }
  specialize (IH store' _ Hi').
  destruct (visit_all (send_subscriber ptx) ids store') as [kept store'']; simpl in *.
  rewrite IH. case_decide as Hij; subst.
  - rewrite decide_False by done. by rewrite decide_True by (by left).
  - f_equal. apply decide_ext. set_solver.
Qed.

Lemma send_subscriber_id ptx i store : (send_subscriber ptx i store).1.2 = i.
Proof. unfold send_subscriber. by repeat destruct_match_goal. Qed.

Lemma visit_subscribers_sublist ptx ids (store : list (chan PTx)) :
  (visit_all (send_subscriber ptx) ids store).1 `sublist_of` ids.
Proof.
  revert store. induction ids as [|i ids IH]; intros store; [done|]. simpl.
  pose proof (send_subscriber_id ptx i store) as Hid.
  destruct (send_subscriber ptx i store) as [[retain i'] store']. simpl in Hid. subst i'.
  specialize (IH store'). destruct (visit_all _ ids store') as [kept ?]. simpl in *.
  destruct retain; by constructor.
Qed.

Lemma visit_subscribers_kept ptx ids (store : list (chan PTx)) i c :
  NoDup ids -> i ∈ ids -> store !! i = Some c -> chan_open c = true ->
  i ∈ (visit_all (send_subscriber ptx) ids store).1.
Proof.
  intros Hnd. revert store. induction Hnd as [|j ids Hj Hnd IH]; intros store Hin Hi Ho;
    [by apply not_elem_of_nil in Hin|].
  simpl. unfold send_subscriber.
  apply elem_of_cons in Hin as [->|Hin].
  - rewrite Hi. destruct (chan_send_open c ptx Ho) as (c' & -> & _).
    destruct (visit_all _ ids _). by left.
  - assert (i <> j) by (by intros ->).
    destruct (store !! j) as [cj|]; [destruct (chan_send cj ptx) as [c'|]|].
    + specialize (IH (<[j:=c']> store) Hin). rewrite list_lookup_insert_ne in IH by done.
      unfold send_subscriber in IH. destruct (visit_all _ ids _). right. by apply IH.
    + specialize (IH store Hin). unfold send_subscriber in IH. destruct (visit_all _ ids _).
      by apply IH.
    + specialize (IH store Hin). unfold send_subscriber in IH. destruct (visit_all _ ids _).
      by apply IH.
Qed.

(** The subscriber ids are distinct and name channels of the store. *)
Definition pool_wf (p : Pool T V O L) : Prop :=
  NoDup (subscribers p) /\ Forall (fun i => (i < length (chans p))%nat) (subscribers p).

Lemma chan_send_sent c ptx :
  chan_open c = true -> chan_queue (default c (chan_send c ptx)) = chan_queue c ++ [ptx] /\
  chan_open (default c (chan_send c ptx)) = true.
Proof. intros Ho. by destruct (chan_send_open c ptx Ho) as (c' & -> & ? & ?). Qed.

(** The whole effect of [notify] on a well-formed pool. *)
Lemma notify_spec ptx p :
  pool_wf p ->
  exists p', notify try_send ptx p = Some p' /\
    transactions p' = transactions p /\ validator p' = validator p /\
    ordering p' = ordering p /\
    listeners p' ≡ₚ omap (notified (pt_hash (ptx_tx ptx))) (listeners p) /\
    (forall i, i ∈ subscribers p' -> i ∈ subscribers p) /\ NoDup (subscribers p') /\
    (forall i c, chans p !! i = Some c ->
       chans p' !! i = Some (if decide (i ∈ subscribers p) then default c (chan_send c ptx) else c)) /\
    (forall i c, i ∈ subscribers p -> chans p !! i = Some c -> chan_open c = true ->
       i ∈ subscribers p').
Proof.
  intros [Hnd Hlt]. unfold notify.
  destruct (notify_listener_spec (pt_hash (ptx_tx ptx)) p) as (ls & -> & Hls).
  match goal with |- context [notify_subscribers ptx ?q] =>
    destruct (notify_subscribers_spec ptx q) as (subs & -> & Hsubs) end.
  simpl in Hsubs. eexists. split; [done|]. simpl.
  assert (NoDup (reverse (subscribers p))) as Hnd' by (by rewrite reverse_Permutation).
  pose proof (visit_subscribers_sublist ptx (reverse (subscribers p)) (chans p)) as Hsub.
  repeat split; try done.
  - intros i Hi. rewrite Hsubs in Hi. eapply elem_of_reverse, elem_of_sublist; eauto.
  - rewrite Hsubs. by eapply sublist_NoDup.
  - intros i c Hc. rewrite (visit_subscribers_lookup _ _ _ _ c) by done.
    f_equal. apply decide_ext. apply elem_of_reverse.
  - intros i c Hi Hc Ho. rewrite Hsubs. eapply visit_subscribers_kept; eauto.
    by apply elem_of_reverse.
Qed.

(** Notifying never indexes out of bounds and reaches everyone exactly
    once: each listener is sent the hash and dropped only if its channel is
    closed, each subscriber's channel receives the transaction once, no other
    channel changes, and the pending set is untouched. *)
Theorem notify_exactly_once ptx p :
  pool_wf p ->
  exists p', notify try_send ptx p = Some p' /\
    transactions p' = transactions p /\
    listeners p' ≡ₚ omap (notified (pt_hash (ptx_tx ptx))) (listeners p) /\
    forall i c, chans p !! i = Some c -> chan_open c = true ->
      exists c', chans p' !! i = Some c' /\
        chan_queue c' = chan_queue c ++ (if decide (i ∈ subscribers p) then [ptx] else []).
Proof.
  intros Hwf. destruct (notify_spec ptx p Hwf) as (p' & -> & Ht & _ & _ & Hl & _ & _ & Hc & _).
  exists p'. repeat split; try done. intros i c Hi Ho. eexists. split; [by apply Hc|].
  case_decide; [by apply chan_send_sent | by rewrite app_nil_r].
Qed.

(** *** [add_transaction] *)
Definition pending_of (now : Z) (tx : T) (nonce : Z) (tx' : T) (p : Pool T V O L) : PTx :=
  mkPendingTx {| txid_sender := pt_sender tx; txid_nonce := nonce |} tx'
    (priority (ordering p) tx').1 now.

Lemma add_transaction_valid_spec now tx nonce tx' v' p :
  pool_wf p -> pt_nonce tx = Some nonce -> validate (validator p) tx = Some (Ok (Valid tx'), v') ->
  exists p', add_transaction try_send now tx p = Some (Ok (pt_hash tx), p') /\
    transactions p'
    = bts_insert pending_cmp (pending_of now tx nonce tx' p) (transactions p) /\
    validator p' = v' /\ ordering p' = (priority (ordering p) tx').2 /\ pool_wf p'.
Proof.
  intros Hwf Hn Hv. unfold add_transaction, pending_of. rewrite Hn, Hv. simpl.
  destruct (priority (ordering p) tx') as [prio o] eqn:Hp. simpl.
  match goal with |- context [notify _ ?q (insert_tx ?q ?r)] =>
    destruct (notify_spec q (insert_tx q r)) as
      (p' & -> & Ht & Hva & Ho & _ & Hs & Hnd & Hc & _); [exact Hwf|] end.
  exists p'. repeat split; try done. simpl in *. destruct Hwf as [_ Hlt].
  rewrite Forall_forall in *. intros i Hi. apply Hs, Hlt in Hi.
  apply lookup_lt_is_Some in Hi as [c Hlk]. eapply lookup_lt_Some. by apply Hc.
Qed.

(** A transaction the validator accepts is added: the call answers with
    its hash, the pending set grows by exactly that transaction (whatever its
    priority, a tie never overwrites), and the pool then contains it. *)
Theorem add_transaction_valid now tx nonce v' p :
  pool_wf p -> pt_nonce tx = Some nonce -> validate (validator p) tx = Some (Ok (Valid tx), v') ->
  exists p', add_transaction try_send now tx p = Some (Ok (pt_hash tx), p') /\
    transactions p' ≡ₚ pending_of now tx nonce tx p :: transactions p /\
    size p' = size p + 1 /\ contains (pt_hash tx) p' = true.
Proof.
  intros Hwf Hn Hv. destruct (add_transaction_valid_spec now _ _ _ _ _ Hwf Hn Hv)
    as (p' & -> & Ht & _). exists p'.
  assert (transactions p' ≡ₚ pending_of now tx nonce tx p :: transactions p) as Hperm.
  { rewrite Ht. apply bts_insert_perm. auto with katana. }
  repeat split; [done|..].
  - unfold size. rewrite (Permutation_length Hperm). simpl. lia.
  - unfold contains, pool_get. destruct (List.find _ _) as [y|] eqn:Hf; [done|].
    exfalso. eapply find_none in Hf.
    2: { apply list_elem_of_In. rewrite Hperm. left. }
    simpl in Hf. by rewrite Z.eqb_refl in Hf.
Qed.

(** A transaction that is not accepted leaves the pending set, the
    listeners, the subscribers, their channels and the ordering untouched,
    and the error tells why: the validator's reason, an invalid nonce for a
    dependent transaction, or an internal error. *)
Theorem add_transaction_rejected now tx nonce r v' p :
  pt_nonce tx = Some nonce -> validate (validator p) tx = Some (r, v') ->
  (forall tx', r <> Ok (Valid tx')) ->
  exists e, add_transaction try_send now tx p
    = Some (Err e, mkPool (transactions p) (listeners p) (subscribers p) (chans p) v'
                     (ordering p)) /\
    match r with
    | Ok (Invalid _ error) => e = InvalidTransaction error
    | Ok (Dependent tx' n c) => e = InvalidTransaction (InvalidNonce (pt_sender tx') c n)
    | Ok (Valid _) => False
    | Err error => e = Internal (verr_error error)
    end.
Proof.
  intros Hn Hv Hr. unfold add_transaction. rewrite Hn, Hv.
  destruct r as [[tx'|tx' e|tx' n c]|e]; [by destruct (Hr tx')|eauto..].
Qed.

(** *** Invariant *)
Lemma add_transaction_wf now tx p r p' :
  pool_wf p -> add_transaction try_send now tx p = Some (r, p') -> pool_wf p'.
Proof.
  intros Hwf. pose proof (add_transaction_valid_spec now tx) as Hvalid.
  unfold add_transaction in *. destruct (pt_nonce tx) as [nonce|] eqn:Hn; [|done].
  destruct (validate (validator p) tx) as [[[[tx'|tx' e|tx' n c]|e] v']|] eqn:Hv; intros Hadd;
    [|simplify_eq; exact Hwf..|done].
  destruct (Hvalid nonce tx' v' p Hwf eq_refl Hv) as (q & Heq & _ & _ & _ & Hq).
  rewrite Hv in Heq. rewrite Heq in Hadd. by simplify_eq.
Qed.

Lemma subscribe_wf p : pool_wf p -> pool_wf (subscribe p).2.
Proof.
  intros [Hnd Hlt]. rewrite Forall_forall in Hlt. split; simpl.
  - apply NoDup_app. repeat split; [done| |apply NoDup_singleton].
    intros i Hi ->%list_elem_of_singleton. apply Hlt in Hi. lia.
  - apply Forall_forall. intros i Hi. rewrite length_app. simpl.
    apply elem_of_app in Hi as [Hi%Hlt| ->%list_elem_of_singleton]; lia.
Qed.

(** The subscriber table stays consistent: adding, removing, listening and
    taking the pending stream keep the ids distinct and within the store. *)
Theorem pool_wf_preserved p :
  pool_wf p ->
  (forall now tx r p', add_transaction try_send now tx p = Some (r, p') -> pool_wf p') /\
  (forall hashes, pool_wf (remove_transactions hashes p)) /\
  (forall l, pool_wf (add_listener l p)) /\
  pool_wf (pending_transactions p).2.
Proof.
  intros Hwf. repeat split.
  1,2: eapply add_transaction_wf; eauto.
  1-4: apply Hwf.
  1,2: unfold pending_transactions; simpl; apply (subscribe_wf p Hwf).
Qed.

(** *** Removal *)

(** Removing hashes keeps exactly the other transactions, in their order;
    a removed hash is no longer found and any other lookup is unchanged. *)
Theorem remove_transactions_spec hashes p :
  transactions (remove_transactions hashes p)
    = filter (fun t => ~ pt_hash (ptx_tx t) ∈ hashes) (transactions p) /\
  (forall h, h ∈ hashes -> contains h (remove_transactions hashes p) = false) /\
  (forall h, ~ h ∈ hashes -> pool_get h (remove_transactions hashes p) = pool_get h p).
Proof.
  split; [done|]. unfold contains, pool_get, remove_transactions. simpl.
  set (l := transactions p). clearbody l. split; intros h Hh.
  - destruct (List.find _ _) as [y|] eqn:Hf; [|done].
    apply find_some in Hf as [Hin Heq]. apply Z.eqb_eq in Heq. subst.
    apply list_elem_of_In, list_elem_of_filter in Hin as [Hn _]. done.
  - f_equal. induction l as [|y l IH]; [done|].
    destruct (decide (pt_hash (ptx_tx y) ∈ hashes)) as [Hy|Hy].
    + rewrite filter_cons_False by tauto. simpl.
      destruct (Z.eqb_spec (pt_hash (ptx_tx y)) h); [congruence|done].
    + rewrite filter_cons_True by tauto. simpl. by rewrite IH.
Qed.
End Proofs.

(** ** A runnable pool *)
Definition demo_tx (hash sender nonce tip : Z) : ExecutableTxWithHash unit :=
  {| ewh_hash := hash;
     ewh_transaction := ExInvoke (InvokeV3 {|
       iv3_chain_id := Id 1; iv3_sender_address := sender; iv3_nonce := nonce;
       iv3_calldata := []; iv3_signature := [];
       iv3_resource_bounds := L1Gas ResourceBounds_ZERO;
       iv3_tip := tip; iv3_paymaster_data := []; iv3_account_deployment_data := [];
       iv3_nonce_da_mode := DaL1; iv3_fee_da_mode := DaL1 |}) |}.

(** A listener that refuses when its flag is off, a pool with one subscriber. *)
Definition demo_try_send (l : bool) (_ : Z) : TrySend * bool :=
  if l then (SendOk, l) else (SendDisconnected, l).
Abbreviation DemoPool := (Pool (ExecutableTxWithHash unit) NoopValidator FiFo bool).
Definition demo_pool : DemoPool :=
  (subscribe (add_listener false (pool_new mkNoopValidator FiFo_new))).2.

Lemma demo_pool_wf : pool_wf demo_pool.
Proof. apply subscribe_wf. split; constructor. Qed.

Definition demo_pending : PendingTx (ExecutableTxWithHash unit)
    (PriorityValue FiFo (ExecutableTxWithHash unit)) :=
  mkPendingTx {| txid_sender := 1; txid_nonce := 0 |} (demo_tx 7 1 0 0) 0 0.

Lemma notify_exactly_once_witness :
  exists p', notify demo_try_send demo_pending demo_pool = Some p' /\ listeners p' ≡ₚ [].
Proof.
  destruct (notify_exactly_once demo_try_send demo_pending demo_pool demo_pool_wf)
    as (p' & H & _ & Hl & _).
  exists p'. split; [exact H|exact Hl].
Defined.

Lemma add_transaction_valid_witness :
  exists p', add_transaction demo_try_send 0 (demo_tx 7 1 0 0) demo_pool = Some (Ok 7, p') /\
    contains 7 p' = true.
Proof.
  destruct (add_transaction_valid demo_try_send 0 (demo_tx 7 1 0 0) 0 mkNoopValidator demo_pool)
    as (p' & H & _ & _ & Hc); [exact demo_pool_wf|reflexivity|reflexivity|].
  exists p'. split; [exact H|exact Hc].
Defined.

(** A validator for which every transaction has a gap before its nonce. *)
Definition demo_dependent : Validator unit (ExecutableTxWithHash unit) :=
  {| validate v tx := Some (Ok (Dependent tx 5 3), v) |}.

Lemma add_transaction_rejected_witness :
  exists p', add_transaction (VA := demo_dependent) demo_try_send 0 (demo_tx 7 1 5 0)
               (pool_new tt FiFo_new)
    = Some (Err (InvalidTransaction (InvalidNonce 1 3 5)), p').
Proof.
  destruct (add_transaction_rejected (VA := demo_dependent) demo_try_send 0 (demo_tx 7 1 5 0) 5
              (Ok (Dependent (demo_tx 7 1 5 0) 5 3)) tt (pool_new tt FiFo_new))
    as (e & H & ->); [reflexivity|reflexivity|by intros tx'|]. eexists. exact H.
Defined.

Lemma pool_wf_preserved_witness : pool_wf (pending_transactions demo_pool).2.
Proof. apply (pool_wf_preserved demo_try_send demo_pool demo_pool_wf). Defined.
