(* ===== verification/PoolOrder.v ===== *)
(** * The order in which the pool yields its transactions

    [add_all] submits a sequence of transactions.  Under [FiFo] the pool is in
    arrival order as long as each sender submits its nonces in order; under
    [TipOrdering] transactions of distinct senders are in decreasing order of
    tip, ties in arrival order.  Both hold for every [BTreeSetImpl].  The [Ord]
    implementation itself is not an order at all ([pending_cmp_lawless]). *)

From Stdlib Require Import ZArith Lia.
From stdpp Require Import base numbers list sets sorting.
From S2P Require Import Prelude Felt Tx PoolTypes BTreeSet Pool PoolProofs.

(** ** Submitting a sequence of transactions *)
Section AddAll.
Context {T V O L : Type}.
Context `{PT : PoolTransaction T} `{VA : Validator V T} `{PO : PoolOrd O T}.
Context `{BT : BTreeSetImpl} `{CH : UnboundedChannel (PendingTx T (PriorityValue O T))}.
Variable try_send : L -> Z -> TrySend * L.

(** Each submission with the clock's value at that moment. *)
Fixpoint add_all (subs : list (Z * T)) (p : Pool T V O L)
    : option (list (result PoolError Z) * Pool T V O L) :=
  match subs with
  | [] => Some ([], p)
  | (now, tx) :: subs =>
      match add_transaction try_send now tx p with
      | None => None
      | Some (r, p) =>
          match add_all subs p with
          | None => None
          | Some (rs, p) => Some (r :: rs, p)
          end
      end
  end.

(** A validator that neither panics nor rewrites what it accepts. *)
Class FaithfulValidator : Prop := {
  validate_total v tx : exists r v', validate v tx = Some (r, v');
  validate_same v tx tx' v' : validate v tx = Some (Ok (Valid tx'), v') -> tx' = tx;
}.

(** One submission either appends nothing or inserts the transaction. *)
Lemma add_transaction_cases `{FaithfulValidator} now tx nonce (p : Pool T V O L) :
  pool_wf p -> pt_nonce tx = Some nonce ->
  exists r p', add_transaction try_send now tx p = Some (r, p') /\ pool_wf p' /\
    (if is_ok r then
       transactions p' = bts_insert pending_cmp (pending_of now tx nonce tx p) (transactions p) /\
       ordering p' = (priority (ordering p) tx).2
     else transactions p' = transactions p /\ ordering p' = ordering p).
Proof.
  intros Hwf Hn. destruct (validate_total (validator p) tx) as ([out|e] & v' & Hv).
  - destruct out as [tx'|tx' e|tx' n c].
    + pose proof (validate_same _ _ _ _ Hv) as ->.
      destruct (add_transaction_valid_spec try_send now _ _ _ _ _ Hwf Hn Hv)
        as (p' & Ha & Ht & _ & Ho & Hwf'). exists (Ok (pt_hash tx)), p'. by split; [|split].
    + unfold add_transaction. rewrite Hn, Hv. eexists _, _. by split; [|split].
    + unfold add_transaction. rewrite Hn, Hv. eexists _, _. by split; [|split].
  - unfold add_transaction. rewrite Hn, Hv. eexists _, _. by split; [|split].
Qed.

(** The submissions the pool accepted, in arrival order. *)
Definition accepted (subs : list (Z * T)) (rs : list (result PoolError Z)) : list T :=
  omap (fun '(s, r) => if is_ok r then Some (snd s) else None) (zip subs rs).
End AddAll.
Arguments FaithfulValidator {T V} VA : rename.

(** ** First come, first served *)
Section Fifo.
Context {T V L : Type}.
Context `{PT : PoolTransaction T} `{VA : Validator V T}.
Context `{BT : BTreeSetImpl} `{CH : UnboundedChannel (PendingTx T (PriorityValue FiFo T))}.
Context `{FV : !FaithfulValidator VA}.
Variable try_send : L -> Z -> TrySend * L.

(** Submission numbers in the pool are below the next one. *)
Definition fifo_fresh (p : Pool T V FiFo L) : Prop :=
  0 <= fifo_nonce (ordering p) /\
  Forall (fun t => ptx_priority t < fifo_nonce (ordering p)) (transactions p).

(** [tx] does not undercut a nonce of the same sender. *)
Definition nonce_after (sender nonce : Z) (t : PendingTx T Z) : Prop :=
  txid_sender (ptx_id t) = sender -> txid_nonce (ptx_id t) <= nonce.

Lemma fifo_insert_last now tx nonce (p : Pool T V FiFo L) :
  fifo_fresh p -> Forall (nonce_after (pt_sender tx) nonce) (transactions p) ->
  bts_insert pending_cmp (pending_of now tx nonce tx p) (transactions p)
  = transactions p ++ [pending_of now tx nonce tx p].
Proof.
  intros [_ Hf] Hn. apply bts_insert_max; [apply pending_cmp_ne|].
  intros y Hy. rewrite Forall_forall in Hf, Hn. specialize (Hf y Hy). specialize (Hn y Hy).
  unfold pending_cmp. simpl in *. unfold nonce_after in Hn. case_decide as Hs.
  - destruct (Z.compare_spec nonce (txid_nonce (ptx_id y))); [done| |done].
    specialize (Hn (eq_sym Hs)). lia.
  - unfold submission_nonce_cmp.
    destruct (Z.compare_spec (fifo_nonce (ordering p)) (ptx_priority y)); [done|lia|done].
Qed.

(** Within a sender, nonces are submitted in nondecreasing order. *)
Definition nonces_in_order (s s' : Z * T) : Prop :=
  pt_sender (snd s) = pt_sender (snd s') ->
  default 0 (pt_nonce (snd s)) <= default 0 (pt_nonce (snd s')).

Lemma fifo_add_all subs (p : Pool T V FiFo L) :
  pool_wf p -> fifo_fresh p ->
  Forall (fun s => is_Some (pt_nonce (snd s))) subs ->
  StronglySorted nonces_in_order subs ->
  Forall (fun s => Forall (nonce_after (pt_sender (snd s)) (default 0 (pt_nonce (snd s))))
                     (transactions p)) subs ->
  fifo_nonce (ordering p) + Z.of_nat (length subs) < u64_bound ->
  exists rs p', add_all try_send subs p = Some (rs, p') /\
    map ptx_tx (transactions p') = map ptx_tx (transactions p) ++ accepted subs rs.
Proof.
  revert p. induction subs as [|[now tx] subs IH]; intros p Hwf Hf Hn Hs Hafter Hb.
  { exists [], p. split; [done|]. by rewrite app_nil_r. }
  apply Forall_cons_iff in Hn as [[nonce Hnonce] Hn].
  apply Forall_cons_iff in Hafter as [Ha Hafter]. simpl in Ha, Hnonce.
  rewrite Hnonce in Ha. simpl in Ha. simpl length in Hb.
  inversion Hs as [|? ? Hs' Hhead]; subst.
  destruct (add_transaction_cases try_send now tx nonce p Hwf Hnonce)
    as (r & p' & Hadd & Hwf' & Hr). cbn [add_all]. rewrite Hadd.
  destruct (is_ok r) eqn:Hok; destruct Hr as [Ht Ho].
  - rewrite (fifo_insert_last now tx nonce p Hf Ha) in Ht.
    assert (fifo_nonce (ordering p') = fifo_nonce (ordering p) + 1) as Ho'.
    { rewrite Ho. simpl. unfold wrap64. apply Z.mod_small. destruct Hf. lia. }
    destruct (IH p') as (rs & q & -> & Hq); try done.
    + destruct Hf as [H0 Hf]. split; [lia|]. rewrite Ht, Ho'. apply Forall_app. split.
      * eapply Forall_impl; [exact Hf|]. intros t Hlt. simpl in *. lia.
      * repeat constructor. simpl. lia.
    + rewrite Ht. rewrite Forall_forall in Hafter, Hhead |- *. intros s Hin.
      apply Forall_app. split; [by apply Hafter|]. repeat constructor.
      intros Heq. specialize (Hhead s Hin Heq). simpl in Hhead. by rewrite Hnonce in Hhead.
    + lia.
    + exists (r :: rs), q. split; [done|]. rewrite Hq, Ht, map_app. unfold accepted.
      cbn [zip zip_with omap list_omap snd]. rewrite Hok. by rewrite <- app_assoc.
  - destruct (IH p') as (rs & q & -> & Hq); try done.
    + split; [rewrite Ho; apply Hf|]. rewrite Ht, Ho. apply Hf.
    + by rewrite Ht.
    + rewrite Ho. lia.
    + exists (r :: rs), q. split; [done|]. rewrite Hq, Ht. unfold accepted.
      cbn [zip zip_with omap list_omap snd]. by rewrite Hok.
Qed.

(** C24. Under [FiFo], submitting to a fresh pool never fails and leaves the
    accepted transactions in exactly their order of arrival, as long as each
    sender submits its nonces in order and the 64-bit counter does not wrap. *)
Theorem fifo_arrival_order subs v :
  Forall (fun s => is_Some (pt_nonce (snd s))) subs ->
  StronglySorted nonces_in_order subs ->
  Z.of_nat (length subs) < u64_bound ->
  exists rs p', add_all try_send subs (pool_new v FiFo_new) = Some (rs, p') /\
    map ptx_tx (transactions p') = accepted subs rs.
Proof.
  intros Hn Hs Hb.
  destruct (fifo_add_all subs (pool_new v FiFo_new)) as (rs & p' & ? & ?); try done;
    [..|by exists rs, p'].
  - by repeat constructor.
  - apply Forall_true. by constructor.
Qed.
End Fifo.

(** ** Highest tip first *)
Section Tip.
Context {T V L : Type}.
Context `{PT : PoolTransaction T} `{VA : Validator V T}.
Context `{BT : BTreeSetImpl} `{CH : UnboundedChannel (PendingTx T (PriorityValue TipOrdering T))}.
Context `{FV : !FaithfulValidator VA}.
Variable try_send : L -> Z -> TrySend * L.
Abbreviation TTx := (PendingTx T (PriorityValue TipOrdering T)).

Definition tip_desc (a b : T) : Prop := pt_tip b <= pt_tip a.

(** The pool holds its transactions with their own tip and sender. *)
Definition tip_entry (t : TTx) : Prop :=
  ptx_priority t = pt_tip (ptx_tx t) /\ txid_sender (ptx_id t) = pt_sender (ptx_tx t).

Lemma tip_cut (l : list TTx) x :
  StronglySorted tip_desc (map ptx_tx l) ->
  exists l1 l2, l = l1 ++ l2 /\ Forall (fun t => x <= pt_tip (ptx_tx t)) l1 /\
    Forall (fun t => pt_tip (ptx_tx t) < x) l2.
Proof.
  induction l as [|t l IH]; intros Hs; [by exists [], []|].
  inversion Hs as [|? ? Hs' Hall]; subst.
  destruct (decide (x <= pt_tip (ptx_tx t))) as [Hle|Hlt].
  - destruct (IH Hs') as (l1 & l2 & -> & ? & ?). exists (t :: l1), l2. by repeat constructor.
  - exists [], (t :: l). split; [done|]. split; [constructor|]. constructor; [lia|].
    rewrite Forall_map in Hall. eapply Forall_impl; [exact Hall|].
    intros u Hu. eapply Z.le_lt_trans; [exact Hu|]. by apply Z.nle_gt.
Qed.

Lemma tip_pending_cmp (x y : TTx) :
  tip_entry x -> tip_entry y -> pt_sender (ptx_tx x) <> pt_sender (ptx_tx y) ->
  pending_cmp x y = if decide (pt_tip (ptx_tx y) < pt_tip (ptx_tx x)) then Lt else Gt.
Proof.
  intros [Hp Hs] [Hp' Hs'] Hne. unfold pending_cmp.
  rewrite decide_False by (by rewrite Hs, Hs').
  destruct x as [xi x xp xa], y as [yi y yp ya]; cbn in *; subst. unfold tip_cmp.
  case_decide; destruct (Z.compare_spec (pt_tip y) (pt_tip x)); done || lia.
Qed.

(** Inserting keeps the order, and puts a tie after the existing ones. *)
Lemma tip_insert (x : TTx) l :
  StronglySorted tip_desc (map ptx_tx l) -> Forall tip_entry (x :: l) ->
  Forall (fun t => pt_sender (ptx_tx t) <> pt_sender (ptx_tx x)) l ->
  StronglySorted tip_desc (map ptx_tx (bts_insert pending_cmp x l)) /\
  forall v, filter (fun t => pt_tip t = v) (map ptx_tx (bts_insert pending_cmp x l))
       = filter (fun t => pt_tip t = v) (map ptx_tx (l ++ [x])).
Proof.
  intros Hs He Hd. apply Forall_cons_iff in He as [Hx He].
  destruct (tip_cut l (pt_tip (ptx_tx x)) Hs) as (l1 & l2 & -> & H1 & H2).
  assert (forall y, y ∈ l1 ++ l2 -> pending_cmp x y
            = if decide (pt_tip (ptx_tx y) < pt_tip (ptx_tx x)) then Lt else Gt) as Hcmp.
  { rewrite Forall_forall in He, Hd. intros y Hy. apply tip_pending_cmp; [done|by apply He|].
    intros Heq. by apply (Hd y). }
  rewrite Forall_forall in H1, H2.
  rewrite bts_insert_cut; [|apply pending_cmp_ne|..].
  2: { intros y Hy. rewrite Hcmp by set_solver. apply decide_False, Z.nlt_ge, (H1 y Hy). }
  2: { intros y Hy. rewrite Hcmp by set_solver. apply decide_True, (H2 y Hy). }
  split.
  - rewrite map_app in *. apply StronglySorted_app in Hs as (Hcross & Hs1 & Hs2).
    apply StronglySorted_app. split; [|split; [done|]].
    + intros a b Ha [->|Hb]%elem_of_cons; [|by apply Hcross].
      apply list_elem_of_fmap in Ha as (t & -> & Ht). by apply H1.
    + simpl. constructor; [done|]. apply Forall_map, Forall_forall.
      intros t Ht. by apply Z.lt_le_incl, H2.
  - intros v. rewrite !map_app. simpl. rewrite !filter_app, filter_cons.
    case_decide as Hv; [|rewrite (filter_cons_False _ _ []) by done; by rewrite filter_nil, app_nil_r].
    rewrite (filter_none _ (map ptx_tx l2)); [by rewrite filter_cons_True, app_nil_r by done|].
    apply Forall_map, Forall_forall. intros t Ht%H2 Hv'.
    apply (Z.lt_irrefl v). by rewrite <- Hv' at 1; rewrite <- Hv.
Qed.

Lemma tip_add_all subs (p : Pool T V TipOrdering L) :
  pool_wf p -> Forall tip_entry (transactions p) ->
  StronglySorted tip_desc (map ptx_tx (transactions p)) ->
  Forall (fun s => is_Some (pt_nonce (snd s))) subs ->
  NoDup (map pt_sender (map ptx_tx (transactions p) ++ map snd subs)) ->
  exists rs p', add_all try_send subs p = Some (rs, p') /\
    StronglySorted tip_desc (map ptx_tx (transactions p')) /\
    forall v, filter (fun t => pt_tip t = v) (map ptx_tx (transactions p'))
         = filter (fun t => pt_tip t = v) (map ptx_tx (transactions p) ++ accepted subs rs).
Proof.
  revert p. induction subs as [|[now tx] subs IH]; intros p Hwf He Hs Hn Hnd.
  { exists [], p. repeat split; [done|]. intros v. by rewrite app_nil_r. }
  apply Forall_cons_iff in Hn as [[nonce Hnonce] Hn]. simpl in Hnonce.
  destruct (add_transaction_cases try_send now tx nonce p Hwf Hnonce)
    as (r & p' & Hadd & Hwf' & Hr). cbn [add_all]. rewrite Hadd.
  cbn [map] in Hnd. destruct (is_ok r) eqn:Hok; destruct Hr as [Ht Ho].
  - set (x := pending_of now tx nonce tx p) in *.
    assert (Forall (fun t => pt_sender (ptx_tx t) <> pt_sender (ptx_tx x)) (transactions p)) as Hd.
    { rewrite map_app in Hnd. apply NoDup_app in Hnd as (_ & Hnd & _).
      apply Forall_forall. intros t Hin Heq. apply (Hnd (pt_sender (ptx_tx t))).
      - apply list_elem_of_fmap. exists (ptx_tx t). split; [done|].
        apply list_elem_of_fmap. by exists t.
      - rewrite Heq. by left. }
    assert (Forall tip_entry (x :: transactions p)) as Hx by (by constructor).
    destruct (tip_insert x (transactions p) Hs Hx Hd) as [Hs' Hst].
    assert (transactions p' ≡ₚ x :: transactions p) as Hperm.
    { rewrite Ht. apply bts_insert_perm, pending_cmp_ne. }
    destruct (IH p') as (rs & q & -> & Hq & Hf); try done.
    + by rewrite Hperm.
    + by rewrite Ht.
    + rewrite Hperm. rewrite <- Permutation_middle in Hnd. exact Hnd.
    + exists (r :: rs), q. split; [done|]. split; [done|]. intros v.
      rewrite Hf, filter_app, Ht, Hst, <- filter_app, map_app, <- app_assoc. unfold accepted.
      cbn [zip zip_with omap list_omap snd]. by rewrite Hok.
  - destruct (IH p') as (rs & q & -> & Hq & Hf); try done.
    1-2: by rewrite Ht.
    { rewrite Ht. rewrite <- Permutation_middle in Hnd. by apply NoDup_cons in Hnd as [_ Hnd]. }
    exists (r :: rs), q. split; [done|]. split; [done|]. intros v. rewrite Hf, Ht.
    unfold accepted. cbn [zip zip_with omap list_omap snd]. by rewrite Hok.
Qed.

(** Under [TipOrdering], transactions of distinct senders submitted to a
    fresh pool are yielded by decreasing tip, and those with the same tip in
    their order of arrival; none is lost. *)
Theorem tip_priority_order subs v :
  Forall (fun s => is_Some (pt_nonce (snd s))) subs ->
  NoDup (map pt_sender (map snd subs)) ->
  exists rs p', add_all try_send subs (pool_new v mkTipOrdering) = Some (rs, p') /\
    StronglySorted tip_desc (map ptx_tx (transactions p')) /\
    forall t, filter (fun tx => pt_tip tx = t) (map ptx_tx (transactions p'))
         = filter (fun tx => pt_tip tx = t) (accepted subs rs).
Proof. intros Hn Hd. apply (tip_add_all subs (pool_new v mkTipOrdering)); by repeat constructor. Qed.
End Tip.

(** ** The comparison is not an order *)

(** [PendingTx]'s [Ord] breaks the laws the trait asks for: comparing a
    transaction with itself answers [Greater] although it equals itself, and
    under [FiFo] two senders are enough for a cycle. *)
Theorem pending_cmp_lawless {T} (t : T) :
  (forall x : PendingTx T (PriorityValue FiFo T),
     pending_cmp x x = Gt /\ pending_eq x x = true) /\
  exists x y z : PendingTx T (PriorityValue FiFo T),
    pending_cmp x y = Lt /\ pending_cmp y z = Lt /\ pending_cmp z x = Lt.
Proof.
  split.
  - intros x. split; [apply pending_cmp_refl|]. unfold pending_eq. simpl.
    unfold submission_nonce_cmp. by rewrite Z.compare_refl.
  - exists (mkPendingTx {| txid_sender := 1; txid_nonce := 1 |} t 2 0),
      (mkPendingTx {| txid_sender := 1; txid_nonce := 2 |} t 0 0),
      (mkPendingTx {| txid_sender := 2; txid_nonce := 0 |} t 1 0). done.
Qed.

(** ** Witnesses *)
#[local] Instance noop_faithful T : FaithfulValidator (Noop_Validator T).
Proof. split; [eauto|]. by intros v tx tx' v' [= ->]. Qed.

Lemma fifo_arrival_order_witness :
  exists rs p', add_all demo_try_send [(0, demo_tx 11 1 0 5); (1, demo_tx 12 2 0 9);
                                       (2, demo_tx 13 1 1 7)]
                  (pool_new mkNoopValidator FiFo_new) = Some (rs, p') /\
    map ptx_tx (transactions p')
    = accepted [(0, demo_tx 11 1 0 5); (1, demo_tx 12 2 0 9); (2, demo_tx 13 1 1 7)] rs.
Proof.
  apply fifo_arrival_order; [by repeat econstructor| |done].
  repeat constructor; unfold nonces_in_order; simpl; lia.
Defined.

Lemma tip_priority_order_witness :
  exists rs p', add_all demo_try_send [(0, demo_tx 11 1 0 5); (1, demo_tx 12 2 0 9);
                                       (2, demo_tx 13 3 1 9)]
                  (pool_new mkNoopValidator mkTipOrdering) = Some (rs, p') /\
    StronglySorted tip_desc (map ptx_tx (transactions p')).
Proof.
  destruct (tip_priority_order demo_try_send
              [(0, demo_tx 11 1 0 5); (1, demo_tx 12 2 0 9); (2, demo_tx 13 3 1 9)]
              mkNoopValidator) as (rs & p' & H & Hs & _).
  - by repeat econstructor.
  - simpl. repeat constructor; set_solver.
  - exists rs, p'. split; [exact H|exact Hs].
Defined.
