(* ===== verification/PoolDelivery.v ===== *)
(** * Delivery guarantees of the pool's streams

    A [Subscription] hands out every transaction its channel received exactly
    once; the pending stream of a pool that other threads are using at the same
    time misses no transaction.  The second result is about interleavings: the
    pool's calls are split at their lock boundaries ([insert_tx] and [notify]
    in [add_transaction], [subscribe] and the snapshot in
    [pending_transactions]) and the steps of any number of callers are
    interleaved by [sys_step]. *)

From Stdlib Require Import ZArith Lia.
From stdpp Require Import base numbers list sets.
From S2P Require Import Prelude Felt Tx PoolTypes BTreeSet Pool PoolProofs.

Section Delivery.
Context {T V O L : Type}.
Context `{PT : PoolTransaction T} `{VA : Validator V T} `{PO : PoolOrd O T}.
Context `{BT : BTreeSetImpl} `{CH : UnboundedChannel (PendingTx T (PriorityValue O T))}.
Variable try_send : L -> Z -> TrySend * L.
Abbreviation PTx := (PendingTx T (PriorityValue O T)).

(** ** The subscription stream *)

(** Draining moves messages of the channel into the buffer, all of them unless a poll
    fails spuriously. *)
Lemma drain_spec fuel txs (c : chan PTx) :
  (drain fuel txs c).1 ++ chan_queue (drain fuel txs c).2 ≡ₚ txs ++ chan_queue c /\
  chan_open (drain fuel txs c).2 = chan_open c /\
  (length txs <= length (drain fuel txs c).1)%nat.
Proof.
  revert txs c. induction fuel as [|fuel IH]; intros txs c; [done|]. simpl.
  destruct (chan_queue c) as [|m q] eqn:Hq.
  - destruct (chan_recv_nil c Hq) as ([H|H] & Hq' & Ho);
      destruct (chan_poll_recv c) as [[[tx|]|] c']; simpl in *; try done; by rewrite Hq'.
  - destruct (chan_recv_cons c m q Hq) as (c' & <- & [(-> & Hq' & _)|(-> & Hq' & _)]);
      [|simpl; by rewrite Hq'].
    assert (bts_insert pending_cmp m txs ≡ₚ m :: txs) as Hins
      by (apply bts_insert_perm; auto with katana).
    destruct (IH (bts_insert pending_cmp m txs) c') as (Hp & He & Hl).
    split; [|split; [done|]].
    + rewrite Hp, Hq', Hins. by rewrite <- Permutation_middle.
    + rewrite (Permutation_length Hins) in Hl. simpl in Hl. lia.
Qed.

(** What a poll yields. *)
Definition yielded (r : Poll (option PTx)) : list PTx :=
  match r with Ready (Some tx) => [tx] | _ => [] end.

(** Why a stream has nothing to yield: its channel has nothing, or the poll of it failed
    spuriously, which left the channel's messages where they were. *)
Definition nothing_received (c c' : chan PTx) : Prop :=
  chan_queue c' = chan_queue c /\ (chan_queue c = [] \/ chan_rewakes c' = true).

(** Polling a subscription always returns (two turns of the loop are
    enough) and delivers every transaction exactly once: a transaction it
    yields leaves the buffered and queued ones, nothing else does, and it only
    waits or ends when none is left or the channel's poll failed spuriously. *)
Theorem subscription_delivers fuel txs (c : chan PTx) :
  exists r txs' c', subscription_poll (S (S fuel)) txs c = Some (r, txs', c') /\
    txs ++ chan_queue c ≡ₚ yielded r ++ txs' ++ chan_queue c' /\
    chan_open c' = chan_open c /\
    (yielded r = [] -> txs = [] /\ txs' = [] /\ nothing_received c c').
Proof.
  unfold nothing_received. destruct txs as [|tx txs].
  2: { eexists _, _, _. split; [reflexivity|]. simpl. done. }
  remember (S fuel) as n eqn:Hn. cbn [subscription_poll pop_first].
  destruct (chan_queue c) as [|m q] eqn:Hq.
  - destruct (chan_recv_nil c Hq) as ([H|H] & Hq' & Ho);
      destruct (chan_poll_recv c) as [[[tx|]|] c']; simpl in *; try done;
      eexists _, _, _; (split; [reflexivity|]); simpl; rewrite Hq'; split_and!; try done; auto.
  - destruct (chan_recv_cons c m q Hq) as (c' & <- & [(-> & Hq' & _)|(-> & Hq' & Hw)]).
    2: { eexists _, _, _. split; [reflexivity|]. simpl. rewrite Hq'. split_and!; try done; auto. }
    destruct (drain_spec (S (length (chan_queue c'))) (bts_insert pending_cmp m []) c')
      as (Hp & Ho & Hl).
    assert (bts_insert pending_cmp m [] ≡ₚ [m]) as Hins by (apply bts_insert_perm; auto with katana).
    destruct (drain _ _ c') as [txs' c'']. simpl in Hp, Ho, Hl.
    rewrite (Permutation_length Hins) in Hl. subst n. simpl in *. destruct txs' as [|tx txs']; [simpl in Hl; lia|].
    eexists _, _, _. split; [reflexivity|]. simpl. split_and!; [|done|done].
    rewrite Hins, Hq' in Hp. symmetry. exact Hp.
Qed.

(** The same of the pending stream, with its snapshot. *)
Lemma pending_poll_delivers fuel all txs (c : chan PTx) :
  exists r all' txs' c', pending_poll (S (S fuel)) all txs c = Some (r, all', txs', c') /\
    all ++ txs ++ chan_queue c ≡ₚ yielded r ++ all' ++ txs' ++ chan_queue c' /\
    chan_open c' = chan_open c /\
    (yielded r = [] -> all = [] /\ all' = [] /\ txs = [] /\ txs' = [] /\ nothing_received c c').
Proof.
  destruct all as [|tx all]; unfold pending_poll; [|by eexists _, _, _, _].
  destruct (subscription_delivers fuel txs c) as (r & txs' & c' & -> & H1 & H2 & H3).
  eexists _, _, _, _. split; [reflexivity|]. split_and!; [done..|]. intros H%H3. split_and!; try done; apply H.
Qed.

(** ** Concurrent use of the pool *)

(** A caller of [pending_transactions]: its channel, the rest of the snapshot and the
    buffer of the subscription once the snapshot has been taken, and what it was
    yielded so far. *)
Record Client := mkClient {
  cl_id : nat;
  cl_stream : option (list PTx * list PTx);
  cl_yielded : list PTx;
}.

(** The pool, the additions between insertion and notification, the finished
    additions, the hashes removed so far and the clients. *)
Record Sys := mkSys {
  sys_pool : Pool T V O L;
  sys_inflight : list PTx;
  sys_done : list PTx;
  sys_removed : list Z;
  sys_clients : list Client;
}.

Inductive sys_step : Sys -> Sys -> Prop :=
  | step_insert p fl dn rm cls ptx :
      sys_step (mkSys p fl dn rm cls) (mkSys (insert_tx ptx p) (ptx :: fl) dn rm cls)
  | step_notify p p' fl1 ptx fl2 dn rm cls :
      notify try_send ptx p = Some p' ->
      sys_step (mkSys p (fl1 ++ ptx :: fl2) dn rm cls)
               (mkSys p' (fl1 ++ fl2) (ptx :: dn) rm cls)
  | step_remove p fl dn rm cls hashes :
      sys_step (mkSys p fl dn rm cls)
               (mkSys (remove_transactions hashes p) fl dn (hashes ++ rm) cls)
  | step_subscribe p fl dn rm cls :
      sys_step (mkSys p fl dn rm cls)
               (mkSys (subscribe p).2 fl dn rm
                  (cls ++ [mkClient (sub_receiver (subscribe p).1) None []]))
  | step_snapshot p fl dn rm cls1 id yl cls2 :
      sys_step (mkSys p fl dn rm (cls1 ++ mkClient id None yl :: cls2))
               (mkSys p fl dn rm (cls1 ++ mkClient id (Some (transactions p, [])) yl :: cls2))
  | step_poll p fl dn rm cls1 id all txs yl cls2 c fuel r all' txs' c' :
      chans p !! id = Some c ->
      pending_poll (S (S fuel)) all txs c = Some (r, all', txs', c') ->
      sys_step (mkSys p fl dn rm (cls1 ++ mkClient id (Some (all, txs)) yl :: cls2))
               (mkSys (mkPool (transactions p) (listeners p) (subscribers p)
                         (<[id := c']> (chans p)) (validator p) (ordering p))
                  fl dn rm (cls1 ++ mkClient id (Some (all', txs')) (yl ++ yielded r) :: cls2)).

(** Reachable from an empty pool. *)
Inductive reachable : Sys -> Prop :=
  | reach_init v o : reachable (mkSys (pool_new v o) [] [] [] [])
  | reach_step s s' : reachable s -> sys_step s s' -> reachable s'.

(** The calls of the pool are sequences of these steps. *)
Lemma pending_transactions_steps p fl dn rm cls :
  let '(pt, p') := pending_transactions p in
  exists s, sys_step (mkSys p fl dn rm cls) s /\
    sys_step s (mkSys p' fl dn rm
      (cls ++ [mkClient (sub_receiver (pend_subscription pt)) (Some (pend_all pt, [])) []])).
Proof.
  eexists. split; [apply step_subscribe|].
  apply (step_snapshot (subscribe p).2 fl dn rm cls (length (chans p)) [] []).
Qed.

Lemma add_transaction_steps now tx nonce v' p p' fl dn rm cls :
  pt_nonce tx = Some nonce -> validate (validator p) tx = Some (Ok (Valid tx), v') ->
  add_transaction try_send now tx p = Some (Ok (pt_hash tx), p') ->
  exists q s, transactions q = transactions p /\ chans q = chans p /\
    subscribers q = subscribers p /\
    sys_step (mkSys q fl dn rm cls) s /\
    sys_step s (mkSys p' fl (pending_of now tx nonce tx p :: dn) rm cls).
Proof.
  intros Hn Hv. unfold add_transaction, pending_of. rewrite Hn, Hv. simpl.
  destruct (priority (ordering p) tx) as [prio o]. simpl.
  destruct (notify _ _ _) as [q|] eqn:Hq; [|done]. intros [= <-].
  eexists _, _. split_and!; [| | |constructor|apply (step_notify _ _ []), Hq]; done.
Qed.

(** What a client can still count on: its channel is open and subscribed, and
    after its snapshot every finished addition that was not removed was yielded, or
    is left in the snapshot, in the buffer or in the channel. *)
Definition client_ok (p : Pool T V O L) (dn : list PTx) (rm : list Z) (cl : Client) : Prop :=
  exists c, chans p !! cl_id cl = Some c /\ chan_open c = true /\ cl_id cl ∈ subscribers p /\
    forall all txs ptx, cl_stream cl = Some (all, txs) -> ptx ∈ dn -> ~ pt_hash (ptx_tx ptx) ∈ rm ->
      ptx ∈ cl_yielded cl ++ all ++ txs ++ chan_queue c.

Definition sys_inv (s : Sys) : Prop :=
  pool_wf (sys_pool s) /\
  (forall ptx, ptx ∈ sys_inflight s ++ sys_done s -> ~ pt_hash (ptx_tx ptx) ∈ sys_removed s ->
     ptx ∈ transactions (sys_pool s)) /\
  NoDup (map cl_id (sys_clients s)) /\
  Forall (client_ok (sys_pool s) (sys_done s) (sys_removed s)) (sys_clients s).

Lemma client_ok_notify ptx p p' dn rm cl :
  pool_wf p -> notify try_send ptx p = Some p' ->
  client_ok p dn rm cl -> client_ok p' (ptx :: dn) rm cl.
Proof.
  intros Hwf Hn (c & Hc & Ho & Hs & Hall).
  destruct (notify_spec try_send ptx p Hwf) as (q & Hq & _ & _ & _ & _ & _ & _ & Hch & Hsub).
  rewrite Hn in Hq. injection Hq as <-. specialize (Hch _ _ Hc). rewrite decide_True in Hch by done.
  destruct (chan_send_sent c ptx Ho) as [Hq' Ho'].
  eexists. repeat split; [exact Hch|done|by eapply Hsub|].
  intros al tx x Hl Hx Hr. rewrite Hq'. apply elem_of_cons in Hx as [->|Hx]; [set_solver|].
  pose proof (Hall al tx x Hl Hx Hr). set_solver.
Qed.

Lemma client_ok_removed p dn rm hashes cl :
  client_ok p dn rm cl -> client_ok (remove_transactions hashes p) dn (hashes ++ rm) cl.
Proof.
  intros (c & Hc & Ho & Hs & Hall). exists c. repeat split; try done.
  intros al tx x Hl Hx Hr. apply (Hall al tx x Hl Hx). set_solver.
Qed.

Lemma client_ok_subscribe p dn rm cl :
  client_ok p dn rm cl -> client_ok (subscribe p).2 dn rm cl.
Proof.
  intros (c & Hc & Ho & Hs & Hall). exists c. repeat split; try done; simpl.
  - by apply lookup_app_l_Some.
  - set_solver.
Qed.

Lemma client_ok_poll p dn rm cl id c' :
  cl_id cl <> id -> client_ok p dn rm cl ->
  client_ok (mkPool (transactions p) (listeners p) (subscribers p) (<[id := c']> (chans p))
               (validator p) (ordering p)) dn rm cl.
Proof.
  intros Hne (ci & Hci & Ho & Hs & Hall). exists ci. repeat split; try done.
  simpl. by rewrite list_lookup_insert_ne by done.
Qed.

(** Polling moves transactions on towards what was yielded. *)
Lemma client_ok_poll_self p dn rm id all txs yl c fuel r all' txs' c' :
  chans p !! id = Some c -> pending_poll (S (S fuel)) all txs c = Some (r, all', txs', c') ->
  client_ok p dn rm (mkClient id (Some (all, txs)) yl) ->
  client_ok (mkPool (transactions p) (listeners p) (subscribers p) (<[id := c']> (chans p))
               (validator p) (ordering p)) dn rm (mkClient id (Some (all', txs')) (yl ++ yielded r)).
Proof.
  intros Hc Hp (c0 & Hc0 & Ho & Hs & Hall). simpl in *. rewrite Hc in Hc0. injection Hc0 as <-.
  destruct (pending_poll_delivers fuel all txs c) as (r0 & all0 & txs0 & c1 & Hp0 & Hperm & Ho' & _).
  rewrite Hp in Hp0. injection Hp0 as <- <- <- <-.
  exists c'. simpl. rewrite Ho'. repeat split; try done.
  - apply list_lookup_insert_eq. by eapply lookup_lt_Some.
  - intros al tx x [= <- <-] Hx Hn. pose proof (Hall all txs x eq_refl Hx Hn) as H.
    rewrite Hperm in H. set_solver.
Qed.

Lemma sys_inv_poll p fl dn rm cls1 id all txs yl cls2 c fuel r all' txs' c' :
  chans p !! id = Some c -> pending_poll (S (S fuel)) all txs c = Some (r, all', txs', c') ->
  sys_inv (mkSys p fl dn rm (cls1 ++ mkClient id (Some (all, txs)) yl :: cls2)) ->
  sys_inv (mkSys (mkPool (transactions p) (listeners p) (subscribers p)
                    (<[id := c']> (chans p)) (validator p) (ordering p))
             fl dn rm (cls1 ++ mkClient id (Some (all', txs')) (yl ++ yielded r) :: cls2)).
Proof.
  intros Hc Hr ([Hnd Hlt] & Hin & Hids & Hcls). split; [|split; [done|split]].
  - split; [done|]. simpl in *. by rewrite length_insert.
  - simpl in *. rewrite map_app in Hids |- *. exact Hids.
  - simpl in *. rewrite map_app in Hids. simpl in Hids.
    apply NoDup_app in Hids as (_ & H1 & [H2 _]%NoDup_cons).
    rewrite Forall_app, Forall_cons in Hcls |- *. destruct Hcls as (Hc1 & Hcl & Hc2).
    repeat split; [|by eapply client_ok_poll_self|]; rewrite Forall_forall in *; intros cl Hin';
      (apply client_ok_poll; [|by auto]); intros <-.
    + apply (H1 (cl_id cl)); [by apply list_elem_of_fmap_2|by left].
    + apply H2. by apply list_elem_of_fmap_2.
Qed.

Lemma sys_inv_step s s' : sys_inv s -> sys_step s s' -> sys_inv s'.
Proof.
  intros Hinv Hstep.
  destruct Hstep as [p fl dn rm cls ptx|p p' fl1 ptx fl2 dn rm cls Hn|p fl dn rm cls hashes
    |p fl dn rm cls|p fl dn rm cls1 id rc cls2|];
    [..|by eapply sys_inv_poll]; destruct Hinv as (Hwf & Hin & Hids & Hcls); simpl in *.
  - repeat split; try apply Hwf; try done. intros x Hx Hr. simpl in Hx.
    apply list_elem_of_In, (Permutation_in _ (symmetry (insert_tx_perm ptx p))), list_elem_of_In.
    apply elem_of_cons in Hx as [->|Hx]; [by left|right; by apply Hin].
  - destruct (notify_spec try_send ptx p Hwf) as (q & Hq & Ht & _ & _ & _ & Hsub & Hnd & Hch & _).
    rewrite Hn in Hq. injection Hq as <-. split; [split; [done|]|split; [|split; [done|]]]; simpl.
    + destruct Hwf as [_ Hlt]. rewrite Forall_forall in *. intros i Hi%Hsub%Hlt.
      apply lookup_lt_is_Some in Hi as [c Hc]. eapply lookup_lt_Some. by apply Hch.
    + intros x Hx Hr. rewrite Ht. apply Hin; [set_solver|done].
    + eapply Forall_impl; [done|]. intros cl. by apply client_ok_notify.
  - repeat split; try apply Hwf; try done.
    + intros x Hx Hr. simpl in *. apply list_elem_of_filter. split; [set_solver|].
      apply Hin; set_solver.
    + eapply Forall_impl; [done|]. intros cl. apply client_ok_removed.
  - split; [by apply subscribe_wf|]. split; [done|]. simpl. split.
    + rewrite map_app. apply NoDup_app. split; [done|]. split; [|apply NoDup_singleton].
      intros i Hi ->%list_elem_of_singleton. apply list_elem_of_fmap in Hi as (cl & Heq & Hcl).
      rewrite Forall_forall in Hcls. destruct (Hcls cl Hcl) as (c & Hc & _).
      apply lookup_lt_Some in Hc. rewrite <- Heq in Hc. simpl in Hc. lia.
    + apply Forall_app. split; [eapply Forall_impl; [done|apply client_ok_subscribe]|].
      repeat constructor. exists chan_new. simpl. rewrite chan_new_open. repeat split.
      * by rewrite list_lookup_middle.
      * set_solver.
      * done.
  - split; [done|]. split; [done|]. simpl. split; [by rewrite map_app in Hids |- *|].
    rewrite Forall_app, Forall_cons in Hcls |- *. destruct Hcls as (Hc1 & (c & Hc & Ho & Hs & _) & Hc2).
    repeat split; try done. exists c. repeat split; try done. simpl.
    intros al tx x [= <- <-] Hx Hr. rewrite !elem_of_app. right. left. apply Hin; [set_solver|done].
Qed.

Lemma sys_inv_reachable s : reachable s -> sys_inv s.
Proof.
  induction 1 as [v o|s s' _ IH Hstep]; [|by eapply sys_inv_step].
  repeat split; simpl; try constructor. set_solver.
Qed.

(** C9. The pending stream loses no transaction, in any interleaving of the threads
    that use the pool: for a client that holds the stream, every transaction whose
    [add_transaction] has finished and that was not removed was already yielded or is
    in the rest of the snapshot, the buffer or the channel, which is still
    subscribed.  The next poll always returns, and if it has nothing to yield then
    every such transaction was yielded before, or is left in the channel by a poll of the
    channel that failed spuriously, after which the channel wakes the client's task. *)
Theorem pending_stream_complete s cl all txs ptx fuel :
  reachable s -> cl ∈ sys_clients s -> cl_stream cl = Some (all, txs) ->
  ptx ∈ sys_done s -> ~ pt_hash (ptx_tx ptx) ∈ sys_removed s ->
  cl_id cl ∈ subscribers (sys_pool s) /\
  exists c r all' txs' c', chans (sys_pool s) !! cl_id cl = Some c /\
    ptx ∈ cl_yielded cl ++ all ++ txs ++ chan_queue c /\
    pending_poll (S (S fuel)) all txs c = Some (r, all', txs', c') /\
    ptx ∈ cl_yielded cl ++ yielded r ++ all' ++ txs' ++ chan_queue c' /\
    (yielded r = [] ->
       ptx ∈ cl_yielded cl \/ (ptx ∈ chan_queue c' /\ chan_rewakes c' = true)).
Proof.
  intros (_ & _ & _ & Hcls)%sys_inv_reachable Hcl Hl Hx Hr.
  rewrite Forall_forall in Hcls. destruct (Hcls cl Hcl) as (c & Hc & _ & Hs & Hall).
  destruct (pending_poll_delivers fuel all txs c) as (r & all' & txs' & c' & Hp & Hperm & _ & Hnone).
  pose proof (Hall all txs ptx Hl Hx Hr) as H.
  split; [done|]. exists c, r, all', txs', c'. repeat split; try done; [by rewrite <- Hperm|].
  intros (-> & _ & -> & _ & Hq' & Hq)%Hnone. simpl in H. apply elem_of_app in H as [H|H]; [by left|right].
  rewrite Hq'. split; [done|]. destruct Hq as [Hq|Hq]; [rewrite Hq in H; set_solver|done].
Qed.
End Delivery.

(** ** Witness: a client that subscribes, another thread that inserts before the
    snapshot and notifies after it. *)
Definition demo_inserted : DemoPool :=
  insert_tx demo_pending (subscribe (pool_new mkNoopValidator FiFo_new)).2.
Definition demo_sys : Sys (T := ExecutableTxWithHash unit) (V := NoopValidator) (O := FiFo)
    (L := bool) :=
  mkSys (default demo_pool (notify demo_try_send demo_pending demo_inserted))
    [] [demo_pending] []
    [mkClient 0%nat (Some ([demo_pending], [])) []].

Lemma demo_sys_reachable : reachable demo_try_send demo_sys.
Proof.
  eapply reach_step; [|apply (step_notify _ demo_inserted _ [] demo_pending []); reflexivity].
  eapply reach_step; [|apply (step_snapshot _ demo_inserted _ _ _ [] 0%nat [] [])].
  eapply reach_step; [|apply step_insert].
  eapply reach_step; [|apply (step_subscribe _ (pool_new mkNoopValidator FiFo_new) [] [] [] [])].
  apply reach_init.
Qed.

Lemma pending_stream_complete_witness :
  exists c r all' txs' c', chans (sys_pool demo_sys) !! 0%nat = Some c /\
    demo_pending ∈ [] ++ [demo_pending] ++ [] ++ chan_queue c /\
    pending_poll 2 [demo_pending] [] c = Some (r, all', txs', c') /\
    demo_pending ∈ [] ++ yielded r ++ all' ++ txs' ++ chan_queue c' /\
    (yielded r = [] -> demo_pending ∈ [] \/ (demo_pending ∈ chan_queue c' /\ chan_rewakes c' = true)).
Proof.
  apply (pending_stream_complete demo_try_send demo_sys (mkClient 0%nat (Some ([demo_pending], [])) [])
           [demo_pending] [] demo_pending 0%nat demo_sys_reachable);
    [by left|done|by left|apply not_elem_of_nil].
Defined.

(** In that interleaving the stream yields the transaction twice: from the snapshot
    and from the channel. *)
Theorem pending_stream_repeats :
  exists c c' c'', chans (sys_pool demo_sys) !! 0%nat = Some c /\
    pending_poll 2 [demo_pending] [] c = Some (Ready (Some demo_pending), [], [], c') /\
    pending_poll 2 [] [] c' = Some (Ready (Some demo_pending), [], [], c'').
Proof. do 3 eexists. repeat split; reflexivity. Qed.

(** A poll that fails spuriously leaves the message, and the next one has it. *)
Lemma spurious_poll_recovers :
  let CH := failing_channel 1 (PendingTx (ExecutableTxWithHash unit) (PriorityValue FiFo (ExecutableTxWithHash unit))) in
  exists c c' c'', chan_send chan_new demo_pending = Some c /\
    subscription_poll (CH := CH) 2 [] c = Some (Pending, [], c') /\
    chan_queue c' = [demo_pending] /\ chan_rewakes c' = true /\
    subscription_poll (CH := CH) 2 [] c' = Some (Ready (Some demo_pending), [], c'').
Proof. do 3 eexists. repeat split; reflexivity. Qed.
