(* ===== verification/Executor.v ===== *)
(** * Preparing a transaction for the executor
    ([crates/executor/src/abstraction/mod.rs], [implementation/blockifier/utils.rs])

    The execution flags, the zero-fee rule and the gas override that
    [to_executor_tx] applies before it copies the transaction, field by field,
    into blockifier's own type.  Arithmetic on [u128] wraps, as in the release
    profile the workspace builds. *)

From Stdlib Require Import ZArith Lia.
From stdpp Require Import base numbers list.
From S2P Require Import Prelude Felt Tx PoolTypes.

(** ** Flags *)
Record ExecutionFlags := mkFlags {
  fl_account_validation : bool;
  fl_fee : bool;
  fl_nonce_check : bool;
}.
Definition ExecutionFlags_new : ExecutionFlags := mkFlags true true true.
Definition with_account_validation (f : ExecutionFlags) (enable : bool) : ExecutionFlags :=
  mkFlags enable (fl_fee f) (fl_nonce_check f).
Definition with_fee (f : ExecutionFlags) (enable : bool) : ExecutionFlags :=
  mkFlags (fl_account_validation f) enable (fl_nonce_check f).
Definition with_nonce_check (f : ExecutionFlags) (enable : bool) : ExecutionFlags :=
  mkFlags (fl_account_validation f) (fl_fee f) enable.

(** ** Zero resource bounds *)

Definition is_zero_resource_bounds (b : ResourceBoundsMapping) : bool :=
  match b with
  | AllBounds b =>
      let prod r := wrap128 (max_amount r * max_price_per_unit r) in
      Z.eqb (wrap128 (wrap128 (prod (l1_gas b) + prod (l2_gas b)) + prod (l1_data_gas b))) 0
  | L1Gas b => Z.eqb (wrap128 (max_amount b * max_price_per_unit b)) 0
  end.

Definition u64_MAX : Z := u64_bound - 1.

Section ExecutorTx.
Context {C : Type}.

Definition skip_fee_on_zero_gas (tx : ExecutableTxWithHash C) : bool :=
  match ewh_transaction tx with
  | ExInvoke (InvokeV0 tx) => Z.eqb (iv0_max_fee tx) 0
  | ExInvoke (InvokeV1 tx) => Z.eqb (iv1_max_fee tx) 0
  | ExInvoke (InvokeV3 tx) => is_zero_resource_bounds (iv3_resource_bounds tx)
  | ExDeployAccount (DeployAccountV1 tx) => Z.eqb (da1_max_fee tx) 0
  | ExDeployAccount (DeployAccountV3 tx) => is_zero_resource_bounds (da3_resource_bounds tx)
  | ExDeclare tx =>
      match dwc_transaction tx with
      | DeclareV0 tx => Z.eqb (dv0_max_fee tx) 0
      | DeclareV1 tx => Z.eqb (dv1_max_fee tx) 0
      | DeclareV2 tx => Z.eqb (dv2_max_fee tx) 0
      | DeclareV3 tx => is_zero_resource_bounds (dv3_resource_bounds tx)
      end
  | ExL1Handler _ => true
  end.

(** [bounds.l2_gas.max_amount = u64::MAX] when all the bounds are given. *)
Definition max_l2_gas (b : ResourceBoundsMapping) : ResourceBoundsMapping :=
  match b with
  | AllBounds b =>
      AllBounds {| l1_gas := l1_gas b;
                   l2_gas := {| max_amount := u64_MAX;
                                max_price_per_unit := max_price_per_unit (l2_gas b) |};
                   l1_data_gas := l1_data_gas b |}
  | L1Gas b => L1Gas b
  end.

Definition iv3_set_bounds (tx : InvokeTxV3) (b : ResourceBoundsMapping) : InvokeTxV3 :=
  {| iv3_chain_id := iv3_chain_id tx; iv3_sender_address := iv3_sender_address tx;
     iv3_nonce := iv3_nonce tx; iv3_calldata := iv3_calldata tx;
     iv3_signature := iv3_signature tx; iv3_resource_bounds := b; iv3_tip := iv3_tip tx;
     iv3_paymaster_data := iv3_paymaster_data tx;
     iv3_account_deployment_data := iv3_account_deployment_data tx;
     iv3_nonce_da_mode := iv3_nonce_da_mode tx; iv3_fee_da_mode := iv3_fee_da_mode tx |}.

Definition da3_set_bounds (tx : DeployAccountTxV3) (b : ResourceBoundsMapping)
    : DeployAccountTxV3 :=
  {| da3_chain_id := da3_chain_id tx; da3_nonce := da3_nonce tx;
     da3_signature := da3_signature tx; da3_class_hash := da3_class_hash tx;
     da3_contract_address := da3_contract_address tx;
     da3_contract_address_salt := da3_contract_address_salt tx;
     da3_constructor_calldata := da3_constructor_calldata tx; da3_resource_bounds := b;
     da3_tip := da3_tip tx; da3_paymaster_data := da3_paymaster_data tx;
     da3_nonce_da_mode := da3_nonce_da_mode tx; da3_fee_da_mode := da3_fee_da_mode tx |}.

Definition dv3_set_bounds (tx : DeclareTxV3) (b : ResourceBoundsMapping) : DeclareTxV3 :=
  {| dv3_chain_id := dv3_chain_id tx; dv3_sender_address := dv3_sender_address tx;
     dv3_nonce := dv3_nonce tx; dv3_signature := dv3_signature tx;
     dv3_class_hash := dv3_class_hash tx;
     dv3_compiled_class_hash := dv3_compiled_class_hash tx; dv3_resource_bounds := b;
     dv3_tip := dv3_tip tx; dv3_paymaster_data := dv3_paymaster_data tx;
     dv3_account_deployment_data := dv3_account_deployment_data tx;
     dv3_nonce_da_mode := dv3_nonce_da_mode tx; dv3_fee_da_mode := dv3_fee_da_mode tx |}.

Definition set_max_initial_sierra_gas (tx : ExecutableTxWithHash C) : ExecutableTxWithHash C :=
  {| ewh_hash := ewh_hash tx;
     ewh_transaction :=
       match ewh_transaction tx with
       | ExInvoke (InvokeV3 v3) =>
           ExInvoke (InvokeV3 (iv3_set_bounds v3 (max_l2_gas (iv3_resource_bounds v3))))
       | ExDeployAccount (DeployAccountV3 v3) =>
           ExDeployAccount (DeployAccountV3
             (da3_set_bounds v3 (max_l2_gas (da3_resource_bounds v3))))
       | ExDeclare d =>
           match dwc_transaction d with
           | DeclareV3 v3 =>
               ExDeclare {| dwc_class := dwc_class d;
                            dwc_transaction :=
                              DeclareV3 (dv3_set_bounds v3 (max_l2_gas (dv3_resource_bounds v3))) |}
           | _ => ExDeclare d
           end
       | other => other
       end |}.

(** What [to_executor_tx] hands to blockifier: the kind of transaction, its
    contents after the gas override, and the flags it runs with. *)
Inductive ExecutorTx :=
  | AccountTransaction (tx : ExecutableTxWithHash C) (flags : ExecutionFlags)
  | L1HandlerTransaction (tx : ExecutableTxWithHash C).

Definition to_executor_tx (tx : ExecutableTxWithHash C) (flags : ExecutionFlags) : ExecutorTx :=
  let flags :=
    if fl_fee flags then with_fee flags (negb (skip_fee_on_zero_gas tx)) else flags in
  let tx := if negb (fl_fee flags) then set_max_initial_sierra_gas tx else tx in
  match ewh_transaction tx with
  | ExL1Handler _ => L1HandlerTransaction tx
  | _ => AccountTransaction tx flags
  end.

(** Everything but the resource bounds that the pool and the executor look at. *)
Lemma set_max_initial_sierra_gas_keeps tx :
  pt_hash (set_max_initial_sierra_gas tx) = pt_hash tx /\
  pt_nonce (set_max_initial_sierra_gas tx) = pt_nonce tx /\
  pt_sender (set_max_initial_sierra_gas tx) = pt_sender tx /\
  executable_type (ewh_transaction (set_max_initial_sierra_gas tx))
    = executable_type (ewh_transaction tx).
Proof.
  destruct tx as [h [[]|?|[? []]|[]]]; by repeat split.
Qed.

(** What is handed to the executor is the submitted transaction: same
    hash, nonce, sender and type, and the fee is charged only if it was asked
    for and the transaction offers a nonzero one. *)
Theorem to_executor_tx_faithful tx flags :
  match to_executor_tx tx flags with
  | AccountTransaction tx' flags' =>
      pt_hash tx' = pt_hash tx /\ pt_nonce tx' = pt_nonce tx /\ pt_sender tx' = pt_sender tx /\
      executable_type (ewh_transaction tx') = executable_type (ewh_transaction tx) /\
      executable_type (ewh_transaction tx) <> TL1Handler /\
      fl_fee flags' = (fl_fee flags && negb (skip_fee_on_zero_gas tx))%bool /\
      fl_account_validation flags' = fl_account_validation flags /\
      fl_nonce_check flags' = fl_nonce_check flags /\ (fl_fee flags' = true -> tx' = tx)
  | L1HandlerTransaction tx' =>
      executable_type (ewh_transaction tx) = TL1Handler /\ tx' = tx
  end.
Proof.
  unfold to_executor_tx. destruct (set_max_initial_sierra_gas_keeps tx) as (? & ? & ? & ?).
  destruct (fl_fee flags) eqn:Hf; simpl; [destruct (skip_fee_on_zero_gas tx) eqn:Hs; simpl|rewrite Hf; simpl].
  all: destruct tx as [h [[]|?|[? []]|[]]]; simpl in *; repeat split; rewrite ?Hf; done.
Qed.
End ExecutorTx.
Arguments ExecutorTx : clear implicits.

(** ** The zero test *)

Definition bound_cost (b : ResourceBounds) : Z := max_amount b * max_price_per_unit b.
Definition bounds_cost (b : ResourceBoundsMapping) : Z :=
  match b with
  | AllBounds b => bound_cost (l1_gas b) + bound_cost (l2_gas b) + bound_cost (l1_data_gas b)
  | L1Gas b => bound_cost b
  end.
Definition bounds_nonneg (b : ResourceBoundsMapping) : Prop :=
  match b with
  | AllBounds b => 0 <= bound_cost (l1_gas b) /\ 0 <= bound_cost (l2_gas b) /\
                   0 <= bound_cost (l1_data_gas b)
  | L1Gas b => 0 <= bound_cost b
  end.

Lemma is_zero_resource_bounds_wraps b :
  is_zero_resource_bounds b = Z.eqb (wrap128 (bounds_cost b)) 0.
Proof.
  destruct b as [b|b]; [done|]. unfold is_zero_resource_bounds, bounds_cost, bound_cost.
  unfold wrap128. set (x := max_amount (l1_gas b) * _). set (y := max_amount (l2_gas b) * _).
  set (z := max_amount (l1_data_gas b) * _).
  by rewrite (Zplus_mod (x + y) z), (Zplus_mod x y).
Qed.

(** The zero-fee test is exact as long as the offered total fits in 128
    bits: the fee is skipped iff every resource's maximum cost is zero.  Beyond
    that the product wraps and a transaction that offers 2^128 is treated as
    offering nothing. *)
Theorem is_zero_resource_bounds_exact :
  (forall b, bounds_nonneg b -> bounds_cost b < u128_bound ->
     is_zero_resource_bounds b = true <-> bounds_cost b = 0) /\
  (exists b, is_u64 (max_amount b) /\ is_u128 (max_price_per_unit b) /\ 0 < bound_cost b /\
     is_zero_resource_bounds (L1Gas b) = true).
Proof.
  split.
  - intros b Hn Hlt. rewrite is_zero_resource_bounds_wraps, Z.eqb_eq. unfold wrap128.
    rewrite Z.mod_small; [done|]. split; [|done].
    destruct b; unfold bounds_cost, bounds_nonneg in *; lia.
  - exists {| max_amount := 2 ^ 63; max_price_per_unit := 2 ^ 65 |}. vm_compute. by repeat split.
Qed.
