(* ===== verification/Validator.v ===== *)
(** * The stateful validator of the pool ([crates/pool/src/validation/stateful.rs])

    The validator keeps the execution context, the state it validates against
    and, per account, the nonce the pool expects next.  Running an account's
    validation is blockifier's: [perform_validations] is a parameter, as are the
    provider's state and the texts of blockifier's errors.  A panic ([unwrap] on
    a provider error, [unimplemented!] for the nonce of a v0 transaction) is
    [None]. *)

From Stdlib Require Import ZArith Lia.
From stdpp Require Import base numbers list gmap.
From S2P Require Import Prelude Felt Tx PoolTypes Executor.

(** ** Blockifier's errors: the variants the code names, and the others. *)
Inductive TransactionFeeError :=
  | GasBoundsExceedBalance (resource max_amount max_price balance : Z)
  | ResourcesBoundsExceedBalance (details : Z)
  | MaxFeeExceedsBalance (max_fee balance : Z)
  | MaxFeeTooLow (min_fee max_fee : Z)
  | FeeInsufficientResourceBounds (errors : list Z)
  | FeeOther (e : Z).

Inductive TransactionPreValidationError :=
  | PreFee (e : TransactionFeeError)
  | PreState (e : Z)
  | PreInvalidNonce (address account_nonce incoming_tx_nonce : Z).

Inductive TransactionExecutionError :=
  | ExecFee (e : TransactionFeeError)
  | ExecPreValidation (e : TransactionPreValidationError)
  | ValidateTransactionError (storage_address class_hash details : Z)
  | PanicInValidate (panic_reason : Z)
  | ExecOther (e : Z).

Inductive TransactionExecutorError :=
  | ExecutorExecution (e : TransactionExecutionError)
  | ExecutorOther (e : Z).

Inductive StatefulValidatorError :=
  | SvState (e : Z)
  | SvExecutor (e : TransactionExecutorError)
  | SvExecution (e : TransactionExecutionError)
  | SvPreValidation (e : TransactionPreValidationError).

(** An error the pool cannot explain to the sender, boxed as it is. *)
Inductive BoxedError :=
  | BoxState (e : Z)
  | BoxFee (e : TransactionFeeError)
  | BoxExecution (e : TransactionExecutionError)
  | BoxExecutor (e : TransactionExecutorError)
  | BoxProvider (e : Z).

Section Validator.
Context {C St BlockEnv CfgEnv : Type}.
(** The provider's state: classes and nonces, each read can fail. *)
Variable sp_class : St -> Z -> result Z (option C).
Variable sp_nonce : St -> Z -> result Z (option Z).
(** [StatefulValidator::perform_validations] on the context [prepare] builds. *)
Variable perform_validations :
  St -> BlockEnv -> CfgEnv -> ExecutableTxWithHash C -> ExecutionFlags ->
  result StatefulValidatorError unit.
(** [to_string] of blockifier's errors, and the joined text of a list. *)
Variable fee_err_text : TransactionFeeError -> Z.
Variable exec_err_text : TransactionExecutionError -> Z.
Variable join_text : list Z -> Z.
(** [Box<dyn Error>]'s text, which the pool's [Internal] error carries. *)
Variable box_text : BoxedError -> Z.

(** ** Error mapping *)
Definition map_fee_err (err : TransactionFeeError) : result BoxedError InvalidTransactionError :=
  match err with
  | GasBoundsExceedBalance resource max_amount max_price balance =>
      Ok (InsufficientFunds (L1GasBoundsExceedFunds resource max_amount max_price balance))
  | ResourcesBoundsExceedBalance _ =>
      Ok (InsufficientFunds (ResourceBoundsExceedFunds (fee_err_text err)))
  | MaxFeeExceedsBalance max_fee balance =>
      Ok (InsufficientFunds (MaxFeeExceedsFunds max_fee balance))
  | MaxFeeTooLow min_fee max_fee =>
      Ok (InsufficientIntrinsicFee (InsufficientMaxFee min_fee max_fee))
  | FeeInsufficientResourceBounds errors =>
      Ok (InsufficientIntrinsicFee (InsufficientResourceBounds (join_text errors)))
  | FeeOther _ => Err (BoxFee err)
  end.

Definition map_pre_validation_err (err : TransactionPreValidationError)
    : result BoxedError InvalidTransactionError :=
  match err with
  | PreFee err => map_fee_err err
  | PreState err => Err (BoxState err)
  | PreInvalidNonce address account_nonce incoming_tx_nonce =>
      Ok (InvalidNonce address account_nonce incoming_tx_nonce)
  end.

Definition map_executor_err (err : TransactionExecutorError)
    : result BoxedError InvalidTransactionError :=
  match err with
  | ExecutorExecution e =>
      match e with
      | ExecFee e => map_fee_err e
      | ExecPreValidation e => map_pre_validation_err e
      | _ => Err (BoxExecution e)
      end
  | ExecutorOther _ => Err (BoxExecutor err)
  end.

Definition map_execution_err (err : TransactionExecutionError)
    : result BoxedError InvalidTransactionError :=
  match err with
  | ValidateTransactionError storage_address class_hash _ =>
      Ok (ValidationFailure storage_address class_hash (exec_err_text err))
  | PanicInValidate panic_reason => Ok (ValidationFailure 0 0 panic_reason)
  | _ => Err (BoxExecution err)
  end.

Definition map_invalid_tx_err (err : StatefulValidatorError)
    : result BoxedError InvalidTransactionError :=
  match err with
  | SvState err => Err (BoxState err)
  | SvExecutor err => map_executor_err err
  | SvExecution err => map_execution_err err
  | SvPreValidation err => map_pre_validation_err err
  end.

(** ** State *)
Record TxValidator := mkTxValidator {
  cfg_env : CfgEnv;
  block_env : BlockEnv;
  execution_flags : ExecutionFlags;
  state : St;
  pool_nonces : gmap Z Z;
}.

Definition TxValidator_new (st : St) (flags : ExecutionFlags) (cfg : CfgEnv) (env : BlockEnv)
    : TxValidator :=
  mkTxValidator cfg env flags st ∅.

Definition update (v : TxValidator) (new_state : St) (env : BlockEnv) : TxValidator :=
  mkTxValidator (cfg_env v) env (execution_flags v) new_state (pool_nonces v).

Definition pool_nonce (v : TxValidator) (address : Z) : result Z (option Z) :=
  match pool_nonces v !! address with
  | Some nonce => Ok (Some nonce)
  | None => sp_nonce (state v) address
  end.

(** ** Validation *)

(** The free function [validate] of the module. *)
Definition validate_inner (v : TxValidator) (pool_tx : ExecutableTxWithHash C)
    (skip_validate skip_fee_check : bool) : ValidationResult (ExecutableTxWithHash C) :=
  let flags :=
    with_nonce_check
      (with_fee (with_account_validation ExecutionFlags_new (negb skip_validate))
         (negb skip_fee_check)) false in
  match to_executor_tx pool_tx flags with
  | AccountTransaction tx flags =>
      match perform_validations (state v) (block_env v) (cfg_env v) tx flags with
      | Ok _ => Ok (Valid pool_tx)
      | Err e =>
          match map_invalid_tx_err e with
          | Ok error => Ok (Invalid pool_tx error)
          | Err error => Err {| verr_hash := ewh_hash pool_tx; verr_error := box_text error |}
          end
      end
  | L1HandlerTransaction _ => Ok (Valid pool_tx)
  end.

(** [if let Some(nonce) = pool_nonces.get(..) .. else state.nonce(..).unwrap().unwrap_or_default()] *)
Definition current_nonce (v : TxValidator) (address : Z) : option Z :=
  match pool_nonces v !! address with
  | Some nonce => Some nonce
  | None =>
      match sp_nonce (state v) address with
      | Ok nonce => Some (default 0 nonce)
      | Err _ => None
      end
  end.

Definition skip_validate (tx : ExecutableTxWithHash C) (tx_nonce current : Z) : bool :=
  match ewh_transaction tx with
  | ExDeployAccount _ | ExDeclare _ => false
  | _ => (Z.eqb tx_nonce 1 && Z.eqb current 0)%bool
  end.

(** The check of an already declared class: the early answer, if any. *)
Definition declare_check (v : TxValidator) (tx : ExecutableTxWithHash C)
    : option (ValidationResult (ExecutableTxWithHash C)) :=
  match ewh_transaction tx with
  | ExDeclare d =>
      let class_hash := declare_class_hash (dwc_transaction d) in
      match sp_class (state v) class_hash with
      | Err e => Some (Err {| verr_hash := ewh_hash tx; verr_error := box_text (BoxProvider e) |})
      | Ok (Some _) => Some (Ok (Invalid tx (ClassAlreadyDeclared class_hash)))
      | Ok None => None
      end
  | _ => None
  end.

Definition tx_validate (v : TxValidator) (tx : ExecutableTxWithHash C)
    : option (ValidationResult (ExecutableTxWithHash C) * TxValidator) :=
  match pt_nonce tx with
  | None => None
  | Some tx_nonce =>
      let address := pt_sender tx in
      match declare_check v tx with
      | Some answer => Some (answer, v)
      | None =>
          match current_nonce v address with
          | None => None
          | Some current =>
              if Z.ltb current tx_nonce then Some (Ok (Dependent tx tx_nonce current), v)
              else
                let result :=
                  validate_inner v tx
                    (negb (fl_account_validation (execution_flags v))
                     || skip_validate tx tx_nonce current)
                    (negb (fl_fee (execution_flags v))) in
                match result with
                | Ok (Valid _) =>
                    Some (result,
                          mkTxValidator (cfg_env v) (block_env v) (execution_flags v) (state v)
                            (<[address := felt_add current 1]> (pool_nonces v)))
                | _ => Some (result, v)
                end
          end
      end
  end.

#[export] Instance TxValidator_Validator : Validator TxValidator (ExecutableTxWithHash C) := {
  validate := tx_validate;
}.
End Validator.
Arguments TxValidator : clear implicits.
