(* ===== verification/ValidatorProofs.v ===== *)
(** * Properties of the stateful validator

    What [tx_validate] answers and what it does to the pool nonces, the chain of
    consecutive nonces it accepts, and two consequences of the order of its
    checks. *)

From Stdlib Require Import ZArith Lia.
From stdpp Require Import base numbers list gmap.
From S2P Require Import Prelude Felt Tx PoolTypes Executor Validator.

Section Proofs.
Context {C St BlockEnv CfgEnv : Type}.
Variable sp_class : St -> Z -> result Z (option C).
Variable sp_nonce : St -> Z -> result Z (option Z).
Variable perform_validations :
  St -> BlockEnv -> CfgEnv -> ExecutableTxWithHash C -> ExecutionFlags ->
  result StatefulValidatorError unit.
Variable fee_err_text : TransactionFeeError -> Z.
Variable exec_err_text : TransactionExecutionError -> Z.
Variable join_text : list Z -> Z.
Variable box_text : BoxedError -> Z.

Abbreviation V := (TxValidator St BlockEnv CfgEnv).
Abbreviation tx_validate := (tx_validate sp_class sp_nonce perform_validations fee_err_text
                              exec_err_text join_text box_text).
Abbreviation validate_inner := (validate_inner perform_validations fee_err_text
                              exec_err_text join_text box_text).
Implicit Types (v : V) (tx : ExecutableTxWithHash C).

(** [v] with the next nonce of [address] set. *)
Definition expect_nonce v (address nonce : Z) : V :=
  mkTxValidator (cfg_env v) (block_env v) (execution_flags v) (state v)
    (<[address := nonce]> (pool_nonces v)).

Lemma current_nonce_expect v address nonce :
  current_nonce sp_nonce (expect_nonce v address nonce) address = Some nonce.
Proof. unfold current_nonce. simpl. by rewrite lookup_insert_eq. Qed.

(** ** The verdict on a transaction *)



Abbreviation map_invalid_tx_err := (map_invalid_tx_err fee_err_text exec_err_text join_text).
Abbreviation map_fee_err := (map_fee_err fee_err_text join_text).















(** ** Consecutive nonces *)

(** Blockifier accepts [tx] in the validator's context, whatever the flags. *)
Definition accepts v tx : Prop :=
  forall tx' flags, pt_hash tx' = pt_hash tx ->
    perform_validations (state v) (block_env v) (cfg_env v) tx' flags = Ok tt.

Lemma validate_inner_accepts v tx sv sf :
  accepts v tx -> validate_inner v tx sv sf = Ok (Valid tx).
Proof.
  intros Ha. unfold Validator.validate_inner.
  destruct (to_executor_tx tx _) as [tx' flags'|] eqn:He; [|done]. rewrite Ha; [done|].
  unfold to_executor_tx in He. destruct (set_max_initial_sierra_gas_keeps tx) as (Hh & _).
  by repeat destruct_match_in He; simplify_eq.
Qed.

Lemma tx_validate_accepts v tx nonce current :
  pt_nonce tx = Some nonce -> declare_check sp_class box_text v tx = None ->
  current_nonce sp_nonce v (pt_sender tx) = Some current -> nonce <= current ->
  accepts v tx ->
  tx_validate v tx = Some (Ok (Valid tx), expect_nonce v (pt_sender tx) (felt_add current 1)).
Proof.
  intros Hn Hd Hc Hle Ha. unfold Validator.tx_validate. rewrite Hn, Hd, Hc.
  destruct (Z.ltb_spec current nonce); [lia|]. by rewrite validate_inner_accepts.
Qed.

(** An account's transactions with consecutive nonces, starting at the one
    the pool expects, are all accepted when submitted one after the other
    before any of them is mined, and the pool then expects the next nonce. *)
Theorem nonce_chain_accepted v address txs start :
  current_nonce sp_nonce v address = Some start -> 0 <= start ->
  start + Z.of_nat (length txs) < P ->
  Forall (fun tx => pt_sender tx = address /\ declare_check sp_class box_text v tx = None /\
                    accepts v tx) txs ->
  map pt_nonce txs = map Some (seqZ start (Z.of_nat (length txs))) ->
  exists v', validate_all (H := TxValidator_Validator sp_class sp_nonce perform_validations
               fee_err_text exec_err_text join_text box_text) v txs
             = Some (map (fun tx => Ok (Valid tx)) txs, v') /\
    current_nonce sp_nonce v' address = Some (start + Z.of_nat (length txs)).
Proof.
  revert v start. induction txs as [|tx txs IH]; intros v start Hc H0 Hb Hall Hn.
  { exists v. split; [done|]. by rewrite Z.add_0_r. }
  apply Forall_cons_iff in Hall as [(<- & Hd & Ha) Hall]. simpl length in *.
  rewrite seqZ_cons in Hn by lia. apply cons_eq_inv in Hn as [Hn Hns]. simpl.
  rewrite (tx_validate_accepts v tx start start) by (done || lia).
  rewrite felt_add_small by lia. replace (Z.pred (Z.of_nat (S (length txs)))) with
    (Z.of_nat (length txs)) in Hns by lia.
  destruct (IH (expect_nonce v (pt_sender tx) (start + 1)) (start + 1)) as (v' & -> & Hv').
  - apply current_nonce_expect.
  - lia.
  - lia.
  - exact Hall.
  - exact Hns.
  - exists v'. split; [done|]. etransitivity; [exact Hv'|]. f_equal. lia.
Qed.

(** The rule that skips the validation of an invoke with nonce 1 while the
    account still has nonce 0 can never apply: such a transaction has already
    been answered as dependent. *)
Theorem skip_validate_unreachable v tx nonce current :
  pt_nonce tx = Some nonce -> current_nonce sp_nonce v (pt_sender tx) = Some current ->
  skip_validate tx nonce current = true ->
  tx_validate v tx = Some (Ok (Dependent tx nonce current), v).
Proof.
  intros Hn Hc Hs. unfold Validator.tx_validate. rewrite Hn, Hc.
  unfold skip_validate in Hs. unfold declare_check.
  destruct (ewh_transaction tx); try done;
    apply andb_prop in Hs as [->%Z.eqb_eq ->%Z.eqb_eq]; done.
Qed.

(** A second transaction with a nonce that is already in the pool moves the
    expected nonce on as well, so that the transaction after the gap it leaves
    is accepted although its predecessor was never submitted. *)
Theorem nonce_gap_accepted v tx1 tx2 tx3 start :
  current_nonce sp_nonce v (pt_sender tx1) = Some start -> 0 <= start -> start + 2 < P ->
  pt_sender tx2 = pt_sender tx1 -> pt_sender tx3 = pt_sender tx1 ->
  pt_nonce tx1 = Some start -> pt_nonce tx2 = Some start -> pt_nonce tx3 = Some (start + 2) ->
  Forall (fun tx => declare_check sp_class box_text v tx = None /\ accepts v tx) [tx1; tx2; tx3] ->
  exists v', validate_all (H := TxValidator_Validator sp_class sp_nonce perform_validations
               fee_err_text exec_err_text join_text box_text) v [tx1; tx2; tx3]
             = Some ([Ok (Valid tx1); Ok (Valid tx2); Ok (Valid tx3)], v').
Proof.
  intros Hc H0 Hb Hs2 Hs3 Hn1 Hn2 Hn3 Hall. rewrite !Forall_cons in Hall.
  destruct Hall as ([Hd1 Ha1] & [Hd2 Ha2] & [Hd3 Ha3] & _). simpl.
  rewrite (tx_validate_accepts v tx1 start start), felt_add_small by (done || lia).
  set (v1 := expect_nonce v (pt_sender tx1) (start + 1)).
  rewrite (tx_validate_accepts v1 tx2 start (start + 1)), felt_add_small; try (done || lia).
  2: { rewrite Hs2. apply current_nonce_expect. }
  set (v2 := expect_nonce v1 (pt_sender tx2) _).
  rewrite (tx_validate_accepts v2 tx3 (start + 2) (start + 1 + 1)); try (done || lia).
  - eauto.
  - rewrite Hs3, <- Hs2. apply current_nonce_expect.
Qed.
End Proofs.

(** ** Witnesses: an account with nonce 0, a blockifier that accepts everything. *)
Definition demo_validator : TxValidator unit unit unit :=
  TxValidator_new tt ExecutionFlags_new tt tt.
Definition demo_invoke (hash sender nonce : Z) : ExecutableTxWithHash unit :=
  {| ewh_hash := hash;
     ewh_transaction := ExInvoke (InvokeV1 {|
       iv1_chain_id := Id 1; iv1_sender_address := sender; iv1_nonce := nonce;
       iv1_calldata := []; iv1_signature := []; iv1_max_fee := 1 |}) |}.
Definition demo_class (_ : unit) (_ : Z) : result Z (option unit) := Ok None.
Definition demo_nonce (_ : unit) (_ : Z) : result Z (option Z) := Ok None.
Definition demo_accept (_ : unit) (_ : unit) (_ : unit) (_ : ExecutableTxWithHash unit)
    (_ : ExecutionFlags) : result StatefulValidatorError unit := Ok tt.
Abbreviation zero_text := (fun _ => 0).



Lemma nonce_chain_accepted_witness :
  exists v', validate_all (H := TxValidator_Validator demo_class demo_nonce demo_accept zero_text
               zero_text zero_text zero_text) demo_validator [demo_invoke 9 5 0; demo_invoke 8 5 1]
             = Some ([Ok (Valid (demo_invoke 9 5 0)); Ok (Valid (demo_invoke 8 5 1))], v') /\
    current_nonce demo_nonce v' 5 = Some 2.
Proof.
  apply (nonce_chain_accepted demo_class demo_nonce demo_accept zero_text zero_text zero_text
           zero_text demo_validator 5 [demo_invoke 9 5 0; demo_invoke 8 5 1] 0);
    [done|done|done| |done].
  by repeat constructor.
Defined.

Lemma skip_validate_unreachable_witness :
  tx_validate demo_class demo_nonce demo_accept zero_text zero_text zero_text zero_text
    demo_validator (demo_invoke 9 5 1) = Some (Ok (Dependent (demo_invoke 9 5 1) 1 0), demo_validator).
Proof. apply skip_validate_unreachable; reflexivity. Defined.

Lemma nonce_gap_accepted_witness :
  exists v', validate_all (H := TxValidator_Validator demo_class demo_nonce demo_accept zero_text
               zero_text zero_text zero_text) demo_validator
               [demo_invoke 9 5 0; demo_invoke 8 5 0; demo_invoke 7 5 2]
             = Some ([Ok (Valid (demo_invoke 9 5 0)); Ok (Valid (demo_invoke 8 5 0));
                      Ok (Valid (demo_invoke 7 5 2))], v').
Proof.
  apply (nonce_gap_accepted demo_class demo_nonce demo_accept zero_text zero_text zero_text
           zero_text demo_validator _ _ _ 0); try done. by repeat constructor.
Defined.
