(* ===== verification/Codec.v ===== *)
(** * Table codecs ([crates/storage/db/src/codecs/mod.rs], [models/contract.rs],
    [models/storage.rs])

    Keys are encoded ([Encode]/[Decode]) and values compressed
    ([Compress]/[Decompress]) to byte strings, lists of [Z] in [0, 256).  A felt
    inside a value is serialised by postcard, a third-party crate: it is the
    interface [FeltPostcard].  Slicing a short buffer panics: [None].

    The database orders keys and duplicate values by their bytes, so the codecs
    have to be order preserving as well as invertible. *)

From Stdlib Require Import ZArith Lia.
From stdpp Require Import base numbers list.
From S2P Require Import Prelude Felt Block.

(** ** Byte order *)

(** The order of the storage engine: byte by byte, a prefix first. *)
Fixpoint lex_le (a b : list Z) : bool :=
  match a, b with
  | [], _ => true
  | _ :: _, [] => false
  | x :: a, y :: b => if Z.ltb x y then true else if Z.eqb x y then lex_le a b else false
  end.

(** ** Codec errors and slices *)
Inductive CodecError := CompressErr | DecodeErr | DecompressErr.

(** [&bytes[0..n]] and [&bytes[n..]]; [None] is the out-of-bounds panic. *)
Definition slice_to (n : nat) (b : list Z) : option (list Z) :=
  if decide (n <= length b)%nat then Some (take n b) else None.
Definition slice_from (n : nat) (b : list Z) : option (list Z) :=
  if decide (n <= length b)%nat then Some (drop n b) else None.

(** ** Keys *)
Definition encode_u64 (n : Z) : list Z := be_bytes 8 n.
(** [copy_from_slice] panics on any other length. *)
Definition decode_u64 (b : list Z) : option (result CodecError Z) :=
  if decide (length b = 8%nat) then Some (Ok (be_to_Z b)) else None.

Definition encode_felt (f : Z) : list Z := be_bytes 32 f.
Definition decode_felt (b : list Z) : option (result CodecError Z) :=
  Some (Ok (felt_from_bytes_be b)).

Record ContractStorageKey := { csk_contract_address : Z; csk_key : Z }.

Definition encode_storage_key (k : ContractStorageKey) : list Z :=
  encode_felt (csk_contract_address k) ++ encode_felt (csk_key k).
Definition decode_storage_key (b : list Z) : option (result CodecError ContractStorageKey) :=
  match slice_to 32 b with
  | None => None
  | Some a =>
      match decode_felt a, slice_from 32 b with
      | Some (Ok a), Some k =>
          match decode_felt k with
          | Some (Ok k) => Some (Ok {| csk_contract_address := a; csk_key := k |})
          | Some (Err e) => Some (Err e)
          | None => None
          end
      | Some (Err e), _ => Some (Err e)
      | _, _ => None
      end
  end.

(** ** Values *)

(** postcard on a felt. *)
Class FeltPostcard := {
  felt_compress : Z -> list Z;
  felt_decompress : list Z -> result CodecError Z;
  felt_decompress_compress f : is_felt f -> felt_decompress (felt_compress f) = Ok f;
}.

Definition compress_status (s : FinalityStatus) : list Z :=
  match s with AcceptedOnL2 => [0] | AcceptedOnL1 => [1] end.
Definition decompress_status (b : list Z) : result CodecError FinalityStatus :=
  match head b with
  | Some 0 => Ok AcceptedOnL2
  | Some 1 => Ok AcceptedOnL1
  | _ => Err DecodeErr
  end.

Record ContractClassChange := { ccc_contract_address : Z; ccc_class_hash : Z }.
Record ContractNonceChange := { cnc_contract_address : Z; cnc_nonce : Z }.
Record StorageEntry := { se_key : Z; se_value : Z }.
Record ContractStorageEntry := { cse_key : ContractStorageKey; cse_value : Z }.

Section Values.
Context `{FP : FeltPostcard}.

(** An [n]-byte encoded part followed by a compressed felt. *)
Definition decompress_after {A B} (n : nat) (dec : list Z -> option (result CodecError A))
    (mk : A -> Z -> B) (b : list Z) : option (result CodecError B) :=
  match slice_to n b with
  | None => None
  | Some a =>
      match dec a, slice_from n b with
      | Some (Ok a), Some v => Some (mk a <$> felt_decompress v)
      | Some (Err e), _ => Some (Err e)
      | _, _ => None
      end
  end.

Definition compress_class_change (c : ContractClassChange) : list Z :=
  encode_felt (ccc_contract_address c) ++ felt_compress (ccc_class_hash c).
Definition decompress_class_change : list Z -> option (result CodecError ContractClassChange) :=
  decompress_after 32 decode_felt
    (fun a h => {| ccc_contract_address := a; ccc_class_hash := h |}).

Definition compress_nonce_change (c : ContractNonceChange) : list Z :=
  encode_felt (cnc_contract_address c) ++ felt_compress (cnc_nonce c).
Definition decompress_nonce_change : list Z -> option (result CodecError ContractNonceChange) :=
  decompress_after 32 decode_felt (fun a n => {| cnc_contract_address := a; cnc_nonce := n |}).

Definition compress_storage_entry (e : StorageEntry) : list Z :=
  encode_felt (se_key e) ++ felt_compress (se_value e).
Definition decompress_storage_entry : list Z -> option (result CodecError StorageEntry) :=
  decompress_after 32 decode_felt (fun k v => {| se_key := k; se_value := v |}).

Definition compress_contract_storage_entry (e : ContractStorageEntry) : list Z :=
  encode_storage_key (cse_key e) ++ felt_compress (cse_value e).
Definition decompress_contract_storage_entry
    : list Z -> option (result CodecError ContractStorageEntry) :=
  decompress_after 64 decode_storage_key (fun k v => {| cse_key := k; cse_value := v |}).
End Values.

(** ** Byte order of big-endian numbers *)

Lemma lex_le_prefix a r : lex_le a (a ++ r) = true.
Proof. induction a as [|x a IH]; [done|]. simpl. by rewrite Z.ltb_irrefl, Z.eqb_refl. Qed.

Lemma lex_le_total a b : lex_le a b = true \/ lex_le b a = true.
Proof.
  revert b. induction a as [|x a IH]; intros [|y b]; simpl; auto.
  destruct (Z.ltb_spec x y), (Z.ltb_spec y x), (Z.eqb_spec x y), (Z.eqb_spec y x); auto; lia.
Qed.

Lemma lex_le_trans a b c : lex_le a b = true -> lex_le b c = true -> lex_le a c = true.
Proof.
  revert b c. induction a as [|x a IH]; intros [|y b] [|z c]; simpl; try done.
  destruct (Z.ltb_spec x y), (Z.ltb_spec y z), (Z.ltb_spec x z), (Z.eqb_spec x y),
    (Z.eqb_spec y z), (Z.eqb_spec x z); try done; try lia. apply IH.
Qed.

Lemma lex_le_antisym a b : lex_le a b = true -> lex_le b a = true -> a = b.
Proof.
  revert b. induction a as [|x a IH]; intros [|y b]; simpl; try done.
  destruct (Z.ltb_spec x y), (Z.ltb_spec y x), (Z.eqb_spec x y), (Z.eqb_spec y x); try done; try lia.
  subst. intros H1 H2. f_equal. by apply IH.
Qed.

Lemma lex_le_be_mod n a b r :
  lex_le (be_bytes n a) (be_bytes n b ++ r)
  = Z.leb (a mod 256 ^ Z.of_nat n) (b mod 256 ^ Z.of_nat n).
Proof.
  induction n as [|n IH]; [by rewrite !Z.mod_1_r|].
  simpl be_bytes. simpl lex_le. rewrite IH.
  rewrite Nat2Z.inj_succ, Z.pow_succ_r by lia. set (m := 256 ^ Z.of_nat n).
  assert (0 < m) by (apply Z.pow_pos_nonneg; lia).
  rewrite (Z.mul_comm 256), !Z.rem_mul_r by lia.
  pose proof (Z.mod_pos_bound a m). pose proof (Z.mod_pos_bound b m).
  set (ha := (a / m) mod 256). set (hb := (b / m) mod 256).
  destruct (Z.ltb_spec ha hb), (Z.eqb_spec ha hb), (Z.leb_spec (a mod m) (b mod m)),
    (Z.leb_spec (a mod m + m * ha) (b mod m + m * hb)); try done; nia.
Qed.

Lemma lex_le_be n a b r :
  0 <= a < 256 ^ Z.of_nat n -> 0 <= b < 256 ^ Z.of_nat n ->
  lex_le (be_bytes n a) (be_bytes n b ++ r) = Z.leb a b.
Proof. intros. by rewrite lex_le_be_mod, !Z.mod_small. Qed.

Lemma P_lt_2_256 : P < 256 ^ Z.of_nat 32.
Proof. reflexivity. Qed.

Lemma is_felt_bytes f : is_felt f -> 0 <= f < 256 ^ Z.of_nat 32.
Proof. unfold is_felt. pose proof P_lt_2_256. lia. Qed.

Lemma lex_le_felt a b r :
  is_felt a -> is_felt b -> lex_le (encode_felt a) (encode_felt b ++ r) = Z.leb a b.
Proof. intros. by apply lex_le_be; apply is_felt_bytes. Qed.

Lemma lex_le_app_same a b r : lex_le (a ++ b) (a ++ r) = lex_le b r.
Proof. induction a as [|x a IH]; [done|]. simpl. by rewrite Z.ltb_irrefl, Z.eqb_refl. Qed.

Lemma lex_le_app_ne a b c r :
  length a = length c -> a <> c -> lex_le (a ++ b) (c ++ r) = lex_le a c.
Proof.
  revert c. induction a as [|x a IH]; intros [|y c] Hl Hne; simplify_eq/=.
  destruct (Z.ltb_spec x y); [done|]. destruct (Z.eqb_spec x y) as [->|]; [|done].
  apply IH; [done|]. intros ->. by apply Hne.
Qed.

(** The order of the storage keys: the contract first, then the key. *)
Definition storage_key_le (k1 k2 : ContractStorageKey) : bool :=
  (Z.ltb (csk_contract_address k1) (csk_contract_address k2)
   || (Z.eqb (csk_contract_address k1) (csk_contract_address k2)
       && Z.leb (csk_key k1) (csk_key k2)))%bool.

Definition wf_storage_key (k : ContractStorageKey) : Prop :=
  is_felt (csk_contract_address k) /\ is_felt (csk_key k).

Lemma lex_le_storage_key k1 k2 r :
  wf_storage_key k1 -> wf_storage_key k2 ->
  lex_le (encode_storage_key k1) (encode_storage_key k2 ++ r) = storage_key_le k1 k2.
Proof.
  intros [Ha1 Hk1] [Ha2 Hk2]. unfold encode_storage_key, storage_key_le. rewrite <- app_assoc.
  destruct (Z.eqb_spec (csk_contract_address k1) (csk_contract_address k2)) as [->|Hne].
  - rewrite lex_le_app_same, lex_le_felt by done. by rewrite Z.ltb_irrefl.
  - rewrite lex_le_app_ne.
    + rewrite <- (app_nil_r (encode_felt (csk_contract_address k2))), lex_le_felt by done.
      destruct (Z.leb_spec (csk_contract_address k1) (csk_contract_address k2)),
        (Z.ltb_spec (csk_contract_address k1) (csk_contract_address k2)); try done; lia.
    + unfold encode_felt. by rewrite !be_bytes_length.
    + intros H. apply Hne. by eapply (be_bytes_inj 32); [apply is_felt_bytes..|].
Qed.

(** ** Round trips *)
Lemma slice_app n a b :
  length a = n -> slice_to n (a ++ b) = Some a /\ slice_from n (a ++ b) = Some b.
Proof.
  intros <-. unfold slice_to, slice_from. rewrite length_app.
  rewrite !decide_True by lia. by rewrite take_app_length, drop_app_length.
Qed.

Lemma decode_encode_felt f : is_felt f -> decode_felt (encode_felt f) = Some (Ok f).
Proof.
  intros Hf. unfold decode_felt, encode_felt, felt_from_bytes_be.
  rewrite be_to_Z_be_bytes by (by apply is_felt_bytes). by rewrite felt_of_small.
Qed.

Lemma decode_encode_storage_key k :
  wf_storage_key k -> decode_storage_key (encode_storage_key k) = Some (Ok k).
Proof.
  intros [Ha Hk]. unfold decode_storage_key, encode_storage_key.
  destruct (slice_app 32 (encode_felt (csk_contract_address k)) (encode_felt (csk_key k))) as [-> ->];
    [apply be_bytes_length|].
  rewrite !decode_encode_felt by done. by destruct k.
Qed.

Lemma decompress_after_app `{FeltPostcard} {A B} n dec (mk : A -> Z -> B) bytes a f :
  length bytes = n -> dec bytes = Some (Ok a) -> is_felt f ->
  decompress_after n dec mk (bytes ++ felt_compress f) = Some (Ok (mk a f)).
Proof.
  intros Hl Hd Hf. unfold decompress_after.
  destruct (slice_app n bytes (felt_compress f) Hl) as [-> ->].
  by rewrite Hd, felt_decompress_compress.
Qed.

(** Everything the database stores with a hand-written codec is read back
    as it was written: block numbers, felts, storage keys, finality statuses,
    and the four entry types that carry a felt. *)
Theorem codec_roundtrip `{FeltPostcard} :
  (forall n, is_u64 n -> decode_u64 (encode_u64 n) = Some (Ok n)) /\
  (forall f, is_felt f -> decode_felt (encode_felt f) = Some (Ok f)) /\
  (forall k, wf_storage_key k -> decode_storage_key (encode_storage_key k) = Some (Ok k)) /\
  (forall s, decompress_status (compress_status s) = Ok s) /\
  (forall c, is_felt (ccc_contract_address c) -> is_felt (ccc_class_hash c) ->
     decompress_class_change (compress_class_change c) = Some (Ok c)) /\
  (forall c, is_felt (cnc_contract_address c) -> is_felt (cnc_nonce c) ->
     decompress_nonce_change (compress_nonce_change c) = Some (Ok c)) /\
  (forall e, is_felt (se_key e) -> is_felt (se_value e) ->
     decompress_storage_entry (compress_storage_entry e) = Some (Ok e)) /\
  (forall e, wf_storage_key (cse_key e) -> is_felt (cse_value e) ->
     decompress_contract_storage_entry (compress_contract_storage_entry e) = Some (Ok e)).
Proof.
  split_and!.
  - intros n Hn. unfold decode_u64, encode_u64. rewrite be_bytes_length, decide_True by done.
    rewrite be_to_Z_be_bytes; [done|]. exact Hn.
  - apply decode_encode_felt.
  - apply decode_encode_storage_key.
  - by intros [].
  - intros [a h] Ha Hh. apply decompress_after_app; [apply be_bytes_length| |done].
    by apply decode_encode_felt.
  - intros [a n] Ha Hn. apply decompress_after_app; [apply be_bytes_length| |done].
    by apply decode_encode_felt.
  - intros [k v] Hk Hv. apply decompress_after_app; [apply be_bytes_length| |done].
    by apply decode_encode_felt.
  - intros [k v] Hk Hv. apply decompress_after_app; [| |done].
    + unfold encode_storage_key, encode_felt. by rewrite length_app, !be_bytes_length.
    + by apply decode_encode_storage_key.
Qed.

(** The byte order of the encodings is the order of what they encode, so
    that a table's last key is its highest block number, and a search for a
    subkey finds the first entry whose own subkey is not smaller, whatever the
    bytes that follow it. *)
Theorem codec_order `{FeltPostcard} :
  (forall m n, is_u64 m -> is_u64 n -> lex_le (encode_u64 m) (encode_u64 n) = Z.leb m n) /\
  (forall a c, is_felt a -> is_felt (ccc_contract_address c) ->
     lex_le (encode_felt a) (compress_class_change c) = Z.leb a (ccc_contract_address c)) /\
  (forall a c, is_felt a -> is_felt (cnc_contract_address c) ->
     lex_le (encode_felt a) (compress_nonce_change c) = Z.leb a (cnc_contract_address c)) /\
  (forall k e, is_felt k -> is_felt (se_key e) ->
     lex_le (encode_felt k) (compress_storage_entry e) = Z.leb k (se_key e)) /\
  (forall k e, wf_storage_key k -> wf_storage_key (cse_key e) ->
     lex_le (encode_storage_key k) (compress_contract_storage_entry e)
     = storage_key_le k (cse_key e)).
Proof.
  split_and!.
  - intros m n Hm Hn. rewrite <- (app_nil_r (encode_u64 n)). by apply lex_le_be.
  - intros a c Ha Hc. by apply lex_le_felt.
  - intros a c Ha Hc. by apply lex_le_felt.
  - intros k e Hk He. by apply lex_le_felt.
  - intros k e Hk He. by apply lex_le_storage_key.
Qed.

(** A postcard instance to run the model with: the felt's big-endian bytes. *)
#[refine, export] Instance be_postcard : FeltPostcard := {
  felt_compress f := be_bytes 32 f;
  felt_decompress b := Ok (felt_from_bytes_be b);
}.
Proof.
  intros f Hf. unfold felt_from_bytes_be. rewrite be_to_Z_be_bytes by (by apply is_felt_bytes).
  by rewrite felt_of_small.
Defined.
