(* ===== verification/Versioned.v ===== *)
(** * Versioned table values ([crates/storage/db/src/models/versioned])

    Headers and transactions are stored in the format of database version 7, and
    rows written by version 6 are still read and converted.  postcard, the
    serialisation, is a parameter: one parser per stored type. *)

From Stdlib Require Import ZArith Lia.
From stdpp Require Import base numbers list.
From S2P Require Import Prelude Felt Tx Version Block Codec.

Module V6.
Record Header := {
  parent_hash : Z;
  number : Z;
  state_diff_commitment : Z;
  transactions_commitment : Z;
  receipts_commitment : Z;
  events_commitment : Z;
  state_root : Z;
  transaction_count : Z;
  events_count : Z;
  state_diff_length : Z;
  timestamp : Z;
  sequencer_address : Z;
  l1_gas_prices : GasPrice;
  l1_data_gas_prices : GasPrice;
  l1_da_mode : L1DataAvailabilityMode;
  protocol_version : ProtocolVersion;
}.

(** The l2 gas prices did not exist: they become the minimum. *)
Definition header_into (h : Header) : Block.Header := {|
  Block.parent_hash := parent_hash h;
  Block.number := number h;
  Block.state_diff_commitment := state_diff_commitment h;
  Block.transactions_commitment := transactions_commitment h;
  Block.receipts_commitment := receipts_commitment h;
  Block.events_commitment := events_commitment h;
  Block.state_root := state_root h;
  Block.transaction_count := transaction_count h;
  Block.events_count := events_count h;
  Block.state_diff_length := state_diff_length h;
  Block.timestamp := timestamp h;
  Block.sequencer_address := sequencer_address h;
  Block.l1_gas_prices := l1_gas_prices h;
  Block.l1_data_gas_prices := l1_data_gas_prices h;
  Block.l1_da_mode := l1_da_mode h;
  Block.protocol_version := protocol_version h;
  Block.l2_gas_prices := GasPrice_MIN;
|}.

Record ResourceBoundsMapping := { l1_gas : ResourceBounds; l2_gas : ResourceBounds }.
(** The l2 gas bound is dropped. *)
Definition bounds_into (b : ResourceBoundsMapping) : Tx.ResourceBoundsMapping := L1Gas (l1_gas b).

Record InvokeTxV3 := {
  iv3_chain_id : ChainId;
  iv3_sender_address : Z;
  iv3_nonce : Z;
  iv3_calldata : list Z;
  iv3_signature : list Z;
  iv3_resource_bounds : ResourceBoundsMapping;
  iv3_tip : Z;
  iv3_paymaster_data : list Z;
  iv3_account_deployment_data : list Z;
  iv3_nonce_da_mode : DataAvailabilityMode;
  iv3_fee_da_mode : DataAvailabilityMode;
}.
Definition invoke_v3_into (t : InvokeTxV3) : Tx.InvokeTxV3 := {|
  Tx.iv3_chain_id := iv3_chain_id t;
  Tx.iv3_sender_address := iv3_sender_address t;
  Tx.iv3_nonce := iv3_nonce t;
  Tx.iv3_calldata := iv3_calldata t;
  Tx.iv3_signature := iv3_signature t;
  Tx.iv3_resource_bounds := bounds_into (iv3_resource_bounds t);
  Tx.iv3_tip := iv3_tip t;
  Tx.iv3_paymaster_data := iv3_paymaster_data t;
  Tx.iv3_account_deployment_data := iv3_account_deployment_data t;
  Tx.iv3_nonce_da_mode := iv3_nonce_da_mode t;
  Tx.iv3_fee_da_mode := iv3_fee_da_mode t;
|}.

Record DeclareTxV3 := {
  dv3_chain_id : ChainId;
  dv3_sender_address : Z;
  dv3_nonce : Z;
  dv3_signature : list Z;
  dv3_class_hash : Z;
  dv3_compiled_class_hash : Z;
  dv3_resource_bounds : ResourceBoundsMapping;
  dv3_tip : Z;
  dv3_paymaster_data : list Z;
  dv3_account_deployment_data : list Z;
  dv3_nonce_da_mode : DataAvailabilityMode;
  dv3_fee_da_mode : DataAvailabilityMode;
}.
Definition declare_v3_into (t : DeclareTxV3) : Tx.DeclareTxV3 := {|
  Tx.dv3_chain_id := dv3_chain_id t;
  Tx.dv3_sender_address := dv3_sender_address t;
  Tx.dv3_nonce := dv3_nonce t;
  Tx.dv3_signature := dv3_signature t;
  Tx.dv3_class_hash := dv3_class_hash t;
  Tx.dv3_compiled_class_hash := dv3_compiled_class_hash t;
  Tx.dv3_resource_bounds := bounds_into (dv3_resource_bounds t);
  Tx.dv3_tip := dv3_tip t;
  Tx.dv3_paymaster_data := dv3_paymaster_data t;
  Tx.dv3_account_deployment_data := dv3_account_deployment_data t;
  Tx.dv3_nonce_da_mode := dv3_nonce_da_mode t;
  Tx.dv3_fee_da_mode := dv3_fee_da_mode t;
|}.

Record DeployAccountTxV3 := {
  da3_chain_id : ChainId;
  da3_nonce : Z;
  da3_signature : list Z;
  da3_class_hash : Z;
  da3_contract_address : Z;
  da3_contract_address_salt : Z;
  da3_constructor_calldata : list Z;
  da3_resource_bounds : ResourceBoundsMapping;
  da3_tip : Z;
  da3_paymaster_data : list Z;
  da3_nonce_da_mode : DataAvailabilityMode;
  da3_fee_da_mode : DataAvailabilityMode;
}.
Definition deploy_account_v3_into (t : DeployAccountTxV3) : Tx.DeployAccountTxV3 := {|
  Tx.da3_chain_id := da3_chain_id t;
  Tx.da3_nonce := da3_nonce t;
  Tx.da3_signature := da3_signature t;
  Tx.da3_class_hash := da3_class_hash t;
  Tx.da3_contract_address := da3_contract_address t;
  Tx.da3_contract_address_salt := da3_contract_address_salt t;
  Tx.da3_constructor_calldata := da3_constructor_calldata t;
  Tx.da3_resource_bounds := bounds_into (da3_resource_bounds t);
  Tx.da3_tip := da3_tip t;
  Tx.da3_paymaster_data := da3_paymaster_data t;
  Tx.da3_nonce_da_mode := da3_nonce_da_mode t;
  Tx.da3_fee_da_mode := da3_fee_da_mode t;
|}.

Inductive InvokeTx :=
  | InvokeV0 (tx : InvokeTxV0)
  | InvokeV1 (tx : InvokeTxV1)
  | InvokeV3 (tx : InvokeTxV3).
(** The order of version 6: v0 was added last. *)
Inductive DeclareTx :=
  | DeclareV1 (tx : DeclareTxV1)
  | DeclareV2 (tx : DeclareTxV2)
  | DeclareV3 (tx : DeclareTxV3)
  | DeclareV0 (tx : DeclareTxV0).
Inductive DeployAccountTx :=
  | DeployAccountV1 (tx : DeployAccountTxV1)
  | DeployAccountV3 (tx : DeployAccountTxV3).
Inductive Tx :=
  | TxInvoke (tx : InvokeTx)
  | TxDeclare (tx : DeclareTx)
  | TxL1Handler (tx : L1HandlerTx)
  | TxDeployAccount (tx : DeployAccountTx)
  | TxDeploy (tx : DeployTx).

Definition invoke_into (t : InvokeTx) : Tx.InvokeTx :=
  match t with
  | InvokeV0 t => Tx.InvokeV0 t
  | InvokeV1 t => Tx.InvokeV1 t
  | InvokeV3 t => Tx.InvokeV3 (invoke_v3_into t)
  end.
Definition declare_into (t : DeclareTx) : Tx.DeclareTx :=
  match t with
  | DeclareV0 t => Tx.DeclareV0 t
  | DeclareV1 t => Tx.DeclareV1 t
  | DeclareV2 t => Tx.DeclareV2 t
  | DeclareV3 t => Tx.DeclareV3 (declare_v3_into t)
  end.
Definition deploy_account_into (t : DeployAccountTx) : Tx.DeployAccountTx :=
  match t with
  | DeployAccountV1 t => Tx.DeployAccountV1 t
  | DeployAccountV3 t => Tx.DeployAccountV3 (deploy_account_v3_into t)
  end.
Definition tx_into (t : Tx) : Tx.Tx :=
  match t with
  | TxInvoke t => Tx.TxInvoke (invoke_into t)
  | TxDeclare t => Tx.TxDeclare (declare_into t)
  | TxL1Handler t => Tx.TxL1Handler t
  | TxDeployAccount t => Tx.TxDeployAccount (deploy_account_into t)
  | TxDeploy t => Tx.TxDeploy t
  end.

Definition version (t : Tx) : Z :=
  match t with
  | TxInvoke (InvokeV0 _) => 0
  | TxInvoke (InvokeV1 _) => 1
  | TxInvoke (InvokeV3 _) => 3
  | TxDeclare (DeclareV0 _) => 0
  | TxDeclare (DeclareV1 _) => 1
  | TxDeclare (DeclareV2 _) => 2
  | TxDeclare (DeclareV3 _) => 3
  | TxL1Handler t => l1h_version t
  | TxDeployAccount (DeployAccountV1 _) => 1
  | TxDeployAccount (DeployAccountV3 _) => 3
  | TxDeploy t => dep_version t
  end.
Definition type (t : Tx) : TxType :=
  match t with
  | TxInvoke _ => TInvoke
  | TxDeploy _ => TDeploy
  | TxDeclare _ => TDeclare
  | TxL1Handler _ => TL1Handler
  | TxDeployAccount _ => TDeployAccount
  end.
End V6.

(** ** The stored enums *)
Inductive VersionedHeader := HeaderV6 (h : V6.Header) | HeaderV7 (h : Header).
Inductive VersionedTx := StoredV6 (t : V6.Tx) | StoredV7 (t : Tx).

Definition header_from (h : Header) : VersionedHeader := HeaderV7 h.
Definition header_of (v : VersionedHeader) : Header :=
  match v with HeaderV7 h => h | HeaderV6 h => V6.header_into h end.
Definition tx_from (t : Tx) : VersionedTx := StoredV7 t.
Definition tx_of (v : VersionedTx) : Tx :=
  match v with StoredV6 t => V6.tx_into t | StoredV7 t => t end.

(** [Decompress]: the enum itself, then a bare version 7 row, then a bare
    version 6 row. *)
Section Decompress.
Context {E New Old : Type}.
Variables (parse_enum : list Z -> option E) (parse_v7 : list Z -> option New)
          (parse_v6 : list Z -> option Old) (mk_v7 : New -> E) (mk_v6 : Old -> E).

Definition decompress_versioned (bytes : list Z) : result CodecError E :=
  match parse_enum bytes with
  | Some v => Ok v
  | None =>
      match parse_v7 bytes with
      | Some n => Ok (mk_v7 n)
      | None =>
          match parse_v6 bytes with
          | Some o => Ok (mk_v6 o)
          | None => Err DecompressErr
          end
      end
  end.
End Decompress.

Definition decompress_header (parse_enum : list Z -> option VersionedHeader)
    (parse_v7 : list Z -> option Header) (parse_v6 : list Z -> option V6.Header) :=
  decompress_versioned parse_enum parse_v7 parse_v6 HeaderV7 HeaderV6.
Definition decompress_tx (parse_enum : list Z -> option VersionedTx)
    (parse_v7 : list Z -> option Tx) (parse_v6 : list Z -> option V6.Tx) :=
  decompress_versioned parse_enum parse_v7 parse_v6 StoredV7 StoredV6.

(** A transaction row written by version 6 is read back as the same kind of
    transaction: the bare bytes are recognised only after the newer formats
    refused them, and the conversion keeps the type and the version, and leaves
    every transaction that has no resource bounds untouched. *)
Theorem legacy_tx_read parse_enum parse_v7 parse_v6 bytes (t : V6.Tx) :
  parse_enum bytes = None -> parse_v7 bytes = None -> parse_v6 bytes = Some t ->
  exists v, decompress_tx parse_enum parse_v7 parse_v6 bytes = Ok v /\
    tx_type (tx_of v) = V6.type t /\ tx_version (tx_of v) = V6.version t /\
    (V6.version t <> 3 ->
     match t, tx_of v with
     | V6.TxInvoke (V6.InvokeV0 t), TxInvoke (InvokeV0 t') => t = t'
     | V6.TxInvoke (V6.InvokeV1 t), TxInvoke (InvokeV1 t') => t = t'
     | V6.TxDeclare (V6.DeclareV0 t), TxDeclare (DeclareV0 t') => t = t'
     | V6.TxDeclare (V6.DeclareV1 t), TxDeclare (DeclareV1 t') => t = t'
     | V6.TxDeclare (V6.DeclareV2 t), TxDeclare (DeclareV2 t') => t = t'
     | V6.TxL1Handler t, TxL1Handler t' => t = t'
     | V6.TxDeployAccount (V6.DeployAccountV1 t), TxDeployAccount (DeployAccountV1 t') => t = t'
     | V6.TxDeploy t, TxDeploy t' => t = t'
     | _, _ => False
     end).
Proof.
  intros He H7 H6. exists (StoredV6 t). unfold decompress_tx, decompress_versioned.
  rewrite He, H7, H6. split; [done|]. by destruct t as [[]|[]| |[]|].
Qed.

Lemma legacy_tx_read_witness :
  exists v, decompress_tx (fun _ => None) (fun _ => None)
              (fun _ => Some (V6.TxDeploy {| dep_contract_address := 1;
                 dep_contract_address_salt := 2; dep_constructor_calldata := [];
                 dep_class_hash := 3; dep_version := 0 |})) [1; 2] = Ok v /\
    tx_type (tx_of v) = TDeploy.
Proof.
  destruct (legacy_tx_read (fun _ => None) (fun _ => None)
              (fun _ => Some (V6.TxDeploy {| dep_contract_address := 1;
                 dep_contract_address_salt := 2; dep_constructor_calldata := [];
                 dep_class_hash := 3; dep_version := 0 |})) [1; 2] _ eq_refl eq_refl eq_refl)
    as (v & H & Ht & _).
  exists v. split; [exact H|exact Ht].
Defined.
