(* ===== verification/BTreeMap.v ===== *)
(** * [BTreeMap]

    Ordered maps as sorted association lists: insertion, lookup, the entry API
    and collection from a sequence, with the lemmas that identify a map by its
    bindings. *)

From Stdlib Require Import ZArith Lia.
From stdpp Require Import base numbers list sets sorting.
From S2P Require Import Prelude.

(** ** [BTreeMap]s built from a sequence: sorted, the last value of
    a key wins. *)
Fixpoint btree_insert {V} (k : Z) (v : V) (m : list (Z * V)) : list (Z * V) :=
  match m with
  | [] => [(k, v)]
  | (k', v') :: m' =>
      if Z.ltb k k' then (k, v) :: m
      else if Z.eqb k k' then (k, v) :: m'
      else (k', v') :: btree_insert k v m'
  end.
Definition btree_collect {V} (l : list (Z * V)) : list (Z * V) :=
  fold_left (fun m e => btree_insert e.1 e.2 m) l [].
Fixpoint btree_get {V} (k : Z) (m : list (Z * V)) : option V :=
  match m with
  | [] => None
  | (k', v) :: m => if Z.eqb k k' then Some v else btree_get k m
  end.
(** [map.entry(addr).or_default().insert(key, value)]. *)
Definition btree_entry_insert (addr key value : Z) (m : list (Z * list (Z * Z)))
    : list (Z * list (Z * Z)) :=
  btree_insert addr (btree_insert key value (default [] (btree_get addr m))) m.

(** ** Sorted association lists *)
Section BTree.
Context {V : Type}.
Implicit Types (m l : list (Z * V)).

Definition btree_sorted m : Prop := StronglySorted (fun a b => a.1 < b.1) m.

Lemma elem_of_btree_insert k v m e :
  btree_sorted m -> e ∈ btree_insert k v m <-> e = (k, v) \/ (e ∈ m /\ e.1 <> k).
Proof.
  induction 1 as [|[k' v'] m Hs IH Hall]; simpl; [set_solver|].
  rewrite Forall_forall in Hall.
  assert (forall x, x ∈ m -> k' < x.1) as Hlt by (intros x Hx; by apply (Hall x)).
  destruct (Z.ltb_spec k k'); [|destruct (Z.eqb_spec k k') as [->|]].
  - rewrite !elem_of_cons. split; [|tauto].
    intros [->|[->|He]]; [by left|right; simpl; split; [by left|lia]|].
    right. split; [by right|]. specialize (Hlt e He). lia.
  - rewrite !elem_of_cons. split.
    + intros [->|He]; [by left|]. right. split; [by right|]. specialize (Hlt e He). lia.
    + intros [->|[[->|He] Hne]]; [by left|done|by right].
  - rewrite !elem_of_cons, IH. split.
    + intros [->|[->|[He Hne]]]; [right; split; [by left|done]|by left|right; split; [by right|done]].
    + tauto.
Qed.

Lemma btree_insert_sorted k v m : btree_sorted m -> btree_sorted (btree_insert k v m).
Proof.
  induction 1 as [|[k' v'] m Hs IH Hall]; simpl; [repeat constructor|].
  destruct (Z.ltb_spec k k'); [|destruct (Z.eqb_spec k k') as [->|]].
  - constructor; [by constructor|]. constructor; [done|]. eapply Forall_impl; [done|]. simpl. lia.
  - by constructor.
  - constructor; [done|]. apply Forall_forall. intros e He.
    apply elem_of_btree_insert in He as [->|[He _]]; [simpl; lia| |done].
    rewrite Forall_forall in Hall. by apply Hall.
Qed.

(** Collecting a list in which a key has one value keeps its bindings. *)
Lemma btree_collect_acc l m :
  btree_sorted m ->
  (forall k v v', (k, v) ∈ l ++ m -> (k, v') ∈ l ++ m -> v = v') ->
  btree_sorted (fold_left (fun m e => btree_insert e.1 e.2 m) l m) /\
  forall e, e ∈ fold_left (fun m e => btree_insert e.1 e.2 m) l m <-> e ∈ l ++ m.
Proof.
  revert m. induction l as [|[k v] l IH]; intros m Hs Hf; simpl; [done|].
  destruct (IH (btree_insert k v m)) as [Hs' Hin'].
  - by apply btree_insert_sorted.
  - intros k' v1 v2 H1 H2.
    apply (Hf k'); [clear H2; rename H1 into H2|clear H1];
      (apply elem_of_app in H2 as [H2|H2]; [set_solver|]);
      (apply elem_of_btree_insert in H2 as [->|[H2 _]]; [set_solver|set_solver|done]).
  - split; [done|]. intros e. rewrite Hin', elem_of_app.
    rewrite elem_of_btree_insert by done. split; [set_solver|].
    intros [->|[He|He]%elem_of_app]%elem_of_cons; [by auto..|].
    destruct (decide (e.1 = k)) as [Hk|Hk]; [|auto]. right. left. destruct e as [k' v']. simpl in Hk.
    subst. f_equal. apply (Hf k); set_solver.
Qed.

(** Equal bindings, equal maps. *)
Lemma btree_ext m m' :
  btree_sorted m -> btree_sorted m' -> (forall e, e ∈ m <-> e ∈ m') -> m = m'.
Proof.
  intros Hs. revert m'. induction Hs as [|x m Hs IH Hall]; intros m' Hs' Hin.
  - destruct m' as [|y m']; [done|]. specialize (Hin y). set_solver.
  - inversion Hs' as [|y m2 Hs2 Hall2]; subst; [specialize (Hin x); set_solver|].
    rewrite Forall_forall in Hall, Hall2.
    assert (x = y) as ->.
    { assert (x ∈ y :: m2) as Hx by (apply Hin; by left).
      assert (y ∈ x :: m) as Hy by (apply Hin; by left).
      apply elem_of_cons in Hx as [->|Hx]; [done|]. apply elem_of_cons in Hy as [->|Hy]; [done|].
      specialize (Hall _ Hy). specialize (Hall2 _ Hx). simpl in *. lia. }
    f_equal. apply IH; [done|]. intros e. specialize (Hin e). rewrite !elem_of_cons in Hin.
    assert (forall z : Z * V, z ∈ m \/ z ∈ m2 -> z <> y) as Hne.
    { intros z [Hz| Hz] ->; [specialize (Hall _ Hz)|specialize (Hall2 _ Hz)]; simpl in *; lia. }
    split; intros He; pose proof (Hne e) as Hne'; tauto.
Qed.

Lemma btree_sorted_NoDup m : btree_sorted m -> NoDup (map fst m).
Proof.
  induction 1 as [|x m Hs IH Hall]; [constructor|]. simpl. constructor; [|done].
  rewrite Forall_forall in Hall. intros (y & Heq & Hy)%list_elem_of_fmap.
  specialize (Hall y Hy). simpl in Hall. lia.
Qed.

Lemma btree_get_elem_NoDup k v m :
  NoDup (map fst m) -> btree_get k m = Some v <-> (k, v) ∈ m.
Proof.
  induction m as [|[k' v'] m IH]; [set_solver|]. intros [Hni Hnd]%NoDup_cons. simpl.
  rewrite elem_of_cons. destruct (Z.eqb_spec k k') as [->|Hne].
  - split; [intros [= ->]; by left|]. intros [[= ->]|He]; [done|]. destruct Hni.
    apply list_elem_of_fmap. by exists (k', v).
  - rewrite IH by done. split; [auto|]. by intros [[= ]|]; [|].
Qed.

Lemma btree_get_elem k v m : btree_sorted m -> btree_get k m = Some v <-> (k, v) ∈ m.
Proof.
  intros Hs%btree_sorted_NoDup. by apply btree_get_elem_NoDup.
Qed.
Lemma btree_get_insert k k' v m :
  btree_get k (btree_insert k' v m) = if Z.eqb k k' then Some v else btree_get k m.
Proof.
  induction m as [|[k1 v1] m IH]; simpl; [done|].
  destruct (Z.ltb_spec k' k1); simpl; [done|].
  destruct (Z.eqb_spec k' k1) as [->|]; simpl; [by destruct (Z.eqb_spec k k1)|].
  rewrite IH. destruct (Z.eqb_spec k k1), (Z.eqb_spec k k'); try done. lia.
Qed.

(** Equal lookups, equal maps. *)
Lemma btree_get_ext m m' :
  btree_sorted m -> btree_sorted m' -> (forall k, btree_get k m = btree_get k m') -> m = m'.
Proof.
  intros Hs Hs' Hget. apply btree_ext; [done..|]. intros [k v].
  by rewrite <- !btree_get_elem, Hget.
Qed.

Lemma btree_get_filter (f : V -> bool) k m :
  NoDup (map fst m) ->
  btree_get k (List.filter (fun e => f e.2) m)
  = match btree_get k m with Some v => if f v then Some v else None | None => None end.
Proof.
  induction m as [|[k' v'] m IH]; simpl; [done|]. intros [Hni Hnd]%NoDup_cons.
  destruct (Z.eqb_spec k k') as [->|Hne].
  - destruct (f v'); simpl; [by rewrite Z.eqb_refl|]. rewrite IH by done.
    destruct (btree_get k' m) as [v|] eqn:Hg; [|done]. destruct Hni.
    apply btree_get_elem_NoDup in Hg; [|done]. apply list_elem_of_fmap. by exists (k', v).
  - destruct (f v'); simpl; [destruct (Z.eqb_spec k k'); [done|]|]; by apply IH.
Qed.

Lemma btree_filter_sorted (f : Z * V -> bool) m : btree_sorted m -> btree_sorted (List.filter f m).
Proof.
  induction 1 as [|e m Hs IH Hall]; simpl; [constructor|]. destruct (f e); [|done].
  constructor; [done|]. rewrite Forall_forall in *. intros e' He'. apply Hall.
  apply list_elem_of_In in He'. apply filter_In in He' as [He' _]. by apply list_elem_of_In.
Qed.
End BTree.

Lemma btree_collect_sorted {V} (m : list (Z * V)) : btree_sorted m -> btree_collect m = m.
Proof.
  intros Hs. destruct (btree_collect_acc m []) as [Hs' Hin]; [constructor| |].
  - intros k v v'. rewrite app_nil_r, <- !btree_get_elem by done. congruence.
  - apply btree_ext; [done..|]. intros e. unfold btree_collect. by rewrite Hin, app_nil_r.
Qed.

(** [map.entry(k).or_default()] followed by an update of the entry. *)
Definition btree_entry {V} (dft : V) (k : Z) (f : V -> V) (m : list (Z * V)) : list (Z * V) :=
  btree_insert k (f (default dft (btree_get k m))) m.

(** A loop of entry updates, one per binding of another map. *)
Lemma btree_get_fold_entry {A V} (dft : V) (f : A -> V -> V) k (l : list (Z * A)) m :
  NoDup (map fst l) ->
  btree_get k (fold_left (fun m e => btree_entry dft e.1 (f e.2) m) l m)
  = match btree_get k l with
    | Some a => Some (f a (default dft (btree_get k m)))
    | None => btree_get k m
    end.
Proof.
  revert m. induction l as [|[k' a] l IH]; simpl; intros m; [done|].
  intros [Hni Hnd]%NoDup_cons. rewrite IH by done. unfold btree_entry. rewrite btree_get_insert.
  destruct (Z.eqb_spec k k') as [->|Hne]; simpl; [|done].
  destruct (btree_get k' l) as [a'|] eqn:Hg; [|done]. destruct Hni.
  apply btree_get_elem_NoDup in Hg; [|done]. apply list_elem_of_fmap. by exists (k', a').
Qed.

Lemma btree_fold_entry_sorted {A V} (dft : V) (f : A -> V -> V) (l : list (Z * A)) m :
  btree_sorted m -> btree_sorted (fold_left (fun m e => btree_entry dft e.1 (f e.2) m) l m).
Proof.
  revert m. induction l as [|e l IH]; simpl; intros m Hs; [done|].
  by apply IH, btree_insert_sorted.
Qed.

(** A loop that inserts what [g] keeps of the bindings of another map. *)
Definition btree_insert_opt {A V} (g : A -> option V) (m : list (Z * V)) (e : Z * A)
    : list (Z * V) :=
  match g e.2 with Some v => btree_insert e.1 v m | None => m end.

Lemma btree_get_fold_insert {A V} (g : A -> option V) k (l : list (Z * A)) m :
  NoDup (map fst l) ->
  btree_get k (fold_left (btree_insert_opt g) l m)
  = match btree_get k l with
    | Some a => match g a with Some v => Some v | None => btree_get k m end
    | None => btree_get k m
    end.
Proof.
  revert m. induction l as [|[k' a] l IH]; simpl; intros m; [done|].
  intros [Hni Hnd]%NoDup_cons. rewrite IH by done.
  assert (btree_get k' l = None) as Hk'.
  { destruct (btree_get k' l) as [a'|] eqn:Hg; [|done]. destruct Hni.
    apply btree_get_elem_NoDup in Hg; [|done]. apply list_elem_of_fmap. by exists (k', a'). }
  unfold btree_insert_opt; simpl.
  destruct (Z.eqb_spec k k') as [->|Hne].
  - rewrite Hk'. destruct (g a); [|done]. by rewrite btree_get_insert, Z.eqb_refl.
  - destruct (g a); [|done]. rewrite btree_get_insert. by destruct (Z.eqb_spec k k').
Qed.

Lemma btree_fold_insert_sorted {A V} (g : A -> option V) (l : list (Z * A)) m :
  btree_sorted m -> btree_sorted (fold_left (btree_insert_opt g) l m).
Proof.
  revert m. induction l as [|e l IH]; simpl; intros m Hs; [done|]. apply IH.
  unfold btree_insert_opt. destruct (g e.2); [by apply btree_insert_sorted|done].
Qed.

