(* ===== verification/DaEncoding.v ===== *)
(** * State updates published for data availability

    [primitives/src/da/encoding.rs]: a state update as a list of big integers and
    back.  The decoder consumes an iterator: here the list that is left, in a
    result type whose errors are the source's. *)

From Stdlib Require Import ZArith Lia.
From stdpp Require Import base numbers list sets sorting.
From S2P Require Import Prelude BTreeMap Felt Tx Version Block.

Inductive EncodingError :=
  | MissingUpdatesCount | MissingDeclarationsCount | MissingAddress | MissingMetadata
  | MissingStorageKey | MissingStorageValue | MissingNewClassHash | MissingClassHash
  | MissingCompiledClassHash | InvalidValue | InvalidMetadata | ParseInt.

Record Metadata := mkMetadata {
  class_information_flag : bool;
  new_nonce : option Z;
  total_storage_updates : Z;  (* usize *)
}.
Record ContractUpdate := mkContractUpdate {
  cu_metadata : Metadata;
  cu_class_hash : option Z;
  cu_storage_updates : list (Z * Z);
}.
Definition ContractUpdate_default : ContractUpdate :=
  mkContractUpdate (mkMetadata false None 0) None [].
Definition StateUpdates_default : StateUpdates := {|
  nonce_updates := []; storage_updates := []; deployed_contracts := [];
  declared_classes := []; deprecated_declared_classes := []; replaced_classes := [];
|}.

(** ** Metadata words *)

(** [format!("{word:0>256b}")]: binary digits, most significant first, padded to
    a width of 256 (a longer word is not cut). *)
Definition bits_of (width word : Z) : list Z :=
  map (fun i => Z.b2z (Z.testbit word i))
    (reverse (seqZ 0 (Z.max width (Z.log2 word + 1)))).
(** [bits.get(from..from + n)]. *)
Definition get_bits (bits : list Z) (from n : nat) : option (list Z) :=
  if decide (from + n <= length bits)%nat then Some (take n (drop from bits)) else None.
(** [from_str_radix(_, 2)] of a string of at most 64 binary digits. *)
Definition from_bits (bits : list Z) : Z := fold_left (fun acc b => acc * 2 + b) bits 0.

Definition Metadata_decode (word : Z) : result EncodingError Metadata :=
  let bits := bits_of 256 word in
  flag ← ok_or (get_bits bits 127 1) InvalidMetadata;
  nonce ← ok_or (get_bits bits 128 64) InvalidMetadata;
  let nonce := from_bits nonce in
  total ← ok_or (get_bits bits 192 64) InvalidMetadata;
  Ok (mkMetadata (Z.eqb (from_bits flag) 1) (if Z.eqb nonce 0 then None else Some nonce)
        (from_bits total)).

(** [None] is the panic of [nonce.to_u64().unwrap()]. *)
Definition Metadata_encode (m : Metadata) : option Z :=
  let word := if class_information_flag m then Z.shiftl 1 128 else 0 in
  word ← match new_nonce m with
         | Some nonce =>
             if Z.ltb nonce u64_bound then Some (Z.lor word (Z.shiftl nonce 64)) else None
         | None => Some word
         end;
  Some (Z.lor word (total_storage_updates m)).

Definition ContractUpdate_encode (u : ContractUpdate) (buffer : list Z) : option (list Z) :=
  word ← Metadata_encode (cu_metadata u);
  Some (buffer ++ [word]
          ++ (match cu_class_hash u with Some h => [h] | None => [] end)
          ++ flat_map (fun e => [e.1; e.2]) (cu_storage_updates u)).

(** ** Encoding *)
Definition entry_set_nonce (nonce : Z) (u : ContractUpdate) : ContractUpdate :=
  mkContractUpdate
    (mkMetadata (class_information_flag (cu_metadata u)) (Some nonce)
       (total_storage_updates (cu_metadata u)))
    (cu_class_hash u) (cu_storage_updates u).
Definition entry_set_class (class_hash : Z) (u : ContractUpdate) : ContractUpdate :=
  mkContractUpdate
    (mkMetadata true (new_nonce (cu_metadata u)) (total_storage_updates (cu_metadata u)))
    (Some class_hash) (cu_storage_updates u).
Definition entry_set_storages (storages : list (Z * Z)) (u : ContractUpdate) : ContractUpdate :=
  mkContractUpdate
    (mkMetadata (class_information_flag (cu_metadata u)) (new_nonce (cu_metadata u))
       (Z.of_nat (length storages)))
    (cu_class_hash u) storages.

Definition contract_updates (value : StateUpdates) : list (Z * ContractUpdate) :=
  let loop {A} (f : A -> ContractUpdate -> ContractUpdate) (l : list (Z * A)) m :=
    fold_left (fun m e => btree_entry ContractUpdate_default e.1 (f e.2) m) l m in
  loop entry_set_storages (storage_updates value)
    (loop entry_set_class (deployed_contracts value)
       (loop entry_set_nonce (nonce_updates value) [])).

Fixpoint encode_contracts (m : list (Z * ContractUpdate)) (buffer : list Z) : option (list Z) :=
  match m with
  | [] => Some buffer
  | (addr, u) :: m =>
      buffer ← ContractUpdate_encode u (buffer ++ [addr]); encode_contracts m buffer
  end.

Definition encode_state_updates (value : StateUpdates) : option (list Z) :=
  let m := contract_updates value in
  buffer ← encode_contracts m [Z.of_nat (length m)];
  Some (buffer ++ [Z.of_nat (length (declared_classes value))]
          ++ flat_map (fun e => [e.1; e.2]) (declared_classes value)).

(** ** Decoding *)
Definition next_or (e : EncodingError) (iter : list Z) : result EncodingError (Z * list Z) :=
  match iter with [] => Err e | w :: iter => Ok (w, iter) end.

Definition to_usize (w : Z) : result EncodingError Z :=
  if Z.ltb w u64_bound then Ok w else Err InvalidValue.

(** Two words per turn, converted to field elements and put in a map. *)
Fixpoint decode_pairs (missing_key missing_value : EncodingError) (n : nat) (iter : list Z)
    (m : list (Z * Z)) : result EncodingError (list (Z * Z) * list Z) :=
  match n with
  | O => Ok (m, iter)
  | S n =>
      '(key, iter) ← next_or missing_key iter;
      '(value, iter) ← next_or missing_value iter;
      decode_pairs missing_key missing_value n iter (btree_insert (felt_of key) (felt_of value) m)
  end.

Section Decode.
(** [ContractAddress::new] brings a field element below the address bound. *)
Context (normalize_address : Z -> Z).

Definition insert_update (address : Z) (nonce class_hash : option Z) (storages : list (Z * Z))
    (s : StateUpdates) : StateUpdates := {|
  storage_updates :=
    match storages with [] => storage_updates s
    | _ => btree_insert address storages (storage_updates s) end;
  nonce_updates :=
    match nonce with Some nonce => btree_insert address nonce (nonce_updates s)
    | None => nonce_updates s end;
  deployed_contracts :=
    match class_hash with Some hash => btree_insert address hash (deployed_contracts s)
    | None => deployed_contracts s end;
  declared_classes := declared_classes s;
  deprecated_declared_classes := deprecated_declared_classes s;
  replaced_classes := replaced_classes s;
|}.

Definition decode_contract (iter : list Z) (s : StateUpdates)
    : result EncodingError (StateUpdates * list Z) :=
  '(address, iter) ← next_or MissingAddress iter;
  let address := normalize_address (felt_of address) in
  '(metadata, iter) ← next_or MissingMetadata iter;
  metadata ← Metadata_decode metadata;
  '(class_hash, iter) ←
    (if class_information_flag metadata then
       '(hash, iter) ← next_or MissingNewClassHash iter; Ok (Some (felt_of hash), iter)
     else Ok (None, iter));
  '(storages, iter) ←
    decode_pairs MissingStorageKey MissingStorageValue
      (Z.to_nat (total_storage_updates metadata)) iter [];
  Ok (insert_update address (new_nonce metadata) class_hash storages s, iter).

Fixpoint decode_contracts (n : nat) (iter : list Z) (s : StateUpdates)
    : result EncodingError (StateUpdates * list Z) :=
  match n with
  | O => Ok (s, iter)
  | S n => '(s, iter) ← decode_contract iter s; decode_contracts n iter s
  end.

Definition decode_state_updates (value : list Z) : result EncodingError StateUpdates :=
  match value with
  | [] => Ok StateUpdates_default
  | _ =>
      '(total_updates, iter) ← next_or MissingUpdatesCount value;
      total_updates ← to_usize total_updates;
      '(s, iter) ← decode_contracts (Z.to_nat total_updates) iter StateUpdates_default;
      '(total_declarations, iter) ← next_or MissingDeclarationsCount iter;
      total_declarations ← to_usize total_declarations;
      '(declared, iter) ←
        decode_pairs MissingClassHash MissingCompiledClassHash (Z.to_nat total_declarations) iter
          (declared_classes s);
      Ok {| nonce_updates := nonce_updates s; storage_updates := storage_updates s;
            deployed_contracts := deployed_contracts s; declared_classes := declared;
            deprecated_declared_classes := deprecated_declared_classes s;
            replaced_classes := replaced_classes s |}
  end.

End Decode.

(** ** Metadata words are read back *)
Lemma from_bits_div w lo n :
  0 <= w -> 0 <= lo ->
  from_bits (map (fun i => Z.b2z (Z.testbit w i)) (reverse (seqZ lo (Z.of_nat n))))
  = (w / 2 ^ lo) mod 2 ^ Z.of_nat n.
Proof.
  intros Hw. revert lo. induction n as [|n IH]; intros lo Hlo; [by rewrite Z.mod_1_r|].
  rewrite seqZ_cons, reverse_cons, map_app by lia. unfold from_bits. rewrite fold_left_app. cbn.
  change (fold_left _ _ 0) with
    (from_bits (map (fun i => Z.b2z (Z.testbit w i)) (reverse (seqZ (Z.succ lo) (Z.pred (Z.of_nat (S n))))))).
  replace (Z.pred (Z.of_nat (S n))) with (Z.of_nat n) by lia. rewrite IH by lia.
  rewrite Z.testbit_spec' by done.
  replace (2 ^ Z.of_nat (S n)) with (2 * 2 ^ Z.of_nat n)
    by (rewrite Nat2Z.inj_succ, Z.pow_succ_r by lia; lia).
  rewrite (Z.rem_mul_r (w / 2 ^ lo)) by lia.
  rewrite Z.pow_succ_r, (Z.mul_comm 2 (2 ^ lo)), <- Z.div_div by lia. lia.
Qed.

Lemma bits_of_small width w :
  0 < width -> 0 <= w < 2 ^ width ->
  bits_of width w = map (fun i => Z.b2z (Z.testbit w i)) (reverse (seqZ 0 width)).
Proof.
  intros Hwd Hw. unfold bits_of. rewrite Z.max_l; [done|].
  destruct (decide (w = 0)) as [->|]; [simpl; lia|].
  assert (Z.log2 w < width) by (apply Z.log2_lt_pow2; lia). lia.
Qed.

Lemma get_bits_small w from n lo :
  0 <= w < 2 ^ 256 ->
  take n (drop from (reverse (seqZ 0 256))) = reverse (seqZ lo (Z.of_nat n)) ->
  (from + n <= 256)%nat -> 0 <= lo ->
  exists b, get_bits (bits_of 256 w) from n = Some b /\ from_bits b = (w / 2 ^ lo) mod 2 ^ Z.of_nat n.
Proof.
  intros Hw Heq Hle Hlo.
  rewrite bits_of_small by (done || lia).
  unfold get_bits. rewrite decide_True
    by (rewrite length_map, length_reverse, length_seqZ; lia).
  eexists. split; [done|]. rewrite skipn_map, firstn_map, Heq. apply from_bits_div; lia.
Qed.

Lemma lor_disjoint a b n : 0 <= n -> 0 <= b < 2 ^ n -> Z.lor (a * 2 ^ n) b = a * 2 ^ n + b.
Proof.
  intros Hn Hb. rewrite <- Z.add_nocarry_lor; [done|]. apply Z.bits_inj'. intros i Hi.
  rewrite Z.land_spec, Z.bits_0. destruct (Z.lt_ge_cases i n).
  - by rewrite Z.mul_pow2_bits_low.
  - replace (Z.testbit b i) with false; [by rewrite andb_false_r|]. symmetry.
    apply Z.testbit_false; [done|]. rewrite Z.div_small; [done|].
    split; [lia|]. apply Z.lt_le_trans with (2 ^ n); [lia|]. apply Z.pow_le_mono_r; lia.
Qed.

Definition wf_metadata (m : Metadata) : Prop :=
  is_u64 (default 0 (new_nonce m)) /\ is_u64 (total_storage_updates m).

Definition metadata_word (m : Metadata) : Z :=
  Z.b2z (class_information_flag m) * 2 ^ 128 + default 0 (new_nonce m) * 2 ^ 64
  + total_storage_updates m.

Lemma Metadata_encode_word m : wf_metadata m -> Metadata_encode m = Some (metadata_word m).
Proof.
  intros [Hn Ht]. unfold is_u64, u64_bound in *. unfold Metadata_encode, metadata_word.
  assert ((if class_information_flag m then Z.shiftl 1 128 else 0)
          = Z.b2z (class_information_flag m) * 2 ^ 64 * 2 ^ 64) as ->
    by (by destruct (class_information_flag m)).
  destruct (new_nonce m) as [n|]; cbn [default from_option id] in *.
  - unfold u64_bound. rewrite (proj2 (Z.ltb_lt n _)) by lia. cbn [mbind option_bind].
    rewrite Z.shiftl_mul_pow2 by lia.
    assert (Z.lor (Z.b2z (class_information_flag m) * 2 ^ 64 * 2 ^ 64) (n * 2 ^ 64)
            = (Z.b2z (class_information_flag m) * 2 ^ 64 + n) * 2 ^ 64) as ->.
    { rewrite <- !Z.shiftl_mul_pow2, <- Z.shiftl_lor by lia. f_equal.
      rewrite Z.shiftl_mul_pow2 by lia. by apply lor_disjoint. }
    rewrite lor_disjoint by lia. f_equal. simpl id. lia.
  - cbn [mbind option_bind]. rewrite lor_disjoint by lia. f_equal. lia.
Qed.

(** A zero nonce reads as no nonce. *)
Definition nonzero (n : option Z) : option Z :=
  match n with Some n => if Z.eqb n 0 then None else Some n | None => None end.

Lemma Metadata_decode_word m :
  wf_metadata m ->
  Metadata_decode (metadata_word m)
  = Ok (mkMetadata (class_information_flag m) (nonzero (new_nonce m)) (total_storage_updates m)).
Proof.
  intros [Hn Ht]. unfold is_u64, u64_bound in *.
  set (f := Z.b2z (class_information_flag m)). set (n := default 0 (new_nonce m)).
  set (t := total_storage_updates m). fold n in Hn. fold t in Ht.
  assert (0 <= f <= 1) as Hf by (subst f; destruct (class_information_flag m); simpl; lia).
  assert (metadata_word m = (f * 2 ^ 64 + n) * 2 ^ 64 + t) as Hw
    by (unfold metadata_word; fold f n t; lia).
  assert (0 <= metadata_word m < 2 ^ 256) as Hr by (rewrite Hw; lia).
  unfold Metadata_decode.
  destruct (get_bits_small (metadata_word m) 127 1 128 Hr) as (b1 & -> & Hb1); [by vm_compute|lia..|].
  destruct (get_bits_small (metadata_word m) 128 64 64 Hr) as (b2 & -> & Hb2); [by vm_compute|lia..|].
  destruct (get_bits_small (metadata_word m) 192 64 0 Hr) as (b3 & -> & Hb3); [by vm_compute|lia..|].
  cbn [ok_or mbind result_bind]. rewrite Hb1, Hb2, Hb3.
  change (Z.of_nat 64) with 64. change (Z.of_nat 1) with 1. rewrite Z.pow_0_r, Z.div_1_r.
  assert (metadata_word m / 2 ^ 64 = f * 2 ^ 64 + n) as H64.
  { rewrite Hw, Z.div_add_l, (Z.div_small t) by lia. lia. }
  assert (metadata_word m / 2 ^ 128 = f) as H128.
  { change (2 ^ 128) with (2 ^ 64 * 2 ^ 64). rewrite <- Z.div_div, H64, Z.div_add_l, Z.div_small
      by lia. lia. }
  rewrite H64, H128. rewrite (Z.mod_small f) by lia.
  rewrite Z.add_comm, Z.mod_add, (Z.mod_small n) by lia.
  rewrite Hw, Z.add_comm, Z.mod_add, (Z.mod_small t) by lia.
  f_equal. f_equal; [subst f; by destruct (class_information_flag m)|].
  subst n. by destruct (new_nonce m).
Qed.

(** ** The whole update is read back *)

(** What a contract's entry holds, from the three maps it is gathered from. *)
Definition update_of (nonce class_hash : option Z) (storages : option (list (Z * Z)))
    : ContractUpdate :=
  mkContractUpdate
    (mkMetadata (bool_decide (is_Some class_hash)) nonce
       (Z.of_nat (length (default [] storages))))
    class_hash (default [] storages).

Lemma contract_updates_get s a :
  NoDup (map fst (nonce_updates s)) -> NoDup (map fst (deployed_contracts s)) ->
  NoDup (map fst (storage_updates s)) ->
  btree_get a (contract_updates s)
  = match btree_get a (nonce_updates s), btree_get a (deployed_contracts s),
          btree_get a (storage_updates s) with
    | None, None, None => None
    | n, c, st => Some (update_of n c st)
    end.
Proof.
  intros Hn Hc Hs. unfold contract_updates. rewrite !btree_get_fold_entry by done. simpl.
  by destruct (btree_get a (nonce_updates s)), (btree_get a (deployed_contracts s)),
    (btree_get a (storage_updates s)).
Qed.

Lemma contract_updates_sorted s : btree_sorted (contract_updates s).
Proof. unfold contract_updates. repeat apply btree_fold_entry_sorted. constructor. Qed.

(** The words of a contract and of the class declarations. *)
Definition pair_words (l : list (Z * Z)) : list Z := flat_map (fun e => [e.1; e.2]) l.
Definition contract_words (e : Z * ContractUpdate) : list Z :=
  [e.1; metadata_word (cu_metadata e.2)]
  ++ (match cu_class_hash e.2 with Some h => [h] | None => [] end)
  ++ pair_words (cu_storage_updates e.2).

Lemma encode_contracts_words m buffer :
  Forall (fun e => wf_metadata (cu_metadata e.2)) m ->
  encode_contracts m buffer = Some (buffer ++ flat_map contract_words m).
Proof.
  intros Hm. revert buffer. induction Hm as [|[a u] m Hu Hm IH]; intros buffer; simpl.
  - by rewrite app_nil_r.
  - unfold ContractUpdate_encode. rewrite Metadata_encode_word by done. cbn [mbind option_bind].
    rewrite IH. f_equal. unfold contract_words, pair_words. cbn [fst snd].
    by rewrite <- !app_assoc.
Qed.

Lemma decode_pairs_words ek ev (l : list (Z * Z)) rest m :
  Forall (fun e => is_felt e.1 /\ is_felt e.2) l ->
  decode_pairs ek ev (length l) (pair_words l ++ rest) m
  = Ok (fold_left (fun m e => btree_insert e.1 e.2 m) l m, rest).
Proof.
  intros Hl. revert m. induction Hl as [|[k v] l [Hk Hv] Hl IH]; intros m; [done|].
  cbn. rewrite (felt_of_small k), (felt_of_small v) by done. apply IH.
Qed.

Section Roundtrip.
Context (normalize_address : Z -> Z).

Definition is_address (a : Z) : Prop := is_felt a /\ normalize_address a = a.
Definition wf_pairs (l : list (Z * Z)) : Prop :=
  btree_sorted l /\ Forall (fun e => is_felt e.1 /\ is_felt e.2) l.

Record wf_update (u : ContractUpdate) : Prop := {
  wu_metadata : wf_metadata (cu_metadata u);
  wu_flag : class_information_flag (cu_metadata u) = bool_decide (is_Some (cu_class_hash u));
  wu_class : is_felt (default 0 (cu_class_hash u));
  wu_total : total_storage_updates (cu_metadata u) = Z.of_nat (length (cu_storage_updates u));
  wu_storage : wf_pairs (cu_storage_updates u);
}.

Definition insert_entry (s : StateUpdates) (e : Z * ContractUpdate) : StateUpdates :=
  insert_update e.1 (nonzero (new_nonce (cu_metadata e.2))) (cu_class_hash e.2)
    (cu_storage_updates e.2) s.

Lemma decode_contract_words e rest s :
  is_address e.1 -> wf_update e.2 ->
  decode_contract normalize_address (contract_words e ++ rest) s = Ok (insert_entry s e, rest).
Proof.
  destruct e as [a u]. cbn [fst snd]. intros [Ha Hn] [Hm Hf Hc Ht [Hs Hfs]].
  unfold decode_contract, contract_words. rewrite <- !app_assoc. cbn [app next_or mbind result_bind fst snd].
  rewrite felt_of_small, Hn by done. rewrite Metadata_decode_word by done.
  cbn [mbind result_bind class_information_flag new_nonce total_storage_updates].
  rewrite Hf, Ht, Nat2Z.id.
  destruct (cu_class_hash u) as [h|] eqn:Hh.
  - rewrite bool_decide_eq_true_2 by done. cbn [mbind result_bind app next_or]. rewrite (felt_of_small h) by done.
    rewrite decode_pairs_words by done. cbn [mbind result_bind]. unfold insert_entry. cbn [fst snd].
    fold (btree_collect (cu_storage_updates u)). by rewrite btree_collect_sorted, Hh.
  - rewrite bool_decide_eq_false_2 by (by intros [? ?]). cbn [mbind result_bind app].
    rewrite decode_pairs_words by done. cbn [mbind result_bind]. unfold insert_entry. cbn [fst snd].
    fold (btree_collect (cu_storage_updates u)). by rewrite btree_collect_sorted, Hh.
Qed.

Lemma decode_contracts_words m rest s :
  Forall (fun e => is_address e.1 /\ wf_update e.2) m ->
  decode_contracts normalize_address (length m) (flat_map contract_words m ++ rest) s
  = Ok (fold_left insert_entry m s, rest).
Proof.
  intros Hm. revert s. induction Hm as [|e m [Ha Hu] Hm IH]; intros s; [done|].
  cbn [length flat_map decode_contracts fold_left]. rewrite <- app_assoc.
  rewrite decode_contract_words by done. cbn [mbind result_bind]. apply IH.
Qed.

Definition nonempty (l : list (Z * Z)) : option (list (Z * Z)) :=
  match l with [] => None | _ => Some l end.

Lemma fold_insert_entry m s :
  fold_left insert_entry m s = {|
    nonce_updates := fold_left (btree_insert_opt (fun u => nonzero (new_nonce (cu_metadata u)))) m
                       (nonce_updates s);
    storage_updates := fold_left (btree_insert_opt (fun u => nonempty (cu_storage_updates u))) m
                         (storage_updates s);
    deployed_contracts := fold_left (btree_insert_opt cu_class_hash) m (deployed_contracts s);
    declared_classes := declared_classes s;
    deprecated_declared_classes := deprecated_declared_classes s;
    replaced_classes := replaced_classes s |}.
Proof.
  revert s. induction m as [|[a u] m IH]; intros s; [by destruct s|].
  cbn [fold_left]. rewrite IH. unfold insert_entry, insert_update, btree_insert_opt.
  cbn [nonce_updates storage_updates deployed_contracts declared_classes
       deprecated_declared_classes replaced_classes fst snd].
  by destruct (cu_storage_updates u).
Qed.

(** What of an update the published words carry: nonzero nonces, contracts with
    at least one storage change, deployments and Sierra declarations. *)
Definition da_view (s : StateUpdates) : StateUpdates := {|
  nonce_updates := List.filter (fun e => negb (Z.eqb e.2 0)) (nonce_updates s);
  storage_updates := List.filter (fun e => negb (Nat.eqb (length e.2) 0)) (storage_updates s);
  deployed_contracts := deployed_contracts s;
  declared_classes := declared_classes s;
  deprecated_declared_classes := [];
  replaced_classes := [];
|}.

Record wf_da (s : StateUpdates) : Prop := {
  wd_nonces : btree_sorted (nonce_updates s)
    /\ Forall (fun e => is_address e.1 /\ is_u64 e.2) (nonce_updates s);
  wd_deployed : btree_sorted (deployed_contracts s)
    /\ Forall (fun e => is_address e.1 /\ is_felt e.2) (deployed_contracts s);
  wd_storage : btree_sorted (storage_updates s)
    /\ Forall (fun e => is_address e.1 /\ wf_pairs e.2 /\ is_u64 (Z.of_nat (length e.2)))
         (storage_updates s);
  wd_declared : wf_pairs (declared_classes s);
  wd_total_contracts : is_u64 (Z.of_nat (length (contract_updates s)));
  wd_total_declared : is_u64 (Z.of_nat (length (declared_classes s)));
}.

Lemma contract_updates_wf s :
  wf_da s -> Forall (fun e => is_address e.1 /\ wf_update e.2) (contract_updates s).
Proof.
  intros [[Hn Hnf] [Hc Hcf] [Hst Hsf] _ _ _].
  rewrite Forall_forall in Hnf. rewrite Forall_forall in Hcf. rewrite Forall_forall in Hsf.
  apply Forall_forall.
  intros [a u] He. apply btree_get_elem in He; [|apply contract_updates_sorted].
  rewrite contract_updates_get in He by (by apply btree_sorted_NoDup).
  assert (forall n, btree_get a (nonce_updates s) = Some n -> is_address a /\ is_u64 n) as Hn'.
  { intros n Hg. apply btree_get_elem in Hg; [|done]. by apply (Hnf (a, n)). }
  assert (forall h, btree_get a (deployed_contracts s) = Some h -> is_address a /\ is_felt h) as Hc'.
  { intros n Hg. apply btree_get_elem in Hg; [|done]. by apply (Hcf (a, n)). }
  assert (forall l, btree_get a (storage_updates s) = Some l ->
            is_address a /\ wf_pairs l /\ is_u64 (Z.of_nat (length l))) as Hs'.
  { intros n Hg. apply btree_get_elem in Hg; [|done]. by apply (Hsf (a, n)). }
  assert (wf_pairs []) as Hnil by (split; constructor).
  assert (is_u64 0 /\ is_felt 0) as [H0 Hf0] by done. cbn [fst snd].
  destruct (btree_get a (nonce_updates s)) as [n|], (btree_get a (deployed_contracts s)) as [h|],
    (btree_get a (storage_updates s)) as [l|]; try discriminate He; injection He as <-;
    try destruct (Hn' _ eq_refl) as [? ?]; try destruct (Hc' _ eq_refl) as [? ?];
    try destruct (Hs' _ eq_refl) as (? & ? & ?);
    (split; [done|split; [split|..]; done]).
Qed.

Lemma da_view_get s :
  wf_da s ->
  fold_left insert_entry (contract_updates s) StateUpdates_default
  = {| nonce_updates := nonce_updates (da_view s); storage_updates := storage_updates (da_view s);
       deployed_contracts := deployed_contracts s; declared_classes := [];
       deprecated_declared_classes := []; replaced_classes := [] |}.
Proof.
  intros [[Hn _] [Hc _] [Hs _] _ _ _]. rewrite fold_insert_entry.
  pose proof (contract_updates_sorted s) as Hm.
  f_equal; (apply btree_get_ext;
    [apply btree_fold_insert_sorted; constructor|by try apply btree_filter_sorted|]);
    intros a; rewrite btree_get_fold_insert, contract_updates_get by (by apply btree_sorted_NoDup);
    cbn [da_view nonce_updates storage_updates StateUpdates_default deployed_contracts].
  - rewrite (btree_get_filter (fun n => negb (Z.eqb n 0))) by (by apply btree_sorted_NoDup).
    destruct (btree_get a (nonce_updates s)) as [n|], (btree_get a (deployed_contracts s)),
      (btree_get a (storage_updates s)); simpl; try done; by destruct (Z.eqb n 0).
  - rewrite (btree_get_filter (fun l => negb (Nat.eqb (length l) 0))) by (by apply btree_sorted_NoDup).
    destruct (btree_get a (nonce_updates s)) as [n|], (btree_get a (deployed_contracts s)),
      (btree_get a (storage_updates s)) as [[|]|]; by simpl.
  - by destruct (btree_get a (nonce_updates s)) as [n|], (btree_get a (deployed_contracts s)),
      (btree_get a (storage_updates s)).
Qed.

End Roundtrip.

(** C30. Publishing a state update and reading it back gives exactly what the
    format can carry: every nonzero nonce, every contract with a storage change,
    every deployment and every Sierra declaration, in the same maps.  Zero
    nonces, empty storage maps, legacy declarations and class replacements are
    dropped.  The encoder does not fail on nonces that fit in 64 bits. *)
Theorem da_roundtrip normalize_address s :
  wf_da normalize_address s ->
  exists words, encode_state_updates s = Some words
    /\ decode_state_updates normalize_address words = Ok (da_view s).
Proof.
  intros Hwf. pose proof (contract_updates_wf _ _ Hwf) as Hm.
  unfold encode_state_updates. rewrite encode_contracts_words.
  2: { eapply Forall_impl; [done|]. by intros e [_ []]. }
  cbn [mbind option_bind]. eexists. split; [done|]. rewrite <- app_assoc. cbn [app].
  unfold decode_state_updates. cbn [next_or mbind result_bind]. unfold to_usize.
  destruct (wd_total_contracts _ _ Hwf) as [_ Htc]. destruct (wd_total_declared _ _ Hwf) as [_ Htd].
  rewrite (proj2 (Z.ltb_lt _ _) Htc). cbn [mbind result_bind]. rewrite Nat2Z.id.
  rewrite decode_contracts_words by done. cbn [mbind result_bind next_or].
  rewrite (proj2 (Z.ltb_lt _ _) Htd). cbn [mbind result_bind]. rewrite Nat2Z.id.
  rewrite (da_view_get _ _ Hwf). cbn [declared_classes].
  destruct (wd_declared _ _ Hwf) as [Hs Hf].
  rewrite <- (app_nil_r (flat_map _ _)). fold (pair_words (declared_classes s)).
  rewrite decode_pairs_words by done. cbn [mbind result_bind].
  fold (btree_collect (declared_classes s)). rewrite btree_collect_sorted by done. done.
Qed.

Definition sample_da : StateUpdates := {|
  nonce_updates := [(7, 1); (9, 0)]; storage_updates := [(5, []); (7, [(100, 200); (101, 0)])];
  deployed_contracts := [(9, 77)]; declared_classes := [(3, 4)];
  deprecated_declared_classes := [6]; replaced_classes := [(7, 8)];
|}.

Lemma da_roundtrip_witness :
  exists words, encode_state_updates sample_da = Some words
    /\ decode_state_updates (fun a => a mod (2 ^ 251 - 256)) words
       = Ok {| nonce_updates := [(7, 1)]; storage_updates := [(7, [(100, 200); (101, 0)])];
               deployed_contracts := [(9, 77)]; declared_classes := [(3, 4)];
               deprecated_declared_classes := []; replaced_classes := [] |}.
Proof.
  apply (da_roundtrip (fun a => a mod (2 ^ 251 - 256)) sample_da).
  split; unfold sample_da; cbn [nonce_updates deployed_contracts storage_updates declared_classes];
    try split; repeat first [by apply (bool_decide_unpack _); vm_compute | constructor | by vm_compute].
Defined.
