(* ===== verification/DaBlob.v ===== *)
(** * EIP-4844 blobs

    [primitives/src/da/math.rs] and [blob.rs]: a blob holds the evaluations of a
    polynomial at the bit-reversed powers of a root of unity; [transform] evaluates
    and [recover] interpolates.  An index out of range and a [BigUint] subtraction
    below zero are [None], as is a recursion that runs out of fuel. *)

From Stdlib Require Import ZArith Lia Zpow_facts.
From stdpp Require Import base numbers list sets.
From S2P Require Import Prelude DaEncoding.

(** ** The operations *)
Definition TWO : Z := 2.
Definition BLOB_LEN : nat := 4096.
Definition BLS_MODULUS : Z :=
  52435875175126190479447740508185965837690552500527637822603658699938581184513.
Definition GENERATOR : Z :=
  39033254847818212395286706435128746857159659164139250548781411570340225835782.

(** [BigUint::modpow], by repeated squaring. *)
Definition modpow (b e p : Z) : Z := Zpow_mod b e p.

Definition div_mod (a b p : Z) : Z := a * modpow b (p - TWO) p mod p.

(** The inner loop of [fft], over the coefficients from the last to the first. *)
Definition horner (elements : list Z) (x p : Z) : Z :=
  fold_left (fun value c => (value * x + c) mod p) (reverse elements) 0.

Definition fft (elements xs : list Z) (p : Z) : option (list Z) :=
  mapM (fun i => x ← xs !! i; Some (horner elements x p)) (seq 0 (length elements)).

(** One turn of the loop of [ifft]: the entries of [res0], [res1] and [new_xs]. *)
Definition ifft_pair (arr xs : list Z) (p : Z) (i : nat) : option (Z * Z * Z) :=
  a ← arr !! (2 * i)%nat;
  b ← arr !! (2 * i + 1)%nat;
  x ← xs !! (2 * i)%nat;
  diff ← (if Z.ltb a b then (if Z.ltb p (b - a) then None else Some (p - (b - a)))
          else Some (a - b));
  Some (div_mod (a + b) TWO p, div_mod diff (TWO * x) p, modpow x TWO p).

Definition merge (n : nat) (l0 l1 : list Z) : option (list Z) :=
  mjoin <$> mapM (fun i => a ← l0 !! i; b ← l1 !! i; Some [a; b]) (seq 0 n).

Fixpoint ifft (fuel : nat) (arr xs : list Z) (p : Z) : option (list Z) :=
  match fuel with
  | O => None
  | S fuel =>
      if Nat.eqb (length arr) 1 then Some arr
      else
        let n := (length arr / 2)%nat in
        rs ← mapM (ifft_pair arr xs p) (seq 0 n);
        let new_xs := map snd rs in
        res0 ← ifft fuel (map (fun r => r.1.1) rs) new_xs p;
        res1 ← ifft fuel (map (fun r => r.1.2) rs) new_xs p;
        merge n res0 res1
  end.

(** [from_str_radix] of the reversed binary digits. *)
Definition bit_reverse (width i : Z) : Z := from_bits (reverse (bits_of width i)).

Definition evaluation_points : list Z :=
  map (fun i => modpow GENERATOR (bit_reverse 12 (Z.of_nat i)) BLS_MODULUS) (seq 0 BLOB_LEN).

(** The length halves at each call, so thirteen calls reach length one. *)
Definition recover (data : list Z) : option (list Z) :=
  ifft 13 data evaluation_points BLS_MODULUS.
Definition transform (data : list Z) : option (list Z) :=
  fft data evaluation_points BLS_MODULUS.

Lemma mapM_map {A B} (f : A -> option B) (g : A -> B) l :
  (forall x, x ∈ l -> f x = Some (g x)) -> mapM f l = Some (map g l).
Proof.
  induction l as [|x l IH]; intros Hf; [done|]. simpl.
  rewrite (Hf x) by set_solver. simpl. rewrite IH by set_solver. done.
Qed.

Lemma map_seq_lookup {B} (f : nat -> B) n i : (i < n)%nat -> map f (seq 0 n) !! i = Some (f i).
Proof. intros Hi. rewrite list_lookup_fmap, lookup_seq_lt by done. done. Qed.

(** ** Arithmetic modulo [p] *)
Section Modular.
Context (p : Z) (Hp : 2 < p).

Definition invertible (b : Z) : Prop := b ^ (p - 1) mod p = 1.

Lemma modpow_correct b e : modpow b e p = b ^ e mod p.
Proof. unfold modpow. apply Zpow_mod_correct. lia. Qed.

Lemma div_mod_cancel b c : invertible b -> div_mod (b * c) b p = c mod p.
Proof.
  intros Hb. unfold div_mod, TWO. rewrite modpow_correct, Zmult_mod_idemp_r.
  replace (b * c * b ^ (p - 2)) with (b ^ (p - 1) * c).
  - rewrite <- Zmult_mod_idemp_l, Hb. f_equal. lia.
  - replace (p - 1) with (Z.succ (p - 2)) by lia. rewrite Z.pow_succ_r by lia. lia.
Qed.

Lemma div_mod_congr a a' b : a mod p = a' mod p -> div_mod a b p = div_mod a' b p.
Proof.
  intros Ha. unfold div_mod. by rewrite <- Zmult_mod_idemp_l, Ha, Zmult_mod_idemp_l.
Qed.

(** Evaluation without reduction. *)
Fixpoint eval (c : list Z) (x : Z) : Z :=
  match c with [] => 0 | a :: c => a + x * eval c x end.

Lemma horner_eval c x : horner c x p = eval c x mod p.
Proof.
  unfold horner. induction c as [|a c IH]; [done|].
  rewrite reverse_cons, fold_left_app, IH. cbn [fold_left eval].
  rewrite Z.add_mod, Zmult_mod_idemp_l, <- Z.add_mod by lia. f_equal. lia.
Qed.

Lemma eval_congr c x x' : x mod p = x' mod p -> eval c x mod p = eval c x' mod p.
Proof.
  intros Hx. induction c as [|a c IH]; [done|]. cbn [eval].
  rewrite Z.add_mod, Z.mul_mod, Hx, IH, <- Z.mul_mod, <- Z.add_mod by lia. done.
Qed.

(** Even and odd coefficients. *)
Fixpoint interleave (l0 l1 : list Z) : list Z :=
  match l0, l1 with
  | a :: l0, b :: l1 => a :: b :: interleave l0 l1
  | _, _ => []
  end.

Lemma eval_interleave l0 l1 x :
  length l0 = length l1 ->
  eval (interleave l0 l1) x = eval l0 (x ^ 2) + x * eval l1 (x ^ 2).
Proof.
  revert l1. induction l0 as [|a l0 IH]; intros [|b l1] Hl; try done; [simpl; lia|].
  cbn [interleave eval]. rewrite IH by (simpl in Hl; lia). rewrite Z.pow_2_r. lia.
Qed.

Lemma interleave_lookup l0 l1 i :
  length l0 = length l1 ->
  interleave l0 l1 !! (2 * i)%nat = l0 !! i /\ interleave l0 l1 !! (2 * i + 1)%nat = l1 !! i.
Proof.
  revert l1 i. induction l0 as [|a l0 IH]; intros [|b l1] i Hl; try done.
  destruct i as [|i]; [done|]. cbn [interleave].
  replace (2 * S i)%nat with (S (S (2 * i))) by lia.
  replace (S (S (2 * i)) + 1)%nat with (S (S (2 * i + 1))) by lia.
  simpl lookup. apply (IH l1 i). simpl in Hl. lia.
Qed.

Lemma interleave_length l0 l1 :
  length l0 = length l1 -> length (interleave l0 l1) = (2 * length l0)%nat.
Proof.
  revert l1. induction l0 as [|a l0 IH]; intros [|b l1] Hl; try done. simpl.
  rewrite IH by (simpl in Hl; lia). lia.
Qed.

Lemma interleave_split l n :
  length l = (2 * n)%nat ->
  exists l0 l1, l = interleave l0 l1 /\ length l0 = n /\ length l1 = n.
Proof.
  revert l. induction n as [|n IH]; intros l Hl.
  - destruct l; [|done]. by exists [], [].
  - destruct l as [|a [|b l]]; try (simpl in Hl; lia).
    destruct (IH l) as (l0 & l1 & -> & <- & H1); [simpl in Hl; lia|].
    exists (a :: l0), (b :: l1). simpl. repeat split; lia.
Qed.

Lemma merge_interleave l0 l1 :
  length l0 = length l1 -> merge (length l0) l0 l1 = Some (interleave l0 l1).
Proof.
  unfold merge. revert l1. induction l0 as [|a l0 IH]; intros [|b l1] Hl; try done.
  simpl in Hl. cbn [length seq mapM]. rewrite <- seq_shift.
  specialize (IH l1 ltac:(lia)).
  destruct (mapM _ (seq 0 (length l0))) as [r|] eqn:Hr; [|done].
  assert (mapM (fun i => x ← (a :: l0) !! i; y ← (b :: l1) !! i; Some [x; y])
            (map S (seq 0 (length l0))) = Some r) as ->.
  { rewrite <- Hr. clear. generalize (seq 0 (length l0)) as s. induction s as [|i s IHs]; [done|].
    simpl. by rewrite IHs. }
  simpl in *. by injection IH as ->.
Qed.

(** ** Evaluation points: negated pairs whose squares are again such points *)
Inductive good : nat -> list Z -> Prop :=
  | good_one x : good 0 [x]
  | good_pairs k xs :
      length xs = (2 * 2 ^ k)%nat ->
      (forall i x y, xs !! (2 * i)%nat = Some x -> xs !! (2 * i + 1)%nat = Some y ->
        (x + y) mod p = 0 /\ invertible (2 * x)) ->
      good k (map (fun i => modpow (xs !!! (2 * i)%nat) 2 p) (seq 0 (2 ^ k))) ->
      good (S k) xs.

Lemma good_length k xs : good k xs -> length xs = (2 ^ k)%nat.
Proof. destruct 1; [done|]. rewrite H. simpl. lia. Qed.

Lemma fft_map c xs : length xs = length c -> fft c xs p = Some (map (fun x => eval c x mod p) xs).
Proof.
  intros Hl. unfold fft.
  rewrite (mapM_map _ (fun i => eval c (xs !!! i) mod p)).
  - f_equal. apply list_eq. intros i. rewrite <- Hl.
    destruct (decide (i < length xs)%nat) as [Hi|Hi].
    + rewrite map_seq_lookup by done. rewrite list_lookup_fmap.
      destruct (lookup_lt_is_Some_2 xs i Hi) as [x Hx].
      by rewrite (list_lookup_total_correct _ _ _ Hx), Hx.
    + rewrite !lookup_ge_None_2; [done| |]; rewrite length_map, ?length_seq; lia.
  - intros i Hi. rewrite elem_of_seq, <- Hl in Hi.
    destruct (lookup_lt_is_Some_2 xs i) as [x Hx]; [lia|].
    rewrite Hx. cbn [mbind option_bind]. by rewrite horner_eval, (list_lookup_total_correct _ _ _ Hx).
Qed.

Context (Htwo : invertible 2).

Lemma eval_pair l0 l1 x y :
  length l0 = length l1 -> (x + y) mod p = 0 ->
  eval (interleave l0 l1) y mod p = (eval l0 (x ^ 2) - x * eval l1 (x ^ 2)) mod p.
Proof.
  intros Hl Hxy.
  assert (y mod p = (- x) mod p) as Hy.
  { rewrite <- (Z.add_0_r (- x)), <- (Zplus_mod_idemp_r 0), Zmod_0_l, <- Hxy, Zplus_mod_idemp_r.
    f_equal. lia. }
  rewrite (eval_congr _ _ _ Hy), eval_interleave by done.
  replace ((- x) ^ 2) with (x ^ 2) by (rewrite !Z.pow_2_r; lia). f_equal. lia.
Qed.

(** One turn of [ifft] on evaluations gives the evaluations of the even and of the
    odd coefficients at the square of the point. *)
Lemma ifft_pair_spec l0 l1 xs i x y :
  length l0 = length l1 ->
  xs !! (2 * i)%nat = Some x -> xs !! (2 * i + 1)%nat = Some y ->
  (x + y) mod p = 0 -> invertible (2 * x) ->
  ifft_pair (map (fun x => eval (interleave l0 l1) x mod p) xs) xs p i
  = Some (eval l0 (modpow x 2 p) mod p, eval l1 (modpow x 2 p) mod p, modpow x 2 p).
Proof.
  intros Hl Hx Hy Hxy Hinv. unfold ifft_pair. rewrite !list_lookup_fmap, Hx, Hy.
  cbn [fmap option_fmap option_map mbind option_bind].
  rewrite (eval_pair l0 l1 x y), (eval_interleave l0 l1 x) by done.
  set (e0 := eval l0 (x ^ 2)). set (e1 := eval l1 (x ^ 2)).
  set (a := (e0 + x * e1) mod p). set (b := (e0 - x * e1) mod p).
  assert (0 <= a < p) as Ha by (apply Z.mod_pos_bound; lia).
  assert (0 <= b < p) as Hb by (apply Z.mod_pos_bound; lia).
  assert (forall d, d mod p = (a - b) mod p -> div_mod d (TWO * x) p = e1 mod p) as Hd.
  { intros d Hd. rewrite (div_mod_congr d (2 * x * e1)).
    - by apply div_mod_cancel.
    - rewrite Hd. subst a b. rewrite <- Zminus_mod. f_equal. lia. }
  assert (div_mod (a + b) TWO p = e0 mod p) as ->.
  { rewrite (div_mod_congr (a + b) (2 * e0)).
    - by apply div_mod_cancel.
    - subst a b. rewrite <- Zplus_mod. f_equal. lia. }
  assert (x ^ 2 mod p = modpow x 2 p mod p) as Hsq
    by (rewrite modpow_correct, Zmod_mod; done).
  subst e0 e1. rewrite <- !(eval_congr _ _ _ Hsq).
  destruct (Z.ltb_spec a b) as [Hlt|Hge].
  - destruct (Z.ltb_spec p (b - a)); [lia|]. cbn [mbind option_bind]. rewrite Hd; [done|].
    replace (p - (b - a)) with (a - b + 1 * p) by lia. apply Z.mod_add. lia.
  - cbn [mbind option_bind]. by rewrite Hd.
Qed.

Theorem ifft_fft k xs data fuel :
  good k xs -> length data = (2 ^ k)%nat -> Forall (fun d => 0 <= d < p) data -> (k < fuel)%nat ->
  ifft fuel (map (fun x => eval data x mod p) xs) xs p = Some data.
Proof.
  intros Hg. revert data fuel. induction Hg as [x|k xs Hlen Hpairs Hg IH];
    intros data fuel Hl Hr Hf; (destruct fuel as [|fuel]; [lia|]); cbn [ifft].
  - cbn [map length Nat.eqb]. destruct data as [|d [|]]; try done. rewrite Forall_singleton in Hr.
    cbn [eval]. rewrite Z.mul_0_r, Z.add_0_r, Z.mod_small by done. done.
  - destruct (interleave_split data (2 ^ k)) as (l0 & l1 & -> & Hl0 & Hl1).
    { rewrite Hl. simpl. lia. }
    rewrite length_map, Hlen.
    assert (0 < 2 ^ k)%nat as Hpos by (apply Nat.neq_0_lt_0, Nat.pow_nonzero; lia).
    destruct (Nat.eqb_spec (2 * 2 ^ k) 1); [lia|].
    replace (2 * 2 ^ k / 2)%nat with (2 ^ k)%nat by (rewrite Nat.mul_comm, Nat.div_mul; lia).
    set (new := fun i => modpow (xs !!! (2 * i)%nat) 2 p).
    rewrite (mapM_map _ (fun i => (eval l0 (new i) mod p, eval l1 (new i) mod p, new i))).
    + cbn [mbind option_bind]. rewrite !map_map. cbn [fst snd].
      rewrite <- (map_map new (fun x => eval l0 x mod p)), <- (map_map new (fun x => eval l1 x mod p)).
      assert (Forall (fun d => 0 <= d < p) l0 /\ Forall (fun d => 0 <= d < p) l1) as [Hr0 Hr1].
      { rewrite !Forall_lookup in *. split; intros i d Hi;
          destruct (interleave_lookup l0 l1 i) as [H0 H1]; try lia;
          [apply (Hr (2 * i)%nat)|apply (Hr (2 * i + 1)%nat)]; congruence. }
      change (map (fun x : nat => new x) (seq 0 (2 ^ k))) with (map new (seq 0 (2 ^ k))).
      rewrite (IH l0), (IH l1) by (done || lia). cbn [mbind option_bind].
      rewrite <- Hl0. apply merge_interleave. lia.
    + intros i Hi%elem_of_seq.
      destruct (lookup_lt_is_Some_2 xs (2 * i)) as [x Hx]; [lia|].
      destruct (lookup_lt_is_Some_2 xs (2 * i + 1)) as [y Hy]; [lia|].
      destruct (Hpairs i x y Hx Hy) as [Hxy Hinv]. subst new. cbv beta.
      rewrite (list_lookup_total_correct _ _ _ Hx). apply ifft_pair_spec with y; auto. lia.
Qed.

(** ** Bit-reversed powers of a root of unity are such points *)
Definition power_points (k : nat) (h : Z) : list Z :=
  map (fun i => h ^ bit_reverse (Z.of_nat k) (Z.of_nat i) mod p) (seq 0 (2 ^ k)).

Lemma power_points_lookup k h i :
  (i < 2 ^ k)%nat ->
  power_points k h !! i = Some (h ^ bit_reverse (Z.of_nat k) (Z.of_nat i) mod p).
Proof. intros Hi. unfold power_points. by rewrite map_seq_lookup. Qed.

Lemma invertible_pow h e : 0 <= e -> invertible h -> invertible (h ^ e).
Proof.
  unfold invertible. intros He Hh. rewrite <- Z.pow_mul_r, Z.mul_comm, Z.pow_mul_r by lia.
  rewrite Zpower_mod, Hh, Z.pow_1_l, Z.mod_small by lia. done.
Qed.

Lemma invertible_double x : invertible x -> invertible (2 * (x mod p)).
Proof.
  unfold invertible in *. intros Hx. rewrite Z.pow_mul_l, Z.mul_mod, Htwo by lia.
  rewrite <- Zpower_mod, Hx by lia. by rewrite Z.mod_small by lia.
Qed.

End Modular.

Lemma from_bits_cons b l : from_bits (b :: l) = b * 2 ^ Z.of_nat (length l) + from_bits l.
Proof.
  unfold from_bits. cbn [fold_left]. rewrite Z.add_0_l || idtac.
  assert (forall acc, fold_left (fun acc b => acc * 2 + b) l acc
            = acc * 2 ^ Z.of_nat (length l) + fold_left (fun acc b => acc * 2 + b) l 0) as H.
  { induction l as [|c l IH]; intros acc; cbn [fold_left length]; [simpl; lia|].
    rewrite IH, (IH (0 * 2 + c)), Nat2Z.inj_succ, Z.pow_succ_r by lia. lia. }
  rewrite H. lia.
Qed.

Lemma map_reverse {A B} (f : A -> B) l : map f (reverse l) = reverse (map f l).
Proof. apply (fmap_reverse f). Qed.

Lemma bit_reverse_small k i :
  (0 < k)%nat -> 0 <= i < 2 ^ Z.of_nat k ->
  bit_reverse (Z.of_nat k) i
  = from_bits (map (fun j => Z.b2z (Z.testbit i j)) (seqZ 0 (Z.of_nat k))).
Proof.
  intros Hk Hi. unfold bit_reverse. rewrite bits_of_small by lia.
  by rewrite map_reverse, reverse_involutive.
Qed.

Lemma bit_reverse_nonneg w i : 0 <= bit_reverse w i.
Proof.
  unfold bit_reverse, bits_of. rewrite map_reverse, reverse_involutive.
  generalize (seqZ 0 (Z.max w (Z.log2 i + 1))) as l. intros l.
  induction l as [|j l IH]; [done|]. cbn [map]. rewrite from_bits_cons.
  destruct (Z.testbit i j); simpl Z.b2z; lia.
Qed.

Lemma bit_reverse_succ k i b :
  0 <= i < 2 ^ Z.of_nat k ->
  bit_reverse (Z.of_nat (S k)) (2 * i + Z.b2z b)
  = Z.b2z b * 2 ^ Z.of_nat k + bit_reverse (Z.of_nat k) i.
Proof.
  intros Hi. rewrite bit_reverse_small.
  2: lia.
  2: { rewrite Nat2Z.inj_succ, Z.pow_succ_r by lia. destruct b; simpl Z.b2z; lia. }
  rewrite seqZ_cons by lia. cbn [map]. rewrite from_bits_cons, length_map, length_seqZ.
  replace (Z.of_nat (Z.to_nat (Z.pred (Z.of_nat (S k))))) with (Z.of_nat k) by lia.
  replace (Z.pred (Z.of_nat (S k))) with (Z.of_nat k) by lia.
  rewrite Z.testbit_0_r. f_equal.
  destruct k as [|k].
  { assert (i = 0) as -> by (simpl in Hi; lia). done. }
  rewrite bit_reverse_small by lia. f_equal.
  assert (seqZ (Z.succ 0) (Z.of_nat (S k)) = map (Z.add 1) (seqZ 0 (Z.of_nat (S k)))) as ->
    by (symmetry; apply (fmap_add_seqZ 1 0)).
  rewrite map_map. apply map_ext_in. intros j Hj.
  apply list_elem_of_In, elem_of_seqZ in Hj. f_equal.
  change (1 + j) with (Z.succ j) || rewrite (Z.add_1_l j). rewrite Z.testbit_succ_r by lia. done.
Qed.

Section Points.
Context (p : Z) (Hp : 2 < p) (Htwo : invertible p 2).

Lemma power_points_good k h :
  invertible p h -> (k <> 0%nat -> h ^ 2 ^ Z.of_nat (k - 1) mod p = p - 1) ->
  good p k (power_points p k h).
Proof.
  revert h. induction k as [|k IH]; intros h Hh Hroot; [apply good_one|].
  specialize (Hroot ltac:(lia)). replace (S k - 1)%nat with k in Hroot by lia.
  assert (forall i, (i < 2 ^ k)%nat -> 0 <= Z.of_nat i < 2 ^ Z.of_nat k) as Hpow.
  { intros i Hi. split; [lia|]. rewrite <- (Nat2Z.inj_pow 2). lia. }
  assert (forall i b, (i < 2 ^ k)%nat ->
    power_points p (S k) h !! (2 * i + Nat.b2n b)%nat
    = Some (h ^ (Z.b2z b * 2 ^ Z.of_nat k + bit_reverse (Z.of_nat k) (Z.of_nat i)) mod p)) as Hlook.
  { intros i b Hi. rewrite power_points_lookup by (simpl; destruct b; simpl; lia).
    replace (Z.of_nat (2 * i + Nat.b2n b)) with (2 * Z.of_nat i + Z.b2z b) by (destruct b; simpl; lia).
    by rewrite bit_reverse_succ by auto. }
  constructor.
  - unfold power_points. rewrite length_map, length_seq. done.
  - intros i x y Hx Hy.
    assert (i < 2 ^ k)%nat as Hi.
    { apply lookup_lt_Some in Hx. unfold power_points in Hx. rewrite length_map, length_seq in Hx.
      simpl in Hx. lia. }
    pose proof (Hlook i false Hi) as Hx'. pose proof (Hlook i true Hi) as Hy'.
    cbn [Nat.b2n Z.b2z] in Hx', Hy'. rewrite Nat.add_0_r in Hx'.
    rewrite Hx in Hx'. rewrite Hy in Hy'. injection Hx' as ->. injection Hy' as ->.
    pose proof (bit_reverse_nonneg (Z.of_nat k) (Z.of_nat i)) as He.
    set (e := bit_reverse _ _) in *. rewrite Z.mul_0_l, Z.add_0_l, Z.mul_1_l. split.
    + rewrite Z.pow_add_r by lia. rewrite (Z.mul_mod (h ^ 2 ^ Z.of_nat k)), Hroot by lia.
      rewrite Zplus_mod_idemp_r, Zplus_mod_idemp_l, Z.add_mod, Zmult_mod_idemp_r, <- Z.add_mod by lia.
      replace (h ^ e + (p - 1) * h ^ e) with (h ^ e * p) by lia. apply Z.mod_mul. lia.
    + apply invertible_double; [done..|]. by apply invertible_pow.
  - replace (map _ (seq 0 (2 ^ k))) with (power_points p k (h ^ 2)).
    + apply IH; [apply invertible_pow; [done|lia|done]|]. intros Hk.
      rewrite <- Z.pow_mul_r by lia. rewrite <- Z.pow_succ_r by lia.
      by replace (Z.succ (Z.of_nat (k - 1))) with (Z.of_nat k) by lia.
    + apply map_ext_in. intros i Hi. apply list_elem_of_In, elem_of_seq in Hi.
      pose proof (Hlook i false ltac:(lia)) as Hx. cbn [Nat.b2n Z.b2z] in Hx.
      rewrite Nat.add_0_r in Hx. rewrite (list_lookup_total_correct _ _ _ Hx), Z.mul_0_l, Z.add_0_l.
      pose proof (bit_reverse_nonneg (Z.of_nat k) (Z.of_nat i)) as He.
      rewrite modpow_correct by done. rewrite <- Zpower_mod by lia.
      by rewrite <- !Z.pow_mul_r, Z.mul_comm by lia.
Qed.
End Points.

(** ** The blob parameters *)
Lemma bls_two_invertible : invertible BLS_MODULUS 2.
Proof. unfold invertible. rewrite <- modpow_correct; [by vm_compute|done]. Qed.

Lemma generator_invertible : invertible BLS_MODULUS GENERATOR.
Proof. unfold invertible. rewrite <- modpow_correct; [by vm_compute|done]. Qed.

Lemma generator_root : GENERATOR ^ 2 ^ Z.of_nat 11 mod BLS_MODULUS = BLS_MODULUS - 1.
Proof. rewrite <- modpow_correct; [by vm_compute|done]. Qed.

Lemma evaluation_points_power : evaluation_points = power_points BLS_MODULUS 12 GENERATOR.
Proof. apply map_ext. intros i. by apply modpow_correct. Qed.

Lemma evaluation_points_good : good BLS_MODULUS 12 evaluation_points.
Proof.
  rewrite evaluation_points_power.
  apply power_points_good; [done|apply bls_two_invertible|apply generator_invertible|].
  intros _. apply generator_root.
Qed.

(** C31. Recovering the data of a blob inverts evaluating it, for the modulus and
    generator of EIP-4844: any 4096 field elements published with [transform] are
    given back by [recover], which neither fails nor runs on. *)
Theorem blob_roundtrip data :
  length data = BLOB_LEN -> Forall (fun d => 0 <= d < BLS_MODULUS) data ->
  exists blob, transform data = Some blob /\ recover blob = Some data.
Proof.
  intros Hl Hr. pose proof (good_length _ _ _ evaluation_points_good) as Hlen.
  change (2 ^ 12)%nat with BLOB_LEN in Hlen.
  eexists. unfold transform, recover. rewrite fft_map by (done || congruence). split; [done|].
  apply ifft_fft with 12%nat; [done|apply bls_two_invertible|apply evaluation_points_good|done..|lia].
Qed.

Lemma blob_roundtrip_witness :
  exists blob, transform (replicate BLOB_LEN 5) = Some blob
    /\ recover blob = Some (replicate BLOB_LEN 5).
Proof.
  apply (blob_roundtrip (replicate BLOB_LEN 5)); [reflexivity|].
  apply Forall_replicate. split; reflexivity || discriminate.
Defined.
