(* ===== verification/Mdbx.v ===== *)
(** * The storage engine and the block lists

    [crates/storage/db] wraps two third-party libraries: libmdbx, a transactional
    key-value store, and the roaring bitmaps behind
    [crates/storage/db/src/models/list.rs].  Both are interfaces here, with the
    behaviour their documentation gives.

    A table ([tbl]) maps typed keys to values; a duplicate-sorted table
    ([dtbl]) keeps, per key, several values ordered by their bytes, each
    starting with the encoding of its subkey.  Reads and writes do not fail: the
    I/O errors of the engine are outside the model. *)

From Stdlib Require Import ZArith Lia.
From stdpp Require Import base numbers list gmap sorting.
From S2P Require Import Prelude Felt Codec.

(** ** Duplicate-sorted values *)
Class DupSort (V S : Type) := {
  dv_sub : V -> S;
  dv_encode : S -> list Z;
  dv_tail : V -> list Z;
}.
(** A value's bytes start with its subkey's. *)
Definition dv_bytes {V S} `{DupSort V S} (v : V) : list Z := dv_encode (dv_sub v) ++ dv_tail v.

Section DupList.
Context {V S : Type} `{DS : DupSort V S}.

(** Inserting a pair that is already there changes nothing. *)
Fixpoint dup_insert (v : V) (l : list V) : list V :=
  match l with
  | [] => [v]
  | w :: l' =>
      if decide (dv_bytes v = dv_bytes w) then l
      else if lex_le (dv_bytes v) (dv_bytes w) then v :: l
      else w :: dup_insert v l'
  end.

(** The first value not below the subkey ([MDBX_GET_BOTH_RANGE]). *)
Definition dup_seek (s : S) (l : list V) : option V :=
  List.find (fun v => lex_le (dv_encode s) (dv_bytes v)) l.

Definition dup_delete (v : V) (l : list V) : list V :=
  filter (fun w => dv_bytes w <> dv_bytes v) l.
End DupList.

Class Mdbx := {
  tbl : forall K `{Countable K}, Type -> Type;
  t_empty {K} `{Countable K} {V} : tbl K V;
  t_get {K} `{Countable K} {V} : tbl K V -> K -> option V;
  t_put {K} `{Countable K} {V} : K -> V -> tbl K V -> tbl K V;
  t_entries {K} `{Countable K} {V} : tbl K V -> Z;
  t_last {V} : tbl Z V -> option (Z * V);
  t_get_empty {K} `{Countable K} {V} (k : K) : t_get (t_empty (V := V)) k = None;
  t_get_put {K} `{Countable K} {V} (k k' : K) (v : V) t :
    t_get (t_put k v t) k' = if decide (k = k') then Some v else t_get t k';
  t_entries_empty {K} `{Countable K} {V} : t_entries (t_empty (K := K) (V := V)) = 0;
  t_entries_put {K} `{Countable K} {V} (k : K) (v : V) t :
    t_entries (t_put k v t) = t_entries t + match t_get t k with Some _ => 0 | None => 1 end;
  t_last_spec {V} (t : tbl Z V) :
    match t_last t with
    | Some (k, v) => t_get t k = Some v /\ forall k', is_Some (t_get t k') -> k' <= k
    | None => forall k, t_get t k = None
    end;
  t_delete {K} `{Countable K} {V} : K -> tbl K V -> tbl K V;
  t_get_delete {K} `{Countable K} {V} (k k' : K) (t : tbl K V) :
    t_get (t_delete k t) k' = if decide (k = k') then None else t_get t k';
  (** The entries a cursor walks over. *)
  t_walk {K} `{Countable K} {V} : tbl K V -> list (K * V);
  t_walk_keys {K} `{Countable K} {V} (t : tbl K V) : NoDup (map fst (t_walk t));
  t_walk_spec {K} `{Countable K} {V} (t : tbl K V) k v : (k, v) ∈ t_walk t <-> t_get t k = Some v;
  t_entries_walk {K} `{Countable K} {V} (t : tbl K V) : t_entries t = Z.of_nat (length (t_walk t));
  dtbl : Type -> Type;
  d_empty {V} : dtbl V;
  d_vals {V} : dtbl V -> Z -> list V;
  d_put {V S} `{DupSort V S} : Z -> V -> dtbl V -> dtbl V;
  d_delete {V S} `{DupSort V S} : Z -> V -> dtbl V -> dtbl V;
  d_vals_empty {V} k : d_vals (d_empty (V := V)) k = [];
  d_vals_put {V S} `{DupSort V S} k k' (v : V) (t : dtbl V) :
    d_vals (d_put k v t) k' = if decide (k = k') then dup_insert v (d_vals t k) else d_vals t k';
  d_vals_delete {V S} `{DupSort V S} k k' (v : V) (t : dtbl V) :
    d_vals (d_delete k v t) k' = if decide (k = k') then dup_delete v (d_vals t k) else d_vals t k';
  (** All duplicates of a key. *)
  d_delete_key {V} : Z -> dtbl V -> dtbl V;
  d_vals_delete_key {V} k k' (t : dtbl V) :
    d_vals (d_delete_key k t) k' = if decide (k = k') then [] else d_vals t k';
  (** A walk goes through the keys in order, and through the duplicates of each. *)
  d_walk {V} : dtbl V -> list (Z * V);
  d_walk_sorted {V} (t : dtbl V) : StronglySorted (fun e e' => e.1 <= e'.1) (d_walk t);
  d_walk_vals {V} (t : dtbl V) k : map snd (filter (fun e => e.1 = k) (d_walk t)) = d_vals t k;
}.

(** ** Facts on duplicate-sorted lists *)
Section DupFacts.
Context {V S : Type} `{DS : DupSort V S}.

Definition dup_sorted (l : list V) : Prop :=
  StronglySorted (fun v w => lex_le (dv_bytes v) (dv_bytes w) = true) l.

Lemma lex_le_refl b : lex_le b b = true.
Proof. rewrite <- (app_nil_r b) at 2. apply lex_le_prefix. Qed.

(** Between a prefix and itself there is only that prefix. *)
Lemma lex_squeeze x y t t' :
  length x = length y -> lex_le x (y ++ t) = true -> lex_le (y ++ t) (x ++ t') = true -> x = y.
Proof.
  revert y. induction x as [|a x IH]; intros [|b y] Hl; simplify_eq/=; [done|].
  destruct (Z.ltb_spec a b), (Z.ltb_spec b a), (Z.eqb_spec a b), (Z.eqb_spec b a); try done; try lia.
  intros H1 H2. subst. f_equal. by apply IH.
Qed.

Lemma elem_of_dup_insert v w l :
  w ∈ dup_insert v l -> w = v \/ w ∈ l.
Proof.
  induction l as [|u l IH]; simpl; [set_solver|]. repeat case_decide; [auto|].
  destruct (lex_le _ _); [set_solver|]. intros [->|Hw]%elem_of_cons; [set_solver|].
  destruct (IH Hw); set_solver.
Qed.

Lemma elem_of_dup_insert_old v w l : w ∈ l -> w ∈ dup_insert v l.
Proof.
  induction l as [|u l IH]; simpl; [set_solver|]. intros Hw. case_decide; [done|].
  destruct (lex_le _ _); [set_solver|]. apply elem_of_cons in Hw as [->|Hw]; set_solver.
Qed.

(** A value with new bytes does go in. *)
Lemma elem_of_dup_insert_new v l :
  (forall w, w ∈ l -> dv_bytes w <> dv_bytes v) -> v ∈ dup_insert v l.
Proof.
  induction l as [|u l IH]; simpl; [set_solver|]. intros Hne.
  rewrite decide_False by (intros H; by apply (Hne u); [left|]).
  destruct (lex_le _ _); [by left|]. right. apply IH. set_solver.
Qed.

Lemma dup_insert_sorted v l : dup_sorted l -> dup_sorted (dup_insert v l).
Proof.
  induction 1 as [|u l Hs IH Hall]; simpl; [repeat constructor|].
  case_decide; [by constructor|]. destruct (lex_le (dv_bytes v) (dv_bytes u)) eqn:Hle.
  - constructor; [by constructor|]. constructor; [done|]. eapply Forall_impl; [done|].
    intros w Hw. simpl in Hw. by eapply lex_le_trans.
  - constructor; [done|]. apply Forall_forall. intros w [->|Hw]%elem_of_dup_insert.
    + by destruct (lex_le_total (dv_bytes v) (dv_bytes u)); congruence.
    + rewrite Forall_forall in Hall. by apply Hall.
Qed.

Lemma dup_delete_sorted v l : dup_sorted l -> dup_sorted (dup_delete v l).
Proof.
  induction 1 as [|u l Hs IH Hall]; [constructor|]. unfold dup_delete. rewrite filter_cons.
  case_decide; [|done]. constructor; [done|]. apply Forall_forall. intros w Hw.
  apply list_elem_of_filter in Hw as [_ Hw]. rewrite Forall_forall in Hall. by apply Hall.
Qed.

(** A search that misses lands on another subkey, or on nothing. *)
Lemma dup_seek_miss l s v :
  (forall w, w ∈ l -> dv_sub w <> s) -> dup_seek s l = Some v -> dv_sub v <> s.
Proof.
  intros Hne Hf. apply find_some in Hf as [Hin%list_elem_of_In _]. by apply Hne.
Qed.
End DupFacts.

(** An encoding that tells valid subkeys apart by prefixes: what lies between the
    encoding of [s] and one that starts with it cannot start with another one. *)
Definition squeezes {S} (valid : S -> Prop) (enc : S -> list Z) : Prop :=
  forall s s' t t', valid s -> valid s' ->
    lex_le (enc s) (enc s' ++ t) = true -> lex_le (enc s' ++ t) (enc s ++ t') = true -> s = s'.

(** An injective encoding of a fixed length is one. *)
Lemma fixed_squeezes {S} (valid : S -> Prop) (enc : S -> list Z) n :
  (forall s, length (enc s) = n) ->
  (forall s s', valid s -> valid s' -> enc s = enc s' -> s = s') -> squeezes valid enc.
Proof.
  intros Hlen Hinj s s' t t' Hs Hs' H1 H2. apply Hinj; [done..|].
  by apply (lex_squeeze _ _ t t'); [rewrite !Hlen|..].
Qed.

Section DupSearch.
Context {V S : Type} `{DS : DupSort V S} (valid : S -> Prop).
Hypothesis enc_squeezes : squeezes valid dv_encode.

(** A search for a subkey that is there ends on it. *)
Lemma dup_seek_hit l e :
  dup_sorted l -> Forall (fun v => valid (dv_sub v)) l -> e ∈ l ->
  exists v, dup_seek (dv_sub e) l = Some v /\ v ∈ l /\ dv_sub v = dv_sub e.
Proof.
  intros Hs Hv He. unfold dup_seek. destruct (List.find _ l) as [v|] eqn:Hf.
  2: { apply list_elem_of_In in He. eapply find_none in Hf; [|done]. simpl in Hf.
       unfold dv_bytes in Hf. by rewrite lex_le_prefix in Hf. }
  exists v. pose proof (find_some _ _ Hf) as [Hin Hle]. apply list_elem_of_In in Hin.
  split; [done|]. split; [done|]. symmetry. rewrite Forall_forall in Hv.
  apply (enc_squeezes _ _ (dv_tail v) (dv_tail e)); [by apply Hv..|exact Hle|].
  - clear Hv Hin. revert Hf He. induction Hs as [|u l Hs IH Hall]; [done|]. simpl.
    destruct (lex_le _ (dv_bytes u)) eqn:Hu.
    + intros [= <-] [->|He]%elem_of_cons; [apply lex_le_refl|].
      rewrite Forall_forall in Hall. by apply Hall.
    + intros Hf [->|He]%elem_of_cons; [|by apply IH].
      unfold dv_bytes in Hu. by rewrite lex_le_prefix in Hu.
Qed.

Lemma dv_bytes_sub v w :
  valid (dv_sub v) -> valid (dv_sub w) -> dv_bytes v = dv_bytes w -> dv_sub v = dv_sub w.
Proof.
  intros Hv Hw Heq. unfold dv_bytes in Heq.
  apply (enc_squeezes _ _ (dv_tail w) (dv_tail v)); [done..|rewrite <- Heq; apply lex_le_prefix|].
  rewrite Heq. apply lex_le_refl.
Qed.
End DupSearch.

(** ** Block lists *)
Class RoaringTreemap := {
  rt : Type;
  rt_empty : rt;
  rt_insert : Z -> rt -> rt;
  rt_rank : rt -> Z -> Z;
  rt_select : rt -> Z -> option Z;
  (** The set's iteration, in increasing order. *)
  rt_elems : rt -> list Z;
  rt_elems_sorted s : StronglySorted Z.lt (rt_elems s);
  rt_elems_empty : rt_elems rt_empty = [];
  rt_elems_insert x y s : y ∈ rt_elems (rt_insert x s) <-> y = x \/ y ∈ rt_elems s;
  rt_rank_spec s v : rt_rank s v = Z.of_nat (length (filter (fun x => x <= v) (rt_elems s)));
  rt_select_spec s i : 0 <= i -> rt_select s i = rt_elems s !! Z.to_nat i;
  (** [remove_range(0..=n)]: the number of removed values and what is left. *)
  rt_remove_to : Z -> rt -> Z * rt;
  rt_remove_to_count n s :
    (rt_remove_to n s).1 = Z.of_nat (length (filter (fun x => x <= n) (rt_elems s)));
  rt_remove_to_elems n s : rt_elems (rt_remove_to n s).2 = filter (fun x => n < x) (rt_elems s);
  rt_max : rt -> option Z;
  rt_max_spec s : rt_max s = last (rt_elems s);
}.

(** [BlockList::from([n])]. *)
Definition block_list_from `{RoaringTreemap} (n : Z) : rt := rt_insert n rt_empty.

(** ** Instances to run the model with: finite maps and sorted lists *)
Section GmapInstance.
Context {V : Type}.

Definition gmap_last_step (kv : Z * V) (acc : option (Z * V)) : option (Z * V) :=
  match acc with
  | Some kv' => if Z.ltb (fst kv') (fst kv) then Some kv else acc
  | None => Some kv
  end.
Definition gmap_last (t : gmap Z V) : option (Z * V) :=
  foldr gmap_last_step None (map_to_list t).

Lemma gmap_last_fold (l : list (Z * V)) :
  match foldr gmap_last_step None l with
  | Some kv => kv ∈ l /\ forall kv', kv' ∈ l -> fst kv' <= fst kv
  | None => l = []
  end.
Proof.
  induction l as [|kv l IH]; [done|]. simpl. unfold gmap_last_step at 1.
  destruct (foldr _ None l) as [kv'|].
  - destruct IH as [Hin Hmax]. destruct (Z.ltb_spec (fst kv') (fst kv)).
    + split; [by left|]. intros x [->|Hx]%elem_of_cons; [lia|]. specialize (Hmax x Hx). lia.
    + split; [by right|]. intros x [->|Hx]%elem_of_cons; [lia|auto].
  - subst. split; [by left|]. intros x ->%list_elem_of_singleton. lia.
Qed.

Lemma gmap_last_spec (t : gmap Z V) :
  match gmap_last t with
  | Some (k, v) => t !! k = Some v /\ forall k', is_Some (t !! k') -> k' <= k
  | None => forall k, t !! k = None
  end.
Proof.
  unfold gmap_last. pose proof (gmap_last_fold (map_to_list t)) as H.
  destruct (foldr _ None _) as [[k v]|].
  - destruct H as [Hin Hmax]. split; [by apply elem_of_map_to_list|].
    intros k' [v' Hv']. by apply (Hmax (k', v')), elem_of_map_to_list.
  - apply map_to_list_empty_iff in H. subst. intros k. apply lookup_empty.
Qed.
End GmapInstance.

(** A walk over a finite map of rows, by key. *)
Section Walk.
Context {V : Type}.
Definition row_le (r r' : Z * list V) : Prop := r.1 <= r'.1.
#[local] Instance row_le_dec r r' : Decision (row_le r r') := Z_le_dec _ _.
#[local] Instance row_le_trans : Transitive row_le.
Proof. intros r r' r''. unfold row_le. lia. Qed.
#[local] Instance row_le_total : Total row_le.
Proof. intros r r'. unfold row_le. lia. Qed.
Definition walk_rows (rows : list (Z * list V)) : list (Z * V) :=
  flat_map (fun r => map (pair r.1) r.2) rows.
Definition gmap_walk (t : gmap Z (list V)) : list (Z * V) :=
  walk_rows (merge_sort row_le (map_to_list t)).

Lemma walk_rows_sorted rows :
  StronglySorted row_le rows -> StronglySorted (fun e e' => e.1 <= e'.1) (walk_rows rows).
Proof.
  induction 1 as [|[k vs] rows Hs IH Hall]; [constructor|]. unfold walk_rows. simpl.
  induction vs as [|v vs IHv]; simpl; [exact IH|]. constructor; [by apply IHv|].
  apply Forall_app. split; [apply Forall_forall; intros e (w & -> & _)%list_elem_of_fmap; simpl; lia|].
  apply Forall_forall. intros e He. apply list_elem_of_In, in_flat_map in He as (r & Hr & He).
  apply in_map_iff in He as (w & <- & _). simpl. rewrite Forall_forall in Hall.
  by apply (Hall r), list_elem_of_In.
Qed.

Lemma filter_row (k k' : Z) (vs : list V) :
  filter (fun e => e.1 = k) (map (pair k') vs) = if decide (k' = k) then map (pair k') vs else [].
Proof.
  induction vs as [|v vs IH]; simpl; [by case_decide|]. rewrite filter_cons. simpl. rewrite IH.
  by case_decide.
Qed.

Lemma walk_rows_vals rows k :
  NoDup (map fst rows) ->
  map snd (filter (fun e => e.1 = k) (walk_rows rows))
  = match List.find (fun r => Z.eqb r.1 k) rows with Some r => r.2 | None => [] end.
Proof.
  induction rows as [|[k' vs] rows IH]; [done|]. simpl. intros [Hk Hnd]%NoDup_cons.
  change (walk_rows ((k', vs) :: rows)) with (map (pair k') vs ++ walk_rows rows).
  rewrite filter_app, filter_row, map_app. destruct (Z.eqb_spec k' k) as [->|Hne].
  - rewrite decide_True, map_map, map_id by done. rewrite IH by done.
    destruct (List.find _ rows) as [r|] eqn:Hf; [|by rewrite app_nil_r].
    apply find_some in Hf as [Hr Heq%Z.eqb_eq]. destruct Hk. apply list_elem_of_fmap.
    exists r. split; [done|]. by apply list_elem_of_In.
  - rewrite decide_False by done. by apply IH.
Qed.

Lemma gmap_walk_vals (t : gmap Z (list V)) k :
  map snd (filter (fun e => e.1 = k) (gmap_walk t)) = default [] (t !! k).
Proof.
  unfold gmap_walk. pose proof (merge_sort_Permutation row_le (map_to_list t)) as Hp.
  rewrite walk_rows_vals.
  2: { change (NoDup ((merge_sort row_le (map_to_list t)).*1)). rewrite Hp. apply NoDup_fst_map_to_list. }
  destruct (List.find _ _) as [[k' vs]|] eqn:Hf.
  - apply find_some in Hf as [Hr Heq%Z.eqb_eq]. simpl in Heq. subst k'.
    apply list_elem_of_In in Hr. rewrite Hp in Hr. apply elem_of_map_to_list in Hr. by rewrite Hr.
  - destruct (t !! k) as [vs|] eqn:Hk; [|done]. apply elem_of_map_to_list in Hk. rewrite <- Hp in Hk.
    eapply find_none in Hf; [|by apply list_elem_of_In]. simpl in Hf. by rewrite Z.eqb_refl in Hf.
Qed.

Lemma gmap_walk_sorted (t : gmap Z (list V)) : StronglySorted (fun e e' => e.1 <= e'.1) (gmap_walk t).
Proof. apply walk_rows_sorted, (StronglySorted_merge_sort row_le). Qed.
End Walk.

#[refine, export] Instance gmap_mdbx : Mdbx := {
  tbl K _ _ V := gmap K V;
  t_empty _ _ _ _ := ∅;
  t_get _ _ _ _ t k := t !! k;
  t_put _ _ _ _ k v t := <[k := v]> t;
  t_entries _ _ _ _ t := Z.of_nat (base.size t);
  t_last _ t := gmap_last t;
  t_delete _ _ _ _ k t := base.delete k t;
  t_walk _ _ _ _ t := map_to_list t;
  dtbl V := gmap Z (list V);
  d_empty _ := ∅;
  d_vals _ t k := default [] (t !! k);
  d_put _ _ _ k v t := <[k := dup_insert v (default [] (t !! k))]> t;
  d_delete _ _ _ k v t := <[k := dup_delete v (default [] (t !! k))]> t;
  d_delete_key _ k t := base.delete k t;
  d_walk _ t := gmap_walk t;
}.
Proof.
  - intros. apply lookup_empty.
  - intros. rewrite lookup_insert. done.
  - done.
  - intros K ?? V k v t. rewrite map_size_insert. destruct (t !! k); simpl; lia.
  - intros. apply gmap_last_spec.
  - intros. by rewrite lookup_delete.
  - intros. apply NoDup_fst_map_to_list.
  - intros. apply elem_of_map_to_list.
  - intros. by rewrite length_map_to_list.
  - intros. by rewrite lookup_empty.
  - intros. rewrite lookup_insert. by case_decide.
  - intros. rewrite lookup_insert. by case_decide.
  - intros. rewrite lookup_delete. by case_decide.
  - intros. apply gmap_walk_sorted.
  - intros. apply gmap_walk_vals.
Defined.

Fixpoint sorted_insert (x : Z) (l : list Z) : list Z :=
  match l with
  | [] => [x]
  | y :: l' => if Z.ltb x y then x :: l else if Z.eqb x y then l else y :: sorted_insert x l'
  end.

Lemma elem_of_sorted_insert x y l : y ∈ sorted_insert x l <-> y = x \/ y ∈ l.
Proof.
  induction l as [|z l IH]; simpl; [set_solver|].
  destruct (Z.ltb_spec x z), (Z.eqb_spec x z); set_solver.
Qed.

Lemma sorted_insert_sorted x l :
  StronglySorted Z.lt l -> StronglySorted Z.lt (sorted_insert x l).
Proof.
  induction 1 as [|y l Hs IH Hall]; simpl; [repeat constructor|].
  destruct (Z.ltb_spec x y); [|destruct (Z.eqb_spec x y)]; constructor; try done.
  - by constructor.
  - constructor; [done|]. eapply Forall_impl; [done|]. simpl. lia.
  - apply Forall_forall. intros z [->|Hz]%elem_of_sorted_insert; [lia|].
    rewrite Forall_forall in Hall. by apply Hall.
Qed.

#[refine, export] Instance sorted_roaring : RoaringTreemap := {
  rt := { l : list Z | StronglySorted Z.lt l };
  rt_empty := exist _ [] (SSorted_nil _);
  rt_insert x s := exist _ (sorted_insert x (proj1_sig s)) (sorted_insert_sorted x _ (proj2_sig s));
  rt_rank s v := Z.of_nat (length (filter (fun x => x <= v) (proj1_sig s)));
  rt_select s i := proj1_sig s !! Z.to_nat i;
  rt_elems s := proj1_sig s;
  rt_remove_to n s := (Z.of_nat (length (filter (fun x => x <= n) (proj1_sig s))),
    exist _ (filter (fun x => n < x) (proj1_sig s)) (sorted_filter Z.lt _ _ (proj2_sig s)));
  rt_max s := last (proj1_sig s);
}.
Proof.
  - intros [l Hl]. exact Hl.
  - done.
  - intros. apply elem_of_sorted_insert.
  - done.
  - done.
  - done.
  - done.
  - done.
Defined.
