(* ===== verification/DbProvider.v ===== *)
(** * The database provider: tables, blocks and transactions
    ([crates/storage/provider/src/providers/db/mod.rs], [traits/block.rs],
    [crates/storage/db/src/tables.rs], [models/block.rs], [models/contract.rs])

    A database is one value per table.  Each operation runs in one engine
    transaction, so a read sees one consistent database and
    [insert_block_with_states_and_receipts] is one step.  Receipts, execution
    traces and contract classes are opaque. *)

From Stdlib Require Import ZArith Lia.
From stdpp Require Import base numbers list gmap.
From S2P Require Import Prelude BTreeMap Felt Tx Version Block Codec Versioned Mdbx.

#[export] Instance ContractStorageKey_eq_dec : EqDecision ContractStorageKey.
Proof. solve_decision. Defined.
#[export] Instance ContractStorageKey_countable : Countable ContractStorageKey.
Proof.
  refine (inj_countable' (fun k => (csk_contract_address k, csk_key k))
            (fun p => {| csk_contract_address := p.1; csk_key := p.2 |}) _).
  by intros [].
Defined.

(** ** The duplicate-sorted tables' values *)
Section DupInstances.
Context `{FP : FeltPostcard}.

#[export] Instance StorageEntry_DupSort : DupSort StorageEntry Z :=
  {| dv_sub := se_key; dv_encode := encode_felt; dv_tail e := felt_compress (se_value e) |}.
#[export] Instance NonceChange_DupSort : DupSort ContractNonceChange Z :=
  {| dv_sub := cnc_contract_address; dv_encode := encode_felt;
     dv_tail c := felt_compress (cnc_nonce c) |}.
#[export] Instance ClassChange_DupSort : DupSort ContractClassChange Z :=
  {| dv_sub := ccc_contract_address; dv_encode := encode_felt;
     dv_tail c := felt_compress (ccc_class_hash c) |}.
#[export] Instance StorageChange_DupSort : DupSort ContractStorageEntry ContractStorageKey :=
  {| dv_sub := cse_key; dv_encode := encode_storage_key;
     dv_tail e := felt_compress (cse_value e) |}.
(** [ClassDeclarations] stores a class hash on its own, as postcard writes it. *)
#[export] Instance ClassDeclaration_DupSort : DupSort Z Z :=
  {| dv_sub := id; dv_encode := felt_compress; dv_tail _ := [] |}.

(** The bytes are those of the codecs. *)
Lemma dv_bytes_compress :
  (forall e, dv_bytes e = compress_storage_entry e) /\
  (forall c, dv_bytes c = compress_nonce_change c) /\
  (forall c, dv_bytes c = compress_class_change c) /\
  (forall e, dv_bytes e = compress_contract_storage_entry e).
Proof. done. Qed.
End DupInstances.

(** ** Errors *)
Inductive ProviderError :=
  | ParsingError (msg : list Z)
  | MissingLatestBlockHash
  | MissingLatestBlockNumber
  | MissingBlockHash (n : Z)
  | MissingBlockHeader (n : Z)
  | MissingBlockTxs (n : Z)
  | MissingBlockBodyIndices (n : Z)
  | MissingBlockStatus (n : Z)
  | MissingTx (n : Z)
  | MissingTxBlock (n : Z)
  | MissingTxHash (n : Z)
  | MissingTxReceipt (n : Z)
  | MissingTxExecution (n : Z)
  | MissingCompiledClassHash (class_hash : Z)
  | MissingContractClassChangeEntry (block contract_address : Z)
  | MissingContractNonceChangeEntry (block contract_address : Z)
  | MissingStorageChangeEntry (block contract_address storage_key : Z)
  | MissingContractClassHash (address : Z)
  | MissingContractNonce (address : Z)
  | StateProofNotSupported
  | StateRootNotFound
  | ForkedBackend1                      (* the fork client's own errors *)
  | DatabaseError                       (* libmdbx's own errors *)
  | ContractClassCompilation            (* the Sierra compiler's own errors *)
  | OtherProviderError (msg : list Z).
Abbreviation ProviderResult A := (result ProviderError A).

(** ** Table values *)
Record StoredBlockBodyIndices := { tx_offset : Z; tx_count : Z }.
(** [Range::from]. *)
Definition body_range (i : StoredBlockBodyIndices) : list Z :=
  urange (tx_offset i) (tx_offset i + tx_count i).

Record GenericContractInfo := { gci_nonce : Z; gci_class_hash : Z }.
Definition GenericContractInfo_default : GenericContractInfo :=
  {| gci_nonce := 0; gci_class_hash := 0 |}.

(** [iter().flat_map] over a fallible read: the first error ends the loop, and a
    missing row is skipped. *)
Fixpoint collect_some {A B} (f : A -> ProviderResult (option B)) (l : list A)
    : ProviderResult (list B) :=
  match l with
  | [] => Ok []
  | a :: l =>
      b ← f a; bs ← collect_some f l;
      Ok (match b with Some b => b :: bs | None => bs end)
  end.

(** [BTreeSet] collected from a sequence. *)
Definition btree_set_collect (l : list Z) : list Z := fold_left (fun s x => sorted_insert x s) l [].

Section Provider.
Context `{MD : Mdbx} `{RT : RoaringTreemap} `{FP : FeltPostcard} {C R X : Type}.

Record ContractInfoChangeList := {
  class_change_list : rt;
  nonce_change_list : rt;
}.

(** ** The tables, grouped by what they describe *)
Record BlockTables := mkBlockTables {
  Headers : tbl Z VersionedHeader;
  BlockHashes : tbl Z Z;
  BlockNumbers : tbl Z Z;
  BlockStatusses : tbl Z FinalityStatus;
  BlockBodyIndices : tbl Z StoredBlockBodyIndices;
}.
Record TxTables := mkTxTables {
  TxNumbers : tbl Z Z;
  TxHashes : tbl Z Z;
  Transactions : tbl Z VersionedTx;
  TxBlocks : tbl Z Z;
  TxTraces : tbl Z X;
  Receipts : tbl Z R;
}.
Record ClassTables := mkClassTables {
  CompiledClassHashes : tbl Z Z;
  Classes : tbl Z C;
  ClassDeclarationBlock : tbl Z Z;
  ClassDeclarations : dtbl Z;
}.
Record StorageTables := mkStorageTables {
  ContractStorage : dtbl StorageEntry;
  StorageChangeSet : tbl ContractStorageKey rt;
  StorageChangeHistory : dtbl ContractStorageEntry;
}.
Record ContractTables := mkContractTables {
  ContractInfo : tbl Z GenericContractInfo;
  ContractInfoChangeSet : tbl Z ContractInfoChangeList;
  NonceChangeHistory : dtbl ContractNonceChange;
  ClassChangeHistory : dtbl ContractClassChange;
}.
Record Db := mkDb {
  db_blocks : BlockTables;
  db_txs : TxTables;
  db_classes : ClassTables;
  db_storage : StorageTables;
  db_contracts : ContractTables;
  StageCheckpoints : tbl (list Z) Z;
}.

Definition Db_empty : Db :=
  mkDb (mkBlockTables t_empty t_empty t_empty t_empty t_empty)
    (mkTxTables t_empty t_empty t_empty t_empty t_empty t_empty)
    (mkClassTables t_empty t_empty t_empty d_empty)
    (mkStorageTables d_empty t_empty d_empty)
    (mkContractTables t_empty t_empty d_empty d_empty) t_empty.

Implicit Types (db : Db) (id : BlockHashOrNumber) (hash num : Z).

(** ** Block numbers and hashes *)
Definition block_number_by_hash db hash : ProviderResult (option Z) :=
  Ok (t_get (BlockNumbers (db_blocks db)) hash).

Definition latest_number db : ProviderResult Z :=
  ok_or (fst <$> t_last (BlockHashes (db_blocks db))) MissingLatestBlockNumber.

Definition block_number_by_id db id : ProviderResult (option Z) :=
  match id with
  | BNum n => Ok (Some n)
  | BHash h => block_number_by_hash db h
  end.

Definition latest_hash db : ProviderResult Z :=
  n ← latest_number db;
  ok_or (t_get (BlockHashes (db_blocks db)) n) MissingLatestBlockHash.

Definition block_hash_by_num db num : ProviderResult (option Z) :=
  Ok (t_get (BlockHashes (db_blocks db)) num).

Definition block_hash_by_id db id : ProviderResult (option Z) :=
  match id with
  | BHash h => Ok (Some h)
  | BNum n => block_hash_by_num db n
  end.

(** The number a block id stands for, as each read resolves it. *)
Definition resolve db id : option Z :=
  match id with
  | BNum n => Some n
  | BHash h => t_get (BlockNumbers (db_blocks db)) h
  end.

(** ** Headers and statuses *)
Definition header db id : ProviderResult (option Header) :=
  match resolve db id with
  | Some n =>
      h ← ok_or (t_get (Headers (db_blocks db)) n) (MissingBlockHeader n);
      Ok (Some (header_of h))
  | None => Ok None
  end.

Definition block_status db id : ProviderResult (option FinalityStatus) :=
  match resolve db id with
  | Some n =>
      s ← ok_or (t_get (BlockStatusses (db_blocks db)) n) (MissingBlockStatus n);
      Ok (Some s)
  | None => Ok None
  end.

(** ** Transactions *)
Definition block_body_indices db id : ProviderResult (option StoredBlockBodyIndices) :=
  match resolve db id with
  | Some n => Ok (t_get (BlockBodyIndices (db_blocks db)) n)
  | None => Ok None
  end.

Definition transaction_by_hash db hash : ProviderResult (option TxWithHash) :=
  match t_get (TxNumbers (db_txs db)) hash with
  | Some num =>
      t ← ok_or (t_get (Transactions (db_txs db)) num) (MissingTx num);
      Ok (Some {| twh_hash := hash; twh_transaction := tx_of t |})
  | None => Ok None
  end.

Definition transaction_in_range db (range : list Z) : ProviderResult (list TxWithHash) :=
  collect_some (fun i =>
    match t_get (Transactions (db_txs db)) i with
    | Some t =>
        hash ← ok_or (t_get (TxHashes (db_txs db)) i) (MissingTxHash i);
        Ok (Some {| twh_hash := hash; twh_transaction := tx_of t |})
    | None => Ok None
    end) range.

Definition transactions_by_block db id : ProviderResult (option (list TxWithHash)) :=
  indices ← block_body_indices db id;
  match indices with
  | Some i => txs ← transaction_in_range db (body_range i); Ok (Some txs)
  | None => Ok None
  end.

Definition transaction_block_num_and_hash db hash : ProviderResult (option (Z * Z)) :=
  match t_get (TxNumbers (db_txs db)) hash with
  | Some num =>
      block_num ← ok_or (t_get (TxBlocks (db_txs db)) num) (MissingTxBlock num);
      block_hash ← ok_or (t_get (BlockHashes (db_blocks db)) block_num) (MissingBlockHash num);
      Ok (Some (block_num, block_hash))
  | None => Ok None
  end.

Definition transaction_by_block_and_idx db id (idx : Z) : ProviderResult (option TxWithHash) :=
  indices ← block_body_indices db id;
  match indices with
  | Some i =>
      if Z.ltb idx (tx_count i) then
        let num := tx_offset i + idx in
        hash ← ok_or (t_get (TxHashes (db_txs db)) num) (MissingTxHash num);
        t ← ok_or (t_get (Transactions (db_txs db)) num) (MissingTx num);
        Ok (Some {| twh_hash := hash; twh_transaction := tx_of t |})
      else Ok None
  | None => Ok None
  end.

Definition transaction_count_by_block db id : ProviderResult (option Z) :=
  indices ← block_body_indices db id;
  match indices with Some i => Ok (Some (tx_count i)) | None => Ok None end.

Definition transaction_hashes_in_range db (range : list Z) : ProviderResult (list Z) :=
  collect_some (fun i => Ok (t_get (TxHashes (db_txs db)) i)) range.

Definition transaction_status db hash : ProviderResult (option FinalityStatus) :=
  match t_get (TxNumbers (db_txs db)) hash with
  | Some num =>
      block_num ← ok_or (t_get (TxBlocks (db_txs db)) num) (MissingTxBlock num);
      s ← ok_or (t_get (BlockStatusses (db_blocks db)) block_num) (MissingBlockStatus block_num);
      Ok (Some s)
  | None => Ok None
  end.

(** ** Traces and receipts *)
Definition transaction_execution db hash : ProviderResult (option X) :=
  match t_get (TxNumbers (db_txs db)) hash with
  | Some num =>
      e ← ok_or (t_get (TxTraces (db_txs db)) num) (MissingTxExecution num); Ok (Some e)
  | None => Ok None
  end.

Definition transaction_executions_in_range db (range : list Z) : ProviderResult (list X) :=
  collect_some (fun i => Ok (t_get (TxTraces (db_txs db)) i)) range.

Definition transaction_executions_by_block db id : ProviderResult (option (list X)) :=
  indices ← block_body_indices db id;
  match indices with
  | Some i => xs ← transaction_executions_in_range db (body_range i); Ok (Some xs)
  | None => Ok None
  end.

Definition receipt_by_hash db hash : ProviderResult (option R) :=
  match t_get (TxNumbers (db_txs db)) hash with
  | Some num =>
      r ← ok_or (t_get (Receipts (db_txs db)) num) (MissingTxReceipt num); Ok (Some r)
  | None => Ok None
  end.

Definition receipts_by_block db id : ProviderResult (option (list R)) :=
  indices ← block_body_indices db id;
  match indices with
  | Some i =>
      rs ← collect_some (fun n => Ok (t_get (Receipts (db_txs db)) n)) (body_range i);
      Ok (Some rs)
  | None => Ok None
  end.

(** ** Blocks *)
Definition block db id : ProviderResult (option Block) :=
  h ← header db id;
  match h with
  | Some h =>
      res ← transactions_by_block db id;
      body ← ok_or res (MissingBlockTxs (number h));
      Ok (Some {| block_header := h; block_body := body |})
  | None => Ok None
  end.

Definition block_with_tx_hashes db id : ProviderResult (option BlockWithTxHashes) :=
  match resolve db id with
  | None => Ok None
  | Some n =>
      match t_get (Headers (db_blocks db)) n with
      | Some h =>
          i ← ok_or (t_get (BlockBodyIndices (db_blocks db)) n) (MissingBlockTxs n);
          body ← transaction_hashes_in_range db (body_range i);
          Ok (Some {| bth_header := header_of h; bth_body := body |})
      | None => Ok None
      end
  end.

(** [start..=end]. *)
Definition blocks_in_range db (first last : Z) : ProviderResult (list Block) :=
  collect_some (fun n =>
    match t_get (Headers (db_blocks db)) n with
    | Some h =>
        i ← ok_or (t_get (BlockBodyIndices (db_blocks db)) n) (MissingBlockBodyIndices n);
        body ← transaction_in_range db (body_range i);
        Ok (Some {| block_header := header_of h; block_body := body |})
    | None => Ok None
    end) (urange first (last + 1)).

Record BlockEnv := {
  env_number : Z;
  env_timestamp : Z;
  env_l2_gas_prices : GasPrice;
  env_l1_gas_prices : GasPrice;
  env_l1_data_gas_prices : GasPrice;
  env_sequencer_address : Z;
}.
Definition block_env_at db id : ProviderResult (option BlockEnv) :=
  h ← header db id;
  match h with
  | None => Ok None
  | Some h =>
      Ok (Some {| env_number := number h; env_timestamp := timestamp h;
                  env_l2_gas_prices := l2_gas_prices h; env_l1_gas_prices := l1_gas_prices h;
                  env_l1_data_gas_prices := l1_data_gas_prices h;
                  env_sequencer_address := sequencer_address h |})
  end.

(** ** State updates of a block *)
Definition state_update db id : ProviderResult (option StateUpdates) :=
  num ← block_number_by_id db id;
  match num with
  | None => Ok None
  | Some n =>
      let nonces := d_vals (NonceChangeHistory (db_contracts db)) n in
      let deployed := d_vals (ClassChangeHistory (db_contracts db)) n in
      let declarations := d_vals (ClassDeclarations (db_classes db)) n in
      let storage := d_vals (StorageChangeHistory (db_storage db)) n in
      Ok (Some {|
        nonce_updates :=
          btree_collect (map (fun c => (cnc_contract_address c, cnc_nonce c)) nonces);
        storage_updates :=
          fold_left (fun m e => btree_entry_insert (csk_contract_address (cse_key e))
                                  (csk_key (cse_key e)) (cse_value e) m) storage [];
        deployed_contracts :=
          btree_collect (map (fun c => (ccc_contract_address c, ccc_class_hash c)) deployed);
        declared_classes :=
          btree_collect (omap (fun h =>
            pair h <$> t_get (CompiledClassHashes (db_classes db)) h) declarations);
        deprecated_declared_classes :=
          btree_set_collect (filter (fun h =>
            t_get (CompiledClassHashes (db_classes db)) h = None) declarations);
        replaced_classes := [] |})
  end.

Definition provider_declared_classes db id : ProviderResult (option (list (Z * Z))) :=
  num ← block_number_by_id db id;
  match num with
  | None => Ok None
  | Some n =>
      Ok (Some (btree_collect (omap (fun h =>
        pair h <$> t_get (CompiledClassHashes (db_classes db)) h)
        (d_vals (ClassDeclarations (db_classes db)) n))))
  end.

Definition provider_deployed_contracts db id : ProviderResult (option (list (Z * Z))) :=
  num ← block_number_by_id db id;
  match num with
  | None => Ok None
  | Some n =>
      Ok (Some (btree_collect (map (fun c => (ccc_contract_address c, ccc_class_hash c))
        (d_vals (ClassChangeHistory (db_contracts db)) n))))
  end.

(** ** Inserting a block *)

Definition insert_block_rows (b : SealedBlockWithStatus) (offset : Z) (t : BlockTables)
    : BlockTables :=
  let n := number (sb_header (sbs_block b)) in
  let hash := sb_hash (sbs_block b) in
  let indices :=
    {| tx_offset := offset; tx_count := Z.of_nat (length (sb_body (sbs_block b))) |} in
  mkBlockTables
    (t_put n (header_from (sb_header (sbs_block b))) (Headers t))
    (t_put n hash (BlockHashes t)) (t_put hash n (BlockNumbers t))
    (t_put n (sbs_status b) (BlockStatusses t)) (t_put n indices (BlockBodyIndices t)).

(** [for (i, x) in xs.into_iter().enumerate()] with row number [offset + i]. *)
Fixpoint put_rows {A T} (put : Z -> A -> T -> T) (n : Z) (xs : list A) (t : T) : T :=
  match xs with
  | [] => t
  | x :: xs => put_rows put (n + 1) xs (put n x t)
  end.

Definition put_tx (block_number : Z) (n : Z) (tx : TxWithHash) (t : TxTables) : TxTables :=
  mkTxTables (t_put (twh_hash tx) n (TxNumbers t)) (t_put n (twh_hash tx) (TxHashes t))
    (t_put n (tx_from (twh_transaction tx)) (Transactions t))
    (t_put n block_number (TxBlocks t)) (TxTraces t) (Receipts t).
Definition put_receipt (n : Z) (r : R) (t : TxTables) : TxTables :=
  mkTxTables (TxNumbers t) (TxHashes t) (Transactions t) (TxBlocks t) (TxTraces t)
    (t_put n r (Receipts t)).
Definition put_trace (n : Z) (x : X) (t : TxTables) : TxTables :=
  mkTxTables (TxNumbers t) (TxHashes t) (Transactions t) (TxBlocks t)
    (t_put n x (TxTraces t)) (Receipts t).

Definition insert_txs (block_number offset : Z) (body : list TxWithHash) (receipts : list R)
    (executions : list X) (t : TxTables) : TxTables :=
  put_rows put_trace offset executions
    (put_rows put_receipt offset receipts
       (put_rows (put_tx block_number) offset body t)).

Definition declare_class (block_number : Z) (t : ClassTables) (e : Z * Z) : ClassTables :=
  mkClassTables (t_put e.1 e.2 (CompiledClassHashes t)) (Classes t)
    (t_put e.1 block_number (ClassDeclarationBlock t))
    (d_put block_number e.1 (ClassDeclarations t)).
Definition declare_deprecated (block_number : Z) (t : ClassTables) (h : Z) : ClassTables :=
  mkClassTables (CompiledClassHashes t) (Classes t)
    (t_put h block_number (ClassDeclarationBlock t))
    (d_put block_number h (ClassDeclarations t)).
Definition put_class (t : ClassTables) (e : Z * C) : ClassTables :=
  mkClassTables (CompiledClassHashes t) (t_put e.1 e.2 (Classes t))
    (ClassDeclarationBlock t) (ClassDeclarations t).

Definition insert_classes (block_number : Z) (states : StateUpdatesWithClasses C)
    (t : ClassTables) : ClassTables :=
  let t := fold_left (declare_class block_number) (declared_classes (state_updates states)) t in
  let t := fold_left (declare_deprecated block_number)
             (deprecated_declared_classes (state_updates states)) t in
  fold_left put_class (classes states) t.

(** [Some(mut list) => insert, None => BlockList::from([n])]. *)
Definition list_with (n : Z) (l : option rt) : rt :=
  match l with Some l => rt_insert n l | None => block_list_from n end.

(** [seek_by_key_subkey], [delete_current] if the entry is this key's, [upsert]. *)
Definition upsert_storage (addr : Z) (e : StorageEntry) (t : dtbl StorageEntry)
    : dtbl StorageEntry :=
  let t :=
    match dup_seek (se_key e) (d_vals t addr) with
    | Some current =>
        if decide (se_key current = se_key e) then d_delete addr current t else t
    | None => t
    end in
  d_put addr e t.

Definition put_storage (block_number addr : Z) (t : StorageTables) (e : Z * Z) : StorageTables :=
  let entry := {| se_key := e.1; se_value := e.2 |} in
  let key := {| csk_contract_address := addr; csk_key := e.1 |} in
  mkStorageTables (upsert_storage addr entry (ContractStorage t))
    (t_put key (list_with block_number (t_get (StorageChangeSet t) key)) (StorageChangeSet t))
    (d_put block_number {| cse_key := key; cse_value := e.2 |} (StorageChangeHistory t)).

Definition insert_storage (block_number : Z) (updates : list (Z * list (Z * Z)))
    (t : StorageTables) : StorageTables :=
  fold_left (fun t '(addr, entries) =>
    fold_left (put_storage block_number addr) entries t) updates t.

Definition put_deployed (block_number : Z) (t : ContractTables) (e : Z * Z) : ContractTables :=
  let '(addr, class_hash) := e in
  let value :=
    match t_get (ContractInfo t) addr with
    | Some info => {| gci_nonce := gci_nonce info; gci_class_hash := class_hash |}
    | None => {| gci_nonce := 0; gci_class_hash := class_hash |}
    end in
  let change_set :=
    match t_get (ContractInfoChangeSet t) addr with
    | Some cs => {| class_change_list := rt_insert block_number (class_change_list cs);
                    nonce_change_list := nonce_change_list cs |}
    | None => {| class_change_list := block_list_from block_number;
                 nonce_change_list := rt_empty |}
    end in
  mkContractTables (t_put addr value (ContractInfo t))
    (t_put addr change_set (ContractInfoChangeSet t)) (NonceChangeHistory t)
    (d_put block_number {| ccc_contract_address := addr; ccc_class_hash := class_hash |}
       (ClassChangeHistory t)).

Definition put_nonce (block_number : Z) (t : ContractTables) (e : Z * Z) : ContractTables :=
  let '(addr, nonce) := e in
  let value :=
    match t_get (ContractInfo t) addr with
    | Some info => {| gci_nonce := nonce; gci_class_hash := gci_class_hash info |}
    | None => {| gci_nonce := nonce; gci_class_hash := 0 |}
    end in
  let change_set :=
    match t_get (ContractInfoChangeSet t) addr with
    | Some cs => {| class_change_list := class_change_list cs;
                    nonce_change_list := rt_insert block_number (nonce_change_list cs) |}
    | None => {| class_change_list := rt_empty;
                 nonce_change_list := block_list_from block_number |}
    end in
  mkContractTables (t_put addr value (ContractInfo t))
    (t_put addr change_set (ContractInfoChangeSet t))
    (d_put block_number {| cnc_contract_address := addr; cnc_nonce := nonce |}
       (NonceChangeHistory t))
    (ClassChangeHistory t).

Definition insert_contracts (block_number : Z) (s : StateUpdates) (t : ContractTables)
    : ContractTables :=
  let t := fold_left (put_deployed block_number) (deployed_contracts s) t in
  fold_left (put_nonce block_number) (nonce_updates s) t.

Definition insert_block_with_states_and_receipts (b : SealedBlockWithStatus)
    (states : StateUpdatesWithClasses C) (receipts : list R) (executions : list X) db : Db :=
  let block_number := number (sb_header (sbs_block b)) in
  let offset := t_entries (Transactions (db_txs db)) in
  mkDb (insert_block_rows b offset (db_blocks db))
    (insert_txs block_number offset (sb_body (sbs_block b)) receipts executions (db_txs db))
    (insert_classes block_number states (db_classes db))
    (insert_storage block_number (storage_updates (state_updates states)) (db_storage db))
    (insert_contracts block_number (state_updates states) (db_contracts db))
    (StageCheckpoints db).

(** ** Stage checkpoints *)
Definition checkpoint db (id : list Z) : ProviderResult (option Z) :=
  Ok (t_get (StageCheckpoints db) id).
Definition set_checkpoint (id : list Z) (block_number : Z) db : Db :=
  mkDb (db_blocks db) (db_txs db) (db_classes db) (db_storage db) (db_contracts db)
    (t_put id block_number (StageCheckpoints db)).
End Provider.
Arguments Db {_ _} C R X.
