(* ===== verification/DbState.v ===== *)
(** * The database's state providers ([crates/storage/provider/src/providers/db/state.rs],
    [StateFactoryProvider] of [providers/db/mod.rs])

    The latest state is read from the tables that hold current values, the state
    at a block from the change lists and the change history. *)

From Stdlib Require Import ZArith Lia.
From stdpp Require Import base numbers list gmap sorting.
From S2P Require Import Prelude Felt Tx Version Block Codec Versioned Mdbx DbProvider.

Section State.
Context `{MD : Mdbx} `{RT : RoaringTreemap} `{FP : FeltPostcard} {C R X : Type}.
Implicit Types (db : Db C R X) (address class_hash nonce : Z).

(** ** [recent_change_from_block] *)
Definition recent_change_from_block (block_number : Z) (block_list : rt) : option Z :=
  let rank := rt_rank block_list block_number in
  if Z.eqb rank 0 then None else rt_select block_list (rank - 1).

(** ** [StateWriter] and [ContractClassWriter] *)
Definition with_contract_info (t : ContractTables) (i : tbl Z GenericContractInfo)
    : ContractTables :=
  mkContractTables i (ContractInfoChangeSet t) (NonceChangeHistory t) (ClassChangeHistory t).
Definition with_contracts db (t : ContractTables) : Db C R X :=
  mkDb (db_blocks db) (db_txs db) (db_classes db) (db_storage db) t (StageCheckpoints db).
Definition with_classes db (t : ClassTables) : Db C R X :=
  mkDb (db_blocks db) (db_txs db) t (db_storage db) (db_contracts db) (StageCheckpoints db).

Definition set_nonce address nonce db : Db C R X :=
  let t := db_contracts db in
  let value :=
    match t_get (ContractInfo t) address with
    | Some info => {| gci_nonce := nonce; gci_class_hash := gci_class_hash info |}
    | None => {| gci_nonce := nonce; gci_class_hash := 0 |}
    end in
  with_contracts db (with_contract_info t (t_put address value (ContractInfo t))).

Definition set_storage address (storage_key storage_value : Z) db : Db C R X :=
  let t := db_storage db in
  mkDb (db_blocks db) (db_txs db) (db_classes db)
    (mkStorageTables
       (upsert_storage address {| se_key := storage_key; se_value := storage_value |}
          (ContractStorage t)) (StorageChangeSet t) (StorageChangeHistory t))
    (db_contracts db) (StageCheckpoints db).

Definition set_class_hash_of_contract address class_hash db : Db C R X :=
  let t := db_contracts db in
  let value :=
    match t_get (ContractInfo t) address with
    | Some info => {| gci_nonce := gci_nonce info; gci_class_hash := class_hash |}
    | None => {| gci_nonce := 0; gci_class_hash := class_hash |}
    end in
  with_contracts db (with_contract_info t (t_put address value (ContractInfo t))).

Definition set_class (hash : Z) (class : C) db : Db C R X :=
  let t := db_classes db in
  with_classes db (mkClassTables (CompiledClassHashes t) (t_put hash class (Classes t))
                     (ClassDeclarationBlock t) (ClassDeclarations t)).

Definition set_compiled_class_hash_of_class_hash (hash compiled_hash : Z) db : Db C R X :=
  let t := db_classes db in
  with_classes db (mkClassTables (t_put hash compiled_hash (CompiledClassHashes t)) (Classes t)
                     (ClassDeclarationBlock t) (ClassDeclarations t)).

(** ** The latest state *)
Definition latest_class db (hash : Z) : ProviderResult (option C) :=
  Ok (t_get (Classes (db_classes db)) hash).
Definition latest_compiled_class_hash db (hash : Z) : ProviderResult (option Z) :=
  Ok (t_get (CompiledClassHashes (db_classes db)) hash).
Definition latest_nonce db address : ProviderResult (option Z) :=
  Ok (gci_nonce <$> t_get (ContractInfo (db_contracts db)) address).
Definition latest_class_hash_of_contract db address : ProviderResult (option Z) :=
  Ok (gci_class_hash <$> t_get (ContractInfo (db_contracts db)) address).
Definition latest_storage db address (storage_key : Z) : ProviderResult (option Z) :=
  match dup_seek storage_key (d_vals (ContractStorage (db_storage db)) address) with
  | Some entry => if decide (se_key entry = storage_key) then Ok (Some (se_value entry)) else Ok None
  | None => Ok None
  end.

(** ** The state at a block *)
Definition is_class_declared_before_block db (block_number hash : Z) : ProviderResult bool :=
  Ok (match t_get (ClassDeclarationBlock (db_classes db)) hash with
      | Some num => Z.leb num block_number
      | None => false
      end).

Definition historical_class db (block_number hash : Z) : ProviderResult (option C) :=
  declared ← is_class_declared_before_block db block_number hash;
  if (declared : bool) then Ok (t_get (Classes (db_classes db)) hash) else Ok None.

Definition historical_compiled_class_hash db (block_number hash : Z)
    : ProviderResult (option Z) :=
  declared ← is_class_declared_before_block db block_number hash;
  if (declared : bool) then Ok (t_get (CompiledClassHashes (db_classes db)) hash) else Ok None.

Definition historical_nonce db (block_number address : Z) : ProviderResult (option Z) :=
  match t_get (ContractInfoChangeSet (db_contracts db)) address
        ≫= (fun entry => recent_change_from_block block_number (nonce_change_list entry)) with
  | Some num =>
      entry ← ok_or (dup_seek address (d_vals (NonceChangeHistory (db_contracts db)) num))
                (MissingContractNonceChangeEntry num address);
      if decide (cnc_contract_address entry = address) then Ok (Some (cnc_nonce entry))
      else Ok None
  | None => Ok None
  end.

Definition historical_class_hash_of_contract db (block_number address : Z)
    : ProviderResult (option Z) :=
  match t_get (ContractInfoChangeSet (db_contracts db)) address
        ≫= (fun entry => recent_change_from_block block_number (class_change_list entry)) with
  | Some num =>
      entry ← ok_or (dup_seek address (d_vals (ClassChangeHistory (db_contracts db)) num))
                (MissingContractClassChangeEntry num address);
      if decide (ccc_contract_address entry = address) then Ok (Some (ccc_class_hash entry))
      else Ok None
  | None => Ok None
  end.

Definition historical_storage db (block_number address storage_key : Z)
    : ProviderResult (option Z) :=
  let key := {| csk_contract_address := address; csk_key := storage_key |} in
  match t_get (StorageChangeSet (db_storage db)) key
        ≫= recent_change_from_block block_number with
  | Some num =>
      entry ← ok_or (dup_seek key (d_vals (StorageChangeHistory (db_storage db)) num))
                (MissingStorageChangeEntry num address storage_key);
      if decide (csk_contract_address (cse_key entry) = address /\ csk_key (cse_key entry) = storage_key)
      then Ok (Some (cse_value entry)) else Ok None
  | None => Ok None
  end.

(** [state_root]: the stored header's; [None] is the panic of [expect]. *)
Definition historical_state_root db (block_number : Z) : option Z :=
  (fun h => state_root (header_of h)) <$> t_get (Headers (db_blocks db)) block_number.

(** ** [StateFactoryProvider] *)
Inductive StateView := LatestState | HistoricalState (block_number : Z).

Definition historical db (block_id : BlockHashOrNumber) : ProviderResult (option StateView) :=
  match block_id with
  | BNum num =>
      latest_num ← latest_number db;
      match Z.compare num latest_num with
      | Lt => Ok (Some (HistoricalState num))
      | Gt => Ok None
      | Eq => Ok (Some LatestState)
      end
  | BHash hash =>
      block_number ← block_number_by_hash db hash;
      match block_number with
      | Some num => Ok (Some (HistoricalState num))
      | None => Ok None
      end
  end.

(** Reading through a view. *)
Definition view_nonce db (v : StateView) address : ProviderResult (option Z) :=
  match v with
  | LatestState => latest_nonce db address
  | HistoricalState n => historical_nonce db n address
  end.
Definition view_class_hash db (v : StateView) address : ProviderResult (option Z) :=
  match v with
  | LatestState => latest_class_hash_of_contract db address
  | HistoricalState n => historical_class_hash_of_contract db n address
  end.
Definition view_storage db (v : StateView) address (key : Z) : ProviderResult (option Z) :=
  match v with
  | LatestState => latest_storage db address key
  | HistoricalState n => historical_storage db n address key
  end.

(** ** The most recent change *)
Lemma sorted_filter_prefix (l : list Z) v :
  StronglySorted Z.lt l ->
  exists l2, l = filter (fun x => x <= v) l ++ l2 /\ Forall (fun x => v < x) l2.
Proof.
  induction 1 as [|x l Hs [l2 [Heq Hl2]] Hall]; [by exists []|]. rewrite filter_cons.
  case_decide as Hx.
  - exists l2. simpl. by rewrite <- Heq.
  - exists (x :: l). rewrite filter_none.
    + split; [done|]. constructor; [lia|]. eapply Forall_impl; [done|]. simpl. lia.
    + eapply Forall_impl; [done|]. simpl. lia.
Qed.

Lemma recent_change_last n l :
  recent_change_from_block n l = last (filter (fun x => x <= n) (rt_elems l)).
Proof.
  unfold recent_change_from_block. rewrite rt_rank_spec.
  destruct (sorted_filter_prefix (rt_elems l) n (rt_elems_sorted l)) as (l2 & Heq & _).
  set (f := filter (fun x => x <= n) (rt_elems l)) in *.
  destruct f as [|x f _] using rev_ind; [done|].
  rewrite length_app. simpl. destruct (Z.eqb_spec (Z.of_nat (length f + 1)) 0); [lia|].
  rewrite rt_select_spec by lia. rewrite last_snoc.
  replace (Z.to_nat (Z.of_nat (length f + 1) - 1)) with (length f) by lia.
  rewrite Heq, <- app_assoc. simpl. by rewrite list_lookup_middle.
Qed.

Lemma recent_change_max n l :
  match recent_change_from_block n l with
  | Some b => b ∈ rt_elems l /\ b <= n /\ forall b', b' ∈ rt_elems l -> b' <= n -> b' <= b
  | None => forall b, b ∈ rt_elems l -> n < b
  end.
Proof.
  rewrite recent_change_last. pose proof (rt_elems_sorted l) as Hs.
  assert (StronglySorted Z.lt (filter (fun x => x <= n) (rt_elems l))) as Hf.
  { by apply sorted_filter. }
  destruct (last (filter _ _)) as [b|] eqn:Hl.
  - apply last_Some in Hl as [f Hl]. assert (b ∈ filter (fun x => x <= n) (rt_elems l)) as Hin.
    { rewrite Hl. set_solver. }
    apply list_elem_of_filter in Hin as [Hle Hin]. split_and!; [done..|].
    intros b' Hb' Hle'. assert (b' ∈ f ++ [b]) as Hbf.
    { rewrite <- Hl. by apply list_elem_of_filter. }
    rewrite Hl in Hf. apply StronglySorted_app in Hf as (Hcross & _ & _).
    apply elem_of_app in Hbf as [Hbf| ->%list_elem_of_singleton]; [|lia].
    apply Z.lt_le_incl, Hcross; set_solver.
  - apply last_None in Hl. intros b Hb. destruct (decide (b <= n)); [|lia].
    assert (b ∈ filter (fun x => x <= n) (rt_elems l)) as Hin by (by apply list_elem_of_filter).
    rewrite Hl in Hin. by apply not_elem_of_nil in Hin.
Qed.

(** The most recent change at or before a block is found by rank and
    select: it is the greatest block number of the list that is not above the
    given one, and there is none exactly when every change is later. *)
Theorem recent_change_spec n l :
  match recent_change_from_block n l with
  | Some b => b ∈ rt_elems l /\ b <= n /\ forall b', b' ∈ rt_elems l -> b' <= n -> b' <= b
  | None => forall b, b ∈ rt_elems l -> n < b
  end.
Proof. exact (recent_change_max n l). Qed.
End State.
