(* ===== verification/ChangeLog.v ===== *)
(** * Change logs: the abstract history behind the change tables

    The database keeps a key's history in two tables: the blocks in which it
    changed, and per block the new values, ordered by key.  The abstraction is a
    log, one association list per block.  [represents] relates the two and
    [represents_seek] is the refinement: looking the latest change up in the
    tables gives the value the log holds. *)

From Stdlib Require Import ZArith Lia.
From stdpp Require Import base numbers list sets sorting gmap.
From S2P Require Import Prelude Felt Codec Mdbx.

Section Assoc.
Context {K V : Type} `{EqDecision K}.

Fixpoint assoc (k : K) (l : list (K * V)) : option V :=
  match l with
  | [] => None
  | (k', v) :: l => if decide (k = k') then Some v else assoc k l
  end.

Lemma assoc_elem k v l : NoDup (map fst l) -> assoc k l = Some v <-> (k, v) ∈ l.
Proof.
  induction l as [|[k' v'] l IH]; simpl; intros Hnd; [set_solver|].
  apply NoDup_cons in Hnd as [Hk Hnd]. case_decide as Hkk; subst.
  - split; [intros [= ->]; by left|]. intros [[= ->]|Hin]%elem_of_cons; [done|].
    exfalso. apply Hk. apply list_elem_of_fmap. by exists (k', v).
  - rewrite IH by done. set_solver.
Qed.

Lemma assoc_None k l : assoc k l = None <-> ~ k ∈ map fst l.
Proof.
  induction l as [|[k' v'] l IH]; simpl; [set_solver|]. case_decide; [set_solver|].
  rewrite IH. set_solver.
Qed.

Lemma assoc_dom k l : k ∈ map fst l -> exists v, assoc k l = Some v.
Proof.
  destruct (assoc k l) as [v|] eqn:H; [by eauto|]. by apply assoc_None in H.
Qed.
End Assoc.

Lemma assoc_map_to_list {K V} `{Countable K} k (m : gmap K V) : assoc k (map_to_list m) = m !! k.
Proof.
  assert (Hnd : NoDup (map fst (map_to_list m))) by apply NoDup_fst_map_to_list.
  destruct (m !! k) as [v|] eqn:Hk.
  - apply assoc_elem; [done|]. by apply elem_of_map_to_list.
  - apply assoc_None. intros ([k' v] & -> & Hin)%list_elem_of_fmap. apply elem_of_map_to_list in Hin.
    simpl in Hk. congruence.
Qed.

Lemma assoc_map_values {K A B} `{EqDecision K} (f : K -> A -> B) l k :
  assoc k (map (fun '(a, x) => (a, f a x)) l) = f k <$> assoc k l.
Proof. induction l as [|[a x] l IH]; simpl; [done|]. case_decide; by subst. Qed.

Section Log.
Context {K V : Type} `{EqDecision K}.
Abbreviation Log := (list (Z * list (K * V))).
Implicit Types (log : Log).

(** The value of [k] after block [n]. *)
Definition value_at log (n : Z) (k : K) : option V :=
  fold_left (fun acc e =>
    if decide (e.1 <= n) then
      match assoc k e.2 with Some v => Some v | None => acc end
    else acc) log None.

Definition wf_log log : Prop :=
  StronglySorted (fun e e' => e.1 < e'.1) log /\ Forall (fun e => NoDup (map fst e.2)) log.

Lemma wf_log_snoc log b l :
  wf_log (log ++ [(b, l)]) ->
  wf_log log /\ NoDup (map fst l) /\ forall e, e ∈ log -> e.1 < b.
Proof.
  intros [Hs Hn]. apply StronglySorted_app in Hs as (Hc & Hs & _).
  apply Forall_app in Hn as [Hn Hl]. apply Forall_cons in Hl as [Hl _].
  split; [done|]. split; [done|]. intros e He. by apply (Hc e (b, l) He); left.
Qed.

Lemma value_at_snoc log b l n k :
  value_at (log ++ [(b, l)]) n k =
    if decide (b <= n) then
      match assoc k l with Some v => Some v | None => value_at log n k end
    else value_at log n k.
Proof. unfold value_at. by rewrite fold_left_app. Qed.

Lemma value_at_None log n k :
  (forall e, e ∈ log -> e.1 <= n -> ~ k ∈ map fst e.2) -> value_at log n k = None.
Proof.
  induction log as [|[b l] log IH] using rev_ind; intros H; [done|].
  rewrite value_at_snoc. rewrite IH by set_solver. case_decide as Hb; [|done].
  destruct (assoc k l) as [v|] eqn:Ha; [|done]. exfalso. apply (H (b, l)); [set_solver|done|].
  destruct (decide (k ∈ map fst l)) as [|Hk]; [done|]. apply assoc_None in Hk. simpl in *. congruence.
Qed.

(** The last block that changed [k] decides. *)
Lemma value_at_Some log n k v b l :
  wf_log log -> (b, l) ∈ log -> b <= n -> assoc k l = Some v ->
  (forall e, e ∈ log -> e.1 <= n -> k ∈ map fst e.2 -> e.1 <= b) ->
  value_at log n k = Some v.
Proof.
  induction log as [|[b' l'] log IH] using rev_ind; intros Hwf Hin Hb Ha Hmax;
    [by apply not_elem_of_nil in Hin|].
  apply wf_log_snoc in Hwf as (Hwf & Hnd & Hlt). rewrite value_at_snoc.
  apply elem_of_app in Hin as [Hin|[= -> ->]%list_elem_of_singleton].
  2: { rewrite decide_True by done. by rewrite Ha. }
  specialize (Hlt _ Hin) as Hlt'. simpl in Hlt'.
  assert (value_at log n k = Some v) as IH' by (apply IH; set_solver).
  case_decide as Hb'; [|done].
  destruct (assoc k l') as [v'|] eqn:Ha'; [|done].
  assert (b' <= b); [|lia]. apply (Hmax (b', l')); [set_solver|done|].
  destruct (decide (k ∈ map fst l')) as [|Hk]; [done|]. apply assoc_None in Hk. simpl in *. congruence.
Qed.

(** ** The tables *)
Section Tables.
Context {E : Type} `{DS : DupSort E K} (val : E -> V) (valid : K -> Prop).
Hypothesis enc_squeezes : squeezes valid dv_encode.

Record represents (idx : K -> list Z) (hist : Z -> list E) log : Prop := {
  rep_idx k b : b ∈ idx k <-> exists l, (b, l) ∈ log /\ k ∈ map fst l;
  rep_sorted b : dup_sorted (hist b);
  rep_hist b e : e ∈ hist b -> exists l, (b, l) ∈ log /\ assoc (dv_sub e) l = Some (val e);
  rep_complete b l k v : (b, l) ∈ log -> assoc k l = Some v ->
    exists e, e ∈ hist b /\ dv_sub e = k /\ val e = v;
}.

Definition valid_log log : Prop := Forall (fun e => Forall valid (map fst e.2)) log.

Lemma wf_log_unique log b l l' : wf_log log -> (b, l) ∈ log -> (b, l') ∈ log -> l = l'.
Proof.
  induction log as [|[b0 l0] log IH] using rev_ind; intros Hwf H1 H2;
    [by apply not_elem_of_nil in H1|].
  apply wf_log_snoc in Hwf as (Hwf & _ & Hlt).
  apply elem_of_app in H1 as [H1|[= -> ->]%list_elem_of_singleton];
    apply elem_of_app in H2 as [H2|H2%list_elem_of_singleton]; simplify_eq; try done.
  - by apply IH.
  - specialize (Hlt _ H1). simpl in Hlt. lia.
  - specialize (Hlt _ H2). simpl in Hlt. lia.
Qed.

Lemma hist_valid idx hist log b :
  represents idx hist log -> valid_log log -> Forall (fun e => valid (dv_sub e)) (hist b).
Proof.
  intros Hr Hv. apply Forall_forall. intros e He.
  destruct (rep_hist _ _ _ Hr b e He) as (l & Hl & Ha). unfold valid_log in Hv.
  rewrite Forall_forall in Hv. specialize (Hv _ Hl). rewrite Forall_forall in Hv. apply Hv.
  destruct (decide (dv_sub e ∈ map fst l)) as [|Hk]; [done|].
  apply assoc_None in Hk. simpl in *. congruence.
Qed.

(** Reading the tables reads the log. *)
Lemma represents_seek idx hist log n k (recent : option Z) :
  wf_log log -> valid_log log -> represents idx hist log ->
  match recent with
  | Some b => b ∈ idx k /\ b <= n /\ forall b', b' ∈ idx k -> b' <= n -> b' <= b
  | None => forall b, b ∈ idx k -> n < b
  end ->
  match recent with
  | Some b => exists e, dup_seek k (hist b) = Some e /\ dv_sub e = k /\
                        value_at log n k = Some (val e)
  | None => value_at log n k = None
  end.
Proof.
  intros Hwf Hval Hr Hrec. destruct recent as [b|].
  - destruct Hrec as (Hb & Hle & Hmax). apply (rep_idx _ _ _ Hr) in Hb as (l & Hl & Hk).
    destruct (assoc_dom k l Hk) as [v Hv].
    destruct (rep_complete _ _ _ Hr b l k v Hl Hv) as (e & He & <- & Hev).
    destruct (dup_seek_hit valid enc_squeezes (hist b) e) as (e' & Hs & He' & Hsub);
      [apply (rep_sorted _ _ _ Hr)|by eapply hist_valid|done|].
    exists e'. split; [done|]. split; [done|].
    destruct (rep_hist _ _ _ Hr b e' He') as (l' & Hl' & Ha).
    rewrite Hsub in Ha. assert (l' = l) as -> by (by eapply wf_log_unique).
    eapply value_at_Some; eauto. intros e0 He0 Hn Hk0. apply Hmax; [|done].
    apply (rep_idx _ _ _ Hr). exists e0.2. by destruct e0.
  - apply value_at_None. intros e He Hn Hk. assert (n < e.1); [|lia].
    apply Hrec, (rep_idx _ _ _ Hr). exists e.2. by destruct e.
Qed.

(** ** Adding a block *)
Variable mk : K -> V -> E.
Hypothesis sub_mk : forall k v, dv_sub (mk k v) = k.
Hypothesis val_mk : forall k v, val (mk k v) = v.

Definition put_all (l : list (K * V)) (h : list E) : list E :=
  fold_left (fun h e => dup_insert (mk e.1 e.2) h) l h.

Lemma put_all_sorted l h : dup_sorted h -> dup_sorted (put_all l h).
Proof.
  revert h. induction l as [|e l IH]; intros h Hh; [done|]. simpl. by apply IH, dup_insert_sorted.
Qed.

(** Starting from an empty row, exactly the block's entries are stored. *)
Lemma elem_of_put_all l h e :
  NoDup (map fst l) -> Forall valid (map fst l) -> Forall (fun e => valid (dv_sub e)) h ->
  (forall e, e ∈ h -> ~ dv_sub e ∈ map fst l) ->
  e ∈ put_all l h <-> e ∈ h \/ exists k v, (k, v) ∈ l /\ e = mk k v.
Proof.
  revert h. induction l as [|[k v] l IH]; simpl; intros h Hnd Hv Hh Hdis; [set_solver|].
  apply NoDup_cons in Hnd as [Hk Hnd]. apply Forall_cons in Hv as [Hvk Hv].
  assert (mk k v ∈ dup_insert (mk k v) h) as Hnew.
  { apply elem_of_dup_insert_new. intros w Hw Heq. apply (Hdis w Hw).
    rewrite Forall_forall in Hh.
    rewrite (dv_bytes_sub valid enc_squeezes w (mk k v)); [|by apply Hh|by rewrite sub_mk|done].
    rewrite sub_mk. by left. }
  assert (forall w, w ∈ dup_insert (mk k v) h <-> w = mk k v \/ w ∈ h) as Hins.
  { intros w. split; [apply elem_of_dup_insert|]. intros [->|Hw]; [done|].
    by apply elem_of_dup_insert_old. }
  rewrite IH; try done.
  - rewrite Hins. split.
    + intros [[->|He]|(k' & v' & Hin & ->)]; [right|by left|right]; eexists _, _;
        (split; [|done]); set_solver.
    + intros [He|(k' & v' & [[= -> ->]|Hin]%elem_of_cons & ->)]; [by auto..|]. right. eauto.
  - apply Forall_forall. intros w Hw. apply Hins in Hw as [->|Hw]; [by rewrite sub_mk|].
    rewrite Forall_forall in Hh. by apply Hh.
  - intros w [->|Hw]%Hins; [by rewrite sub_mk|]. specialize (Hdis w Hw). set_solver.
Qed.

Lemma represents_empty : represents (fun _ => []) (fun _ => []) [].
Proof. split; [set_solver|constructor|set_solver|set_solver]. Qed.

Lemma represents_snoc idx hist log b l idx' hist' :
  wf_log (log ++ [(b, l)]) -> valid_log (log ++ [(b, l)]) -> represents idx hist log ->
  (forall k x, x ∈ idx' k <-> x ∈ idx k \/ (x = b /\ k ∈ map fst l)) ->
  hist' b = put_all l (hist b) -> (forall b', b' <> b -> hist' b' = hist b') ->
  represents idx' hist' (log ++ [(b, l)]).
Proof.
  intros Hwf Hval Hr Hidx Hb Hne. apply wf_log_snoc in Hwf as (Hwf & Hnd & Hlt).
  apply Forall_app in Hval as [Hval Hl]. apply Forall_cons in Hl as [Hl _]. simpl in Hl.
  assert (hist b = []) as Hnil.
  { destruct (hist b) as [|e h] eqn:He; [done|]. exfalso.
    destruct (rep_hist _ _ _ Hr b e) as (l0 & Hl0 & _); [rewrite He; by left|].
    specialize (Hlt _ Hl0). simpl in Hlt. lia. }
  assert (forall e, e ∈ hist' b <-> exists k v, (k, v) ∈ l /\ e = mk k v) as Hin.
  { intros e. rewrite Hb, Hnil, elem_of_put_all; [set_solver|done|done|constructor|set_solver]. }
  split.
  - intros k x. rewrite Hidx, (rep_idx _ _ _ Hr). split.
    + intros [(l0 & Hl0 & Hk)|[-> Hk]]; [exists l0|exists l]; set_solver.
    + intros (l0 & [Hl0|[= -> ->]%list_elem_of_singleton]%elem_of_app & Hk); eauto.
  - intros b'. destruct (decide (b' = b)) as [->|Hb'].
    + rewrite Hb. apply put_all_sorted, (rep_sorted _ _ _ Hr).
    + rewrite Hne by done. apply (rep_sorted _ _ _ Hr).
  - intros b' e He. destruct (decide (b' = b)) as [->|Hb'].
    + apply Hin in He as (k & v & Hkv & ->). exists l. split; [set_solver|].
      rewrite sub_mk, val_mk. by apply assoc_elem.
    + rewrite Hne in He by done. destruct (rep_hist _ _ _ Hr b' e He) as (l0 & ? & ?).
      exists l0. split; [set_solver|done].
  - intros b' l0 k v [Hl0|[= -> ->]%list_elem_of_singleton]%elem_of_app Ha.
    + rewrite Hne by (specialize (Hlt _ Hl0); simpl in Hlt; lia). by eapply (rep_complete _ _ _ Hr).
    + exists (mk k v). rewrite sub_mk, val_mk. split; [|done]. apply Hin.
      exists k, v. split; [|done]. by apply assoc_elem.
Qed.
End Tables.
End Log.
