(* ===== verification/DbHistory.v ===== *)
(** * The state providers refine the chain's history

    A chain is the sequence of insertions that built the database.  Its abstract
    state is read off its logs: the nonces, class hashes and storage values each
    block wrote.  The theorems say that the provider of the state at a block, and
    the provider of the latest state, answer exactly what the logs hold. *)

From Stdlib Require Import ZArith Lia.
From stdpp Require Import base numbers list gmap sets sorting.
From S2P Require Import Prelude Felt Tx Version Block Codec Versioned Mdbx DbProvider DbState ChangeLog.

Section History.
Context `{MD : Mdbx} `{RT : RoaringTreemap} `{FP : FeltPostcard} {C R X : Type}.

(** One call of [insert_block_with_states_and_receipts]. *)
Record Insertion := mkInsertion {
  ins_block : SealedBlockWithStatus;
  ins_states : StateUpdatesWithClasses C;
  ins_receipts : list R;
  ins_executions : list X;
}.
Definition ins_number (i : Insertion) : Z := number (sb_header (sbs_block (ins_block i))).
Definition ins_updates (i : Insertion) : StateUpdates := state_updates (ins_states i).

Definition insert_one (db : Db C R X) (i : Insertion) : Db C R X :=
  insert_block_with_states_and_receipts (ins_block i) (ins_states i) (ins_receipts i)
    (ins_executions i) db.
Definition db_of (chain : list Insertion) : Db C R X := fold_left insert_one chain Db_empty.

(** ** The logs *)
Definition nonce_log (chain : list Insertion) : list (Z * list (Z * Z)) :=
  map (fun i => (ins_number i, nonce_updates (ins_updates i))) chain.
Definition class_log (chain : list Insertion) : list (Z * list (Z * Z)) :=
  map (fun i => (ins_number i, deployed_contracts (ins_updates i))) chain.

Definition storage_entries (u : list (Z * list (Z * Z))) : list (ContractStorageKey * Z) :=
  flat_map (fun a => map (fun e => ({| csk_contract_address := a.1; csk_key := e.1 |}, e.2)) a.2) u.
Definition storage_log (chain : list Insertion) : list (Z * list (ContractStorageKey * Z)) :=
  map (fun i => (ins_number i, storage_entries (storage_updates (ins_updates i)))) chain.

(** The maps of an update have distinct keys, and addresses and keys are felts. *)
Definition wf_updates (s : StateUpdates) : Prop :=
  NoDup (map fst (nonce_updates s)) /\ Forall is_felt (map fst (nonce_updates s)) /\
  NoDup (map fst (deployed_contracts s)) /\ Forall is_felt (map fst (deployed_contracts s)) /\
  NoDup (map fst (storage_entries (storage_updates s))) /\
  Forall wf_storage_key (map fst (storage_entries (storage_updates s))).

(** Blocks are inserted in increasing order of number. *)
Definition wf_chain (chain : list Insertion) : Prop :=
  StronglySorted (fun i j => ins_number i < ins_number j) chain /\
  Forall (fun i => wf_updates (ins_updates i)) chain.

Lemma wf_chain_snoc chain i : wf_chain (chain ++ [i]) -> wf_chain chain.
Proof.
  intros [Hs Hf]. apply StronglySorted_app in Hs as (_ & Hs & _).
  apply Forall_app in Hf as [Hf _]. done.
Qed.

Lemma sorted_map_fst {A B} (num : A -> Z) (f : A -> B) l :
  StronglySorted (fun a b => num a < num b) l ->
  StronglySorted (fun e e' : Z * B => e.1 < e'.1) (map (fun a => (num a, f a)) l).
Proof.
  induction 1 as [|a l Hs IH Hall]; [constructor|]. constructor; [done|].
  apply Forall_map. exact Hall.
Qed.

Lemma wf_logs chain :
  wf_chain chain ->
  wf_log (nonce_log chain) /\ valid_log is_felt (nonce_log chain) /\
  wf_log (class_log chain) /\ valid_log is_felt (class_log chain) /\
  wf_log (storage_log chain) /\ valid_log wf_storage_key (storage_log chain).
Proof.
  intros [Hs Hf]. repeat split; try (by apply sorted_map_fst);
    apply Forall_map; (eapply Forall_impl; [exact Hf|]);
    intros i (? & ? & ? & ? & ? & ?); done.
Qed.

Lemma db_of_snoc chain i : db_of (chain ++ [i]) = insert_one (db_of chain) i.
Proof. unfold db_of. by rewrite fold_left_app. Qed.

Lemma encode_felt_length k : length (encode_felt k) = 32%nat.
Proof. apply be_bytes_length. Qed.
Lemma encode_felt_inj k k' : is_felt k -> is_felt k' -> encode_felt k = encode_felt k' -> k = k'.
Proof. intros Hk Hk'. apply be_bytes_inj; by apply is_felt_bytes. Qed.
Lemma encode_storage_key_length k : length (encode_storage_key k) = 64%nat.
Proof. unfold encode_storage_key. by rewrite length_app, !encode_felt_length. Qed.
Lemma encode_storage_key_inj k k' :
  wf_storage_key k -> wf_storage_key k' -> encode_storage_key k = encode_storage_key k' -> k = k'.
Proof.
  intros [Ha Hk] [Ha' Hk'] Heq. apply app_inj_1 in Heq as [H1 H2]; [|by rewrite !encode_felt_length].
  destruct k, k'; simpl in *. f_equal; by apply encode_felt_inj.
Qed.
Lemma felt_squeezes : squeezes is_felt encode_felt.
Proof. exact (fixed_squeezes _ _ _ encode_felt_length encode_felt_inj). Qed.
Lemma storage_key_squeezes : squeezes wf_storage_key encode_storage_key.
Proof. exact (fixed_squeezes _ _ _ encode_storage_key_length encode_storage_key_inj). Qed.

(** ** Contract tables *)
Definition nonce_idx (t : ContractTables) (a : Z) : list Z :=
  match t_get (ContractInfoChangeSet t) a with
  | Some cs => rt_elems (nonce_change_list cs)
  | None => []
  end.
Definition class_idx (t : ContractTables) (a : Z) : list Z :=
  match t_get (ContractInfoChangeSet t) a with
  | Some cs => rt_elems (class_change_list cs)
  | None => []
  end.

Lemma elem_of_block_list_from b x : x ∈ rt_elems (block_list_from b) <-> x = b.
Proof. unfold block_list_from. rewrite rt_elems_insert, rt_elems_empty. set_solver. Qed.

Definition mk_nonce (a n : Z) : ContractNonceChange :=
  {| cnc_contract_address := a; cnc_nonce := n |}.
Definition mk_class (a h : Z) : ContractClassChange :=
  {| ccc_contract_address := a; ccc_class_hash := h |}.

Lemma put_nonces b l (t : ContractTables) :
  let t' := fold_left (put_nonce b) l t in
  (forall a x, x ∈ nonce_idx t' a <-> x ∈ nonce_idx t a \/ (x = b /\ a ∈ map fst l)) /\
  (forall a, class_idx t' a = class_idx t a) /\
  d_vals (NonceChangeHistory t') b = put_all mk_nonce l (d_vals (NonceChangeHistory t) b) /\
  (forall b', b' <> b -> d_vals (NonceChangeHistory t') b' = d_vals (NonceChangeHistory t) b') /\
  ClassChangeHistory t' = ClassChangeHistory t.
Proof.
  revert t. induction l as [|[a n] l IH]; intros t; simpl; [repeat split; set_solver|].
  destruct (IH (put_nonce b t (a, n))) as (H1 & H2 & H3 & H4 & H5). simpl in *.
  split_and!.
  - intros a' x. rewrite H1. unfold nonce_idx at 1. simpl. rewrite t_get_put.
    case_decide as Ha; [subst|unfold nonce_idx; set_solver]. unfold nonce_idx.
    destruct (t_get (ContractInfoChangeSet t) a') as [cs|]; simpl.
    + rewrite rt_elems_insert. set_solver.
    + rewrite elem_of_block_list_from. set_solver.
  - intros a'. rewrite H2. unfold class_idx. simpl. rewrite t_get_put. case_decide; [subst|done].
    destruct (t_get (ContractInfoChangeSet t) a'); [done|]. apply rt_elems_empty.
  - rewrite H3, d_vals_put, decide_True by done. done.
  - intros b' Hb. rewrite H4, d_vals_put, decide_False by done. done.
  - done.
Qed.

Lemma put_deployeds b l (t : ContractTables) :
  let t' := fold_left (put_deployed b) l t in
  (forall a x, x ∈ class_idx t' a <-> x ∈ class_idx t a \/ (x = b /\ a ∈ map fst l)) /\
  (forall a, nonce_idx t' a = nonce_idx t a) /\
  d_vals (ClassChangeHistory t') b = put_all mk_class l (d_vals (ClassChangeHistory t) b) /\
  (forall b', b' <> b -> d_vals (ClassChangeHistory t') b' = d_vals (ClassChangeHistory t) b') /\
  NonceChangeHistory t' = NonceChangeHistory t.
Proof.
  revert t. induction l as [|[a h] l IH]; intros t; simpl; [repeat split; set_solver|].
  destruct (IH (put_deployed b t (a, h))) as (H1 & H2 & H3 & H4 & H5). simpl in *.
  split_and!.
  - intros a' x. rewrite H1. unfold class_idx at 1. simpl. rewrite t_get_put.
    case_decide as Ha; [subst|unfold class_idx; set_solver]. unfold class_idx.
    destruct (t_get (ContractInfoChangeSet t) a') as [cs|]; simpl.
    + rewrite rt_elems_insert. set_solver.
    + rewrite elem_of_block_list_from. set_solver.
  - intros a'. rewrite H2. unfold nonce_idx. simpl. rewrite t_get_put. case_decide; [subst|done].
    destruct (t_get (ContractInfoChangeSet t) a'); [done|]. apply rt_elems_empty.
  - rewrite H3, d_vals_put, decide_True by done. done.
  - intros b' Hb. rewrite H4, d_vals_put, decide_False by done. done.
  - done.
Qed.

Abbreviation contracts_of chain := (db_contracts (db_of chain)).

Lemma contracts_represent chain :
  wf_chain chain ->
  represents cnc_nonce (nonce_idx (contracts_of chain))
    (d_vals (NonceChangeHistory (contracts_of chain))) (nonce_log chain) /\
  represents ccc_class_hash (class_idx (contracts_of chain))
    (d_vals (ClassChangeHistory (contracts_of chain))) (class_log chain).
Proof.
  induction chain as [|i chain IH] using rev_ind; intros Hwf.
  - split; split; simpl; intros; unfold nonce_idx, class_idx in *; simpl in *;
      rewrite ?t_get_empty, ?d_vals_empty in *; try constructor; set_solver.
  - pose proof (wf_logs _ Hwf) as (Hn & Hnv & Hc & Hcv & _).
    destruct (IH (wf_chain_snoc _ _ Hwf)) as [IHn IHc]. rewrite db_of_snoc.
    unfold nonce_log, class_log in *. rewrite !map_app in *. simpl in *.
    unfold insert_contracts.
    set (t1 := fold_left (put_deployed (ins_number i)) (deployed_contracts (ins_updates i))
                 (contracts_of chain)).
    destruct (put_deployeds (ins_number i) (deployed_contracts (ins_updates i))
                (contracts_of chain)) as (D1 & D2 & D3 & D4 & D5).
    destruct (put_nonces (ins_number i) (nonce_updates (ins_updates i)) t1)
      as (N1 & N2 & N3 & N4 & N5).
    fold t1 in D1, D2, D3, D4, D5. unfold ins_number, ins_updates in *. split.
    + eapply (represents_snoc (DS := NonceChange_DupSort) cnc_nonce is_felt felt_squeezes
                mk_nonce);
        [done|done|exact Hn|exact Hnv|exact IHn|..].
      * intros a x. etransitivity; [apply N1|]. by rewrite D2.
      * etransitivity; [apply N3|]. by rewrite D5.
      * intros b' Hb. etransitivity; [by apply N4|]. by rewrite D5.
    + eapply (represents_snoc (DS := ClassChange_DupSort) ccc_class_hash is_felt felt_squeezes
                mk_class);
        [done|done|exact Hc|exact Hcv|exact IHc|..].
      * intros a x. etransitivity; [|apply D1]. by rewrite <- N2.
      * etransitivity; [|apply D3]. by rewrite <- N5.
      * intros b' Hb. etransitivity; [|by apply D4]. by rewrite <- N5.
Qed.

(** ** Storage tables *)
Definition storage_idx (t : StorageTables) (k : ContractStorageKey) : list Z :=
  match t_get (StorageChangeSet t) k with Some l => rt_elems l | None => [] end.
Definition mk_storage (k : ContractStorageKey) (v : Z) : ContractStorageEntry :=
  {| cse_key := k; cse_value := v |}.

(** The nested loop visits the flattened entries in order. *)
Definition put_entry (b : Z) (t : StorageTables) (e : ContractStorageKey * Z) : StorageTables :=
  put_storage b (csk_contract_address e.1) t (csk_key e.1, e.2).

Lemma insert_storage_flat b u t :
  insert_storage b u t = fold_left (put_entry b) (storage_entries u) t.
Proof.
  unfold insert_storage, storage_entries. revert t.
  induction u as [|[a l] u IH]; intros t; [done|]. simpl. rewrite fold_left_app, IH. f_equal.
  clear. revert t. induction l as [|[k v] l IH]; intros t; [done|]. simpl. apply IH.
Qed.

Lemma put_entries b l (t : StorageTables) :
  let t' := fold_left (put_entry b) l t in
  (forall k x, x ∈ storage_idx t' k <-> x ∈ storage_idx t k \/ (x = b /\ k ∈ map fst l)) /\
  d_vals (StorageChangeHistory t') b = put_all mk_storage l (d_vals (StorageChangeHistory t) b) /\
  (forall b', b' <> b -> d_vals (StorageChangeHistory t') b' = d_vals (StorageChangeHistory t) b').
Proof.
  revert t. induction l as [|[k v] l IH]; intros t; simpl; [repeat split; set_solver|].
  destruct (IH (put_entry b t (k, v))) as (H1 & H2 & H3). simpl in *. destruct k as [a k]. simpl in *.
  split_and!.
  - intros k' x. rewrite H1. unfold storage_idx at 1. simpl. rewrite t_get_put.
    case_decide as Ha; [subst|unfold storage_idx; set_solver]. unfold storage_idx.
    destruct (t_get (StorageChangeSet t) _) as [cs|]; simpl.
    + rewrite rt_elems_insert. set_solver.
    + rewrite elem_of_block_list_from. set_solver.
  - rewrite H2, d_vals_put, decide_True by done. done.
  - intros b' Hb. rewrite H3, d_vals_put, decide_False by done. done.
Qed.

Lemma storage_represents chain :
  wf_chain chain ->
  represents cse_value (storage_idx (db_storage (db_of chain)))
    (d_vals (StorageChangeHistory (db_storage (db_of chain)))) (storage_log chain).
Proof.
  induction chain as [|i chain IH] using rev_ind; intros Hwf.
  - split; simpl; intros; unfold storage_idx in *; simpl in *;
      rewrite ?t_get_empty, ?d_vals_empty in *; try constructor; set_solver.
  - pose proof (wf_logs _ Hwf) as (_ & _ & _ & _ & Hs & Hsv).
    specialize (IH (wf_chain_snoc _ _ Hwf)). rewrite db_of_snoc.
    unfold storage_log in *. rewrite map_app in *. simpl. rewrite insert_storage_flat.
    destruct (put_entries (ins_number i) (storage_entries (storage_updates (ins_updates i)))
                (db_storage (db_of chain))) as (S1 & S2 & S3).
    eapply (represents_snoc (DS := StorageChange_DupSort) cse_value wf_storage_key
              storage_key_squeezes mk_storage);
      [done|done|exact Hs|exact Hsv|exact IH|exact S1|exact S2|exact S3].
Qed.

(** ** Reading the state at a block *)

Lemma represents_recent {K V E} `{EqDecision K} `{DS : DupSort E K} (val : E -> V)
    (valid : K -> Prop) (idx : K -> list Z) (hist : Z -> list E) log (n : Z) (k : K)
    {A} (change : A -> rt) (o : option A) :
  squeezes valid dv_encode ->
  wf_log log -> valid_log valid log -> represents val idx hist log ->
  idx k = match o with Some a => rt_elems (change a) | None => [] end ->
  match o ≫= (fun a => recent_change_from_block n (change a)) with
  | Some b => exists e, dup_seek k (hist b) = Some e /\ dv_sub e = k /\
                        value_at log n k = Some (val e)
  | None => value_at log n k = None
  end.
Proof.
  intros Hsq Hwf Hv Hr Hidx.
  apply (represents_seek val valid Hsq idx hist); [done..|]. rewrite Hidx.
  destruct o as [a|]; simpl; [apply recent_change_max|set_solver].
Qed.

Section Reads.
Variable chain : list Insertion.
Hypothesis Hwf : wf_chain chain.

Lemma historical_nonce_value n a :
  historical_nonce (db_of chain) n a = Ok (value_at (nonce_log chain) n a).
Proof.
  pose proof (wf_logs _ Hwf) as (Hn & Hnv & _). destruct (contracts_represent _ Hwf) as [Rn _].
  pose proof (represents_recent (DS := NonceChange_DupSort) cnc_nonce is_felt _ _ _ n a
    nonce_change_list (t_get (ContractInfoChangeSet (contracts_of chain)) a)
    felt_squeezes Hn Hnv Rn eq_refl) as Hread.
  unfold historical_nonce. destruct (_ ≫= _) as [b|]; [|by rewrite Hread].
  destruct Hread as (e & -> & <- & ->). simpl. by rewrite decide_True.
Qed.

Lemma historical_class_hash_value n a :
  historical_class_hash_of_contract (db_of chain) n a = Ok (value_at (class_log chain) n a).
Proof.
  pose proof (wf_logs _ Hwf) as (_ & _ & Hc & Hcv & _).
  destruct (contracts_represent _ Hwf) as [_ Rc].
  pose proof (represents_recent (DS := ClassChange_DupSort) ccc_class_hash is_felt _ _ _ n a
    class_change_list (t_get (ContractInfoChangeSet (contracts_of chain)) a)
    felt_squeezes Hc Hcv Rc eq_refl) as Hread.
  unfold historical_class_hash_of_contract. destruct (_ ≫= _) as [b|]; [|by rewrite Hread].
  destruct Hread as (e & -> & <- & ->). simpl. by rewrite decide_True.
Qed.

Lemma historical_storage_value n a k :
  historical_storage (db_of chain) n a k
  = Ok (value_at (storage_log chain) n {| csk_contract_address := a; csk_key := k |}).
Proof.
  pose proof (wf_logs _ Hwf) as (_ & _ & _ & _ & Hs & Hsv).
  set (key := {| csk_contract_address := a; csk_key := k |}).
  pose proof (represents_recent (DS := StorageChange_DupSort) cse_value wf_storage_key _ _ _ n
    key id (t_get (StorageChangeSet (db_storage (db_of chain))) key)
    storage_key_squeezes Hs Hsv (storage_represents _ Hwf) eq_refl)
    as Hread.
  unfold historical_storage. fold key.
  change (fun a : rt => recent_change_from_block n (id a)) with (recent_change_from_block n) in Hread.
  destruct (_ ≫= _) as [b|]; [|by rewrite Hread].
  destruct Hread as (e & -> & Hk & ->). simpl in Hk. simpl. rewrite Hk. by rewrite decide_True.
Qed.
End Reads.

(** C2. The provider of the state at block [n] refines the chain's history: for
    every contract it answers the nonce, class hash and storage value written by
    the last block up to [n] that wrote one, nothing if there was none, and it
    never reports a missing change entry. *)
Theorem historical_state_refines chain n a k :
  wf_chain chain ->
  historical_nonce (db_of chain) n a = Ok (value_at (nonce_log chain) n a) /\
  historical_class_hash_of_contract (db_of chain) n a = Ok (value_at (class_log chain) n a) /\
  historical_storage (db_of chain) n a k
    = Ok (value_at (storage_log chain) n {| csk_contract_address := a; csk_key := k |}).
Proof.
  intros Hwf. auto using historical_nonce_value, historical_class_hash_value,
    historical_storage_value.
Qed.
End History.

(** ** A sample chain: block 0 deploys a contract and writes its storage, block 1
    runs its first transaction. *)
Definition sample_header (n : Z) : Header := {|
  parent_hash := n; number := n; state_diff_commitment := 0; transactions_commitment := 0;
  receipts_commitment := 0; events_commitment := 0; state_root := 0; transaction_count := 0;
  events_count := 0; state_diff_length := 0; timestamp := n; sequencer_address := 1;
  l1_gas_prices := GasPrice_MIN; l1_data_gas_prices := GasPrice_MIN;
  l2_gas_prices := GasPrice_MIN; l1_da_mode := Calldata;
  protocol_version := protocol_version Header_default |}.
Definition sample_tx (hash : Z) : TxWithHash := {|
  twh_hash := hash;
  twh_transaction := TxDeploy {| dep_contract_address := 5; dep_contract_address_salt := 0;
    dep_constructor_calldata := []; dep_class_hash := 9; dep_version := 0 |} |}.
Definition sample_insertion (n : Z) (hashes : list Z) (u : StateUpdates) : @Insertion unit Z Z := {|
  ins_block := {| sbs_block := {| sb_hash := 100 + n; sb_header := sample_header n;
                                  sb_body := map sample_tx hashes |};
                  sbs_status := AcceptedOnL2 |};
  ins_states := {| state_updates := u; classes := [] |};
  ins_receipts := map (Z.add 1000) hashes; ins_executions := map (Z.add 2000) hashes |}.
Definition sample_chain : list (@Insertion unit Z Z) :=
  [sample_insertion 0 [11; 12]
     {| nonce_updates := []; storage_updates := [(5, [(7, 70); (8, 80)])];
        deployed_contracts := [(5, 9)]; declared_classes := []; deprecated_declared_classes := [];
        replaced_classes := [] |};
   sample_insertion 1 [13]
     {| nonce_updates := [(5, 1)]; storage_updates := [(5, [(7, 71)])];
        deployed_contracts := []; declared_classes := []; deprecated_declared_classes := [];
        replaced_classes := [] |}].

Lemma sample_chain_wf : wf_chain sample_chain.
Proof.
  split; [by repeat constructor|].
  repeat constructor; set_solver || done.
Qed.

Lemma historical_state_refines_witness :
  historical_storage (db_of sample_chain) 0 5 7 = Ok (Some 70) /\
  historical_storage (db_of sample_chain) 1 5 7 = Ok (Some 71) /\
  historical_nonce (db_of sample_chain) 0 5 = Ok None.
Proof.
  destruct (historical_state_refines sample_chain 0 5 7 sample_chain_wf) as (Hn & _ & Hs).
  destruct (historical_state_refines sample_chain 1 5 7 sample_chain_wf) as (_ & _ & Hs').
  split_and!; [exact Hs|exact Hs'|exact Hn].
Defined.
