(* ===== verification/DbLatest.v ===== *)
(** * The latest state

    The tables of current values agree with the chain's logs: the latest state is
    the state after the last block, except that the nonce of a contract that was
    deployed and never used is zero in the latest state and absent from the state
    at a block. *)

From Stdlib Require Import ZArith Lia.
From stdpp Require Import base numbers list gmap sets sorting.
From S2P Require Import Prelude Felt Tx Version Block Codec Versioned Mdbx DbProvider DbState ChangeLog DbHistory.

(** The last value of [k], whatever the block. *)
Definition latest_of {K V} `{EqDecision K} (log : list (Z * list (K * V))) (k : K) : option V :=
  fold_left (fun acc e => match assoc k e.2 with Some v => Some v | None => acc end) log None.

Lemma latest_of_snoc {K V} `{EqDecision K} (log : list (Z * list (K * V))) b l k :
  latest_of (log ++ [(b, l)]) k
  = match assoc k l with Some v => Some v | None => latest_of log k end.
Proof. unfold latest_of. by rewrite fold_left_app. Qed.

Lemma value_at_latest {K V} `{EqDecision K} (log : list (Z * list (K * V))) n k :
  Forall (fun e => e.1 <= n) log -> value_at log n k = latest_of log k.
Proof.
  induction log as [|[b l] log IH] using rev_ind; [done|].
  rewrite Forall_app, Forall_singleton. intros [Hf Hb].
  rewrite value_at_snoc, latest_of_snoc, IH by done. simpl in Hb. by rewrite decide_True.
Qed.

(** ** One contract's storage row *)
Section Row.
Context `{FP : FeltPostcard}.
Implicit Types (l : list StorageEntry) (e : StorageEntry).

(** How [latest_storage] reads a row, how [upsert_storage] writes it. *)
Definition row_get l (k : Z) : option Z :=
  match dup_seek k l with
  | Some e => if decide (se_key e = k) then Some (se_value e) else None
  | None => None
  end.
Definition row_put e l : list StorageEntry :=
  dup_insert e
    match dup_seek (se_key e) l with
    | Some current => if decide (se_key current = se_key e) then dup_delete current l else l
    | None => l
    end.

Definition row_ok l : Prop :=
  dup_sorted l /\ Forall (fun e => is_felt (se_key e)) l /\
  forall e e', e ∈ l -> e' ∈ l -> se_key e = se_key e' -> e = e'.

Lemma row_seek l e :
  row_ok l -> e ∈ l -> dup_seek (se_key e) l = Some e.
Proof.
  intros (Hs & Hf & Hu) He.
  destruct (dup_seek_hit (DS := StorageEntry_DupSort) is_felt felt_squeezes l e Hs Hf He)
    as (v & Hd & Hv & Hk). simpl in *. rewrite Hd. f_equal. by apply Hu.
Qed.

Lemma row_get_elem l k v :
  row_ok l -> row_get l k = Some v <-> {| se_key := k; se_value := v |} ∈ l.
Proof.
  intros Hok. unfold row_get. split.
  - destruct (dup_seek k l) as [e|] eqn:Hd; [|done]. case_decide as Hk; [|done].
    intros [= <-]. apply find_some in Hd as [Hin%list_elem_of_In _]. subst k. by destruct e.
  - intros Hin. pose proof (row_seek _ _ Hok Hin) as Hseek. simpl in Hseek. rewrite Hseek.
    simpl. by rewrite decide_True.
Qed.

(** What is left of a row before the new entry goes in. *)
Definition row_clear (k : Z) l : list StorageEntry :=
  match dup_seek k l with
  | Some current => if decide (se_key current = k) then dup_delete current l else l
  | None => l
  end.

Lemma row_clear_spec k l :
  row_ok l ->
  dup_sorted (row_clear k l) /\ forall x, x ∈ row_clear k l <-> x ∈ l /\ se_key x <> k.
Proof.
  intros Hok. pose proof Hok as (Hs & Hf & Hu). unfold row_clear.
  assert ((forall x, x ∈ l -> se_key x <> k) ->
          dup_sorted l /\ forall x, x ∈ l <-> x ∈ l /\ se_key x <> k) as Hnone by naive_solver.
  destruct (dup_seek k l) as [c|] eqn:Hd.
  - case_decide as Hk.
    + assert (c ∈ l) as Hc by (by apply find_some in Hd as [Hin%list_elem_of_In _]).
      split; [by apply dup_delete_sorted|]. intros x. unfold dup_delete.
      rewrite list_elem_of_filter. rewrite Forall_forall in Hf. split; intros [H1 H2].
      * split; [done|]. intros Hx. apply H1. f_equal. apply Hu; [done..|]. congruence.
      * split; [|done]. intros Hb. apply H2. rewrite <- Hk.
        apply (dv_bytes_sub (DS := StorageEntry_DupSort) is_felt felt_squeezes); [by apply Hf..|done].
    + apply Hnone. intros x Hx <-. rewrite (row_seek l x Hok Hx) in Hd. by simplify_eq.
  - apply Hnone. intros x Hx <-. by rewrite (row_seek l x Hok Hx) in Hd.
Qed.

Lemma row_put_spec e l :
  row_ok l -> is_felt (se_key e) ->
  row_ok (row_put e l) /\
  forall k, row_get (row_put e l) k = if decide (k = se_key e) then Some (se_value e) else row_get l k.
Proof.
  intros Hok He. destruct (row_clear_spec (se_key e) l Hok) as [Hs' Hin'].
  change (row_put e l) with (dup_insert e (row_clear (se_key e) l)).
  set (c := row_clear (se_key e) l) in *.
  assert (forall x, x ∈ c -> is_felt (se_key x)) as Hfc.
  { intros x [Hx _]%Hin'. destruct Hok as (_ & Hf & _). rewrite Forall_forall in Hf. by apply Hf. }
  assert (forall x, x ∈ dup_insert e c <-> x = e \/ (x ∈ l /\ se_key x <> se_key e)) as Hin.
  { intros x. rewrite <- Hin'. split; [apply elem_of_dup_insert|].
    intros [->|Hx]; [|by apply elem_of_dup_insert_old]. apply elem_of_dup_insert_new.
    intros w Hw Hb. pose proof (proj1 (Hin' w) Hw) as [_ Hk]. apply Hk.
    apply (dv_bytes_sub (DS := StorageEntry_DupSort) is_felt felt_squeezes); [by apply Hfc|done..]. }
  assert (row_ok (dup_insert e c)) as Hok'.
  { split_and!.
    - by apply dup_insert_sorted.
    - apply Forall_forall. intros x [->|[Hx _]]%Hin; [done|].
      destruct Hok as (_ & Hf & _). rewrite Forall_forall in Hf. by apply Hf.
    - destruct Hok as (_ & _ & Hu).
      intros x y [->|[Hx Hxk]]%Hin [->|[Hy Hyk]]%Hin Hk; try done; try congruence. by apply Hu. }
  split; [done|]. intros k. apply option_eq. intros v. rewrite row_get_elem by done.
  rewrite Hin. case_decide as Hk; subst.
  - split; [intros [<-|[_ H]]; simpl in *; done|]. intros [= <-]. left. by destruct e.
  - rewrite row_get_elem by done. split; [intros [<-|[H _]]; done|]. intros H. by right.
Qed.
End Row.

Section Latest.
Context `{MD : Mdbx} `{RT : RoaringTreemap} `{FP : FeltPostcard} {C R X : Type}.
Abbreviation Ins := (@Insertion C R X).
Implicit Types (chain : list Ins).

Lemma upsert_storage_vals addr a e (t : dtbl StorageEntry) :
  d_vals (upsert_storage addr e t) a
  = if decide (addr = a) then row_put e (d_vals t addr) else d_vals t a.
Proof.
  unfold upsert_storage, row_put.
  destruct (dup_seek (se_key e) (d_vals t addr)) as [c|]; [case_decide as Hc|];
    rewrite d_vals_put; case_decide as Ha; subst; try done; rewrite d_vals_delete.
  - by rewrite decide_True.
  - by rewrite decide_False.
Qed.

(** Every row is in order, and the table holds [m]. *)
Definition holds (t : dtbl StorageEntry) (m : ContractStorageKey -> option Z) : Prop :=
  forall a, row_ok (d_vals t a) /\
    forall k, row_get (d_vals t a) k = m {| csk_contract_address := a; csk_key := k |}.

Lemma put_entry_holds b (t : StorageTables) m key v :
  holds (ContractStorage t) m -> wf_storage_key key ->
  holds (ContractStorage (put_entry b t (key, v)))
    (fun k => if decide (k = key) then Some v else m k).
Proof.
  intros Hh [_ Hk] a. simpl. rewrite upsert_storage_vals. destruct key as [addr key]. simpl in *.
  case_decide as Ha; subst.
  - destruct (Hh a) as [Hok Hm].
    destruct (row_put_spec {| se_key := key; se_value := v |} _ Hok Hk) as [Hok' Hget].
    split; [done|]. intros k. rewrite Hget, Hm. simpl.
    repeat case_decide; simplify_eq; done.
  - destruct (Hh a) as [Hok Hm]. split; [done|]. intros k. rewrite Hm.
    rewrite decide_False; [done|]. by intros [= -> ->].
Qed.

Lemma put_entries_holds b l (t : StorageTables) m :
  holds (ContractStorage t) m -> NoDup (map fst l) -> Forall wf_storage_key (map fst l) ->
  holds (ContractStorage (fold_left (put_entry b) l t))
    (fun k => match assoc k l with Some v => Some v | None => m k end).
Proof.
  revert t m. induction l as [|[key v] l IH]; intros t m Hh Hnd Hv; simpl; [done|].
  apply NoDup_cons in Hnd as [Hk Hnd]. apply Forall_cons in Hv as [Hvk Hv].
  pose proof (IH _ _ (put_entry_holds b t m key v Hh Hvk) Hnd Hv) as Hr.
  intros a. destruct (Hr a) as [Hok Hm]. split; [done|]. intros k. rewrite Hm.
  destruct (decide ({| csk_contract_address := a; csk_key := k |} = key)) as [<-|He]; [|done].
  by rewrite (proj2 (assoc_None _ l) Hk).
Qed.

Lemma storage_holds chain :
  wf_chain chain ->
  holds (ContractStorage (db_storage (db_of chain))) (latest_of (storage_log chain)).
Proof.
  induction chain as [|i chain IH] using rev_ind; intros Hwf.
  - intros a. simpl. rewrite d_vals_empty. split; [|done]. by repeat constructor; set_solver.
  - pose proof (proj2 Hwf) as Hf. apply Forall_app in Hf as [_ Hf].
    apply Forall_singleton in Hf as (_ & _ & _ & _ & Hnd & Hv).
    specialize (IH (wf_chain_snoc _ _ Hwf)). rewrite db_of_snoc. simpl.
    rewrite insert_storage_flat. intros a.
    destruct (put_entries_holds (ins_number i) _ (db_storage (db_of chain)) _ IH Hnd Hv a)
      as [Hok Hm]. split; [exact Hok|]. intros k. etransitivity; [apply Hm|].
    unfold storage_log. rewrite map_app. simpl. by rewrite latest_of_snoc.
Qed.

(** ** Contract infos *)
Definition info_of (nonce class : option Z) : option GenericContractInfo :=
  match nonce, class with
  | None, None => None
  | _, _ => Some {| gci_nonce := default 0 nonce; gci_class_hash := default 0 class |}
  end.

Lemma put_nonces_info b l (t : ContractTables) a n c :
  NoDup (map fst l) -> t_get (ContractInfo t) a = info_of n c ->
  t_get (ContractInfo (fold_left (put_nonce b) l t)) a
  = info_of (match assoc a l with Some v => Some v | None => n end) c.
Proof.
  revert t n. induction l as [|[a' v] l IH]; intros t n Hnd Hi; [done|]. simpl.
  apply NoDup_cons in Hnd as [Ha Hnd]. case_decide as Haa; subst.
  - apply assoc_None in Ha. simpl in Ha. rewrite (IH _ (Some v)); [by rewrite Ha|done|]. simpl.
    rewrite t_get_put, decide_True by done. rewrite Hi. by destruct n, c.
  - apply IH; [done|]. simpl. by rewrite t_get_put, decide_False by done.
Qed.

Lemma put_deployeds_info b l (t : ContractTables) a n c :
  NoDup (map fst l) -> t_get (ContractInfo t) a = info_of n c ->
  t_get (ContractInfo (fold_left (put_deployed b) l t)) a
  = info_of n (match assoc a l with Some v => Some v | None => c end).
Proof.
  revert t c. induction l as [|[a' v] l IH]; intros t c Hnd Hi; [done|]. simpl.
  apply NoDup_cons in Hnd as [Ha Hnd]. case_decide as Haa; subst.
  - apply assoc_None in Ha. simpl in Ha. rewrite (IH _ (Some v)); [by rewrite Ha|done|]. simpl.
    rewrite t_get_put, decide_True by done. rewrite Hi. by destruct n, c.
  - apply IH; [done|]. simpl. by rewrite t_get_put, decide_False by done.
Qed.

Lemma contract_infos chain a :
  wf_chain chain ->
  t_get (ContractInfo (db_contracts (db_of chain))) a
  = info_of (latest_of (nonce_log chain) a) (latest_of (class_log chain) a).
Proof.
  induction chain as [|i chain IH] using rev_ind; intros Hwf; [apply t_get_empty|].
  pose proof (proj2 Hwf) as Hf. apply Forall_app in Hf as [_ Hf].
  apply Forall_singleton in Hf as (Hn & _ & Hc & _).
  specialize (IH (wf_chain_snoc _ _ Hwf)). rewrite db_of_snoc.
  unfold nonce_log, class_log in *. rewrite !map_app. simpl. rewrite !latest_of_snoc.
  apply put_nonces_info; [exact Hn|]. by apply put_deployeds_info.
Qed.

Lemma latest_storage_value chain n a k :
  wf_chain chain -> Forall (fun i => ins_number i <= n) chain ->
  latest_storage (db_of chain) a k
    = Ok (value_at (storage_log chain) n {| csk_contract_address := a; csk_key := k |}).
Proof.
  intros Hwf Hn. rewrite value_at_latest by (apply Forall_map; exact Hn).
  destruct (storage_holds chain Hwf a) as [_ Hm]. rewrite <- Hm.
  unfold latest_storage, row_get. destruct (dup_seek _ _); [by case_decide|done].
Qed.

(** C3. The latest state is the state after the last block: storage values and
    class hashes agree with the chain's logs, and so do nonces, except that a
    contract that exists without ever having sent a transaction has nonce zero,
    and one that only has a nonce has class hash zero. *)
Theorem latest_state_refines chain n a k :
  wf_chain chain -> Forall (fun i => ins_number i <= n) chain ->
  let nonce := value_at (nonce_log chain) n a in
  let class := value_at (class_log chain) n a in
  latest_storage (db_of chain) a k
    = Ok (value_at (storage_log chain) n {| csk_contract_address := a; csk_key := k |}) /\
  latest_nonce (db_of chain) a = Ok (gci_nonce <$> info_of nonce class) /\
  latest_class_hash_of_contract (db_of chain) a = Ok (gci_class_hash <$> info_of nonce class).
Proof.
  intros Hwf Hn. split; [by apply latest_storage_value|].
  cbn zeta. rewrite !value_at_latest by (apply Forall_map; exact Hn).
  unfold latest_nonce, latest_class_hash_of_contract. by rewrite !contract_infos.
Qed.

(** The same contract is answered differently through the two views: one
    that was deployed and has no nonce update has nonce zero in the latest state
    and no nonce in the state at the very same block. *)
Theorem fresh_contract_nonce_differs chain n a class :
  wf_chain chain -> Forall (fun i => ins_number i <= n) chain ->
  value_at (class_log chain) n a = Some class -> value_at (nonce_log chain) n a = None ->
  latest_nonce (db_of chain) a = Ok (Some 0) /\
  historical_nonce (db_of chain) n a = Ok None.
Proof.
  intros Hwf Hn Hc Hno. split.
  - unfold latest_nonce. rewrite contract_infos by done.
    rewrite value_at_latest in Hc, Hno by (apply Forall_map; exact Hn). by rewrite Hc, Hno.
  - by rewrite historical_nonce_value, Hno.
Qed.
End Latest.

Lemma latest_state_refines_witness :
  latest_storage (db_of sample_chain) 5 7 = Ok (Some 71) /\
  latest_nonce (db_of sample_chain) 5 = Ok (Some 1) /\
  latest_class_hash_of_contract (db_of sample_chain) 5 = Ok (Some 9).
Proof.
  apply (latest_state_refines sample_chain 1 5 7 sample_chain_wf). by repeat constructor.
Defined.

Lemma fresh_contract_nonce_differs_witness :
  latest_nonce (db_of (take 1 sample_chain)) 5 = Ok (Some 0) /\
  historical_nonce (db_of (take 1 sample_chain)) 0 5 = Ok None.
Proof.
  apply (fresh_contract_nonce_differs (take 1 sample_chain) 0 5 9); [|by repeat constructor|done|done].
  destruct sample_chain_wf as [Hs Hf]. split.
  - by repeat constructor.
  - apply Forall_take. exact Hf.
Defined.
