(* ===== verification/DbBlocks.v ===== *)
(** * Stored blocks and transactions are read back

    The transaction tables are arrays: row [m] belongs to the [m]-th transaction
    of the chain, and a block's rows start where the table ended when the block
    was inserted. *)

From Stdlib Require Import ZArith Lia.
From stdpp Require Import base numbers list gmap sets sorting.
From S2P Require Import Prelude Felt Tx Version Block Codec Versioned Mdbx DbProvider DbState ChangeLog DbHistory DbLatest.

(** ** Array tables *)
Section Rows.
Context `{MD : Mdbx}.

(** The table holds exactly [l], at 0, 1, 2, ... *)
Definition rows {B} (t : tbl Z B) (l : list B) : Prop :=
  forall j, t_get t j = if decide (0 <= j) then l !! Z.to_nat j else None.

Lemma put_rows_proj {A T T'} (proj : T -> T') (put : Z -> A -> T -> T) put' n xs t :
  (forall k x t, proj (put k x t) = put' k x (proj t)) ->
  proj (put_rows put n xs t) = put_rows put' n xs (proj t).
Proof.
  intros H. revert n t. induction xs as [|x xs IH]; intros n t; simpl; [done|].
  by rewrite IH, H.
Qed.

Lemma put_rows_keep {A T T'} (proj : T -> T') (put : Z -> A -> T -> T) n xs t :
  (forall k x t, proj (put k x t) = proj t) -> proj (put_rows put n xs t) = proj t.
Proof.
  intros H. revert n t. induction xs as [|x xs IH]; intros n t; simpl; [done|].
  by rewrite IH, H.
Qed.

Lemma rows_empty {B} : rows (t_empty (V := B)) [].
Proof. intros j. rewrite t_get_empty. by case_decide. Qed.

Lemma rows_append {A B} (f : A -> B) t l xs :
  rows t l ->
  rows (put_rows (fun k x => t_put k (f x)) (Z.of_nat (length l)) xs t) (l ++ map f xs).
Proof.
  revert t l. induction xs as [|x xs IH]; intros t l Hl; simpl; [by rewrite app_nil_r|].
  replace (Z.of_nat (length l) + 1) with (Z.of_nat (length (l ++ [f x])))
    by (rewrite length_app; simpl; lia).
  replace (l ++ f x :: map f xs) with ((l ++ [f x]) ++ map f xs) by (by rewrite <- app_assoc).
  apply IH. intros j. rewrite t_get_put, Hl. case_decide as Hj; subst.
  - rewrite decide_True by lia. rewrite Nat2Z.id. by rewrite list_lookup_middle.
  - case_decide as H0; [|done]. destruct (decide (Z.to_nat j < length l)%nat).
    + by rewrite lookup_app_l.
    + rewrite lookup_app_r by lia. rewrite (lookup_ge_None_2 l) by lia.
      rewrite lookup_ge_None_2; [done|]. simpl. lia.
Qed.

Lemma rows_entries {A B} (f : A -> B) t l xs :
  rows t l -> t_entries t = Z.of_nat (length l) ->
  t_entries (put_rows (fun k x => t_put k (f x)) (Z.of_nat (length l)) xs t)
  = Z.of_nat (length (l ++ map f xs)).
Proof.
  revert t l. induction xs as [|x xs IH]; intros t l Hl He; simpl; [by rewrite app_nil_r|].
  pose proof (rows_append f t l [x] Hl) as Hl'. simpl in Hl'.
  replace (Z.of_nat (length l) + 1) with (Z.of_nat (length (l ++ [f x])))
    by (rewrite length_app; simpl; lia).
  rewrite IH; [by rewrite <- app_assoc|done|].
  rewrite t_entries_put, He, (Hl (Z.of_nat (length l))), decide_True, Nat2Z.id by lia.
  rewrite lookup_ge_None_2 by done. rewrite length_app. simpl. lia.
Qed.

Lemma rows_get {B} (t : tbl Z B) l n m :
  rows t l -> n = Z.of_nat m -> t_get t n = l !! m.
Proof. intros Hl ->. by rewrite Hl, decide_True, Nat2Z.id by lia. Qed.

(** The inverse table: every hash has its position. *)
Definition positions (t : tbl Z Z) (hs : list Z) : Prop :=
  forall m h, hs !! m = Some h -> t_get t h = Some (Z.of_nat m).

Lemma positions_append {A} (hash : A -> Z) t hs xs :
  positions t hs -> NoDup (hs ++ map hash xs) ->
  positions (put_rows (fun k x => t_put (hash x) k) (Z.of_nat (length hs)) xs t) (hs ++ map hash xs).
Proof.
  revert t hs. induction xs as [|x xs IH]; intros t hs Hp Hnd; simpl; [by rewrite app_nil_r|].
  replace (Z.of_nat (length hs) + 1) with (Z.of_nat (length (hs ++ [hash x])))
    by (rewrite length_app; simpl; lia).
  simpl in Hnd.
  replace (hs ++ hash x :: map hash xs) with ((hs ++ [hash x]) ++ map hash xs) in *
    by (by rewrite <- app_assoc).
  apply IH; [|done]. apply NoDup_app in Hnd as (Hnd & _ & _).
  apply NoDup_app in Hnd as (_ & Hnin & _).
  intros m h Hm. rewrite t_get_put. case_decide as Hh; subst.
  - apply lookup_app_Some in Hm as [Hm|[Hge Hm]].
    + exfalso. apply (Hnin (hash x)); [|by left]. by eapply list_elem_of_lookup_2.
    + apply list_lookup_singleton_Some in Hm as [Hm _]. f_equal. lia.
  - apply Hp. apply lookup_app_Some in Hm as [Hm|[Hge Hm]]; [done|].
    apply list_lookup_singleton_Some in Hm as [_ Hm]. done.
Qed.
End Rows.

(** Reading a range of rows. *)
Lemma collect_some_range {B} (f : Z -> ProviderResult (option B)) xs off :
  (forall m x, xs !! m = Some x -> f (off + Z.of_nat m) = Ok (Some x)) ->
  collect_some f (urange off (off + Z.of_nat (length xs))) = Ok xs.
Proof.
  unfold urange. replace (off + Z.of_nat (length xs) - off) with (Z.of_nat (length xs)) by lia.
  revert off. induction xs as [|x xs IH]; intros off H; simpl length.
  - done.
  - rewrite seqZ_cons by lia. cbn [collect_some].
    replace (f off) with (@Ok ProviderError _ (Some x)).
    2: { rewrite <- (H 0%nat x eq_refl). f_equal. lia. }
    cbn [mbind result_bind].
    replace (Z.succ off) with (off + 1) by lia.
    replace (Z.pred (Z.of_nat (S (length xs)))) with (Z.of_nat (length xs)) by lia.
    rewrite (IH (off + 1)); [done|]. intros m y Hm. rewrite <- (H (S m) y Hm). f_equal. lia.
Qed.

Section Blocks.
Context `{MD : Mdbx} `{RT : RoaringTreemap} `{FP : FeltPostcard} {C R X : Type}.
Abbreviation Ins := (@Insertion C R X).
Implicit Types (chain : list Ins) (i : Ins).

Definition ins_body i : list TxWithHash := sb_body (sbs_block (ins_block i)).
Definition ins_hash i : Z := sb_hash (sbs_block (ins_block i)).
Definition all_txs chain : list TxWithHash := flat_map ins_body chain.

(** Block numbers, block hashes and transaction hashes are unique, and each
    transaction has a receipt and a trace. *)
Definition wf_rows chain : Prop :=
  NoDup (map ins_number chain) /\ NoDup (map ins_hash chain) /\
  NoDup (map twh_hash (all_txs chain)) /\
  Forall (fun i => length (ins_receipts i) = length (ins_body i) /\
                   length (ins_executions i) = length (ins_body i)) chain.

Lemma all_txs_snoc chain i : all_txs (chain ++ [i]) = all_txs chain ++ ins_body i.
Proof. unfold all_txs. rewrite flat_map_app. simpl. by rewrite app_nil_r. Qed.

Lemma all_txs_split pre i post :
  all_txs (pre ++ i :: post) = all_txs pre ++ ins_body i ++ all_txs post.
Proof. unfold all_txs. by rewrite flat_map_app. Qed.

Lemma wf_rows_snoc chain i : wf_rows (chain ++ [i]) -> wf_rows chain.
Proof.
  unfold wf_rows. rewrite !map_app, all_txs_snoc, map_app, Forall_app.
  intros (Hn & Hh & Ht & Hf & _). split_and!; [..|done];
    eapply NoDup_app in Hn as (? & _), Hh as (? & _), Ht as (? & _); done.
Qed.

(** ** Transaction tables *)
Lemma insert_txs_tables b off body (rs : list R) (xs : list X) t :
  let t' := insert_txs b off body rs xs t in
  Transactions t' = put_rows (fun k x => t_put k (tx_from (twh_transaction x))) off body (Transactions t) /\
  TxHashes t' = put_rows (fun k x => t_put k (twh_hash x)) off body (TxHashes t) /\
  TxNumbers t' = put_rows (fun k x => t_put (twh_hash x) k) off body (TxNumbers t) /\
  TxBlocks t' = put_rows (fun k _ => t_put k b) off body (TxBlocks t) /\
  Receipts t' = put_rows (fun k x => t_put k x) off rs (Receipts t) /\
  TxTraces t' = put_rows (fun k x => t_put k x) off xs (TxTraces t).
Proof.
  unfold insert_txs. cbn zeta. split_and!.
  1-4: rewrite (put_rows_keep _ put_trace), (put_rows_keep _ put_receipt) by done;
    by apply put_rows_proj.
  - rewrite (put_rows_keep _ put_trace) by done.
    rewrite (put_rows_proj Receipts put_receipt (fun k x => t_put k x)) by done.
    by rewrite (put_rows_keep _ (put_tx b)).
  - rewrite (put_rows_proj TxTraces put_trace (fun k x => t_put k x)) by done.
    by rewrite (put_rows_keep _ put_receipt), (put_rows_keep _ (put_tx b)).
Qed.

Record tx_rows chain (t : TxTables) : Prop := {
  tr_txs : rows (Transactions t) (map (fun x => tx_from (twh_transaction x)) (all_txs chain));
  tr_entries : t_entries (Transactions t) = Z.of_nat (length (all_txs chain));
  tr_hashes : rows (TxHashes t) (map twh_hash (all_txs chain));
  tr_numbers : positions (TxNumbers t) (map twh_hash (all_txs chain));
  tr_blocks : rows (TxBlocks t)
                (flat_map (fun i => map (fun _ => ins_number i) (ins_body i)) chain);
  tr_receipts : rows (Receipts t) (flat_map ins_receipts chain);
  tr_traces : rows (TxTraces t) (flat_map ins_executions chain);
}.

(** A list with one element per transaction has the chain's length. *)
Lemma flat_map_length_eq {A} (f : Ins -> list A) chain :
  Forall (fun i => length (f i) = length (ins_body i)) chain ->
  length (flat_map f chain) = length (all_txs chain).
Proof.
  unfold all_txs. induction 1 as [|i chain Hi _ IH]; [done|]. simpl. rewrite !length_app. lia.
Qed.

Lemma tx_rows_step chain i t :
  wf_rows (chain ++ [i]) -> tx_rows chain t ->
  tx_rows (chain ++ [i])
    (insert_txs (ins_number i) (t_entries (Transactions t)) (ins_body i) (ins_receipts i)
       (ins_executions i) t).
Proof.
  intros Hwf [Ht He Hh Hn Hb Hr Hx].
  destruct (insert_txs_tables (ins_number i) (t_entries (Transactions t)) (ins_body i)
              (ins_receipts i) (ins_executions i) t) as (E1 & E2 & E3 & E4 & E5 & E6).
  cbn zeta in *. pose proof (wf_rows_snoc _ _ Hwf) as (_ & _ & _ & Hlen).
  destruct Hwf as (_ & _ & Hnd & _). rewrite all_txs_snoc, map_app in Hnd.
  split; rewrite ?E1, ?E2, ?E3, ?E4, ?E5, ?E6; clear E1 E2 E3 E4 E5 E6; rewrite He;
    rewrite ?all_txs_snoc, ?flat_map_app, ?map_app; simpl; rewrite ?app_nil_r.
  - rewrite <- (length_map (fun x => tx_from (twh_transaction x))). by apply rows_append.
  - rewrite <- (length_map (fun x => tx_from (twh_transaction x))) at 1.
    rewrite rows_entries; [by rewrite length_app, !length_map, <- length_app|done|].
    by rewrite length_map.
  - rewrite <- (length_map twh_hash). by apply rows_append.
  - rewrite <- (length_map twh_hash). by apply positions_append.
  - rewrite <- (flat_map_length_eq (fun i => map (fun _ => ins_number i) (ins_body i)) chain).
    + by apply (rows_append (fun _ => ins_number i)).
    + apply Forall_true. intros j. apply length_map.
  - rewrite <- (flat_map_length_eq ins_receipts chain) by (by eapply Forall_impl; [done|intros ? []]).
    rewrite <- (map_id (ins_receipts i)) at 2. by apply (rows_append id).
  - rewrite <- (flat_map_length_eq ins_executions chain) by (by eapply Forall_impl; [done|intros ? []]).
    rewrite <- (map_id (ins_executions i)) at 2. by apply (rows_append id).
Qed.

Lemma tx_rows_of chain : wf_rows chain -> tx_rows chain (db_txs (db_of chain)).
Proof.
  induction chain as [|i chain IH] using rev_ind; intros Hwf.
  - split; simpl; try apply rows_empty; [apply t_entries_empty|by intros m h].
  - rewrite db_of_snoc. apply (tx_rows_step chain i _ Hwf). apply IH. by eapply wf_rows_snoc.
Qed.

(** ** Block tables *)
Definition indices_of (pre : list Ins) i : StoredBlockBodyIndices :=
  {| tx_offset := Z.of_nat (length (all_txs pre));
     tx_count := Z.of_nat (length (ins_body i)) |}.

Record block_rows (pre : list Ins) i (t : BlockTables) : Prop := {
  br_header : t_get (Headers t) (ins_number i)
              = Some (header_from (sb_header (sbs_block (ins_block i))));
  br_hash : t_get (BlockHashes t) (ins_number i) = Some (ins_hash i);
  br_number : t_get (BlockNumbers t) (ins_hash i) = Some (ins_number i);
  br_status : t_get (BlockStatusses t) (ins_number i) = Some (sbs_status (ins_block i));
  br_indices : t_get (BlockBodyIndices t) (ins_number i) = Some (indices_of pre i);
}.

Lemma block_rows_of chain pre i post :
  wf_rows chain -> chain = pre ++ i :: post -> block_rows pre i (db_blocks (db_of chain)).
Proof.
  revert pre i post. induction chain as [|j chain IH] using rev_ind; intros pre i post Hwf Heq.
  { by destruct pre. }
  rewrite db_of_snoc. destruct post as [|j' post _] using rev_ind.
  - apply app_inj_tail in Heq as [<- <-].
    pose proof (tr_entries _ _ (tx_rows_of _ (wf_rows_snoc _ _ Hwf))) as He.
    split; simpl; rewrite t_get_put, decide_True by done; try done.
    unfold indices_of. by rewrite He.
  - rewrite app_comm_cons, app_assoc in Heq. apply app_inj_tail in Heq as [-> ->].
    destruct (IH pre i post (wf_rows_snoc _ _ Hwf) eq_refl) as [H1 H2 H3 H4 H5].
    destruct Hwf as (Hn & Hh & _).
    rewrite !map_app in Hn, Hh. simpl in Hn, Hh.
    assert (ins_number j' <> ins_number i) as Hne.
    { intros E. apply NoDup_app in Hn as (_ & Hn & _). apply (Hn (ins_number i)); set_solver. }
    assert (ins_hash j' <> ins_hash i) as Hne'.
    { intros E. apply NoDup_app in Hh as (_ & Hh & _). apply (Hh (ins_hash i)); set_solver. }
    split; simpl; rewrite t_get_put, decide_False by done; done.
Qed.

(** ** Reads *)
Section Reads.
Variables (chain pre post : list Ins) (i : Ins).
Hypothesis Hwf : wf_rows chain.
Hypothesis Hchain : chain = pre ++ i :: post.
Abbreviation db := (db_of chain).
Abbreviation n := (ins_number i).
Abbreviation h := (ins_hash i).
Abbreviation off := (Z.of_nat (length (all_txs pre))).

(** Block [i]'s slice of an array with one row per transaction. *)
Lemma slice {A B} (t : tbl Z B) (f : Ins -> list A) (g : A -> B) m x :
  rows t (map g (flat_map f chain)) ->
  Forall (fun i => length (f i) = length (ins_body i)) chain ->
  f i !! m = Some x -> t_get t (off + Z.of_nat m) = Some (g x).
Proof.
  intros Hr Hf Hm. rewrite Hchain in Hr, Hf. apply Forall_app in Hf as [Hf _].
  rewrite (rows_get t _ _ (length (all_txs pre) + m)%nat Hr) by lia.
  rewrite list_lookup_fmap, flat_map_app. simpl.
  rewrite <- (flat_map_length_eq f pre Hf), lookup_app_r by lia.
  replace (length (flat_map f pre) + m - length (flat_map f pre))%nat with m by lia.
  by rewrite (lookup_app_l_Some _ _ _ _ Hm).
Qed.

Lemma receipts_lengths :
  Forall (fun i => length (ins_receipts i) = length (ins_body i)) chain /\
  Forall (fun i => length (ins_executions i) = length (ins_body i)) chain.
Proof.
  destruct Hwf as (_ & _ & _ & Hf).
  split; (eapply Forall_impl; [exact Hf|]); by intros ? [].
Qed.

Lemma block_lengths :
  length (ins_receipts i) = length (ins_body i) /\
  length (ins_executions i) = length (ins_body i).
Proof.
  destruct receipts_lengths as [H1 H2]. rewrite Hchain in H1, H2.
  rewrite Forall_app, Forall_cons in H1, H2. tauto.
Qed.

Lemma row_of m x :
  ins_body i !! m = Some x ->
  t_get (Transactions (db_txs db)) (off + Z.of_nat m) = Some (tx_from (twh_transaction x)) /\
  t_get (TxHashes (db_txs db)) (off + Z.of_nat m) = Some (twh_hash x) /\
  t_get (TxBlocks (db_txs db)) (off + Z.of_nat m) = Some n /\
  t_get (TxNumbers (db_txs db)) (twh_hash x) = Some (off + Z.of_nat m) /\
  t_get (Receipts (db_txs db)) (off + Z.of_nat m) = ins_receipts i !! m /\
  t_get (TxTraces (db_txs db)) (off + Z.of_nat m) = ins_executions i !! m.
Proof.
  intros Hm. pose proof (tx_rows_of _ Hwf) as [Ht _ Hh Hn Hb Hr Hx].
  assert (Forall (fun i => length (ins_body i) = length (ins_body i)) chain) as Hlen
    by (by apply Forall_true).
  destruct receipts_lengths as [Hlr Hlx]. destruct block_lengths as [Hr' Hx'].
  split_and!.
  - by apply (slice _ ins_body _ _ x Ht).
  - by apply (slice _ ins_body _ _ x Hh).
  - rewrite <- (map_id (flat_map _ chain)) in Hb.
    apply (slice _ (fun i => map (fun _ => ins_number i) (ins_body i)) id m n Hb).
    + apply Forall_true. intros j. apply length_map.
    + by rewrite list_lookup_fmap, Hm.
  - replace (off + Z.of_nat m) with (Z.of_nat (length (all_txs pre) + m)) by lia.
    apply Hn. rewrite list_lookup_fmap, Hchain, all_txs_split, lookup_app_r by lia.
    replace (length (all_txs pre) + m - length (all_txs pre))%nat with m by lia.
    by rewrite (lookup_app_l_Some _ _ _ _ Hm).
  - rewrite <- (map_id (flat_map _ chain)) in Hr.
    destruct (ins_receipts i !! m) as [r|] eqn:Er; [by apply (slice _ ins_receipts id m r Hr)|].
    apply lookup_ge_None in Er. apply lookup_lt_Some in Hm. lia.
  - rewrite <- (map_id (flat_map _ chain)) in Hx.
    destruct (ins_executions i !! m) as [r|] eqn:Er; [by apply (slice _ ins_executions id m r Hx)|].
    apply lookup_ge_None in Er. apply lookup_lt_Some in Hm. lia.
Qed.

Lemma resolve_block id : id = BNum n \/ id = BHash h -> resolve db id = Some n.
Proof. intros [->| ->]; [done|]. apply (block_rows_of chain pre i post Hwf Hchain). Qed.

Lemma body_in_range :
  transaction_in_range db (body_range (indices_of pre i)) = Ok (ins_body i).
Proof.
  unfold transaction_in_range, body_range. simpl. apply collect_some_range. intros m x Hm.
  destruct (row_of m x Hm) as (-> & -> & _). simpl. by destruct x.
Qed.

Lemma hashes_in_range :
  transaction_hashes_in_range db (body_range (indices_of pre i))
  = Ok (map twh_hash (ins_body i)).
Proof.
  unfold transaction_hashes_in_range, body_range. simpl.
  rewrite <- (length_map twh_hash (ins_body i)). apply collect_some_range. intros m x Hm.
  rewrite list_lookup_fmap in Hm. destruct (ins_body i !! m) as [t|] eqn:Et; [|done].
  injection Hm as <-. by destruct (row_of m t Et) as (_ & -> & _).
Qed.

Lemma rows_in_range {A} (t : tbl Z A) (l : list A) :
  length l = length (ins_body i) ->
  (forall m x, ins_body i !! m = Some x -> t_get t (off + Z.of_nat m) = l !! m) ->
  collect_some (fun j => Ok (t_get t j)) (body_range (indices_of pre i)) = Ok l.
Proof.
  intros Hl Hget. unfold body_range. simpl. rewrite <- Hl. apply collect_some_range.
  intros m x Hm. destruct (ins_body i !! m) as [t'|] eqn:Et.
  - by rewrite (Hget m t' Et), Hm.
  - apply lookup_ge_None in Et. apply lookup_lt_Some in Hm. lia.
Qed.

Lemma block_body_indices_of id :
  id = BNum n \/ id = BHash h -> block_body_indices db id = Ok (Some (indices_of pre i)).
Proof.
  intros Hid. unfold block_body_indices. rewrite (resolve_block id Hid).
  by rewrite (br_indices _ _ _ (block_rows_of chain pre i post Hwf Hchain)).
Qed.

Lemma header_read id :
  id = BNum n \/ id = BHash h -> header db id = Ok (Some (sb_header (sbs_block (ins_block i)))).
Proof.
  intros Hid. unfold header. rewrite (resolve_block id Hid).
  by rewrite (br_header _ _ _ (block_rows_of chain pre i post Hwf Hchain)).
Qed.
End Reads.

(** The transactions of a block are found under its number whatever the hashes are. *)
Lemma tx_arrays chain :
  let t := db_txs (db_of chain) in
  rows (Transactions t) (map (fun x => tx_from (twh_transaction x)) (all_txs chain)) /\
  rows (TxHashes t) (map twh_hash (all_txs chain)) /\
  t_entries (Transactions t) = Z.of_nat (length (all_txs chain)).
Proof.
  induction chain as [|i chain (Ht & Hh & He)] using rev_ind; cbn zeta.
  { split_and!; [apply rows_empty..|apply t_entries_empty]. }
  rewrite db_of_snoc.
  destruct (insert_txs_tables (ins_number i) (t_entries (Transactions (db_txs (db_of chain)))) (ins_body i)
              (ins_receipts i) (ins_executions i) (db_txs (db_of chain))) as (E1 & E2 & _).
  simpl. unfold ins_number, ins_body in *. rewrite E1, E2, He, all_txs_snoc, !map_app. split_and!.
  - rewrite <- (length_map (fun x => tx_from (twh_transaction x))). by apply rows_append.
  - rewrite <- (length_map twh_hash). by apply rows_append.
  - rewrite <- (length_map (fun x => tx_from (twh_transaction x))) at 1.
    rewrite rows_entries; [by rewrite length_app, !length_map, <- length_app|done|by rewrite length_map].
Qed.

Lemma indices_by_number chain pre i post :
  NoDup (map ins_number chain) -> chain = pre ++ i :: post ->
  t_get (BlockBodyIndices (db_blocks (db_of chain))) (ins_number i) = Some (indices_of pre i).
Proof.
  revert pre i post. induction chain as [|j chain IH] using rev_ind; intros pre i post Hn Heq.
  { by destruct pre. }
  rewrite db_of_snoc. rewrite map_app in Hn. destruct post as [|j' post _] using rev_ind.
  - apply app_inj_tail in Heq as [<- <-]. destruct (tx_arrays chain) as (_ & _ & He).
    simpl. rewrite t_get_put, decide_True by done. unfold indices_of. by rewrite He.
  - rewrite app_comm_cons, app_assoc in Heq. apply app_inj_tail in Heq as [-> ->].
    apply NoDup_app in Hn as (Hn & Hc & _).
    simpl. rewrite t_get_put, decide_False; [by apply (IH pre i post)|].
    intros E. apply (Hc (ins_number i)); [rewrite map_app; set_solver|]. unfold ins_number in *. set_solver.
Qed.

Lemma transactions_by_number chain pre i post :
  NoDup (map ins_number chain) -> chain = pre ++ i :: post ->
  transactions_by_block (db_of chain) (BNum (ins_number i)) = Ok (Some (ins_body i)).
Proof.
  intros Hn Hc. unfold transactions_by_block, block_body_indices. cbn [resolve].
  rewrite (indices_by_number chain pre i post Hn Hc). cbn [mbind result_bind].
  destruct (tx_arrays chain) as (Ht & Hh & _).
  assert (Forall (fun i => length (ins_body i) = length (ins_body i)) chain) as Hlen by (by apply Forall_true).
  enough (transaction_in_range (db_of chain) (body_range (indices_of pre i)) = Ok (ins_body i)) as -> by done.
  unfold transaction_in_range, body_range. simpl. apply collect_some_range. intros m x Hm.
  rewrite (slice chain pre post i Hc _ ins_body _ _ x Ht Hlen Hm),
    (slice chain pre post i Hc _ ins_body _ _ x Hh Hlen Hm). simpl. by destruct x.
Qed.

(** A stored block is read back whole, by its number and by its hash: the
    header, the transactions in order with their hashes, the status, the
    receipts and the traces are those of the insertion, whatever was inserted
    before and after it. *)
Theorem block_read_back chain pre i post id :
  wf_rows chain -> chain = pre ++ i :: post ->
  id = BNum (ins_number i) \/ id = BHash (ins_hash i) ->
  block (db_of chain) id = Ok (Some (unseal (sbs_block (ins_block i)))) /\
  block_with_tx_hashes (db_of chain) id
    = Ok (Some {| bth_header := sb_header (sbs_block (ins_block i));
                  bth_body := map twh_hash (ins_body i) |}) /\
  block_status (db_of chain) id = Ok (Some (sbs_status (ins_block i))) /\
  receipts_by_block (db_of chain) id = Ok (Some (ins_receipts i)) /\
  transaction_executions_by_block (db_of chain) id = Ok (Some (ins_executions i)) /\
  transaction_count_by_block (db_of chain) id = Ok (Some (Z.of_nat (length (ins_body i)))).
Proof.
  intros Hwf Hc Hid. pose proof (block_rows_of chain pre i post Hwf Hc) as Hb.
  pose proof (resolve_block chain pre post i Hwf Hc id Hid) as Hres.
  pose proof (block_body_indices_of chain pre post i Hwf Hc id Hid) as Hind.
  destruct (block_lengths chain pre post i Hwf Hc) as [Hr Hx].
  pose proof (row_of chain pre post i Hwf Hc) as Hrow.
  split_and!.
  - unfold block. rewrite (header_read chain pre post i Hwf Hc id Hid). simpl.
    unfold transactions_by_block. rewrite Hind. simpl.
    by rewrite (body_in_range chain pre post i Hwf Hc).
  - unfold block_with_tx_hashes. rewrite Hres, (br_header _ _ _ Hb), (br_indices _ _ _ Hb). simpl.
    by rewrite (hashes_in_range chain pre post i Hwf Hc).
  - unfold block_status. by rewrite Hres, (br_status _ _ _ Hb).
  - unfold receipts_by_block. rewrite Hind. simpl.
    rewrite (rows_in_range pre i _ (ins_receipts i)); [done|done|]. intros m x Hm. apply (Hrow m x Hm).
  - unfold transaction_executions_by_block, transaction_executions_in_range. rewrite Hind. simpl.
    rewrite (rows_in_range pre i _ (ins_executions i)); [done|done|]. intros m x Hm. apply (Hrow m x Hm).
  - unfold transaction_count_by_block. by rewrite Hind.
Qed.

(** A stored transaction is found by its hash and by its position: the
    lookups give the transaction itself, its receipt and trace, the number and
    hash of its block, and its block's status. *)
Theorem transaction_read_back chain pre i post m tx :
  wf_rows chain -> chain = pre ++ i :: post -> ins_body i !! m = Some tx ->
  transaction_by_hash (db_of chain) (twh_hash tx) = Ok (Some tx) /\
  transaction_by_block_and_idx (db_of chain) (BNum (ins_number i)) (Z.of_nat m) = Ok (Some tx) /\
  transaction_block_num_and_hash (db_of chain) (twh_hash tx)
    = Ok (Some (ins_number i, ins_hash i)) /\
  transaction_status (db_of chain) (twh_hash tx) = Ok (Some (sbs_status (ins_block i))) /\
  receipt_by_hash (db_of chain) (twh_hash tx) = Ok (ins_receipts i !! m) /\
  transaction_execution (db_of chain) (twh_hash tx) = Ok (ins_executions i !! m).
Proof.
  intros Hwf Hc Hm. pose proof (block_rows_of chain pre i post Hwf Hc) as Hb.
  destruct (block_lengths chain pre post i Hwf Hc) as [Hr Hx].
  destruct (row_of chain pre post i Hwf Hc m tx Hm) as (R1 & R2 & R3 & R4 & R5 & R6).
  pose proof (lookup_lt_Some _ _ _ Hm) as Hlt.
  destruct (lookup_lt_is_Some_2 (ins_receipts i) m) as [r Er]; [lia|].
  destruct (lookup_lt_is_Some_2 (ins_executions i) m) as [x Ex]; [lia|].
  rewrite Er in R5. rewrite Ex in R6. split_and!.
  - unfold transaction_by_hash. rewrite R4, R1. simpl. by destruct tx.
  - unfold transaction_by_block_and_idx.
    rewrite (block_body_indices_of chain pre post i Hwf Hc _ (or_introl eq_refl)). simpl.
    destruct (Z.ltb_spec (Z.of_nat m) (Z.of_nat (length (ins_body i)))); [|lia].
    rewrite R2, R1. simpl. by destruct tx.
  - unfold transaction_block_num_and_hash. rewrite R4, R3. simpl. by rewrite (br_hash _ _ _ Hb).
  - unfold transaction_status. rewrite R4, R3. simpl. by rewrite (br_status _ _ _ Hb).
  - unfold receipt_by_hash. by rewrite R4, R5, Er.
  - unfold transaction_execution. by rewrite R4, R6, Ex.
Qed.

(** ** The latest block *)
Lemma block_hashes_dom chain k :
  is_Some (t_get (BlockHashes (db_blocks (db_of chain))) k) -> exists i, i ∈ chain /\ ins_number i = k.
Proof.
  induction chain as [|j chain IH] using rev_ind.
  - simpl. rewrite t_get_empty. by intros [].
  - rewrite db_of_snoc. simpl. rewrite t_get_put. case_decide as Hk; intros Hs.
    + exists j. split; [set_solver|done].
    + destruct (IH Hs) as (i & Hi & <-). exists i. split; [set_solver|done].
Qed.

Lemma latest_number_sorted chain i :
  StronglySorted (fun i j => ins_number i < ins_number j) (chain ++ [i]) ->
  latest_number (db_of (chain ++ [i])) = Ok (ins_number i).
Proof.
  intros Hs. unfold latest_number.
  pose proof (t_last_spec (BlockHashes (db_blocks (db_of (chain ++ [i]))))) as Hlast.
  assert (is_Some (t_get (BlockHashes (db_blocks (db_of (chain ++ [i])))) (ins_number i))) as Hi.
  { rewrite db_of_snoc. simpl. rewrite t_get_put, decide_True by done. by eexists. }
  destruct (t_last _) as [[k v]|].
  - destruct Hlast as [Hk Hmax]. specialize (Hmax _ Hi). simpl. f_equal.
    assert (is_Some (t_get (BlockHashes (db_blocks (db_of (chain ++ [i])))) k)) as Hsk by (by eexists).
    destruct (block_hashes_dom _ _ Hsk) as (j & Hj & <-).
    apply elem_of_app in Hj as [Hj| ->%list_elem_of_singleton]; [|done].
    apply StronglySorted_app in Hs as (Hc & _ & _). assert (ins_number j < ins_number i); [|lia].
    apply Hc; set_solver.
  - rewrite Hlast in Hi. by destruct Hi.
Qed.

Lemma latest_number_last chain i :
  wf_chain (chain ++ [i]) -> latest_number (db_of (chain ++ [i])) = Ok (ins_number i).
Proof. intros [Hs _]. by apply latest_number_sorted. Qed.

Lemma latest_hash_sorted chain i :
  StronglySorted (fun i j => ins_number i < ins_number j) (chain ++ [i]) ->
  latest_hash (db_of (chain ++ [i])) = Ok (ins_hash i).
Proof.
  intros Hs. unfold latest_hash. rewrite latest_number_sorted by done. simpl.
  rewrite db_of_snoc. simpl. by rewrite t_get_put, decide_True.
Qed.

(** The latest block is the last one inserted, by number and by hash, and
    a number beyond it has no state. *)
Theorem latest_is_last_inserted chain i :
  wf_chain (chain ++ [i]) ->
  latest_number (db_of (chain ++ [i])) = Ok (ins_number i) /\
  latest_hash (db_of (chain ++ [i])) = Ok (ins_hash i) /\
  forall m, ins_number i < m -> historical (db_of (chain ++ [i])) (BNum m) = Ok None.
Proof.
  intros Hwf. pose proof (latest_number_last chain i Hwf) as Hn. split; [done|]. split.
  - apply latest_hash_sorted, Hwf.
  - intros m Hm. unfold historical. rewrite Hn. simpl. by rewrite (proj2 (Z.compare_gt_iff _ _) Hm).
Qed.

(** Asking for the state at a stored block, by number or by hash, gives a
    view whose storage is the chain's storage after that block, whether it is
    served from the change history or, for the last block, from the current
    values. *)
Theorem state_view_of_block chain pre i post id :
  wf_chain chain -> wf_rows chain -> chain = pre ++ i :: post ->
  id = BNum (ins_number i) \/ id = BHash (ins_hash i) ->
  exists v, historical (db_of chain) id = Ok (Some v) /\
    forall a k, view_storage (db_of chain) v a k
      = Ok (value_at (storage_log chain) (ins_number i)
              {| csk_contract_address := a; csk_key := k |}).
Proof.
  intros Hwf Hrows Hc [->| ->].
  - destruct post as [|j post _] using rev_ind.
    + exists LatestState. unfold historical. rewrite Hc, latest_number_last by (by subst chain).
      simpl. rewrite Z.compare_refl. split; [done|]. intros a k.
      apply latest_storage_value; [by subst chain|].
      destruct Hwf as [Hs _]. rewrite Hc in Hs. apply StronglySorted_app in Hs as (Hcross & _ & _).
      apply Forall_app. split; [|by repeat constructor]. apply Forall_forall. intros j Hj.
      apply Z.lt_le_incl, Hcross; set_solver.
    + exists (HistoricalState (ins_number i)). split; [|by intros; apply historical_storage_value].
      rewrite app_comm_cons, app_assoc in Hc.
      unfold historical. rewrite Hc, latest_number_last by (by subst chain). simpl.
      replace (ins_number i ?= ins_number j) with Lt; [done|]. symmetry. apply Z.compare_lt_iff.
      destruct Hwf as [Hs _]. rewrite Hc in Hs. apply StronglySorted_app in Hs as (Hcross & _ & _).
      apply Hcross; set_solver.
  - exists (HistoricalState (ins_number i)). split; [|by intros; apply historical_storage_value].
    unfold historical, block_number_by_hash. simpl.
    by rewrite (br_number _ _ _ (block_rows_of chain pre i post Hrows Hc)).
Qed.
End Blocks.

(** ** Witnesses *)
Lemma sample_chain_rows : wf_rows sample_chain.
Proof. repeat constructor; set_solver. Qed.

Lemma block_read_back_witness :
  receipts_by_block (db_of sample_chain) (BHash 100) = Ok (Some [1011; 1012]) /\
  block_status (db_of sample_chain) (BNum 0) = Ok (Some AcceptedOnL2).
Proof.
  split.
  - apply (block_read_back sample_chain [] (nth 0 sample_chain (sample_insertion 0 [] (sample_updates)))
             (drop 1 sample_chain) (BHash 100)); [apply sample_chain_rows|done|by right].
  - apply (block_read_back sample_chain [] (nth 0 sample_chain (sample_insertion 0 [] (sample_updates)))
             (drop 1 sample_chain) (BNum 0)); [apply sample_chain_rows|done|by left].
Defined.

Lemma transaction_read_back_witness :
  transaction_by_hash (db_of sample_chain) 12 = Ok (Some (sample_tx 12)) /\
  transaction_block_num_and_hash (db_of sample_chain) 12 = Ok (Some (0, 100)).
Proof.
  destruct (transaction_read_back sample_chain []
              (nth 0 sample_chain (sample_insertion 0 [] (sample_updates))) (drop 1 sample_chain) 1
              (sample_tx 12)) as (H1 & _ & H2 & _); [apply sample_chain_rows|done|done|].
  split; [exact H1|exact H2].
Defined.

Lemma latest_is_last_inserted_witness :
  latest_number (db_of sample_chain) = Ok 1 /\ latest_hash (db_of sample_chain) = Ok 101.
Proof.
  destruct (latest_is_last_inserted (take 1 sample_chain)
              (nth 1 sample_chain (sample_insertion 0 [] (sample_updates)))) as (H1 & H2 & _);
    [exact sample_chain_wf|]. split; [exact H1|exact H2].
Defined.

Lemma state_view_of_block_witness :
  exists v, historical (db_of sample_chain) (BHash 100) = Ok (Some v) /\
    view_storage (db_of sample_chain) v 5 7 = Ok (Some 70).
Proof.
  destruct (state_view_of_block sample_chain []
              (nth 0 sample_chain (sample_insertion 0 [] (sample_updates)))
              (drop 1 sample_chain) (BHash 100)) as (v & Hv & Hs);
    [exact sample_chain_wf|exact sample_chain_rows|done|by right|].
  exists v. split; [exact Hv|exact (Hs 5 7)].
Defined.
