(* ===== verification/DbUpdates.v ===== *)
(** * A block's state update is read back from the change history

    [state_update] rebuilds the maps of an update from the duplicate-sorted rows
    of a block.  The maps are sorted lists, so two of them are equal when they
    have the same bindings. *)

From Stdlib Require Import ZArith Lia.
From stdpp Require Import base numbers list gmap sets sorting.
From S2P Require Import Prelude BTreeMap Felt Tx Version Block Codec Versioned Mdbx DbProvider DbState ChangeLog DbHistory.

Section Updates.
Context `{MD : Mdbx} `{RT : RoaringTreemap} `{FP : FeltPostcard} {C R X : Type}.
Abbreviation Ins := (@Insertion C R X).
Implicit Types (chain : list Ins) (i : Ins).

(** A map rebuilt from a block's row is the map the block was inserted with. *)
Lemma row_collect {E K} `{EqDecision K} `{DS : DupSort E K} (val : E -> Z) (valid : K -> Prop)
    (key : K -> Z) (idx : K -> list Z) hist log b (l : list (K * Z)) :
  (forall k k', key k = key k' -> k = k') ->
  wf_log log -> represents val idx hist log -> (b, l) ∈ log ->
  btree_sorted (map (fun e => (key e.1, e.2)) l) ->
  btree_collect (map (fun e => (key (dv_sub e), val e)) (hist b)) = map (fun e => (key e.1, e.2)) l.
Proof.
  intros Hkey Hwf Hr Hl Hs.
  assert (NoDup (map fst l)) as Hnd.
  { destruct Hwf as [_ Hf]. rewrite Forall_forall in Hf. by apply (Hf (b, l)). }
  assert (forall e, e ∈ map (fun e => (key (dv_sub e), val e)) (hist b)
                 <-> e ∈ map (fun e => (key e.1, e.2)) l) as Hin.
  { intros e. rewrite !list_elem_of_fmap. split.
    - intros (x & -> & Hx). destruct (rep_hist _ _ _ _ Hr b x Hx) as (l' & Hl' & Ha).
      rewrite (wf_log_unique _ _ _ _ Hwf Hl' Hl) in Ha.
      exists (dv_sub x, val x). split; [done|]. by apply assoc_elem.
    - intros ([k v] & -> & Hkv). apply assoc_elem in Hkv; [|done].
      destruct (rep_complete _ _ _ _ Hr b l k v Hl Hkv) as (x & Hx & <- & <-). by exists x. }
  destruct (btree_collect_acc (map (fun e => (key (dv_sub e), val e)) (hist b)) [])
    as [Hs' Hin']; [constructor| |].
  - intros k v v'. rewrite app_nil_r, !Hin. intros H1 H2.
    rewrite <- btree_get_elem in H1, H2 by done. congruence.
  - apply btree_ext; [done|done|]. intros e. unfold btree_collect. by rewrite Hin', app_nil_r, Hin.
Qed.

(** The state update of a stored block gives back the nonces and deployed
    contracts it was inserted with, exactly; replaced classes, which the
    insertion does not record, come back empty. *)
Theorem state_update_read_back chain i :
  wf_chain chain -> i ∈ chain ->
  btree_sorted (nonce_updates (ins_updates i)) ->
  btree_sorted (deployed_contracts (ins_updates i)) ->
  exists u, state_update (db_of chain) (BNum (ins_number i)) = Ok (Some u) /\
    nonce_updates u = nonce_updates (ins_updates i) /\
    deployed_contracts u = deployed_contracts (ins_updates i) /\
    provider_deployed_contracts (db_of chain) (BNum (ins_number i))
      = Ok (Some (deployed_contracts (ins_updates i))) /\
    replaced_classes u = [].
Proof.
  intros Hwf Hi Hsn Hsc. pose proof (wf_logs _ Hwf) as (Hn & _ & Hc & _).
  destruct (contracts_represent _ Hwf) as [Rn Rc].
  assert (forall l : list (Z * Z), map (fun e => (id e.1, e.2)) l = l) as Hid.
  { intros l. rewrite <- (map_id l) at 2. apply map_ext. by intros []. }
  assert ((ins_number i, nonce_updates (ins_updates i)) ∈ nonce_log chain) as Hln.
  { apply list_elem_of_fmap. by exists i. }
  assert ((ins_number i, deployed_contracts (ins_updates i)) ∈ class_log chain) as Hlc.
  { apply list_elem_of_fmap. by exists i. }
  pose proof (row_collect (DS := NonceChange_DupSort) cnc_nonce is_felt id _ _ _ _ _
                (fun k k' H => H) Hn Rn Hln) as En.
  pose proof (row_collect (DS := ClassChange_DupSort) ccc_class_hash is_felt id _ _ _ _ _
                (fun k k' H => H) Hc Rc Hlc) as Ec.
  rewrite Hid in En, Ec. specialize (En Hsn). specialize (Ec Hsc).
  unfold state_update, provider_deployed_contracts. simpl. eexists. split; [done|]. simpl.
  split_and!; [exact En|exact Ec|by rewrite <- Ec|done].
Qed.

(** Class replacements are lost: inserting a block with replaced classes is
    inserting it without them, so that no read afterwards can tell. *)
Theorem replaced_classes_ignored (b : SealedBlockWithStatus) (u : StateUpdates)
    (cl : list (Z * C)) (rs : list R) (xs : list X) (db : Db C R X) :
  insert_block_with_states_and_receipts b {| state_updates := u; classes := cl |} rs xs db
  = insert_block_with_states_and_receipts b
      {| state_updates := {| nonce_updates := nonce_updates u;
                             storage_updates := storage_updates u;
                             deployed_contracts := deployed_contracts u;
                             declared_classes := declared_classes u;
                             deprecated_declared_classes := deprecated_declared_classes u;
                             replaced_classes := [] |};
         classes := cl |} rs xs db.
Proof. reflexivity. Qed.
End Updates.

Lemma state_update_read_back_witness :
  exists u, state_update (db_of sample_chain) (BNum 0) = Ok (Some u) /\
    deployed_contracts u = [(5, 9)].
Proof.
  destruct (state_update_read_back sample_chain
              (nth 0 sample_chain (sample_insertion 0 [] (sample_updates))))
    as (u & Hu & _ & Hd & _); [exact sample_chain_wf|by left|by repeat constructor..|].
  exists u. split; [exact Hu|exact Hd].
Defined.
