(* ===== verification/Events.v ===== *)
(** * Event queries: continuation tokens and pages

    [primitives/src/event.rs] (tokens), [rpc/rpc/src/utils/events.rs] (filters and
    the fetch loops) and [StarknetApi::events_inner].  [usize] indices are [nat];
    the only sum of two of them that is used is bounded by the length of a list.
    A provider is what the loops call of it: the interface [EventSource]. *)

From Stdlib Require Import ZArith Lia.
From stdpp Require Import base numbers list sets.
From S2P Require Import Prelude Text Felt Tx Block Receipt DbProvider.

(** ** Continuation tokens *)
Definition c_comma : Z := 44.

Record ContinuationToken := mkToken { block_n : Z; txn_n : Z; event_n : Z }.
Inductive ContinuationTokenError :=
  | InvalidToken
  | ParseFailed (e : IntErrorKind).

Definition token_parse (token : list Z) : result ContinuationTokenError ContinuationToken :=
  match split_on c_comma token with
  | [a; b; c] =>
      block_n ← map_err ParseFailed (from_str_radix 16 u64_bound a);
      receipt_n ← map_err ParseFailed (from_str_radix 16 u64_bound b);
      event_n ← map_err ParseFailed (from_str_radix 16 u64_bound c);
      Ok (mkToken block_n receipt_n event_n)
  | _ => Err InvalidToken
  end.

Definition token_display (t : ContinuationToken) : list Z :=
  show_hex (block_n t) ++ [c_comma] ++ show_hex (txn_n t) ++ [c_comma] ++ show_hex (event_n t).

Inductive MaybeForkedContinuationToken :=
  | Forked (token : list Z)
  | Token (token : ContinuationToken).

(** ["FK_"]. *)
Definition FORKED_TOKEN_PREFIX : list Z := [70; 75; 95].

Fixpoint strip_prefix (prefix l : list Z) : option (list Z) :=
  match prefix, l with
  | [], l => Some l
  | p :: prefix, c :: l => if Z.eqb p c then strip_prefix prefix l else None
  | _ :: _, [] => None
  end.

Definition maybe_forked_parse (value : list Z)
    : result ContinuationTokenError MaybeForkedContinuationToken :=
  match strip_prefix FORKED_TOKEN_PREFIX value with
  | Some token => Ok (Forked token)
  | None => token ← token_parse value; Ok (Token token)
  end.

Definition to_token (t : MaybeForkedContinuationToken) : option ContinuationToken :=
  match t with Token token => Some token | _ => None end.

Definition maybe_forked_display (t : MaybeForkedContinuationToken) : list Z :=
  match t with
  | Token token => token_display token
  | Forked token => FORKED_TOKEN_PREFIX ++ token
  end.

(** ** Filters and cursors *)
Record EmittedEvent := mkEmittedEvent {
  ee_from_address : Z;
  ee_keys : list Z;
  ee_data : list Z;
  ee_block_hash : option Z;
  ee_block_number : option Z;
  ee_transaction_hash : Z;
}.

Record Filter := mkFilter {
  filter_address : option Z;
  filter_keys : option (list (list Z));
}.

Record PartialCursor := mkPartialCursor { pc_idx : nat; pc_event : nat }.
Record Cursor := mkCursor { cursor_block : Z; cursor_txn : PartialCursor }.

Definition cursor_new (block : Z) (txn event : nat) : Cursor :=
  mkCursor block (mkPartialCursor txn event).
Definition cursor_new_block (block : Z) : Cursor := mkCursor block (mkPartialCursor 0 0).
Definition into_full (c : PartialCursor) (block : Z) : Cursor := mkCursor block c.
Definition into_rpc_cursor (c : Cursor) : ContinuationToken :=
  mkToken (cursor_block c) (Z.of_nat (pc_idx (cursor_txn c))) (Z.of_nat (pc_event (cursor_txn c))).
Definition cursor_of_token (t : ContinuationToken) : Cursor :=
  cursor_new (block_n t) (Z.to_nat (txn_n t)) (Z.to_nat (event_n t)).

(** [FilteredEvents::next] yields the events with this test. *)
Definition is_matched (filter : Filter) (event : Event) : bool :=
  match filter_address filter with
  | Some addr => Z.eqb addr (from_address event)
  | None => true
  end &&
  match filter_keys filter with
  | None => true
  | Some filters =>
      forallb (fun b => b) (imap (fun i keys =>
        match event_keys event !! i with
        | None => false
        | Some key =>
            match keys with [] => true | _ => existsb (fun k => Z.eqb k key) keys end
        end) filters)
  end.
Definition filtered_events (filter : Filter) (events : list Event) : list Event :=
  List.filter (is_matched filter) events.

Definition emit (block_number block_hash : option Z) (tx_hash : Z) (e : Event) : EmittedEvent :=
  mkEmittedEvent (from_address e) (event_keys e) (event_data e) block_hash block_number tx_hash.

(** ** The events of a transaction *)
Definition fetch_tx_events (next_event_idx : nat) (block_number block_hash : option Z)
    (tx_idx : nat) (tx_hash : Z) (events : list Event) (filter : Filter) (chunk_size : nat)
    (buffer : list EmittedEvent) : option PartialCursor * list EmittedEvent :=
  let total_can_take := (chunk_size - length buffer)%nat in
  let filtered :=
    take total_can_take (drop next_event_idx
      (imap pair (map (emit block_number block_hash tx_hash) (filtered_events filter events)))) in
  let total_events_traversed := (next_event_idx + total_can_take)%nat in
  let last_event_idx := default total_events_traversed (fst <$> last filtered) in
  let buffer := buffer ++ map snd filtered in
  if Nat.leb chunk_size (length buffer) then
    let new_last_event :=
      if Nat.eqb total_can_take 0 then last_event_idx else (last_event_idx + 1)%nat in
    if Nat.ltb new_last_event (length events)
    then (Some (mkPartialCursor tx_idx new_last_event), buffer)
    else (None, buffer)
  else (None, buffer).

(** ** The events of committed blocks *)
Inductive EventError :=
  | InvalidCursor
  | EventProvider (e : ProviderError)
  | MissingHash | MissingReceipts | MissingBodyIndex.   (* [anyhow] contexts *)

(** What the loop over blocks calls of [BlockProvider + ReceiptProvider]. *)
Record EventSource (R : Type) := mkEventSource {
  es_block_hash_by_num : Z -> ProviderResult (option Z);
  es_receipts_by_block : Z -> ProviderResult (option (list R));
  es_block_body_indices : Z -> ProviderResult (option StoredBlockBodyIndices);
  es_transaction_hashes_in_range : list Z -> ProviderResult (list Z);
}.
Arguments es_block_hash_by_num {R}.
Arguments es_receipts_by_block {R}.
Arguments es_block_body_indices {R}.
Arguments es_transaction_hashes_in_range {R}.

Section Fetch.
Context {R : Type} (events_of : R -> list Event).
Context (filter : Filter) (chunk_size : nat).

(** Where to start in a transaction; [None] is [continue].  [cursor] is the partial
    cursor when the block is the one it points to. *)
Definition next_event (cursor : option PartialCursor) (tx_idx : nat) (events : list Event)
    : option nat :=
  match cursor with
  | Some c =>
      if Nat.eqb tx_idx (pc_idx c) then
        if Nat.ltb (pc_event c) (length events) then Some (pc_event c) else None
      else Some O
  | None => Some O
  end.

Fixpoint fetch_txs (block_num block_hash : Z) (cursor : option PartialCursor) (tx_idx : nat)
    (txs : list (Z * list Event)) (buffer : list EmittedEvent)
    : option PartialCursor * list EmittedEvent :=
  match txs with
  | [] => (None, buffer)
  | (tx_hash, events) :: txs =>
      match next_event cursor tx_idx events with
      | None => fetch_txs block_num block_hash cursor (S tx_idx) txs buffer
      | Some next =>
          match fetch_tx_events next (Some block_num) (Some block_hash) tx_idx tx_hash events
                  filter chunk_size buffer with
          | (Some c, buffer) => (Some c, buffer)
          | (None, buffer) => fetch_txs block_num block_hash cursor (S tx_idx) txs buffer
          end
      end
  end.

Definition fetch_block (src : EventSource R) (cursor : Cursor) (block_num : Z)
    (buffer : list EmittedEvent) : result EventError (option Cursor * list EmittedEvent) :=
  block_hash ← map_err EventProvider (es_block_hash_by_num src block_num);
  block_hash ← ok_or block_hash MissingHash;
  receipts ← map_err EventProvider (es_receipts_by_block src block_num);
  receipts ← ok_or receipts MissingReceipts;
  body_index ← map_err EventProvider (es_block_body_indices src block_num);
  body_index ← ok_or body_index MissingBodyIndex;
  tx_hashes ← map_err EventProvider (es_transaction_hashes_in_range src (body_range body_index));
  let here := Z.eqb block_num (cursor_block cursor) in
  if here && Nat.ltb (length receipts) (pc_idx (cursor_txn cursor)) then Ok (None, buffer)
  else
    let total_tx_to_skip := if here then pc_idx (cursor_txn cursor) else O in
    let '(c, buffer) :=
      fetch_txs block_num block_hash (if here then Some (cursor_txn cursor) else None)
        total_tx_to_skip (drop total_tx_to_skip (zip tx_hashes (map events_of receipts))) buffer in
    Ok ((fun c => into_full c block_num) <$> c, buffer).

Fixpoint fetch_blocks (src : EventSource R) (cursor : Cursor) (blocks : list Z)
    (buffer : list EmittedEvent) : result EventError (option Cursor * list EmittedEvent) :=
  match blocks with
  | [] => Ok (None, buffer)
  | block_num :: blocks =>
      '(c, buffer) ← fetch_block src cursor block_num buffer;
      match c with
      | Some c => Ok (Some c, buffer)
      | None => fetch_blocks src cursor blocks buffer
      end
  end.

(** The block range is [range_start..=range_end]. *)
Definition fetch_events_at_blocks (src : EventSource R) (range_start range_end : Z)
    (cursor : option Cursor) (buffer : list EmittedEvent)
    : result EventError (option Cursor * list EmittedEvent) :=
  let cursor := default (cursor_new_block range_start) cursor in
  fetch_blocks src cursor (urange (cursor_block cursor) (range_end + 1)) buffer.

(** ** The events of the pending block *)
Fixpoint fetch_pending_txs (cursor : PartialCursor) (tx_idx : nat)
    (txs : list (Z * list Event)) (buffer : list EmittedEvent)
    : option PartialCursor * list EmittedEvent :=
  match txs with
  | [] => (None, buffer)
  | (tx_hash, events) :: txs =>
      let here := Nat.eqb tx_idx (pc_idx cursor) in
      if here && Nat.ltb (length events) (pc_event cursor)
      then fetch_pending_txs cursor (S tx_idx) txs buffer
      else
        let next := if here then pc_event cursor else O in
        match fetch_tx_events next None None tx_idx tx_hash events filter chunk_size buffer with
        | (Some c, buffer) => (Some c, buffer)
        | (None, buffer) => fetch_pending_txs cursor (S tx_idx) txs buffer
        end
  end.

(** The executed transactions of the pending block, with the receipt of each one
    that succeeded. *)
Record PendingBlock := mkPendingBlock {
  pending_number : Z;
  pending_txs : list (Z * option R);
}.

Definition pending_receipts (b : PendingBlock) : list (Z * list Event) :=
  omap (fun e => (fun r => (e.1, events_of r)) <$> e.2) (pending_txs b).

Definition fetch_pending_events (b : PendingBlock) (cursor : option Cursor)
    (buffer : list EmittedEvent) : Cursor * list EmittedEvent :=
  let cursor := default (cursor_new_block (pending_number b)) cursor in
  let start := pc_idx (cursor_txn cursor) in
  match fetch_pending_txs (cursor_txn cursor) start (drop start (pending_receipts b)) buffer with
  | (Some c, buffer) => (into_full c (pending_number b), buffer)
  | (None, buffer) => (cursor_new (pending_number b) (length (pending_txs b)) 0, buffer)
  end.
End Fetch.
Arguments PendingBlock : clear implicits.
