(* ===== verification/EventPages.v ===== *)
(** * Pages of events: tokens read back, nothing lost or repeated *)

From Stdlib Require Import ZArith Lia.
From stdpp Require Import base numbers list sets.
From S2P Require Import Prelude Text Felt Tx Version Block Receipt Codec Versioned Mdbx DbProvider DbState ChangeLog DbHistory DbBlocks Events.

(** ** Tokens *)
Lemma show_hex_no_comma n : 0 <= n -> Forall (fun c => c <> c_comma) (show_hex n).
Proof.
  intros Hn. eapply Forall_impl; [by apply (hex_digits_chars 16)|].
  unfold is_hex_char, c_comma. simpl. lia.
Qed.

Definition wf_token (t : ContinuationToken) : Prop :=
  is_u64 (block_n t) /\ is_u64 (txn_n t) /\ is_u64 (event_n t).

Lemma token_parse_display t : wf_token t -> token_parse (token_display t) = Ok t.
Proof.
  intros (Hb & Ht & He). unfold token_display, token_parse. cbn [app].
  rewrite !split_on_sep, split_on_clean by (apply show_hex_no_comma; unfold is_u64 in *; lia).
  rewrite !from_str_show_hex by done. by destruct t.
Qed.

(** Continuation tokens are read back as they were printed: a token of this
    node with 64-bit fields, and a token of the forked provider with any text,
    which no token of this node is taken for. *)
Theorem continuation_token_roundtrip t :
  match t with Token t => wf_token t | Forked _ => True end ->
  maybe_forked_parse (maybe_forked_display t) = Ok t.
Proof.
  destruct t as [token|t]; intros Hwf; [by destruct token|].
  unfold maybe_forked_parse, maybe_forked_display.
  destruct (strip_prefix FORKED_TOKEN_PREFIX (token_display t)) as [l|] eqn:Hs.
  - exfalso. destruct Hwf as [[Hb _] _]. unfold token_display in Hs.
    pose proof (hex_digits_chars 16 (block_n t) Hb) as Hc.
    pose proof (hex_digits_nonnil 15 (block_n t)) as Hnn. unfold show_hex in Hs at 1.
    destruct (hex_digits 16 (block_n t)) as [|c l']; [done|].
    apply Forall_cons in Hc as [Hc _]. unfold is_hex_char in Hc.
    cbn [app strip_prefix FORKED_TOKEN_PREFIX] in Hs. destruct (Z.eqb_spec 70 c); [lia|done].
  - by rewrite token_parse_display.
Qed.

Lemma continuation_token_roundtrip_witness :
  maybe_forked_parse (maybe_forked_display (Token (mkToken 30 255 4))) = Ok (Token (mkToken 30 255 4))
  /\ maybe_forked_parse [49; 101; 44; 102; 102; 44; 52] = Ok (Token (mkToken 30 255 4)).
Proof.
  split; [|exact (continuation_token_roundtrip (Token (mkToken 30 255 4)) ltac:(done))].
  apply (continuation_token_roundtrip (Token (mkToken 30 255 4))). done.
Defined.

(** ** One transaction *)
Section Pages.
Context {R : Type} (events_of : R -> list Event) (filter : Filter) (chunk_size : nat).

(** The matching events of a transaction, as they are returned. *)
Definition matching (bn bh : option Z) (tx : Z * list Event) : list EmittedEvent :=
  map (emit bn bh tx.1) (filtered_events filter tx.2).

Lemma matching_length bn bh tx : (length (matching bn bh tx) <= length tx.2)%nat.
Proof. unfold matching, filtered_events. rewrite length_map. apply filter_length_le. Qed.

Lemma map_snd_imap_pair {A} (l : list A) : map snd (imap pair l) = l.
Proof.
  apply list_eq. intros i. rewrite list_lookup_fmap, list_lookup_imap. by destruct (l !! i).
Qed.

(** What a fetch leaves to be returned, given the cursor it answered with. *)
Definition left_of (m : list EmittedEvent) (c : option PartialCursor) : list EmittedEvent :=
  match c with Some c => drop (pc_event c) m | None => [] end.

Lemma last_idx {A} (m : list A) next k :
  let f := take k (drop next (imap pair m)) in
  fst <$> last f = if Nat.eqb (length f) 0 then None else Some (next + length f - 1)%nat.
Proof.
  intros f. rewrite last_lookup. destruct (Nat.eqb_spec (length f) 0) as [Hz|Hnz].
  - apply nil_length_inv in Hz. by rewrite Hz.
  - destruct (lookup_lt_is_Some_2 f (pred (length f))) as [[j x] Hj]; [lia|]. rewrite Hj. simpl.
    f_equal. remember (pred (length f)) as n eqn:Hn. unfold f in Hj.
    apply lookup_take_Some in Hj as [Hj _]. rewrite lookup_drop in Hj.
    apply list_lookup_imap_Some in Hj as (e & _ & [= -> _]). lia.
Qed.

Lemma fetch_tx_events_spec next bn bh tx_idx tx_hash events buffer :
  let m := matching bn bh (tx_hash, events) in
  let r := fetch_tx_events next bn bh tx_idx tx_hash events filter chunk_size buffer in
  exists taken,
    r.2 = buffer ++ taken /\ drop next m = taken ++ left_of m r.1 /\
    (length r.2 <= Nat.max chunk_size (length buffer))%nat /\
    (forall c, r.1 = Some c -> pc_idx c = tx_idx /\ (pc_event c < length events)%nat
       /\ (chunk_size <= length r.2)%nat).
Proof.
  intros m r. subst r. unfold fetch_tx_events.
  change (map (emit bn bh tx_hash) (filtered_events filter events)) with m.
  set (k := (chunk_size - length buffer)%nat).
  set (f := take k (drop next (imap pair m))).
  assert (map snd f = take k (drop next m)) as Hsnd.
  { subst f. by rewrite <- firstn_map, <- skipn_map, map_snd_imap_pair. }
  assert (length f = Nat.min k (length m - next)) as Hlen.
  { rewrite <- (length_map snd f), Hsnd, length_take, length_drop. done. }
  rewrite (last_idx m next k : fst <$> last f = _). fold f. rewrite Hsnd.
  pose proof (matching_length bn bh (tx_hash, events)) as Hml. fold m in Hml. simpl in Hml.
  exists (take k (drop next m)). rewrite length_app, length_take, length_drop.
  assert (drop next m = take k (drop next m) ++ drop (next + k) m) as Hsplit
    by (rewrite <- drop_drop; by rewrite take_drop).
  destruct (Nat.leb_spec chunk_size (length buffer + Nat.min k (length m - next))) as [Hfull|Hnot].
  - set (nl := if Nat.eqb k 0 then _ else _).
    assert (drop nl m = drop (next + k) m) as Hnl.
    { subst nl. destruct (Nat.eqb_spec k 0) as [Hk|Hk], (Nat.eqb_spec (length f) 0) as [Hf|Hf];
        simpl; try lia; f_equal; lia. }
    destruct (Nat.ltb_spec nl (length events)) as [Hlt|Hge]; cbn [fst snd left_of pc_event pc_idx].
    + split_and!; [done|by rewrite Hnl|rewrite length_app, length_take, length_drop; lia|].
      intros c [= <-]. simpl. rewrite length_app, length_take, length_drop. split_and!; lia.
    + split_and!; [done| |rewrite length_app, length_take, length_drop; lia|done].
      rewrite Hsplit at 1. by rewrite <- Hnl, (drop_ge m nl) by lia.
  - cbn [fst snd left_of].
    split_and!; [done| |rewrite length_app, length_take, length_drop; lia|done].
    by rewrite app_nil_r, take_ge by (rewrite length_drop; lia).
Qed.

(** ** One block *)
Definition txs_rest (bn bh : option Z) (txs : list (Z * list Event)) : list EmittedEvent :=
  flat_map (matching bn bh) txs.

(** The events from a position in a block's transactions on. *)
Definition txs_from (bn bh : option Z) (c : PartialCursor) (txs : list (Z * list Event))
    : list EmittedEvent :=
  match drop (pc_idx c) txs with
  | [] => []
  | tx :: txs => drop (pc_event c) (matching bn bh tx) ++ txs_rest bn bh txs
  end.

Lemma drop_cons_S {A} i (l : list A) x r : drop i l = x :: r -> drop (S i) l = r.
Proof.
  intros Hd. replace (S i) with (i + 1)%nat by lia. rewrite <- drop_drop, Hd. done.
Qed.

Lemma fetch_txs_spec block_num block_hash cursor all tx_idx txs buffer :
  drop tx_idx all = txs ->
  (forall c, cursor = Some c -> (pc_idx c < tx_idx)%nat) ->
  let r := fetch_txs filter chunk_size block_num block_hash cursor tx_idx txs buffer in
  exists taken,
    r.2 = buffer ++ taken /\
    txs_rest (Some block_num) (Some block_hash) txs
      = taken ++ (match r.1 with
                  | Some c => txs_from (Some block_num) (Some block_hash) c all | None => [] end) /\
    (length r.2 <= Nat.max chunk_size (length buffer))%nat /\
    (forall c, r.1 = Some c -> (chunk_size <= length r.2)%nat /\ (pc_idx c < length all)%nat).
Proof.
  revert tx_idx buffer. induction txs as [|[h events] txs IH]; intros tx_idx buffer Hd Hc r; subst r.
  { exists []. simpl. rewrite app_nil_r. split_and!; [done|done|lia|done]. }
  cbn [fetch_txs]. assert (next_event cursor tx_idx events = Some O) as ->.
  { destruct cursor as [c|]; [|done]. simpl. specialize (Hc c eq_refl).
    by destruct (Nat.eqb_spec tx_idx (pc_idx c)); [lia|]. }
  pose proof (fetch_tx_events_spec 0 (Some block_num) (Some block_hash) tx_idx h events buffer)
    as (taken & Hb & Hm & Hl & Hs).
  destruct (fetch_tx_events _ _ _ _ _ _ _ _ _) as [[c|] buffer'] eqn:He; cbn [fst snd] in *.
  - destruct (Hs c eq_refl) as (Hidx & Hev & Hfull). exists taken. split_and!; [done| |done|].
    + unfold txs_from. rewrite Hidx, Hd. cbn [txs_rest flat_map].
      rewrite drop_0 in Hm. cbn [left_of] in Hm. fold (txs_rest (Some block_num) (Some block_hash) txs).
      rewrite Hm at 1. by rewrite <- app_assoc.
    + intros c' [= <-]. split; [done|]. rewrite Hidx.
      assert (length (drop tx_idx all) <> 0%nat) as Hne by (by rewrite Hd).
      rewrite length_drop in Hne. lia.
  - destruct (IH (S tx_idx) buffer') as (taken' & Hb' & Hm' & Hl' & Hs').
    { by eapply drop_cons_S. }
    { intros c Ec. specialize (Hc c Ec). lia. }
    exists (taken ++ taken'). split_and!; [by rewrite Hb', Hb, app_assoc| | |done].
    + cbn [txs_rest flat_map]. fold (txs_rest (Some block_num) (Some block_hash) txs).
      rewrite drop_0 in Hm. cbn [left_of] in Hm. rewrite Hm', Hm, app_nil_r. by rewrite <- app_assoc.
    + etransitivity; [exact Hl'|]. lia.
Qed.
Lemma fetch_txs_at block_num block_hash c all buffer :
  let r := fetch_txs filter chunk_size block_num block_hash (Some c) (pc_idx c)
             (drop (pc_idx c) all) buffer in
  exists taken,
    r.2 = buffer ++ taken /\
    txs_from (Some block_num) (Some block_hash) c all
      = taken ++ (match r.1 with
                  | Some c => txs_from (Some block_num) (Some block_hash) c all | None => [] end) /\
    (length r.2 <= Nat.max chunk_size (length buffer))%nat /\
    (forall c, r.1 = Some c -> (chunk_size <= length r.2)%nat /\ (pc_idx c < length all)%nat).
Proof.
  intros r. subst r. unfold txs_from at 1.
  destruct (drop (pc_idx c) all) as [|[h events] txs] eqn:Hd.
  { exists []. simpl. rewrite app_nil_r. split_and!; [done|done|lia|done]. }
  cbn [fetch_txs next_event]. rewrite Nat.eqb_refl.
  assert (forall b, exists taken,
    (fetch_txs filter chunk_size block_num block_hash (Some c) (S (pc_idx c)) txs b).2 = b ++ taken /\ _)
    as Hlater by (intros b; apply (fetch_txs_spec block_num block_hash (Some c) all (S (pc_idx c)) txs b);
                  [by eapply drop_cons_S|intros c' [= <-]; lia]).
  pose proof (matching_length (Some block_num) (Some block_hash) (h, events)) as Hml. simpl in Hml.
  destruct (Nat.ltb_spec (pc_event c) (length events)) as [Hlt|Hge].
  - pose proof (fetch_tx_events_spec (pc_event c) (Some block_num) (Some block_hash) (pc_idx c) h
                  events buffer) as (taken & Hb & Hm & Hl & Hs).
    destruct (fetch_tx_events _ _ _ _ _ _ _ _ _) as [[c'|] buffer'] eqn:He; cbn [fst snd] in *.
    + destruct (Hs c' eq_refl) as (Hidx & Hev & Hfull). exists taken. split_and!; [done| |done|].
      * unfold txs_from. rewrite Hidx, Hd. rewrite Hm. by rewrite <- app_assoc.
      * intros c'' [= <-]. split; [done|]. rewrite Hidx.
        assert (length (drop (pc_idx c) all) <> 0%nat) as Hne by (by rewrite Hd).
        rewrite length_drop in Hne. lia.
    + destruct (Hlater buffer') as (taken' & Hb' & Hm' & Hl' & Hs').
      exists (taken ++ taken'). split_and!; [by rewrite Hb', Hb, app_assoc| | |done].
      * rewrite Hm, Hm'. cbn [left_of]. by rewrite app_nil_r, <- app_assoc.
      * etransitivity; [exact Hl'|]. lia.
  - rewrite drop_ge by lia. apply Hlater.
Qed.

(** ** A range of blocks *)

(** Block hash and transactions of each block, as a provider serves them. *)
Context (chain : Z -> Z * list (Z * list Event)) (src : EventSource R) (last_block : Z).

Definition serves (n : Z) : Prop :=
  es_block_hash_by_num src n = Ok (Some (chain n).1) /\
  exists receipts indices hashes,
    es_receipts_by_block src n = Ok (Some receipts) /\
    es_block_body_indices src n = Ok (Some indices) /\
    es_transaction_hashes_in_range src (body_range indices) = Ok hashes /\
    length hashes = length receipts /\ (chain n).2 = zip hashes (map events_of receipts).

Definition block_events (n : Z) : list EmittedEvent :=
  txs_rest (Some n) (Some (chain n).1) (chain n).2.
Definition block_from (n : Z) (c : PartialCursor) : list EmittedEvent :=
  txs_from (Some n) (Some (chain n).1) c (chain n).2.

(** Everything that is left from a cursor on, up to the last block. *)
Definition remaining (c : Cursor) : list EmittedEvent :=
  if Z.leb (cursor_block c) last_block
  then block_from (cursor_block c) (cursor_txn c)
       ++ flat_map block_events (urange (cursor_block c + 1) (last_block + 1))
  else [].

Record page (first : Z) (all buffer : list EmittedEvent) (c : option Cursor)
    (buffer' : list EmittedEvent) : Prop := {
  page_taken : exists taken, buffer' = buffer ++ taken
    /\ all = taken ++ (match c with Some c => remaining c | None => [] end);
  page_size : (length buffer' <= Nat.max chunk_size (length buffer))%nat;
  page_full : forall c', c = Some c' ->
    (chunk_size <= length buffer')%nat /\ first <= cursor_block c' <= last_block;
}.

Lemma fetch_block_spec cursor n buffer :
  serves n ->
  exists c buffer', fetch_block events_of filter chunk_size src cursor n buffer = Ok (c, buffer') /\
    (length buffer' <= Nat.max chunk_size (length buffer))%nat /\
    (forall c', c = Some c' -> (chunk_size <= length buffer')%nat /\ cursor_block c' = n) /\
    exists taken, buffer' = buffer ++ taken /\
      (if Z.eqb n (cursor_block cursor) then block_from n (cursor_txn cursor) else block_events n)
      = taken ++ (match c with Some c => block_from n (cursor_txn c) | None => [] end).
Proof.
  intros (Hh & receipts & indices & hashes & Hr & Hi & Ht & Hl & Htxs).
  unfold fetch_block. rewrite Hh, Hr, Hi. cbn [map_err mbind result_bind ok_or].
  rewrite Ht. cbn [map_err mbind result_bind]. rewrite <- Htxs.
  assert (length (chain n).2 = length receipts) as Hlen
    by (rewrite Htxs, length_zip_with, length_map; lia).
  destruct (Z.eqb_spec n (cursor_block cursor)) as [Heq|Hne]; cbn [andb].
  - destruct (Nat.ltb_spec (length receipts) (pc_idx (cursor_txn cursor))) as [Hlt|Hge].
    + exists None, buffer. split; [done|]. split; [lia|]. split; [done|]. exists [].
      rewrite app_nil_r. split; [done|]. unfold block_from, txs_from. by rewrite drop_ge by lia.
    + destruct (fetch_txs_at n (chain n).1 (cursor_txn cursor) (chain n).2 buffer)
        as (taken & Hb & Hm & Hs & Hf).
      destruct (fetch_txs _ _ _ _ _ _ _ _) as [c buffer']; cbn [fst snd] in *.
      eexists _, _. split; [done|]. split; [done|]. split.
      * intros c' Hc. destruct c as [c|]; [|done]. injection Hc as <-. split; [by apply (Hf c)|done].
      * exists taken. split; [done|]. unfold block_from. rewrite Hm. by destruct c.
  - destruct (fetch_txs_spec n (chain n).1 None (chain n).2 0 (chain n).2 buffer)
      as (taken & Hb & Hm & Hs & Hf); [done|done|].
    rewrite drop_0. destruct (fetch_txs _ _ _ _ _ _ _ _) as [c buffer']; cbn [fst snd] in *.
    eexists _, _. split; [done|]. split; [done|]. split.
    + intros c' Hc. destruct c as [c|]; [|done]. injection Hc as <-. split; [by apply (Hf c)|done].
    + exists taken. split; [done|]. unfold block_events. rewrite Hm. by destruct c.
Qed.
Lemma fetch_later_blocks k cursor n buffer :
  last_block + 1 - n <= Z.of_nat k -> cursor_block cursor < n ->
  (forall j, n <= j <= last_block -> serves j) ->
  exists c buffer',
    fetch_blocks events_of filter chunk_size src cursor (urange n (last_block + 1)) buffer
      = Ok (c, buffer') /\
    page n (flat_map block_events (urange n (last_block + 1))) buffer c buffer'.
Proof.
  revert n buffer. induction k as [|k IH]; intros n buffer Hk Hc Hs.
  { rewrite urange_nil by lia. exists None, buffer. split; [done|].
    split; [exists []; by rewrite app_nil_r|lia|done]. }
  destruct (Z.lt_ge_cases n (last_block + 1)) as [Hlt|Hge].
  2: { rewrite urange_nil by lia. exists None, buffer. split; [done|].
       split; [exists []; by rewrite app_nil_r|lia|done]. }
  rewrite urange_cons by done. cbn [fetch_blocks flat_map].
  destruct (fetch_block_spec cursor n buffer (Hs n ltac:(lia)))
    as (c & buffer' & -> & Hsz & Hf & taken & Hb & Hm).
  destruct (Z.eqb_spec n (cursor_block cursor)); [lia|]. cbn [mbind result_bind].
  destruct c as [c|].
  - destruct (Hf c eq_refl) as [Hfull Hn]. exists (Some c), buffer'. split; [done|].
    split; [|done|intros c' [= <-]; split; [done|lia]].
    exists taken. split; [done|]. rewrite Hm. unfold remaining. rewrite Hn.
    rewrite (proj2 (Z.leb_le _ _)) by lia. by rewrite <- app_assoc.
  - destruct (IH (n + 1) buffer') as (c & buffer'' & Heq & [[taken' [Hb' Hm']] Hsz' Hf']);
      [lia|lia|intros j Hj; apply Hs; lia|].
    exists c, buffer''. split; [done|]. split.
    + exists (taken ++ taken'). split; [by rewrite Hb', Hb, app_assoc|].
      rewrite Hm, Hm', app_nil_r. by rewrite <- app_assoc.
    + etransitivity; [exact Hsz'|]. lia.
    + intros c' Hc'. destruct (Hf' c' Hc'). split; [done|lia].
Qed.

Lemma fetch_events_at_blocks_spec range_start cursor buffer :
  let c0 := default (cursor_new_block range_start) cursor in
  (forall j, cursor_block c0 <= j <= last_block -> serves j) ->
  exists c buffer',
    fetch_events_at_blocks events_of filter chunk_size src range_start last_block cursor buffer
      = Ok (c, buffer') /\
    page (cursor_block c0) (remaining c0) buffer c buffer'.
Proof.
  intros c0 Hs. unfold fetch_events_at_blocks. fold c0. unfold remaining.
  destruct (Z.leb_spec (cursor_block c0) last_block) as [Hle|Hgt].
  2: { rewrite urange_nil by lia. exists None, buffer. split; [done|].
       split; [exists []; by rewrite app_nil_r|lia|done]. }
  rewrite urange_cons by lia. cbn [fetch_blocks].
  destruct (fetch_block_spec c0 (cursor_block c0) buffer (Hs (cursor_block c0) ltac:(lia)))
    as (c & buffer' & -> & Hsz & Hf & taken & Hb & Hm).
  rewrite Z.eqb_refl in Hm. cbn [mbind result_bind]. destruct c as [c|].
  - destruct (Hf c eq_refl) as [Hfull Hn]. exists (Some c), buffer'. split; [done|].
    split; [|done|intros c' [= <-]; split; [done|lia]].
    exists taken. split; [done|]. rewrite Hm. unfold remaining. rewrite Hn.
    rewrite (proj2 (Z.leb_le _ _)) by lia. by rewrite <- app_assoc.
  - destruct (fetch_later_blocks (Z.to_nat (last_block - cursor_block c0)) c0 (cursor_block c0 + 1) buffer')
      as (c & buffer'' & Heq & [[taken' [Hb' Hm']] Hsz' Hf']).
    { lia. }
    { lia. }
    { intros j Hj. apply Hs. lia. }
    exists c, buffer''. split; [done|]. split.
    + exists (taken ++ taken'). split; [by rewrite Hb', Hb, app_assoc|].
      rewrite Hm, Hm', app_nil_r. by rewrite <- app_assoc.
    + etransitivity; [exact Hsz'|]. lia.
    + intros c' Hc'. destruct (Hf' c' Hc'). split; [done|lia].
Qed.
(** ** A client that follows the cursors *)
Fixpoint pages (fuel : nat) (range_start : Z) (cursor : option Cursor)
    : option (list (list EmittedEvent)) :=
  match fuel with
  | O => None
  | S fuel =>
      match fetch_events_at_blocks events_of filter chunk_size src range_start last_block cursor []
      with
      | Ok (None, events) => Some [events]
      | Ok (Some c, events) => cons events <$> pages fuel range_start (Some c)
      | Err _ => None
      end
  end.

Lemma remaining_new_block n :
  remaining (cursor_new_block n) = flat_map block_events (urange n (last_block + 1)).
Proof.
  unfold remaining. simpl. destruct (Z.leb_spec n last_block).
  - rewrite (urange_cons n) by lia. cbn [flat_map]. f_equal. unfold block_from, block_events, txs_from.
    simpl. by destruct (chain n).2.
  - by rewrite urange_nil by lia.
Qed.

Lemma pages_spec fuel range_start cursor :
  let c0 := default (cursor_new_block range_start) cursor in
  (0 < chunk_size)%nat -> (length (remaining c0) < fuel)%nat ->
  (forall j, cursor_block c0 <= j <= last_block -> serves j) ->
  exists ps, pages fuel range_start cursor = Some ps /\ concat ps = remaining c0 /\
    Forall (fun p => (length p <= chunk_size)%nat) ps /\
    Forall (fun p => length p = chunk_size) (removelast ps).
Proof.
  intros c0 Hpos. revert cursor c0. induction fuel as [|fuel IH]; intros cursor c0 Hf Hs; [lia|].
  cbn [pages]. destruct (fetch_events_at_blocks_spec range_start cursor [] Hs)
    as (c & events & -> & [[taken [Hb Hm]] Hsz Hfull]).
  cbn [app] in Hb. subst taken. fold c0 in Hm, Hfull. cbn [length] in Hsz.
  destruct c as [c|].
  - destruct (Hfull c eq_refl) as [Hch Hr].
    destruct (IH (Some c)) as (ps & Hps & Hcat & Hle & Heq).
    { cbn [default from_option id]. rewrite Hm, length_app in Hf. lia. }
    { cbn [default from_option id]. intros j Hj. apply Hs. lia. }
    cbn [default from_option id] in *. exists (events :: ps). rewrite Hps. split; [done|].
    cbn [concat]. rewrite Hcat, Hm. split; [done|]. split; [constructor; [lia|done]|].
    destruct ps as [|p ps]; [constructor|]. cbn [removelast]. constructor; [lia|]. exact Heq.
  - exists [events]. cbn [concat removelast]. rewrite Hm, !app_nil_r.
    split_and!; [done|done| |constructor]. constructor; [lia|constructor].
Qed.
End Pages.

(** ** The database as a source *)
Section Database.
Context `{MD : Mdbx} `{RT : RoaringTreemap} `{FP : FeltPostcard} {C R X : Type}.
Context (events_of : R -> list Event).
Abbreviation Ins := (@Insertion C R X).

Definition db_event_source (db : Db C R X) : EventSource R := mkEventSource R
  (block_hash_by_num db) (fun n => receipts_by_block db (BNum n))
  (fun n => block_body_indices db (BNum n)) (transaction_hashes_in_range db).

(** Hash, transaction hashes and events of the inserted block with a number. *)
Definition inserted_block (chain : list Ins) (n : Z) : Z * list (Z * list Event) :=
  match List.find (fun i => Z.eqb (ins_number i) n) chain with
  | Some i => (ins_hash i, zip (map twh_hash (ins_body i)) (map events_of (ins_receipts i)))
  | None => (0, [])
  end.

Lemma find_unique (chain pre post : list Ins) i :
  NoDup (map ins_number chain) -> chain = pre ++ i :: post ->
  List.find (fun j => Z.eqb (ins_number j) (ins_number i)) chain = Some i.
Proof.
  intros Hnd ->. induction pre as [|j pre IH]; simpl in *; [by rewrite Z.eqb_refl|].
  apply NoDup_cons in Hnd as [Hni Hnd]. destruct (Z.eqb_spec (ins_number j) (ins_number i)) as [E|].
  - destruct Hni. rewrite map_app. set_solver.
  - by apply IH.
Qed.

Lemma db_serves chain i :
  wf_rows chain -> i ∈ chain ->
  serves events_of (inserted_block chain) (db_event_source (db_of chain)) (ins_number i).
Proof.
  intros Hwf (pre & post & Hc)%list_elem_of_split.
  assert (inserted_block chain (ins_number i)
    = (ins_hash i, zip (map twh_hash (ins_body i)) (map events_of (ins_receipts i)))) as Hb.
  { unfold inserted_block. by rewrite (find_unique chain pre post i) by (done || apply Hwf). }
  destruct (block_lengths chain pre post i Hwf Hc) as [Hr _].
  split.
  - rewrite Hb. simpl. unfold block_hash_by_num.
    by rewrite (br_hash _ _ _ (block_rows_of chain pre i post Hwf Hc)).
  - exists (ins_receipts i), (indices_of pre i), (map twh_hash (ins_body i)). rewrite Hb. simpl.
    pose proof (block_body_indices_of chain pre post i Hwf Hc (BNum (ins_number i))) as Hind.
    split_and!.
    + unfold receipts_by_block. rewrite Hind by auto. simpl.
      rewrite (rows_in_range pre i _ (ins_receipts i)); [done|done|].
      intros m x Hm. apply (row_of chain pre post i Hwf Hc m x Hm).
    + by apply Hind; auto.
    + apply (hashes_in_range chain pre post i Hwf Hc).
    + rewrite length_map. lia.
    + done.
Qed.

(** C29. A client that queries the events of a range of stored blocks and follows
    the cursors gets every event that matches its filter, in the order of blocks,
    transactions and emission, each exactly once: the pages are full but for the
    last one, and their number is bounded by that of the events. *)
Theorem event_pages_complete chain filter chunk_size first last_block :
  wf_rows chain -> (0 < chunk_size)%nat ->
  (forall j, first <= j <= last_block -> exists i, i ∈ chain /\ ins_number i = j) ->
  let all := flat_map (block_events filter (inserted_block chain)) (urange first (last_block + 1)) in
  exists ps,
    pages events_of filter chunk_size (db_event_source (db_of chain)) last_block
      (S (length all)) first None = Some ps /\
    concat ps = all /\
    Forall (fun p => (length p <= chunk_size)%nat) ps /\
    Forall (fun p => length p = chunk_size) (removelast ps).
Proof.
  intros Hwf Hpos Hcover all.
  destruct (pages_spec events_of filter chunk_size (inserted_block chain)
              (db_event_source (db_of chain)) last_block (S (length all)) first None)
    as (ps & Hps & Hcat & Hrest); [done| | |].
  - cbn [default from_option]. rewrite remaining_new_block. fold all. lia.
  - intros j Hj. destruct (Hcover j Hj) as (i & Hi & <-). by apply db_serves.
  - exists ps. split; [done|]. split; [|done]. rewrite Hcat. cbn [default from_option].
    apply remaining_new_block.
Qed.
End Database.

Definition sample_events (r : Z) : list Event := [mkEvent r [r] []; mkEvent 1 [7] []].

Lemma event_pages_complete_witness :
  exists ps,
    pages sample_events (mkFilter None None) 2 (db_event_source (db_of sample_chain)) 1 7 0 None
      = Some ps /\
    concat ps = flat_map (block_events (mkFilter None None) (inserted_block sample_events sample_chain))
                  (urange 0 2) /\
    Forall (fun p => (length p <= 2)%nat) ps /\ Forall (fun p => length p = 2%nat) (removelast ps).
Proof.
  apply (event_pages_complete sample_events sample_chain (mkFilter None None) 2 0 1).
  - apply sample_chain_rows.
  - lia.
  - intros j Hj. exists (nth (Z.to_nat j) sample_chain (sample_insertion 0 [] sample_updates)).
    assert (j = 0 \/ j = 1) as [-> | ->] by lia; (split; [|reflexivity]); simpl; set_solver.
Defined.
