(* ===== verification/RpcError.v ===== *)
(** * JSON-RPC errors

    [rpc/rpc-api/src/error/starknet.rs]: the error enum of the API, its codes and
    the conversions from the errors of the components behind it.  A rendered
    message is represented by the value it renders. *)

From Stdlib Require Import ZArith Lia String.
From stdpp Require Import base numbers list.
From S2P Require Import Prelude Text Felt Tx PoolTypes BTreeSet Pool DbProvider Events.

Inductive Reason :=
  | ReasonProvider (e : ProviderError)
  | ReasonParseInt (e : IntErrorKind)
  | ReasonEvent (e : EventError)
  | ReasonInvalidTx (e : InvalidTransactionError)
  | ReasonError (e : Z)                   (* a boxed error, by its identity *)
  | ReasonText (s : string).

Inductive StarknetApiError :=
  | FailedToReceiveTxn | ContractNotFound | InvalidCallData | BlockNotFound | TxnHashNotFound
  | InvalidTxnIndex | ClassHashNotFound
  | PageSizeTooBig (requested max_allowed : Z)
  | NoBlocks | InvalidContinuationToken
  | ContractError (revert_error : Reason)
  | TransactionExecutionError (transaction_index : Z) (execution_error : Reason)
  | InvalidContractClass | ApiClassAlreadyDeclared
  | InvalidTransactionNonce (reason : Reason)
  | InsufficientAccountBalance
  | ApiValidationFailure (reason : Reason)
  | CompilationFailed (reason : Reason)
  | ContractClassSizeIsTooLarge | ApiNonAccount | DuplicateTransaction | CompiledClassHashMismatch
  | UnsupportedTransactionVersion | UnsupportedContractClassVersion
  | UnexpectedError (reason : Reason)
  | TooManyKeysInFilter | FailedToFetchPendingTransactions
  | StorageProofNotSupported (oldest_block requested_block : Z)
  | ProofLimitExceeded (limit total : Z)
  | EntrypointNotFound | InsufficientResourcesForValidate.

Definition error_code (e : StarknetApiError) : Z :=
  match e with
  | FailedToReceiveTxn => 1
  | ContractNotFound => 20
  | EntrypointNotFound => 21
  | InvalidCallData => 22
  | BlockNotFound => 24
  | InvalidTxnIndex => 27
  | ClassHashNotFound => 28
  | TxnHashNotFound => 29
  | PageSizeTooBig _ _ => 31
  | NoBlocks => 32
  | InvalidContinuationToken => 33
  | TooManyKeysInFilter => 34
  | FailedToFetchPendingTransactions => 38
  | ContractError _ => 40
  | TransactionExecutionError _ _ => 41
  | StorageProofNotSupported _ _ => 42
  | InvalidContractClass => 50
  | ApiClassAlreadyDeclared => 51
  | InvalidTransactionNonce _ => 52
  | InsufficientResourcesForValidate => 53
  | InsufficientAccountBalance => 54
  | ApiValidationFailure _ => 55
  | CompilationFailed _ => 56
  | ContractClassSizeIsTooLarge => 57
  | ApiNonAccount => 58
  | DuplicateTransaction => 59
  | CompiledClassHashMismatch => 60
  | UnsupportedTransactionVersion => 61
  | UnsupportedContractClassVersion => 62
  | UnexpectedError _ => 63
  | ProofLimitExceeded _ _ => 1000
  end.

(** ** Conversions *)
Definition api_of_provider (e : ProviderError) : StarknetApiError :=
  UnexpectedError (ReasonProvider e).

Definition api_of_token (e : ContinuationTokenError) : StarknetApiError :=
  match e with
  | InvalidToken => InvalidContinuationToken
  | ParseFailed e => UnexpectedError (ReasonParseInt e)
  end.

Definition api_of_event (e : EventError) : StarknetApiError :=
  match e with
  | InvalidCursor => InvalidContinuationToken
  | EventProvider e => api_of_provider e
  | e => UnexpectedError (ReasonEvent e)
  end.

Definition api_of_invalid_tx (e : InvalidTransactionError) : StarknetApiError :=
  match e with
  | InsufficientFunds _ => InsufficientAccountBalance
  | ClassAlreadyDeclared _ => ApiClassAlreadyDeclared
  | InsufficientIntrinsicFee _ => InsufficientResourcesForValidate
  | NonAccount _ => ApiNonAccount
  | InvalidNonce _ _ _ => InvalidTransactionNonce (ReasonInvalidTx e)
  | ValidationFailure _ _ error => ApiValidationFailure (ReasonError error)
  end.

Definition api_of_pool (e : PoolError) : StarknetApiError :=
  match e with
  | InvalidTransaction e => api_of_invalid_tx e
  | Internal e => UnexpectedError (ReasonError e)
  end.

(** ** Errors of a remote node, in starknet-rs's terms *)
Inductive StarknetRsError :=
  | RsFailedToReceiveTransaction | RsContractNotFound | RsEntrypointNotFound | RsBlockNotFound
  | RsInvalidTransactionIndex | RsClassHashNotFound | RsTransactionHashNotFound | RsPageSizeTooBig
  | RsNoBlocks | RsInvalidContinuationToken | RsTooManyKeysInFilter
  | RsContractError
  | RsTransactionExecutionError (transaction_index : Z)
  | RsStorageProofNotSupported | RsClassAlreadyDeclared | RsInvalidTransactionNonce
  | RsInsufficientResourcesForValidate | RsInsufficientAccountBalance
  | RsValidationFailure (reason : Z)
  | RsCompilationFailed (reason : Z)
  | RsContractClassSizeIsTooLarge | RsNonAccount | RsDuplicateTx | RsCompiledClassHashMismatch
  | RsUnsupportedTxVersion | RsUnsupportedContractClassVersion
  | RsUnexpectedError (reason : Z)
  | RsNoTraceAvailable.
Inductive StarknetRsProviderError :=
  | RsStarknetError (e : StarknetRsError)
  | RsRateLimited
  | RsArrayLengthMismatch
  | RsOther (e : Z).

Definition api_of_starknet_rs (e : StarknetRsError) : StarknetApiError :=
  match e with
  | RsFailedToReceiveTransaction => FailedToReceiveTxn
  | RsNoBlocks => NoBlocks
  | RsNonAccount => ApiNonAccount
  | RsBlockNotFound => BlockNotFound
  | RsPageSizeTooBig => PageSizeTooBig 0 0
  | RsDuplicateTx => DuplicateTransaction
  | RsContractNotFound => ContractNotFound
  | RsClassHashNotFound => ClassHashNotFound
  | RsTooManyKeysInFilter => TooManyKeysInFilter
  | RsInvalidTransactionIndex => InvalidTxnIndex
  | RsTransactionHashNotFound => TxnHashNotFound
  | RsClassAlreadyDeclared => ApiClassAlreadyDeclared
  | RsUnexpectedError reason => UnexpectedError (ReasonError reason)
  | RsInvalidContinuationToken => InvalidContinuationToken
  | RsUnsupportedTxVersion => UnsupportedTransactionVersion
  | RsCompiledClassHashMismatch => CompiledClassHashMismatch
  | RsCompilationFailed reason => CompilationFailed (ReasonError reason)
  | RsInsufficientAccountBalance => InsufficientAccountBalance
  | RsValidationFailure reason => ApiValidationFailure (ReasonError reason)
  | RsContractClassSizeIsTooLarge => ContractClassSizeIsTooLarge
  | RsEntrypointNotFound => EntrypointNotFound
  | RsContractError => ContractError (ReasonText EmptyString)
  | RsTransactionExecutionError i => TransactionExecutionError i (ReasonText EmptyString)
  | RsInvalidTransactionNonce => InvalidTransactionNonce (ReasonText EmptyString)
  | RsUnsupportedContractClassVersion => UnsupportedContractClassVersion
  | RsNoTraceAvailable => UnexpectedError (ReasonText "No trace available")
  | RsStorageProofNotSupported => StorageProofNotSupported 0 0
  | RsInsufficientResourcesForValidate => InsufficientResourcesForValidate
  end.

Definition api_of_rs_provider (e : StarknetRsProviderError) : StarknetApiError :=
  match e with
  | RsStarknetError e => api_of_starknet_rs e
  | RsOther e => UnexpectedError (ReasonError e)
  | RsArrayLengthMismatch => UnexpectedError (ReasonText "Forking client: Array length mismatch")
  | RsRateLimited => UnexpectedError (ReasonText "Forking client: Rate limited")
  end.

(** The kinds of invalid transactions are told apart by the code alone. *)
Lemma invalid_tx_codes_distinct e1 e2 :
  error_code (api_of_invalid_tx e1) = error_code (api_of_invalid_tx e2) ->
  match e1, e2 with
  | InsufficientFunds _, InsufficientFunds _ | ClassAlreadyDeclared _, ClassAlreadyDeclared _
  | InsufficientIntrinsicFee _, InsufficientIntrinsicFee _ | NonAccount _, NonAccount _
  | InvalidNonce _ _ _, InvalidNonce _ _ _ | ValidationFailure _ _ _, ValidationFailure _ _ _ => True
  | _, _ => False
  end.
Proof. by destruct e1, e2. Qed.
