(* ===== verification/RpcEvents.v ===== *)
(** * [starknet_getEvents]

    [StarknetApi::events], [events_inner] and [resolve_event_block_id_if_forked] of
    [rpc/rpc/src/starknet/mod.rs], and the guards of [ForkedClient] they rely on.
    The remote node behind a fork is a parameter. *)

From Stdlib Require Import ZArith Lia String.
From stdpp Require Import base numbers list sets.
From S2P Require Import Prelude Text Felt Tx Version Block Receipt Codec Versioned Mdbx DbProvider DbState ChangeLog DbHistory DbBlocks Events EventPages RpcError.

Inductive BlockTag := Latest | PendingTag.
Inductive BlockIdOrTag :=
  | IdHash (hash : Z)
  | IdNumber (num : Z)
  | IdTag (tag : BlockTag).
Inductive EventBlockId := EventPending | EventNum (num : Z).

Record EventsPage := mkEventsPage {
  page_events : list EmittedEvent;
  page_token : option (list Z);
}.

(** ** The forked client *)
Inductive ForkError :=
  | ForkProvider (e : StarknetRsProviderError)
  | BlockOutOfRange
  | BlockTagNotAllowed
  | UnexpectedPendingData.

Definition api_of_fork (e : ForkError) : StarknetApiError :=
  match e with
  | ForkProvider e => api_of_rs_provider e
  | BlockOutOfRange => BlockNotFound
  | BlockTagNotAllowed => UnexpectedError (ReasonText "Not allowed to use block tag as a block identifier")
  | UnexpectedPendingData => UnexpectedError (ReasonText "Unexpected pending data")
  end.

(** The fork point and the remote node: the number of a block it has with a hash
    ([None]: a pending block), and its event pages. *)
Record ForkedClient := mkForkedClient {
  fork_block : Z;
  remote_block_number : Z -> result ForkError (option Z);
  remote_get_events : Z -> Z -> Filter -> option (list Z) -> Z -> result ForkError EventsPage;
}.

Definition get_block_number_by_hash (c : ForkedClient) (hash : Z) : result ForkError Z :=
  block ← remote_block_number c hash;
  match block with
  | None => Err UnexpectedPendingData
  | Some n => if Z.ltb (fork_block c) n then Err BlockOutOfRange else Ok n
  end.

Definition get_events (c : ForkedClient) (from to : Z) (filter : Filter) (token : option (list Z))
    (chunk_size : Z) : result ForkError EventsPage :=
  if Z.ltb (fork_block c) from || Z.ltb (fork_block c) to then Err BlockOutOfRange
  else remote_get_events c from to filter token chunk_size.

Section Api.
Context `{MD : Mdbx} `{RT : RoaringTreemap} `{FP : FeltPostcard} {C R X : Type}.
Context (events_of : R -> list Event).

Definition pending_block_id (db : Db C R X) : ProviderResult (option (Z * Z)) := Ok None.

Definition convert_block_id (db : Db C R X) (id : BlockIdOrTag) : ProviderResult (option Z) :=
  match id with
  | IdNumber number => Ok (Some number)
  | IdHash hash => block_number_by_hash db hash
  | IdTag Latest => Some <$> latest_number db
  | IdTag PendingTag =>
      pending ← pending_block_id db;
      match pending with
      | Some (num, _) => Ok (Some num)
      | None => Some <$> latest_number db
      end
  end.

(** What the handler reads: the database, the forked client, the pending block (in
    interval mode) and the largest page allowed. *)
Record Api := mkApi {
  api_db : Db C R X;
  api_fork : option ForkedClient;
  api_pending : option (PendingBlock R);
  max_event_page_size : option Z;
}.

Definition resolve_event_block_id_if_forked (api : Api) (id : BlockIdOrTag)
    : result StarknetApiError EventBlockId :=
  match id with
  | IdTag PendingTag => Ok EventPending
  | IdNumber num => Ok (EventNum num)
  | IdTag Latest =>
      num ← map_err api_of_provider (convert_block_id (api_db api) id);
      num ← ok_or num BlockNotFound;
      Ok (EventNum num)
  | IdHash hash =>
      num ← map_err api_of_provider (convert_block_id (api_db api) id);
      match num with
      | Some num => Ok (EventNum num)
      | None =>
          match api_fork api with
          | Some client =>
              num ← map_err api_of_fork (get_block_number_by_hash client hash); Ok (EventNum num)
          | None => Err BlockNotFound
          end
      end
  end.

(** The part of a query that goes to the forked network: the events it brought,
    the page to return at once if it is not finished, and the first local block. *)
Definition forked_events (api : Api) (from to : Z) (filter : Filter)
    (token : option MaybeForkedContinuationToken) (chunk_size : Z)
    : result StarknetApiError (list EmittedEvent * option EventsPage * Z) :=
  match api_fork api with
  | None => Ok ([], None, from)
  | Some client =>
      let first_local := fork_block client + 1 in
      if Z.leb from (fork_block client) then
        let to := if Z.leb to (fork_block client) then to else fork_block client in
        let forked_token :=
          match token with
          | None => Some None
          | Some (Token _) => None
          | Some (Forked t) => Some (Some t)
          end in
        match forked_token with
        | None => Ok ([], None, first_local)
        | Some token =>
            res ← map_err api_of_fork (get_events client from to filter token chunk_size);
            match page_token res with
            | Some t =>
                Ok (page_events res,
                    Some (mkEventsPage (page_events res) (Some (maybe_forked_display (Forked t)))),
                    first_local)
            | None => Ok (page_events res, None, first_local)
            end
        end
      else Ok ([], None, first_local)
  end.

Definition token_of_cursor (c : Cursor) : list Z := token_display (into_rpc_cursor c).

Definition events_inner (api : Api) (from_block to_block : BlockIdOrTag) (filter : Filter)
    (continuation_token : option MaybeForkedContinuationToken) (chunk_size : Z)
    : result StarknetApiError EventsPage :=
  from ← resolve_event_block_id_if_forked api from_block;
  to ← resolve_event_block_id_if_forked api to_block;
  let cursor := t ← continuation_token; cursor_of_token <$> to_token t in
  let chunk := Z.to_nat chunk_size in
  let src := db_event_source (api_db api) in
  match from, to with
  | EventNum from, EventNum to =>
      '(events, early, first) ← forked_events api from to filter continuation_token chunk_size;
      match early with
      | Some page => Ok page
      | None =>
          '(cursor, events) ← map_err api_of_event
            (fetch_events_at_blocks events_of filter chunk src first to cursor events);
          Ok (mkEventsPage events (token_of_cursor <$> cursor))
      end
  | EventNum from, EventPending =>
      (* the fork is queried up to its last block *)
      let fork_to := match api_fork api with Some c => fork_block c | None => from end in
      '(events, early, first) ← forked_events api from fork_to filter continuation_token chunk_size;
      match early with
      | Some page => Ok page
      | None =>
          latest ← map_err api_of_provider (latest_number (api_db api));
          '(int_cursor, events) ← map_err api_of_event
            (fetch_events_at_blocks events_of filter chunk src first latest cursor events);
          match int_cursor with
          | Some c => Ok (mkEventsPage events (Some (token_of_cursor c)))
          | None =>
              match api_pending api with
              | Some pending =>
                  let '(cursor, events) :=
                    fetch_pending_events events_of filter chunk pending cursor events in
                  Ok (mkEventsPage events (Some (token_of_cursor cursor)))
              | None =>
                  Ok (mkEventsPage events (Some (token_of_cursor (cursor_new_block (latest + 1)))))
              end
          end
      end
  | EventPending, EventPending =>
      match api_pending api with
      | Some pending =>
          let '(cursor, events) := fetch_pending_events events_of filter chunk pending cursor [] in
          Ok (mkEventsPage events (Some (token_of_cursor cursor)))
      | None =>
          latest ← map_err api_of_provider (latest_number (api_db api));
          Ok (mkEventsPage [] (Some (token_of_cursor (cursor_new_block latest))))
      end
  | EventPending, EventNum _ =>
      Err (UnexpectedError
             (ReasonText "Invalid block range; `from` block must be lower than `to`"))
  end.

(** The handler: the page size is checked, the range defaults to everything, the
    token is parsed.  The test on the keys is the source's: a list of length one
    that is empty. *)
Definition events (api : Api) (from_block to_block : option BlockIdOrTag) (address : option Z)
    (keys : option (list (list Z))) (continuation_token : option (list Z)) (chunk_size : Z)
    : result StarknetApiError EventsPage :=
  match max_event_page_size api with
  | Some max_size => if Z.ltb max_size chunk_size then Err (PageSizeTooBig chunk_size max_size)
                     else Ok tt
  | None => Ok tt
  end ≫= fun _ =>
  let from := default (IdNumber 0) from_block in
  let to := default (IdTag PendingTag) to_block in
  let keys :=
    match keys with
    | Some ks => if Nat.eqb (length ks) 1 && (match ks with [] => true | _ => false end)
                 then None else Some ks
    | None => None
    end in
  token ← match continuation_token with
          | Some t => t ← map_err api_of_token (maybe_forked_parse t); Ok (Some t)
          | None => Ok None
          end;
  events_inner api from to (mkFilter address keys) token chunk_size.
End Api.

(** ** What the handler does *)
Section Behaviour.
Context `{MD : Mdbx} `{RT : RoaringTreemap} `{FP : FeltPostcard} {C R X : Type}.
Context (events_of : R -> list Event).

(** A page that is not asked for with too large a chunk never is one. *)
Lemma events_page_too_big (api : @Api MD RT C R X) from to address keys token chunk_size max_size :
  max_event_page_size api = Some max_size -> max_size < chunk_size ->
  events events_of api from to address keys token chunk_size
  = Err (PageSizeTooBig chunk_size max_size).
Proof.
  intros Hm Hlt. unfold events. rewrite Hm, (proj2 (Z.ltb_lt _ _) Hlt). done.
Qed.

(** Without a fork, a query over numbered blocks is the paging of the database. *)
Lemma events_inner_local (api : @Api MD RT C R X) from to filter token chunk_size :
  api_fork api = None ->
  events_inner events_of api (IdNumber from) (IdNumber to) filter token chunk_size
  = '(c, events) ← map_err api_of_event
      (fetch_events_at_blocks events_of filter (Z.to_nat chunk_size)
         (db_event_source (api_db api)) from to (t ← token; cursor_of_token <$> to_token t) []);
    Ok (mkEventsPage events (token_of_cursor <$> c)).
Proof. intros Hf. unfold events_inner, forked_events. simpl. by rewrite Hf. Qed.

(** On a forked node a range that starts above the fork point is widened: the
    query is answered from the block after the fork point on, whatever first block
    was asked for. *)
Theorem fork_widens_range (api : @Api MD RT C R X) client from to filter chunk_size :
  api_fork api = Some client -> fork_block client < from ->
  events_inner events_of api (IdNumber from) (IdNumber to) filter None chunk_size
  = '(c, events) ← map_err api_of_event
      (fetch_events_at_blocks events_of filter (Z.to_nat chunk_size)
         (db_event_source (api_db api)) (fork_block client + 1) to None []);
    Ok (mkEventsPage events (token_of_cursor <$> c)).
Proof.
  intros Hf Hlt. unfold events_inner, forked_events. simpl. rewrite Hf.
  by rewrite (proj2 (Z.leb_gt _ _) Hlt).
Qed.
End Behaviour.

(** ** Concrete nodes *)
Definition one_event (r : Z) : list Event := [mkEvent r [] []].

Definition sample_fork : ForkedClient :=
  mkForkedClient 4 (fun _ => Ok None) (fun _ _ _ _ _ => Ok (mkEventsPage [] None)).

(** Local blocks 5 and 6 above a fork at block 4. *)
Definition forked_api : @Api gmap_mdbx sorted_roaring unit Z Z := mkApi
  (db_of [sample_insertion 5 [51] sample_updates; sample_insertion 6 [61] sample_updates])
  (Some sample_fork) None None.

(** Asking for block 6 only also returns the event of block 5. *)
Lemma fork_widens_range_witness :
  events_inner one_event forked_api (IdNumber 6) (IdNumber 6) (mkFilter None None) None 10
  = Ok (mkEventsPage
          [emit (Some 5) (Some 105) 51 (mkEvent 1051 [] []);
           emit (Some 6) (Some 106) 61 (mkEvent 1061 [] [])] None).
Proof.
  rewrite (fork_widens_range one_event forked_api sample_fork 6 6 (mkFilter None None) 10);
    [vm_compute; reflexivity|reflexivity|reflexivity].
Defined.

(** Block 0 with two transactions, and a pending block with one. *)
Definition pending_api (pending : list (Z * option Z)) : @Api gmap_mdbx sorted_roaring unit Z Z :=
  mkApi (db_of [sample_insertion 0 [11; 12] sample_updates]) None
    (Some (mkPendingBlock 1 pending)) None.

Definition follow (api : @Api gmap_mdbx sorted_roaring unit Z Z) (token : option (list Z))
    (chunk : Z) : result StarknetApiError EventsPage :=
  events one_event api None None None None token chunk.

(** Following the tokens up to the pending block can lose events.  The cursor of
    a stored block is also applied to the pending one: with pages of one event, the
    third event of this node is on no page, though a single larger page has it.
    And the cursor after a pending block counts failed transactions while fetching
    does not: an event that is emitted later is skipped. *)
Theorem pending_events_lost :
  let e11 := emit (Some 0) (Some 100) 11 (mkEvent 1011 [] []) in
  let e12 := emit (Some 0) (Some 100) 12 (mkEvent 1012 [] []) in
  let e21 := emit None None 21 (mkEvent 1021 [] []) in
  let e23 := emit None None 23 (mkEvent 1023 [] []) in
  let api := pending_api [(21, Some 1021)] in
  let t1 := token_of_cursor (cursor_new 0 1 0) in
  let t2 := token_of_cursor (cursor_new 1 1 0) in
  (follow api None 10 = Ok (mkEventsPage [e11; e12; e21] (Some t2)) /\
   follow api None 1 = Ok (mkEventsPage [e11] (Some t1)) /\
   follow api (Some t1) 1 = Ok (mkEventsPage [e12] (Some t2)) /\
   follow api (Some t2) 1 = Ok (mkEventsPage [] (Some t2))) /\
  (let t := token_of_cursor (cursor_new 1 2 0) in
   follow (pending_api [(21, Some 1021); (22, None)]) None 10
     = Ok (mkEventsPage [e11; e12; e21] (Some t)) /\
   follow (pending_api [(21, Some 1021); (22, None); (23, Some 1023)]) None 10
     = Ok (mkEventsPage [e11; e12; e21; e23] (Some (token_of_cursor (cursor_new 1 3 0)))) /\
   follow (pending_api [(21, Some 1021); (22, None); (23, Some 1023)]) (Some t) 10
     = Ok (mkEventsPage [] (Some (token_of_cursor (cursor_new 1 3 0))))).
Proof. vm_compute. repeat split. Qed.
