(* ===== verification/Gateway.v ===== *)
(** * The feeder gateway's types and their conversion

    [feeder-gateway/src/types/transaction.rs] and [mod.rs]: what the gateway
    returns and how it becomes Katana's transactions and state updates. *)

From Stdlib Require Import ZArith Lia.
From stdpp Require Import base numbers list sets.
From S2P Require Import Prelude BTreeMap Felt Tx Version Block Receipt Mdbx DbProvider.

(** The module keeps the gateway's names apart from the primitives'. *)
Module Gw.
Inductive DataAvailabilityMode := L1 | L2.
Definition da_mode_deserialize (value : Z) : option DataAvailabilityMode :=
  if Z.eqb value 0 then Some L1 else if Z.eqb value 1 then Some L2 else None.

Record ResourceBounds := { max_amount : Z; max_price_per_unit : Z }.
Record ResourceBoundsMapping := {
  l1_gas : ResourceBounds; l2_gas : ResourceBounds; l1_data_gas : option ResourceBounds;
}.

Record RawL1HandlerTx := {
  rl_nonce : option Z; rl_version : Z; rl_calldata : list Z; rl_contract_address : Z;
  rl_entry_point_selector : Z;
}.
Record RawInvokeTx := {
  ri_sender_address : Z; ri_nonce : option Z; ri_entry_point_selector : option Z;
  ri_calldata : list Z; ri_signature : list Z; ri_max_fee : option Z;
  ri_resource_bounds : option ResourceBoundsMapping; ri_tip : option Z;
  ri_paymaster_data : option (list Z); ri_account_deployment_data : option (list Z);
  ri_nonce_da_mode : option DataAvailabilityMode; ri_fee_da_mode : option DataAvailabilityMode;
  ri_version : Z;
}.
Record RawDeclareTx := {
  rd_sender_address : Z; rd_nonce : Z; rd_signature : list Z; rd_class_hash : Z;
  rd_compiled_class_hash : option Z; rd_max_fee : option Z;
  rd_resource_bounds : option ResourceBoundsMapping; rd_tip : option Z;
  rd_paymaster_data : option (list Z); rd_account_deployment_data : option (list Z);
  rd_nonce_da_mode : option DataAvailabilityMode; rd_fee_da_mode : option DataAvailabilityMode;
  rd_version : Z;
}.
Record RawDeployAccountTx := {
  ra_nonce : Z; ra_signature : list Z; ra_class_hash : Z; ra_contract_address : option Z;
  ra_contract_address_salt : Z; ra_constructor_calldata : list Z; ra_max_fee : option Z;
  ra_resource_bounds : option ResourceBoundsMapping; ra_tip : option Z;
  ra_paymaster_data : option (list Z); ra_nonce_da_mode : option DataAvailabilityMode;
  ra_fee_da_mode : option DataAvailabilityMode; ra_version : Z;
}.
Inductive TypedTransaction :=
  | Deploy (tx : DeployTx)
  | GwDeclare (tx : RawDeclareTx)
  | L1Handler (tx : RawL1HandlerTx)
  | InvokeFunction (tx : RawInvokeTx)
  | DeployAccount (tx : RawDeployAccountTx).
Record ConfirmedTransaction := { ct_hash : Z; ct_tx : TypedTransaction }.

Inductive TxTryFromError :=
  | UnsupportedVersion (type : TxType) (version : Z)
  | MissingTip | MissingPaymasterData | MissingEntryPointSelector | MissingNonce | MissingMaxFee
  | MissingResourceBounds | MissingAccountDeploymentData | MissingNonceDA | MissingFeeDA
  | MissingCompiledClassHash.

(** ** Conversions *)
Definition da_mode_into (m : DataAvailabilityMode) : Tx.DataAvailabilityMode :=
  match m with L1 => DaL1 | L2 => DaL2 end.

Definition resource_bounds_into (b : ResourceBounds) : Tx.ResourceBounds :=
  {| Tx.max_amount := max_amount b; Tx.max_price_per_unit := max_price_per_unit b |}.

Definition bounds_mapping_into (bounds : ResourceBoundsMapping) : Tx.ResourceBoundsMapping :=
  match l1_data_gas bounds with
  | Some data => AllBounds {| Tx.l1_gas := resource_bounds_into (l1_gas bounds);
                              Tx.l2_gas := resource_bounds_into (l2_gas bounds);
                              Tx.l1_data_gas := resource_bounds_into data |}
  | None => L1Gas (resource_bounds_into (l1_gas bounds))
  end.

Definition ChainId_default : ChainId := Id 0.

Definition invoke_try_from (value : RawInvokeTx) : result TxTryFromError InvokeTx :=
  if Z.eqb 0 (ri_version value) then
    max_fee ← ok_or (ri_max_fee value) MissingMaxFee;
    entry_point_selector ← ok_or (ri_entry_point_selector value) MissingEntryPointSelector;
    Ok (InvokeV0 {| iv0_calldata := ri_calldata value; iv0_signature := ri_signature value;
                    iv0_contract_address := ri_sender_address value; iv0_max_fee := max_fee;
                    iv0_entry_point_selector := entry_point_selector |})
  else if Z.eqb 1 (ri_version value) then
    nonce ← ok_or (ri_nonce value) MissingNonce;
    max_fee ← ok_or (ri_max_fee value) MissingMaxFee;
    Ok (InvokeV1 {| iv1_chain_id := ChainId_default; iv1_nonce := nonce;
                    iv1_calldata := ri_calldata value; iv1_signature := ri_signature value;
                    iv1_max_fee := max_fee; iv1_sender_address := ri_sender_address value |})
  else if Z.eqb 3 (ri_version value) then
    tip ← ok_or (ri_tip value) MissingTip;
    paymaster_data ← ok_or (ri_paymaster_data value) MissingPaymasterData;
    resource_bounds ← ok_or (ri_resource_bounds value) MissingResourceBounds;
    account_deployment_data ←
      ok_or (ri_account_deployment_data value) MissingAccountDeploymentData;
    nonce_da ← ok_or (ri_nonce_da_mode value) MissingNonceDA;
    fee_da ← ok_or (ri_fee_da_mode value) MissingFeeDA;
    nonce ← ok_or (ri_nonce value) MissingNonce;
    Ok (InvokeV3 {| iv3_chain_id := ChainId_default; iv3_tip := tip;
                    iv3_paymaster_data := paymaster_data; iv3_nonce := nonce;
                    iv3_calldata := ri_calldata value; iv3_signature := ri_signature value;
                    iv3_sender_address := ri_sender_address value;
                    iv3_resource_bounds := bounds_mapping_into resource_bounds;
                    iv3_account_deployment_data := account_deployment_data;
                    iv3_fee_da_mode := da_mode_into fee_da;
                    iv3_nonce_da_mode := da_mode_into nonce_da |})
  else Err (UnsupportedVersion TInvoke (ri_version value)).

Definition declare_try_from (value : RawDeclareTx) : result TxTryFromError DeclareTx :=
  if Z.eqb 0 (rd_version value) then
    max_fee ← ok_or (rd_max_fee value) MissingMaxFee;
    Ok (DeclareV0 {| dv0_signature := rd_signature value; dv0_chain_id := ChainId_default;
                     dv0_class_hash := rd_class_hash value;
                     dv0_sender_address := rd_sender_address value; dv0_max_fee := max_fee |})
  else if Z.eqb 1 (rd_version value) then
    max_fee ← ok_or (rd_max_fee value) MissingMaxFee;
    Ok (DeclareV1 {| dv1_chain_id := ChainId_default;
                     dv1_sender_address := rd_sender_address value; dv1_nonce := rd_nonce value;
                     dv1_signature := rd_signature value; dv1_class_hash := rd_class_hash value;
                     dv1_max_fee := max_fee |})
  else if Z.eqb 2 (rd_version value) then
    compiled_class_hash ← ok_or (rd_compiled_class_hash value) MissingCompiledClassHash;
    max_fee ← ok_or (rd_max_fee value) MissingMaxFee;
    Ok (DeclareV2 {| dv2_chain_id := ChainId_default;
                     dv2_sender_address := rd_sender_address value; dv2_nonce := rd_nonce value;
                     dv2_signature := rd_signature value; dv2_class_hash := rd_class_hash value;
                     dv2_compiled_class_hash := compiled_class_hash; dv2_max_fee := max_fee |})
  else if Z.eqb 3 (rd_version value) then
    resource_bounds ← ok_or (rd_resource_bounds value) MissingResourceBounds;
    tip ← ok_or (rd_tip value) MissingTip;
    paymaster_data ← ok_or (rd_paymaster_data value) MissingPaymasterData;
    account_deployment_data ←
      ok_or (rd_account_deployment_data value) MissingAccountDeploymentData;
    nonce_da ← ok_or (rd_nonce_da_mode value) MissingNonceDA;
    fee_da ← ok_or (rd_fee_da_mode value) MissingFeeDA;
    compiled_class_hash ← ok_or (rd_compiled_class_hash value) MissingCompiledClassHash;
    Ok (DeclareV3 {| dv3_chain_id := ChainId_default;
                     dv3_sender_address := rd_sender_address value; dv3_nonce := rd_nonce value;
                     dv3_signature := rd_signature value; dv3_class_hash := rd_class_hash value;
                     dv3_compiled_class_hash := compiled_class_hash;
                     dv3_resource_bounds := bounds_mapping_into resource_bounds; dv3_tip := tip;
                     dv3_paymaster_data := paymaster_data;
                     dv3_account_deployment_data := account_deployment_data;
                     dv3_nonce_da_mode := da_mode_into nonce_da;
                     dv3_fee_da_mode := da_mode_into fee_da |})
  else Err (UnsupportedVersion TDeclare (rd_version value)).

Definition deploy_account_try_from (value : RawDeployAccountTx)
    : result TxTryFromError DeployAccountTx :=
  if Z.eqb 1 (ra_version value) then
    max_fee ← ok_or (ra_max_fee value) MissingMaxFee;
    Ok (DeployAccountV1 {| da1_chain_id := ChainId_default; da1_nonce := ra_nonce value;
                           da1_signature := ra_signature value;
                           da1_class_hash := ra_class_hash value;
                           da1_contract_address := default 0 (ra_contract_address value);
                           da1_contract_address_salt := ra_contract_address_salt value;
                           da1_constructor_calldata := ra_constructor_calldata value;
                           da1_max_fee := max_fee |})
  else if Z.eqb 3 (ra_version value) then
    resource_bounds ← ok_or (ra_resource_bounds value) MissingResourceBounds;
    tip ← ok_or (ra_tip value) MissingTip;
    paymaster_data ← ok_or (ra_paymaster_data value) MissingPaymasterData;
    nonce_da ← ok_or (ra_nonce_da_mode value) MissingNonceDA;
    fee_da ← ok_or (ra_fee_da_mode value) MissingFeeDA;
    Ok (DeployAccountV3 {| da3_chain_id := ChainId_default; da3_nonce := ra_nonce value;
                           da3_signature := ra_signature value;
                           da3_class_hash := ra_class_hash value;
                           da3_contract_address := default 0 (ra_contract_address value);
                           da3_contract_address_salt := ra_contract_address_salt value;
                           da3_constructor_calldata := ra_constructor_calldata value;
                           da3_resource_bounds := bounds_mapping_into resource_bounds;
                           da3_tip := tip; da3_paymaster_data := paymaster_data;
                           da3_nonce_da_mode := da_mode_into nonce_da;
                           da3_fee_da_mode := da_mode_into fee_da |})
  else Err (UnsupportedVersion TDeployAccount (ra_version value)).

Definition l1_handler_from (value : RawL1HandlerTx) : L1HandlerTx :=
  {| l1h_version := rl_version value; l1h_calldata := rl_calldata value;
     l1h_chain_id := ChainId_default; l1h_message_hash := 0; l1h_paid_fee_on_l1 := 0;
     l1h_nonce := default 0 (rl_nonce value); l1h_contract_address := rl_contract_address value;
     l1h_entry_point_selector := rl_entry_point_selector value |}.

Definition tx_try_from (tx : ConfirmedTransaction) : result TxTryFromError TxWithHash :=
  transaction ←
    match ct_tx tx with
    | Deploy tx => Ok (TxDeploy tx)
    | GwDeclare tx => tx ← declare_try_from tx; Ok (TxDeclare tx)
    | L1Handler tx => Ok (TxL1Handler (l1_handler_from tx))
    | InvokeFunction tx => tx ← invoke_try_from tx; Ok (TxInvoke tx)
    | DeployAccount tx => tx ← deploy_account_try_from tx; Ok (TxDeployAccount tx)
    end;
  Ok {| twh_hash := ct_hash tx; twh_transaction := transaction |}.

(** ** State diffs *)
Record StorageDiff := { sd_key : Z; sd_value : Z }.
Record DeployedContract := { dc_address : Z; dc_class_hash : Z }.
Record DeclaredContract := { dcl_class_hash : Z; dcl_compiled_class_hash : Z }.
Record StateDiff := {
  diff_storage_diffs : list (Z * list StorageDiff);   (* BTreeMap *)
  diff_deployed_contracts : list DeployedContract;
  diff_old_declared_contracts : list Z;
  diff_declared_classes : list DeclaredContract;
  diff_nonces : list (Z * Z);                         (* BTreeMap *)
  diff_replaced_classes : list DeployedContract;
}.
Record StateUpdate := {
  su_block_hash : option Z; su_new_root : option Z; su_old_root : Z; su_state_diff : StateDiff;
}.

Definition state_diff_into (value : StateDiff) : StateUpdates := {|
  storage_updates :=
    btree_collect (map (fun e =>
      (e.1, btree_collect (map (fun d => (sd_key d, sd_value d)) e.2))) (diff_storage_diffs value));
  declared_classes :=
    btree_collect (map (fun c => (dcl_class_hash c, dcl_compiled_class_hash c))
                     (diff_declared_classes value));
  replaced_classes :=
    btree_collect (map (fun c => (dc_address c, dc_class_hash c)) (diff_replaced_classes value));
  deployed_contracts :=
    btree_collect (map (fun c => (dc_address c, dc_class_hash c)) (diff_deployed_contracts value));
  nonce_updates := diff_nonces value;
  deprecated_declared_classes := btree_set_collect (diff_old_declared_contracts value);
|}.

(** ** Receipts and blocks *)
Inductive ExecutionStatus := Succeeded | Reverted.
Record ConfirmedReceipt := {
  cr_transaction_hash : Z; cr_transaction_index : Z; cr_execution_status : option ExecutionStatus;
  cr_revert_error : option (list Z); cr_l2_to_l1_messages : list MessageToL1;
  cr_events : list Event; cr_actual_fee : Z;
}.
Record ResourcePrice := { price_in_fri : Z; price_in_wei : Z }.
Inductive BlockStatus := Pending | Aborted | StatusReverted | AcceptedOnL2 | AcceptedOnL1.
Record Block := {
  gb_block_hash : option Z; gb_block_number : option Z; gb_parent_block_hash : Z;
  gb_timestamp : Z; gb_sequencer_address : option Z; gb_state_root : option Z;
  gb_transaction_commitment : option Z; gb_event_commitment : option Z; gb_status : BlockStatus;
  gb_l1_da_mode : L1DataAvailabilityMode; gb_l2_gas_price : ResourcePrice;
  gb_l1_gas_price : ResourcePrice; gb_l1_data_gas_price : ResourcePrice;
  gb_transactions : list ConfirmedTransaction; gb_transaction_receipts : list ConfirmedReceipt;
  gb_starknet_version : option ProtocolVersion;
}.
Definition default_l2_gas_price : ResourcePrice := {| price_in_fri := 1; price_in_wei := 1 |}.
Record StateUpdateWithBlock := { sub_state_update : StateUpdate; sub_block : Block }.
End Gw.

(** ** What a conversion keeps, and when it succeeds *)
Definition gw_type (tx : Gw.TypedTransaction) : TxType :=
  match tx with
  | Gw.Deploy _ => TDeploy
  | Gw.GwDeclare _ => TDeclare
  | Gw.L1Handler _ => TL1Handler
  | Gw.InvokeFunction _ => TInvoke
  | Gw.DeployAccount _ => TDeployAccount
  end.
Definition gw_version (tx : Gw.TypedTransaction) : Z :=
  match tx with
  | Gw.Deploy tx => dep_version tx
  | Gw.GwDeclare tx => Gw.rd_version tx
  | Gw.L1Handler tx => Gw.rl_version tx
  | Gw.InvokeFunction tx => Gw.ri_version tx
  | Gw.DeployAccount tx => Gw.ra_version tx
  end.

Definition given {A} (o : option A) : bool := match o with Some _ => true | None => false end.

(** A supported version with every field that version needs. *)
Definition gw_complete (tx : Gw.TypedTransaction) : bool :=
  match tx with
  | Gw.Deploy _ | Gw.L1Handler _ => true
  | Gw.InvokeFunction tx =>
      match Gw.ri_version tx with
      | 0 => given (Gw.ri_max_fee tx) && given (Gw.ri_entry_point_selector tx)
      | 1 => given (Gw.ri_nonce tx) && given (Gw.ri_max_fee tx)
      | 3 => given (Gw.ri_nonce tx) && given (Gw.ri_tip tx) && given (Gw.ri_paymaster_data tx)
             && given (Gw.ri_resource_bounds tx) && given (Gw.ri_account_deployment_data tx)
             && given (Gw.ri_nonce_da_mode tx) && given (Gw.ri_fee_da_mode tx)
      | _ => false
      end
  | Gw.GwDeclare tx =>
      match Gw.rd_version tx with
      | 0 | 1 => given (Gw.rd_max_fee tx)
      | 2 => given (Gw.rd_compiled_class_hash tx) && given (Gw.rd_max_fee tx)
      | 3 => given (Gw.rd_tip tx) && given (Gw.rd_paymaster_data tx)
             && given (Gw.rd_resource_bounds tx) && given (Gw.rd_account_deployment_data tx)
             && given (Gw.rd_nonce_da_mode tx) && given (Gw.rd_fee_da_mode tx)
             && given (Gw.rd_compiled_class_hash tx)
      | _ => false
      end
  | Gw.DeployAccount tx =>
      match Gw.ra_version tx with
      | 1 => given (Gw.ra_max_fee tx)
      | 3 => given (Gw.ra_tip tx) && given (Gw.ra_paymaster_data tx)
             && given (Gw.ra_resource_bounds tx) && given (Gw.ra_nonce_da_mode tx)
             && given (Gw.ra_fee_da_mode tx)
      | _ => false
      end
  end.

Ltac gw_fields :=
  repeat match goal with
  | |- context [ok_or ?o _] => destruct o; cbn [ok_or mbind result_bind given andb]
  end.

Lemma invoke_try_from_spec tx :
  if gw_complete (Gw.InvokeFunction tx)
  then exists t, Gw.invoke_try_from tx = Ok t /\ tx_version (TxInvoke t) = Gw.ri_version tx
  else exists e, Gw.invoke_try_from tx = Err e.
Proof.
  cbn [gw_complete]. unfold Gw.invoke_try_from.
  destruct (Z.eqb_spec 0 (Gw.ri_version tx)) as [<-|]; [gw_fields; eauto|].
  destruct (Z.eqb_spec 1 (Gw.ri_version tx)) as [<-|]; [gw_fields; eauto|].
  destruct (Z.eqb_spec 3 (Gw.ri_version tx)) as [<-|]; [gw_fields; eauto|].
  destruct (Gw.ri_version tx) as [|[[|[]|]|[]|]|]; eauto; lia.
Qed.

Lemma declare_try_from_spec tx :
  if gw_complete (Gw.GwDeclare tx)
  then exists t, Gw.declare_try_from tx = Ok t /\ tx_version (TxDeclare t) = Gw.rd_version tx
  else exists e, Gw.declare_try_from tx = Err e.
Proof.
  cbn [gw_complete]. unfold Gw.declare_try_from.
  destruct (Z.eqb_spec 0 (Gw.rd_version tx)) as [<-|]; [gw_fields; eauto|].
  destruct (Z.eqb_spec 1 (Gw.rd_version tx)) as [<-|]; [gw_fields; eauto|].
  destruct (Z.eqb_spec 2 (Gw.rd_version tx)) as [<-|]; [gw_fields; eauto|].
  destruct (Z.eqb_spec 3 (Gw.rd_version tx)) as [<-|]; [gw_fields; eauto|].
  destruct (Gw.rd_version tx) as [|[[|[]|]|[]|]|]; eauto; lia.
Qed.

Lemma deploy_account_try_from_spec tx :
  if gw_complete (Gw.DeployAccount tx)
  then exists t, Gw.deploy_account_try_from tx = Ok t
         /\ tx_version (TxDeployAccount t) = Gw.ra_version tx
  else exists e, Gw.deploy_account_try_from tx = Err e.
Proof.
  cbn [gw_complete]. unfold Gw.deploy_account_try_from.
  destruct (Z.eqb_spec 1 (Gw.ra_version tx)) as [<-|]; [gw_fields; eauto|].
  destruct (Z.eqb_spec 3 (Gw.ra_version tx)) as [<-|]; [gw_fields; eauto|].
  destruct (Gw.ra_version tx) as [|[[|[]|]|[]|]|]; eauto; lia.
Qed.

(** A transaction of the gateway is converted exactly when its version is
    supported and the fields of that version are there, and then keeps its hash,
    kind and version; otherwise the conversion reports an error. *)
Theorem gateway_tx_conversion tx :
  if gw_complete (Gw.ct_tx tx)
  then exists t, Gw.tx_try_from tx = Ok t /\ twh_hash t = Gw.ct_hash tx
         /\ tx_type (twh_transaction t) = gw_type (Gw.ct_tx tx)
         /\ tx_version (twh_transaction t) = gw_version (Gw.ct_tx tx)
  else exists e, Gw.tx_try_from tx = Err e.
Proof.
  unfold Gw.tx_try_from. destruct (Gw.ct_tx tx) as [t|t|t|t|t].
  - simpl. eauto.
  - pose proof (declare_try_from_spec t) as H. destruct (gw_complete _).
    + destruct H as (t' & -> & Hv). simpl. eauto.
    + destruct H as (e & ->). simpl. eauto.
  - simpl. eauto.
  - pose proof (invoke_try_from_spec t) as H. destruct (gw_complete _).
    + destruct H as (t' & -> & Hv). simpl. eauto.
    + destruct H as (e & ->). simpl. eauto.
  - pose proof (deploy_account_try_from_spec t) as H. destruct (gw_complete _).
    + destruct H as (t' & -> & Hv). simpl. eauto.
    + destruct H as (e & ->). simpl. eauto.
Qed.
