(* ===== verification/Pipeline.v ===== *)
(** * The sync pipeline (sync/pipeline/src/lib.rs, sync/stage/src/lib.rs)

    The pipeline drives an ordered list of stages towards a tip, in chunks of
    blocks, remembering in the provider the last block each stage processed.
    [W] is everything the stages and the provider act on; a stage is its id and
    its [execute]; the provider is the class [StageCheckpointProvider].  The
    theorems are proved against a contract of the stages ([stage_safe] and
    [stage_live]); Stages.v discharges it for the stages of the node. *)

From Stdlib Require Import ZArith Lia.
From stdpp Require Import base numbers list option sets.
From S2P Require Import Prelude DbProvider.

Record StageExecutionInput := mkInput { input_from : Z; input_to : Z }.

(** [Stage]: a trait object of the pipeline. *)
Record Stage (W E : Type) := mkStage {
  stage_id : list Z;
  stage_execute : StageExecutionInput -> W -> result E unit * W;
}.
Arguments mkStage {W E}.
Arguments stage_id {W E}.
Arguments stage_execute {W E}.

Class StageCheckpointProvider (W : Type) := {
  get_checkpoint : list Z -> W -> ProviderResult (option Z);
  put_checkpoint : list Z -> Z -> W -> ProviderResult unit * W;
}.

Inductive PipelineError (E : Type) :=
  | StageNotFound (id : list Z)
  | PipelineStage (e : E)
  | PipelineProvider (e : ProviderError).
Arguments StageNotFound {E}.
Arguments PipelineStage {E}.
Arguments PipelineProvider {E}.

Section Pipeline.
Context {W E : Type} `{!StageCheckpointProvider W}.
Implicit Types (w : W) (stages : list (Stage W E)).

(** The loop of [run_once_until]: [i == last_stage_idx] is that no stage is left.
    (Without stages, [len() - 1] wraps to an index no stage has.) *)
Fixpoint run_once_until stages (to : Z) w : result (PipelineError E) Z * W :=
  match stages with
  | [] => (Ok to, w)
  | stage :: rest =>
      match get_checkpoint (stage_id stage) w with
      | Err e => (Err (PipelineProvider e), w)
      | Ok checkpoint =>
          let checkpoint := default 0 checkpoint in
          if to <=? checkpoint then
            match rest with
            | [] => (Ok checkpoint, w)
            | _ => run_once_until rest to w
            end
          else
            match stage_execute stage (mkInput (checkpoint + 1) to) w with
            | (Err e, w) => (Err (PipelineStage e), w)
            | (Ok _, w) =>
                match put_checkpoint (stage_id stage) to w with
                | (Err e, w) => (Err (PipelineProvider e), w)
                | (Ok _, w) => run_once_until rest to w
                end
            end
      end
  end.

(** The [while let] loop of [run]: it returns the chunk tip it ends with. *)
Fixpoint run_to_tip (fuel : nat) stages (chunk_size tip current_chunk_tip : Z) w
    : option (result (PipelineError E) Z * W) :=
  match fuel with
  | O => None
  | S fuel =>
      match run_once_until stages (Z.min current_chunk_tip tip) w with
      | (Err e, w) => Some (Err e, w)
      | (Ok last_block_processed, w) =>
          if tip <=? last_block_processed then Some (Ok current_chunk_tip, w)
          else run_to_tip fuel stages chunk_size tip
                 (Z.min (wrap64 (last_block_processed + chunk_size)) tip) w
      end
  end.

(** The outer loop of [run], over the values the tip watcher shows it, one per change.
    The pipeline keeps a sender of its watch channel, so [changed] never fails and the
    loop never ends by itself: [Ok] is the run waiting for the next tip, every tip so far
    worked through. *)
Fixpoint run_tips (fuel : nat) stages (chunk_size : Z) (tips : list (option Z))
    (current_chunk_tip : Z) w : option (result (PipelineError E) unit * W) :=
  match tips with
  | [] => Some (Ok tt, w)
  | None :: tips => run_tips fuel stages chunk_size tips current_chunk_tip w
  | Some tip :: tips =>
      match run_to_tip fuel stages chunk_size tip current_chunk_tip w with
      | None => None
      | Some (Err e, w) => Some (Err e, w)
      | Some (Ok current_chunk_tip, w) =>
          run_tips fuel stages chunk_size tips current_chunk_tip w
      end
  end.

Definition run (fuel : nat) stages (chunk_size : Z) (tips : list (option Z)) w :=
  run_tips fuel stages chunk_size tips chunk_size w.
End Pipeline.

(** ** What the pipeline promises *)
Section PipelineProofs.
Context {W E : Type} `{!StageCheckpointProvider W}.
(** [synced id n w]: in [w], the stage [id] has processed exactly the blocks up to [n]. *)
Context (synced : list Z -> Z -> W -> Prop).
(** The highest tip considered. *)
Context (max_tip : Z).
Implicit Types (w : W) (stages pre : list (Stage W E)).

(** The checkpoint of a stage, as the pipeline reads it. *)
Definition cp (s : Stage W E) w : Z :=
  match get_checkpoint (stage_id s) w with Ok c => default 0 c | Err _ => 0 end.

(** The provider stores checkpoints without failing (the errors of the database
    engine are left out), and storing one touches nothing else. *)
Class CheckpointLaws : Prop := {
  get_checkpoint_ok id w : is_ok (get_checkpoint id w) = true;
  put_checkpoint_get id n w w' : put_checkpoint id n w = (Ok tt, w') ->
    forall id', get_checkpoint id' w'
      = if decide (id = id') then Ok (Some n) else get_checkpoint id' w;
  put_checkpoint_ok id n w : is_ok (put_checkpoint id n w).1 = true;
  put_checkpoint_synced id n w id' m : synced id' m w -> synced id' m (put_checkpoint id n w).2;
}.

(** What the pipeline guarantees a stage that runs after [pre]: the range starts where
    the stage stopped, and the earlier stages are past it. *)
Definition ready pre (s : Stage W E) (from to : Z) w : Prop :=
  0 < from <= to /\ to <= max_tip /\ synced (stage_id s) (from - 1) w /\
  forall p, p ∈ pre -> exists m, to <= m /\ synced (stage_id p) m w.

(** Such a stage keeps checkpoints and the work of the others; if it succeeds it has
    processed the blocks it was given, and if it fails it has processed none.  The stages
    of [Stages] keep this where they download before they store and what is downloaded
    converts: the blocks stage stores block by block, and a block that does not convert
    would make it fail with the blocks before it stored. *)
Definition stage_safe pre (s : Stage W E) : Prop :=
  forall from to w r w', ready pre s from to w ->
    stage_execute s (mkInput from to) w = (r, w') ->
    synced (stage_id s) (if is_ok r then to else from - 1) w' /\
    (forall id n, id <> stage_id s -> synced id n w -> synced id n w') /\
    (forall id, get_checkpoint id w' = get_checkpoint id w).

(** A stage that does not fail. *)
Definition stage_live pre (s : Stage W E) : Prop :=
  forall from to w, ready pre s from to w ->
    is_ok (stage_execute s (mkInput from to) w).1 = true.

Fixpoint all_stages (P : list (Stage W E) -> Stage W E -> Prop) pre stages : Prop :=
  match stages with
  | [] => True
  | s :: stages => P pre s /\ all_stages P (pre ++ [s]) stages
  end.

(** The work a stage's checkpoint claims is done, and no stage is ahead of the
    one before it. *)
Record pipeline_inv stages w : Prop := {
  inv_synced s : s ∈ stages -> 0 <= cp s w /\ synced (stage_id s) (cp s w) w;
  inv_ordered i j a b :
    (i < j)%nat -> stages !! i = Some a -> stages !! j = Some b -> cp b w <= cp a w;
}.

Context {laws : CheckpointLaws}.

Lemma cp_put (s s' : Stage W E) n w w' :
  put_checkpoint (stage_id s) n w = (Ok tt, w') ->
  cp s' w' = if decide (stage_id s = stage_id s') then n else cp s' w.
Proof.
  intros Hp. unfold cp. rewrite (put_checkpoint_get _ _ _ _ Hp (stage_id s')).
  by case_decide.
Qed.

Section Fixed.
Context (all : list (Stage W E)) (ids_distinct : NoDup (map stage_id all)).

Lemma id_inj i j a b :
  all !! i = Some a -> all !! j = Some b -> stage_id a = stage_id b -> i = j.
Proof.
  intros Ha Hb Hid. eapply NoDup_lookup; [exact ids_distinct| |].
  - by rewrite list_lookup_fmap, Ha.
  - rewrite list_lookup_fmap, Hb. simpl. by rewrite Hid.
Qed.

(** Writing the checkpoint [to] of the stage after [pre], once its work is done. *)
Lemma inv_put pre (s : Stage W E) rest to w0 w w' :
  all = pre ++ s :: rest -> pipeline_inv all w0 -> cp s w0 < to ->
  (forall p, p ∈ pre -> to <= cp p w0) ->
  (forall a, cp a w = cp a w0) ->
  (forall a, a ∈ all -> synced (stage_id a) (if decide (stage_id s = stage_id a) then to else cp a w0) w) ->
  put_checkpoint (stage_id s) to w = (Ok tt, w') ->
  pipeline_inv all w' /\ forall a, cp a w' = if decide (stage_id s = stage_id a) then to else cp a w0.
Proof.
  intros Hall [Hsync Hord] Hlt Hpre Hcp Hw Hput.
  assert (Hcp' : forall a, cp a w' = if decide (stage_id s = stage_id a) then to else cp a w0).
  { intros a. rewrite (cp_put s a to w w' Hput). by case_decide. }
  split; [|done].
  assert (Hs : all !! length pre = Some s) by (rewrite Hall; by apply list_lookup_middle).
  split.
  - intros a Ha. rewrite Hcp'. destruct (Hsync a Ha) as [Hnn _].
    assert (0 <= cp s w0) by (apply Hsync, (list_elem_of_lookup_2 _ _ _ Hs)).
    split; [case_decide; lia|].
    replace w' with (put_checkpoint (stage_id s) to w).2 by (by rewrite Hput).
    apply put_checkpoint_synced. by apply Hw.
  - intros i j a b Hij Ha Hb. rewrite !Hcp'.
    pose proof (Hord i j a b Hij Ha Hb) as Hab.
    destruct (decide (stage_id s = stage_id a)) as [Ea|]; destruct (decide (stage_id s = stage_id b)) as [Eb|].
    + lia.
    + assert (length pre = i) by (by eapply id_inj). subst i.
      assert (a = s) by congruence. subst a. lia.
    + assert (length pre = j) by (by eapply id_inj). subst j. apply Hpre.
      rewrite Hall, lookup_app_l in Ha by done. by eapply list_elem_of_lookup_2.
    + lia.
Qed.

Lemma ready_next pre s rest to w :
  all = pre ++ s :: rest -> pipeline_inv all w ->
  (forall p, p ∈ pre -> to <= cp p w) -> cp s w < to -> to <= max_tip -> ready pre s (cp s w + 1) to w.
Proof.
  intros Hall Hinv Hpre Hlt Hmax.
  destruct (inv_synced _ _ Hinv s) as [Hnn Hdone]; [rewrite Hall; set_solver|].
  split_and!; [lia|lia|lia|by rewrite Z.add_simpl_r|].
  intros p Hp. exists (cp p w). split; [by apply Hpre|].
  apply (inv_synced _ _ Hinv p). rewrite Hall. set_solver.
Qed.

(** Executing the stage after [pre]: no checkpoint moves, and the work of every stage
    is what it was, but for the stage itself if it succeeded. *)
Lemma execute_spec pre s rest to w r w1 :
  all = pre ++ s :: rest -> stage_safe pre s -> pipeline_inv all w ->
  ready pre s (cp s w + 1) to w ->
  stage_execute s (mkInput (cp s w + 1) to) w = (r, w1) ->
  (forall a, cp a w1 = cp a w) /\
  (forall a, a ∈ all -> synced (stage_id a)
     (if decide (stage_id s = stage_id a) then if is_ok r then to else cp s w else cp a w) w1).
Proof.
  intros Hall Hs Hinv Hready Hex.
  destruct (Hs _ _ _ _ _ Hready Hex) as (Hw1 & Hkeep & Hck).
  rewrite Z.add_simpl_r in Hw1. split; [intros a; unfold cp; by rewrite Hck|].
  intros a Ha. case_decide as Hid; [by rewrite <- Hid|]. apply Hkeep; [congruence|].
  by apply (inv_synced _ _ Hinv).
Qed.

Lemma inv_failed s w w1 :
  pipeline_inv all w -> (forall a, cp a w1 = cp a w) ->
  (forall a, a ∈ all -> synced (stage_id a)
     (if decide (stage_id s = stage_id a) then cp s w else cp a w) w1) ->
  pipeline_inv all w1.
Proof.
  intros Hinv Hcp Hsync. split; [|intros; rewrite !Hcp; by eapply (inv_ordered _ _ Hinv)].
  intros a Ha. rewrite Hcp. split; [by apply (inv_synced _ _ Hinv)|].
  specialize (Hsync a Ha). case_decide as Hid; [|done].
  unfold cp in *. by rewrite <- Hid in *.
Qed.

Lemma get_checkpoint_cp (s : Stage W E) w :
  exists c, get_checkpoint (stage_id s) w = Ok c /\ default 0 c = cp s w.
Proof.
  unfold cp. pose proof (get_checkpoint_ok (stage_id s) w).
  destruct (get_checkpoint (stage_id s) w); [eauto|done].
Qed.

(** One pass over the stages after [pre]: the invariant holds however it ends; if it
    ends well every stage has reached [to] and the result is the last checkpoint. *)
Lemma run_once_spec rest : forall pre to w r w',
  all = pre ++ rest -> all_stages stage_safe pre rest -> pipeline_inv all w ->
  (forall p, p ∈ pre -> to <= cp p w) -> to <= max_tip ->
  run_once_until rest to w = (r, w') ->
  pipeline_inv all w' /\
  (forall a, cp a w' = cp a w \/ (cp a w < to /\ cp a w' = to)) /\
  (all_stages stage_live pre rest -> is_ok r = true) /\
  (forall n, r = Ok n ->
     (forall s, s ∈ all -> to <= cp s w') /\ forall s, last rest = Some s -> n = cp s w').
Proof.
  induction rest as [|s rest IH]; intros pre to w r w' Hall Hsafe Hinv Hpre Hmax Hrun.
  { injection Hrun as <- <-. split_and!; [done|auto|done|]. intros n [= <-].
    rewrite app_nil_r in Hall. subst. split; [done|by intros s]. }
  destruct Hsafe as [Hs Hsafe]. cbn [run_once_until] in Hrun.
  assert (Hall' : all = (pre ++ [s]) ++ rest) by (by rewrite Hall, <- app_assoc).
  destruct (get_checkpoint_cp s w) as (c & Hc & Hcp). rewrite Hc, Hcp in Hrun.
  destruct (Z.leb_spec to (cp s w)) as [Hle|Hlt].
  - assert (Hpre' : forall p, p ∈ pre ++ [s] -> to <= cp p w) by set_solver.
    destruct rest as [|s' rest].
    + injection Hrun as <- <-. split_and!; [done|auto|done|]. intros n [= <-].
      split; [rewrite Hall; done|]. by intros s' [= <-].
    + destruct (IH _ _ _ _ _ Hall' Hsafe Hinv Hpre' Hmax Hrun) as (H1 & H2 & H3 & H4).
      split_and!; [done..|by intros [_ ?]; apply H3|done].
  - destruct (stage_execute s (mkInput (cp s w + 1) to) w) as [re w1] eqn:Hex.
    pose proof (ready_next _ _ _ _ _ Hall Hinv Hpre Hlt Hmax) as Hready.
    destruct (execute_spec _ _ _ _ _ _ _ Hall Hs Hinv Hready Hex) as [Hcp1 Hsync1].
    destruct re as [[]|e]; cbn [Prelude.is_ok] in *.
    + pose proof (put_checkpoint_ok (stage_id s) to w1) as Hok.
      destruct (put_checkpoint (stage_id s) to w1) as [[[]|e] w2] eqn:Hput; [|done].
      destruct (inv_put pre s rest to w w1 w2 Hall Hinv Hlt Hpre Hcp1 Hsync1 Hput)
        as [Hinv2 Hcp2].
      assert (Hpre2 : forall p, p ∈ pre ++ [s] -> to <= cp p w2).
      { intros p Hp. rewrite Hcp2. case_decide; [lia|].
        apply elem_of_app in Hp as [Hp|Hp]; [by apply Hpre|]. set_solver. }
      destruct (IH _ _ _ _ _ Hall' Hsafe Hinv2 Hpre2 Hmax Hrun) as (H1 & H2 & H3 & H4).
      split_and!; [done| |by intros [_ ?]; apply H3|].
      * intros a. destruct (H2 a) as [->|[Ha ->]]; rewrite Hcp2 in *; case_decide as Hid;
          auto; try lia.
        right. unfold cp in *. rewrite <- Hid. auto.
      * intros n Hn. destruct (H4 n Hn) as [H5 H6]. split; [done|].
        intros a Ha. destruct rest as [|s' rest]; [|by apply H6].
        injection Ha as <-. cbn [run_once_until] in Hrun. injection Hrun as <- <-.
        injection Hn as <-. rewrite Hcp2. by rewrite decide_True.
    + injection Hrun as <- <-. split_and!; [by eapply inv_failed|auto| |done].
      intros [Hl _]. specialize (Hl _ _ _ Hready). by rewrite Hex in Hl.
Qed.
Context (safe : all_stages stage_safe [] all) (final : Stage W E).
Context (final_last : last all = Some final).

Lemma final_least w s : pipeline_inv all w -> s ∈ all -> cp final w <= cp s w.
Proof.
  intros Hinv [i Hi]%list_elem_of_lookup. rewrite last_lookup in final_last.
  destruct (decide (i = pred (length all))) as [->|Hne]; [by simplify_eq|].
  apply (inv_ordered _ _ Hinv i (pred (length all))); [|done..].
  apply lookup_lt_Some in Hi. lia.
Qed.

(** One pass over all the stages. *)
Lemma run_once_all to w r w' :
  pipeline_inv all w -> to <= max_tip -> run_once_until all to w = (r, w') ->
  pipeline_inv all w' /\ (forall s, cp s w <= cp s w') /\
  (all_stages stage_live [] all -> is_ok r = true) /\
  (forall n, r = Ok n -> n = cp final w' /\ n = Z.max (cp final w) to).
Proof.
  intros Hinv Hmax Hrun.
  destruct (run_once_spec all [] to w r w' eq_refl safe Hinv) as (H1 & H2 & H3 & H4);
    [set_solver|done|done|].
  split_and!; [done| |done|].
  - intros s. destruct (H2 s); lia.
  - intros n Hn. destruct (H4 n Hn) as [H5 H6]. rewrite (H6 _ final_last).
    assert (final ∈ all) as Hin.
    { rewrite last_lookup in final_last. by eapply list_elem_of_lookup_2. }
    specialize (H5 final Hin). destruct (H2 final); lia.
Qed.

Lemma run_to_tip_sound fuel : forall chunk_size tip cur w r w',
  pipeline_inv all w -> tip <= max_tip ->
  run_to_tip fuel all chunk_size tip cur w = Some (r, w') ->
  pipeline_inv all w' /\ (forall s, cp s w <= cp s w') /\
  (is_ok r = true -> forall s, s ∈ all -> tip <= cp s w').
Proof.
  induction fuel as [|fuel IH]; intros chunk tip cur w r w' Hinv Hmax Hrun; [done|].
  cbn [run_to_tip] in Hrun.
  destruct (run_once_until all (Z.min cur tip) w) as [r1 w1] eqn:Hone.
  destruct (run_once_all (Z.min cur tip) w r1 w1 Hinv) as (H1 & H2 & _ & H4); [lia|done|].
  destruct r1 as [n|e]; [|injection Hrun as <- <-; done].
  destruct (H4 n eq_refl) as [-> _].
  destruct (Z.leb_spec tip (cp final w1)) as [Hle|Hlt].
  - injection Hrun as <- <-. split_and!; [done..|]. intros _ s Hs.
    pose proof (final_least w1 s H1 Hs). lia.
  - destruct (IH _ _ _ _ _ _ H1 Hmax Hrun) as (H5 & H6 & H7). split_and!; [done| |done].
    intros s. specialize (H2 s). specialize (H6 s). lia.
Qed.

(** Each pass that does not reach the tip brings the last stage closer to it. *)
Lemma run_to_tip_progress fuel : forall chunk_size tip cur w,
  all_stages stage_live [] all -> pipeline_inv all w ->
  0 < chunk_size -> tip <= max_tip -> tip + chunk_size < u64_bound -> cp final w < Z.min cur tip ->
  (Z.to_nat (tip - cp final w) <= fuel)%nat ->
  exists c w', run_to_tip fuel all chunk_size tip cur w = Some (Ok c, w').
Proof.
  induction fuel as [|fuel IH]; intros chunk tip cur w Hlive Hinv Hc Hmax Ht Hlt Hf; [lia|].
  cbn [run_to_tip].
  destruct (run_once_until all (Z.min cur tip) w) as [r1 w1] eqn:Hone.
  destruct (run_once_all (Z.min cur tip) w r1 w1 Hinv) as (H1 & H2 & H3 & H4); [lia|done|].
  specialize (H3 Hlive). destruct r1 as [n|e]; [|done].
  destruct (H4 n eq_refl) as [Hn Hmax'].
  destruct (Z.leb_spec tip n) as [Hle|Hgt]; [eauto|].
  assert (0 <= n).
  { rewrite Hn. apply (inv_synced _ _ H1). rewrite last_lookup in final_last.
    by eapply list_elem_of_lookup_2. }
  apply IH; [done..| |lia]. unfold wrap64. rewrite Z.mod_small by lia. lia.
Qed.

Lemma run_to_tip_returns fuel chunk_size tip cur w :
  all_stages stage_live [] all -> pipeline_inv all w ->
  0 < chunk_size -> tip <= max_tip -> tip + chunk_size < u64_bound -> (S (Z.to_nat tip) <= fuel)%nat ->
  exists c w', run_to_tip fuel all chunk_size tip cur w = Some (Ok c, w').
Proof.
  intros Hlive Hinv Hc Hmax Ht Hf. destruct fuel as [|fuel]; [lia|]. cbn [run_to_tip].
  destruct (run_once_until all (Z.min cur tip) w) as [r1 w1] eqn:Hone.
  destruct (run_once_all (Z.min cur tip) w r1 w1 Hinv) as (H1 & H2 & H3 & H4); [lia|done|].
  specialize (H3 Hlive). destruct r1 as [n|e]; [|done].
  destruct (H4 n eq_refl) as [Hn _].
  destruct (Z.leb_spec tip n) as [Hle|Hgt]; [eauto|].
  assert (0 <= n).
  { rewrite Hn. apply (inv_synced _ _ H1). rewrite last_lookup in final_last.
    by eapply list_elem_of_lookup_2. }
  apply run_to_tip_progress; [done..| |lia]. unfold wrap64. rewrite Z.mod_small by lia. lia.
Qed.

Lemma run_tips_spec fuel chunk_size tips : forall cur w,
  pipeline_inv all w -> (forall tip, Some tip ∈ tips -> tip <= max_tip) ->
  (forall r w', run_tips fuel all chunk_size tips cur w = Some (r, w') ->
     pipeline_inv all w' /\ (forall s, cp s w <= cp s w') /\
     (is_ok r = true -> forall tip s, Some tip ∈ tips -> s ∈ all -> tip <= cp s w')) /\
  (all_stages stage_live [] all -> 0 < chunk_size ->
   max_tip + chunk_size < u64_bound -> (S (Z.to_nat max_tip) <= fuel)%nat ->
   exists w', run_tips fuel all chunk_size tips cur w = Some (Ok tt, w')).
Proof.
  induction tips as [|[tip|] tips IH]; intros cur w Hinv Hmax.
  - split; [intros r w' [= <- <-]; split_and!; [done|lia|set_solver]|simpl; eauto].
  - assert (tip <= max_tip) as Ht by (apply Hmax; set_solver).
    assert (forall tip, Some tip ∈ tips -> tip <= max_tip) as Hmax' by set_solver.
    cbn [run_tips]. split.
    + intros r w' Hrun.
      destruct (run_to_tip fuel all chunk_size tip cur w) as [[r1 w1]|] eqn:Hone; [|done].
      destruct (run_to_tip_sound _ _ _ _ _ _ _ Hinv Ht Hone) as (H1 & H2 & H3).
      destruct r1 as [c|e]; [|injection Hrun as <- <-; done].
      destruct (IH c w1 H1 Hmax') as [IH1 _]. destruct (IH1 _ _ Hrun) as (H4 & H5 & H6).
      split_and!; [done|intros s; specialize (H2 s); specialize (H5 s); lia|].
      intros Hok tip' s Hin Hs. apply elem_of_cons in Hin as [[= ->]|Hin]; [|by eapply H6].
      specialize (H3 eq_refl s Hs). specialize (H5 s). lia.
    + intros Hlive Hc Hb Hf.
      destruct (run_to_tip_returns fuel chunk_size tip cur w Hlive Hinv Hc Ht) as (c & w1 & Hone);
        [lia|lia|].
      rewrite Hone. destruct (run_to_tip_sound _ _ _ _ _ _ _ Hinv Ht Hone) as (H1 & _).
      by apply (IH c w1 H1 Hmax').
  - cbn [run_tips]. destruct (IH cur w Hinv) as [H1 H2]; [set_solver|]. split; [|done].
    intros r w' Hrun. destruct (H1 r w' Hrun) as (H3 & H4 & H5). split_and!; [done..|set_solver].
Qed.
End Fixed.

(** C27. The checkpoints of the sync pipeline never lie: however a run over a sequence
    of tips ends (a stage may fail at any point), afterwards every stage has
    processed exactly the blocks up to its checkpoint, no stage is ahead of the one
    before it, and no checkpoint has moved back, so that running again resumes
    where each stage stopped. *)
Theorem pipeline_checkpoints_sound fuel (all : list (Stage W E)) chunk_size tips w r w' :
  NoDup (map stage_id all) -> all <> [] -> all_stages stage_safe [] all ->
  pipeline_inv all w -> (forall tip, Some tip ∈ tips -> tip <= max_tip) ->
  run fuel all chunk_size tips w = Some (r, w') ->
  pipeline_inv all w' /\ forall s, cp s w <= cp s w'.
Proof.
  intros Hids Hne Hsafe Hinv Hmax Hrun.
  destruct (last all) as [final|] eqn:Hl; [|by apply last_None in Hl].
  destruct (run_tips_spec all Hids Hsafe final Hl fuel chunk_size tips chunk_size w Hinv Hmax) as [H _].
  destruct (H r w' Hrun) as (? & ? & _). done.
Qed.

(** C28. The sync pipeline reaches its tips: when no stage fails, a run over any
    sequence of tips works through them, after at most one pass per block and one more for
    each tip, and waits for the next with every stage at or past every tip and the work its checkpoint
    claims done. *)
Theorem pipeline_reaches_tips fuel (all : list (Stage W E)) chunk_size tips w :
  NoDup (map stage_id all) -> all <> [] ->
  all_stages stage_safe [] all -> all_stages stage_live [] all ->
  pipeline_inv all w -> (forall tip, Some tip ∈ tips -> tip <= max_tip) ->
  0 < chunk_size -> max_tip + chunk_size < u64_bound -> (S (Z.to_nat max_tip) <= fuel)%nat ->
  exists w', run fuel all chunk_size tips w = Some (Ok tt, w') /\ pipeline_inv all w' /\
    forall tip s, Some tip ∈ tips -> s ∈ all -> tip <= cp s w'.
Proof.
  intros Hids Hne Hsafe Hlive Hinv Hmax Hc Hb Hf.
  destruct (last all) as [final|] eqn:Hl; [|by apply last_None in Hl].
  destruct (run_tips_spec all Hids Hsafe final Hl fuel chunk_size tips chunk_size w Hinv Hmax) as [H1 H2].
  destruct (H2 Hlive Hc Hb Hf) as [w' Hrun]. destruct (H1 _ _ Hrun) as (? & ? & H3).
  exists w'. split_and!; [done..|]. intros. by eapply H3.
Qed.
End PipelineProofs.
