(* ===== verification/Stages.v ===== *)
(** * The stages of the sync pipeline (sync/stage/src/blocks.rs, classes.rs)

    The stages download from the feeder gateway and write to the provider.  The
    gateway is outside the program: it is a parameter, a function of the number of
    batches requested so far, so that it may answer the same request differently
    at different times (rate limiting above all).  [W] is the database and that
    counter.  The conversion of the gateway's class artifacts, the default of the
    VM resources and the retry limit of [ExponentialBuilder::default()] are
    parameters too. *)

From Stdlib Require Import ZArith Lia.
From stdpp Require Import base numbers list.
From S2P Require Import Prelude BTreeMap Felt Tx Version Block Receipt Codec Versioned Mdbx DbProvider DbState Gateway Pipeline.

(** [feeder-gateway/src/client.rs]; the payloads of foreign errors are left out. *)
Inductive ClientError := Network | Sequencer | InvalidHeaderValue | RateLimited.
Definition is_rate_limited (e : ClientError) : bool :=
  match e with RateLimited => true | _ => false end.

(** ** Downloading in batches *)
Section Download.
Context {E A : Type} (rate_limited : E -> bool) (max_times : nat).

(** [request.retry(backoff).when(rate limited)]: at most [max_times] retries; the
    counter is the number of requests sent. *)
Fixpoint fetch_with_retry (retries : nat) (request : nat -> result E A) (clock : nat)
    : result E A * nat :=
  match request clock with
  | Ok a => (Ok a, S clock)
  | Err e =>
      if rate_limited e then
        match retries with
        | O => (Err e, S clock)
        | S retries => fetch_with_retry retries request (S clock)
        end
      else (Err e, S clock)
  end.
End Download.

(** The loop over batches: [extend]s with each, until one fails. *)
Fixpoint download {E A B} (rate_limited : E -> bool) (max_times : nat)
    (fetch : B -> nat -> result E (list A)) (batches : list B) (clock : nat)
    : result E (list A) * nat :=
  match batches with
  | [] => (Ok [], clock)
  | batch :: batches =>
      match fetch_with_retry rate_limited max_times (fetch batch) clock with
      | (Err e, clock) => (Err e, clock)
      | (Ok l, clock) =>
          match download rate_limited max_times fetch batches clock with
          | (Err e, clock) => (Err e, clock)
          | (Ok ls, clock) => (Ok (l ++ ls), clock)
          end
      end
  end.

(** [(from..=to).step_by(batch_size)] and the end of each batch; the batch size is
    positive ([step_by] panics on 0). *)
Definition block_batches (from to batch_size : Z) : list (Z * Z) :=
  map (fun batch_start => (batch_start, Z.min (wrap64 (batch_start + batch_size - 1)) to))
    (map (fun i => from + batch_size * i)
       (if from <=? to then urange 0 ((to - from) / batch_size + 1) else [])).

(** [slice::chunks], for a positive size. *)
Fixpoint chunks_from {A} (fuel : nat) (n : nat) (l : list A) : list (list A) :=
  match fuel, l with
  | O, _ | _, [] => []
  | S fuel, _ => take n l :: chunks_from fuel n (drop n l)
  end.
Definition chunks {A} (n : nat) (l : list A) : list (list A) := chunks_from (length l) n l.

Inductive BlocksError := BlocksGateway (e : ClientError).
Inductive ClassesError (Conv : Type) :=
  | MissingBlockDeclaredClasses (block : Z)
  | ClassesGateway (e : ClientError)
  | Conversion (e : Conv)
  | ClassesProvider (e : ProviderError).
Arguments MissingBlockDeclaredClasses {Conv}.
Arguments ClassesGateway {Conv}.
Arguments Conversion {Conv}.
Arguments ClassesProvider {Conv}.

(** [Error] of the stages; [StagePanic] is a panic of the stage's task. *)
Inductive StageError (Conv : Type) :=
  | StageProvider (e : ProviderError)
  | StageBlocks (e : BlocksError)
  | StageClasses (e : ClassesError Conv)
  | StageOther (e : Gw.TxTryFromError)
  | StagePanic.
Arguments StageProvider {Conv}.
Arguments StageBlocks {Conv}.
Arguments StageClasses {Conv}.
Arguments StageOther {Conv}.
Arguments StagePanic {Conv}.

(** ** Converting a block of the gateway *)
Section Extract.
Context {Vm C Conv : Type} (vm_default : Vm).

Definition ExecutionResources_default : @ExecutionResources Vm :=
  mkExecutionResources (mkGasUsed 0 0 0) vm_default (mkDaResources 0 0).

(** [to_u128().expect("valid u128")]. *)
Definition expect_u128 (f : Z) : result (StageError Conv) Z :=
  if f <? u128_bound then Ok f else Err StagePanic.

Definition to_gas_prices (prices : Gw.ResourcePrice) : result (StageError Conv) GasPrice :=
  eth ← expect_u128 (Gw.price_in_fri prices);
  strk ← expect_u128 (Gw.price_in_fri prices);
  Ok {| gp_eth := eth; gp_strk := strk |}.

Definition extract_status (s : Gw.BlockStatus) : result (StageError Conv) FinalityStatus :=
  match s with
  | Gw.AcceptedOnL2 => Ok AcceptedOnL2
  | Gw.AcceptedOnL1 => Ok AcceptedOnL1
  | _ => Err StagePanic
  end.

Definition extract_receipt (e : Gw.ConfirmedReceipt * TxWithHash)
    : result (StageError Conv) (@Receipt Vm) :=
  let '(receipt, tx) := e in
  let events := Gw.cr_events receipt in
  let revert_error := Gw.cr_revert_error receipt in
  let messages_sent := Gw.cr_l2_to_l1_messages receipt in
  overall_fee ← expect_u128 (Gw.cr_actual_fee receipt);
  let unit := if 3 <=? tx_version (twh_transaction tx) then Fri else Wei in
  let fee := mkFeeInfo 0 0 0 overall_fee unit in
  let resources := ExecutionResources_default in
  match twh_transaction tx with
  | TxInvoke _ => Ok (RInvoke {|
      ir_fee := fee; ir_events := events; ir_messages_sent := messages_sent;
      ir_revert_error := revert_error; ir_execution_resources := resources |})
  | TxDeclare _ => Ok (RDeclare {|
      dr_fee := fee; dr_events := events; dr_messages_sent := messages_sent;
      dr_revert_error := revert_error; dr_execution_resources := resources |})
  | TxL1Handler _ => Ok (RL1Handler {|
      lr_fee := fee; lr_events := events; lr_message_hash := 0; lr_messages_sent := messages_sent;
      lr_revert_error := revert_error; lr_execution_resources := resources |})
  | TxDeployAccount _ => Ok (RDeployAccount {|
      ar_fee := fee; ar_events := events; ar_messages_sent := messages_sent;
      ar_revert_error := revert_error; ar_execution_resources := resources;
      ar_contract_address := 0 |})
  | TxDeploy _ => Err StagePanic
  end.

Definition extract_block_data (data : Gw.StateUpdateWithBlock)
    : result (StageError Conv)
        (SealedBlockWithStatus * list (@Receipt Vm) * StateUpdatesWithClasses C) :=
  let block := Gw.sub_block data in
  status ← extract_status (Gw.gb_status block);
  transactions ← map_err StageOther (try_collect Gw.tx_try_from (Gw.gb_transactions block));
  receipts ← try_collect extract_receipt (zip (Gw.gb_transaction_receipts block) transactions);
  let transaction_count := Z.of_nat (length transactions) mod 2 ^ 32 in
  l1_gas_prices ← to_gas_prices (Gw.gb_l1_gas_price block);
  l2_gas_prices ← to_gas_prices (Gw.gb_l2_gas_price block);
  l1_data_gas_prices ← to_gas_prices (Gw.gb_l1_data_gas_price block);
  let header := {|
    parent_hash := Gw.gb_parent_block_hash block;
    number := default 0 (Gw.gb_block_number block);
    state_diff_commitment := 0;
    transactions_commitment := default 0 (Gw.gb_transaction_commitment block);
    receipts_commitment := 0;
    events_commitment := default 0 (Gw.gb_event_commitment block);
    state_root := default 0 (Gw.gb_state_root block);
    transaction_count := transaction_count;
    events_count := 0;
    state_diff_length := 0;
    timestamp := Gw.gb_timestamp block;
    sequencer_address := default 0 (Gw.gb_sequencer_address block);
    l1_gas_prices := l1_gas_prices;
    l1_data_gas_prices := l1_data_gas_prices;
    l2_gas_prices := l2_gas_prices;
    l1_da_mode := Gw.gb_l1_da_mode block;
    protocol_version := default ProtocolVersion_default (Gw.gb_starknet_version block);
  |} in
  let sealed := {|
    sb_hash := default 0 (Gw.gb_block_hash block); sb_header := header; sb_body := transactions |} in
  let state_updates := Gw.state_diff_into (Gw.su_state_diff (Gw.sub_state_update data)) in
  Ok ({| sbs_block := sealed; sbs_status := status |}, receipts,
      {| state_updates := state_updates; classes := [] |}).
End Extract.

(** ** The stages *)
Definition blocks_id : list Z := [66; 108; 111; 99; 107; 115].       (* "Blocks" *)
Definition classes_id : list Z := [67; 108; 97; 115; 115; 101; 115].  (* "Classes" *)

Section Stages.
Context `{MD : Mdbx} `{RT : RoaringTreemap} `{FP : FeltPostcard} {C X Vm Conv GwClass : Type}.
Context (vm_default : Vm) (max_times : nat).
Context (get_state_update_with_block : nat -> Z -> result ClientError Gw.StateUpdateWithBlock).
Context (get_class : nat -> Z -> Z -> result ClientError GwClass).
Context (class_try_into : GwClass -> result Conv C).

Record World := mkWorld { w_db : Db C (@Receipt Vm) X; w_clock : nat }.

#[export] Instance World_checkpoints : StageCheckpointProvider World := {
  get_checkpoint id w := checkpoint (w_db w) id;
  put_checkpoint id n w := (Ok tt, mkWorld (set_checkpoint id n (w_db w)) (w_clock w));
}.

(** *** Blocks *)
Definition fetch_block (clock : nat) (block : Z) : result BlocksError Gw.StateUpdateWithBlock :=
  map_err BlocksGateway (get_state_update_with_block clock block).

(** [join_all] then [collect]: the first error by block number wins. *)
Definition fetch_blocks (batch : Z * Z) (clock : nat)
    : result BlocksError (list Gw.StateUpdateWithBlock) :=
  try_collect (fetch_block clock) (urange batch.1 (batch.2 + 1)).

Definition download_blocks (batch_size from to : Z) (clock : nat)
    : result BlocksError (list Gw.StateUpdateWithBlock) * nat :=
  download (fun '(BlocksGateway e) => is_rate_limited e) max_times fetch_blocks
    (block_batches from to batch_size) clock.

Fixpoint store_blocks (blocks : list Gw.StateUpdateWithBlock) (db : Db C (@Receipt Vm) X)
    : result (StageError Conv) unit * Db C (@Receipt Vm) X :=
  match blocks with
  | [] => (Ok tt, db)
  | block :: blocks =>
      match extract_block_data vm_default block with
      | Err e => (Err e, db)
      | Ok (block, receipts, state_updates) =>
          store_blocks blocks
            (insert_block_with_states_and_receipts block state_updates receipts [] db)
      end
  end.

Definition blocks_execute (batch_size : Z) (input : StageExecutionInput) (w : World)
    : result (StageError Conv) unit * World :=
  match download_blocks batch_size (input_from input) (input_to input) (w_clock w) with
  | (Err e, clock) => (Err (StageBlocks e), mkWorld (w_db w) clock)
  | (Ok blocks, clock) =>
      let '(r, db) := store_blocks blocks (w_db w) in (r, mkWorld db clock)
  end.

Definition BlocksStage (batch_size : Z) : Stage World (StageError Conv) :=
  mkStage blocks_id (blocks_execute batch_size).

(** *** Classes *)
Definition fetch_class (clock : nat) (block hash : Z) : result (ClassesError Conv) C :=
  class ← map_err ClassesGateway (get_class clock hash block);
  map_err Conversion (class_try_into class).

Definition fetch_classes (block : Z) (hashes : list Z) (clock : nat)
    : result (ClassesError Conv) (list C) :=
  try_collect (fetch_class clock block) hashes.

Definition classes_rate_limited (e : ClassesError Conv) : bool :=
  match e with ClassesGateway e => is_rate_limited e | _ => false end.

Definition download_classes (batch_size : nat) (hashes : list Z) (block : Z) (clock : nat)
    : result (ClassesError Conv) (list C) * nat :=
  download classes_rate_limited max_times (fetch_classes block) (chunks batch_size hashes) clock.

(** The loop over the blocks of the range. *)
Fixpoint collect_classes (batch_size : nat) (blocks : list Z) (db : Db C (@Receipt Vm) X)
    (clock : nat) : result (StageError Conv) (list (Z * C)) * nat :=
  match blocks with
  | [] => (Ok [], clock)
  | block :: blocks =>
      match provider_declared_classes db (BNum block) with
      | Err e => (Err (StageProvider e), clock)
      | Ok None => (Err (StageClasses (MissingBlockDeclaredClasses block)), clock)
      | Ok (Some declared) =>
          let class_hashes := map fst declared in
          match download_classes batch_size class_hashes block clock with
          | (Err e, clock) => (Err (StageClasses e), clock)
          | (Ok class_artifacts, clock) =>
              match collect_classes batch_size blocks db clock with
              | (Err e, clock) => (Err e, clock)
              | (Ok classes, clock) => (Ok (zip class_hashes class_artifacts ++ classes), clock)
              end
          end
      end
  end.

Definition classes_execute (batch_size : nat) (input : StageExecutionInput) (w : World)
    : result (StageError Conv) unit * World :=
  match collect_classes batch_size (urange (input_from input) (input_to input + 1))
          (w_db w) (w_clock w) with
  | (Err e, clock) => (Err e, mkWorld (w_db w) clock)
  | (Ok classes, clock) =>
      (Ok tt, mkWorld (fold_left (fun db e => set_class e.1 e.2 db) classes (w_db w)) clock)
  end.

Definition ClassesStage (batch_size : nat) : Stage World (StageError Conv) :=
  mkStage classes_id (classes_execute batch_size).
End Stages.
