(* ===== verification/StagesProofs.v ===== *)
(** * The stages discharge the pipeline's contract

    Batches cover the range they are cut from, a download returns what the gateway
    serves whatever it was limited to on the way, the blocks stage appends the
    blocks it is given to the database and the classes stage adds the artifacts of
    the classes those blocks declare.  Composed with the pipeline: a node that
    syncs from an empty database holds the blocks of the gateway and their classes
    up to every tip it was told. *)

From Stdlib Require Import ZArith Lia.
From stdpp Require Import base numbers list sets.
From S2P Require Import Prelude BTreeMap Felt Tx Version Block Receipt Codec Versioned Mdbx DbProvider DbState ChangeLog DbHistory DbLatest DbBlocks Gateway Pipeline Stages.

(** ** Batches *)
Lemma flat_map_map {A B C} (f : A -> B) (g : B -> list C) l :
  flat_map g (map f l) = flat_map (fun a => g (f a)) l.
Proof. induction l as [|a l IH]; [done|]. simpl. by rewrite IH. Qed.

Lemma map_flat_map {A B C} (f : B -> C) (g : A -> list B) l :
  map f (flat_map g l) = flat_map (fun a => map f (g a)) l.
Proof. induction l as [|a l IH]; [done|]. simpl. by rewrite map_app, IH. Qed.

(** The batches of a range are the range, in order. *)
Lemma block_batches_cover from to batch_size :
  0 <= from -> 0 < batch_size -> to + batch_size < u64_bound ->
  flat_map (fun b => urange b.1 (b.2 + 1)) (block_batches from to batch_size) = urange from (to + 1).
Proof.
  intros Hf Hb Ht. unfold block_batches. rewrite !flat_map_map. simpl.
  destruct (Z.leb_spec from to) as [Hle|Hgt]; [|simpl; by rewrite urange_nil by lia].
  set (n := (to - from) / batch_size + 1).
  assert (Hn : 0 <= n /\ from + batch_size * n > to).
  { subst n. pose proof (Z.div_pos (to - from) batch_size). split; [lia|].
    pose proof (Z.mul_succ_div_gt (to - from) batch_size). lia. }
  assert (Hn' : batch_size * (n - 1) <= to - from).
  { subst n. pose proof (Z.mul_div_le (to - from) batch_size). lia. }
  assert (forall k, 0 <= k <= n ->
    flat_map (fun i => urange (from + batch_size * i)
                (Z.min (wrap64 (from + batch_size * i + batch_size - 1)) to + 1)) (urange 0 k)
    = urange from (Z.min (from + batch_size * k) (to + 1))) as Hk.
  { intros k [H0 Hkn]. pose proof H0 as Hk0. revert H0 Hkn. pattern k.
    apply natlike_ind; [| |exact Hk0]; clear Hk0.
    - intros _ _. rewrite !urange_nil by lia. done.
    - clear k. intros k Hk IH _ Hkn. rewrite <- (urange_app 0 k) by lia.
      rewrite flat_map_app, IH by lia. rewrite (urange_cons k) by lia.
      rewrite (urange_nil (k + 1)) by lia. simpl. rewrite app_nil_r.
      assert (batch_size * k <= batch_size * (n - 1)) by nia.
      unfold wrap64. rewrite Z.mod_small by lia.
      replace (Z.min (from + batch_size * k) (to + 1)) with (from + batch_size * k) by lia.
      rewrite urange_app by lia. f_equal. lia. }
  rewrite Hk by lia. f_equal. lia.
Qed.

Lemma concat_chunks {A} n (l : list A) : (0 < n)%nat -> concat (chunks n l) = l.
Proof.
  intros Hn. unfold chunks.
  assert (forall fuel (l : list A), (length l <= fuel)%nat -> concat (chunks_from fuel n l) = l) as H;
    [|by apply H].
  clear l. induction fuel as [|fuel IH]; intros l Hl; [by destruct l; simpl in *; [|lia]|].
  destruct l as [|a l]; [done|]. cbn [chunks_from concat]. rewrite IH; [by rewrite take_drop|].
  rewrite length_drop. simpl in *. lia.
Qed.

(** ** Downloads *)
Section Download.
Context {E A B : Type} (rate_limited : E -> bool) (max_times : nat).

Lemma fetch_with_retry_sound retries (request : nat -> result E A) clock a c :
  fetch_with_retry rate_limited retries request clock = (Ok a, c) ->
  exists j, request j = Ok a.
Proof.
  revert clock. induction retries as [|r IH]; intros clock; simpl;
    destruct (request clock) eqn:Hr; try destruct (rate_limited e); intros H; simplify_eq; eauto.
Qed.

(** The gateway limits the rate of requests, and no more: every run of
    [max_times + 1] attempts has one that is served. *)
Definition only_rate_limits (request : nat -> result E A) : Prop :=
  (forall j e, request j = Err e -> rate_limited e = true) /\
  forall clock, exists k, (k <= max_times)%nat /\ is_ok (request (clock + k)%nat) = true.

Lemma fetch_with_retry_live request clock :
  only_rate_limits request ->
  exists a c, fetch_with_retry rate_limited max_times request clock = (Ok a, c).
Proof.
  intros [Hlim Hserved]. destruct (Hserved clock) as (k & Hk & Hok).
  assert (forall r k clock, (k <= r)%nat -> is_ok (request (clock + k)%nat) = true ->
    exists a c, fetch_with_retry rate_limited r request clock = (Ok a, c)) as H; [|eauto].
  clear k clock Hk Hok. induction r as [|r IH]; intros k clock Hk Hok; simpl;
    destruct (request clock) as [a|e] eqn:Hr; eauto; rewrite (Hlim _ _ Hr).
  - assert (k = 0)%nat by lia. subst. rewrite Nat.add_0_r, Hr in Hok. done.
  - destruct k as [|k]; [rewrite Nat.add_0_r, Hr in Hok; done|].
    apply (IH k); [lia|]. by rewrite Nat.add_succ_l, <- Nat.add_succ_r.
Qed.
End Download.

Lemma download_sound {E A B} (rl : E -> bool) m (fetch : B -> nat -> result E (list A))
    (f : B -> list A) batches clock l c :
  (forall b j l, b ∈ batches -> fetch b j = Ok l -> l = f b) ->
  download rl m fetch batches clock = (Ok l, c) -> l = flat_map f batches.
Proof.
  revert clock l. induction batches as [|b bs IH]; intros clock l Hf Hd; simpl in *; [congruence|].
  destruct (fetch_with_retry rl m (fetch b) clock) as [[l1|] c1] eqn:Hr; [|done].
  apply fetch_with_retry_sound in Hr as [j Hj].
  destruct (download rl m fetch bs c1) as [[l2|] c2] eqn:Hd2; [|done]. injection Hd as <- <-.
  f_equal; [eapply Hf; [by left|done]|]. eapply IH; [|done]. intros. eapply Hf; [by right|done].
Qed.

Lemma download_live {E A B} (rl : E -> bool) m (fetch : B -> nat -> result E (list A))
    batches clock :
  (forall b, b ∈ batches -> only_rate_limits rl m (fetch b)) ->
  is_ok (download rl m fetch batches clock).1 = true.
Proof.
  revert clock. induction batches as [|b bs IH]; intros clock Hl; simpl; [done|].
  destruct (fetch_with_retry_live rl m (fetch b) clock) as (l & c & ->); [apply Hl; by left|].
  specialize (IH c ltac:(intros; apply Hl; by right)).
  by destruct (download rl m fetch bs c) as [[]].
Qed.

Lemma try_collect_served {E A B} (f : A -> result E B) (g : A -> B) l bs :
  (forall a b, f a = Ok b -> b = g a) -> try_collect f l = Ok bs -> bs = map g l.
Proof.
  intros Hf. rewrite try_collect_ok. induction 1 as [|a b l bs Hab _ IH]; [done|].
  simpl. by rewrite <- IH, (Hf _ _ Hab).
Qed.

(** ** The tables the two stages write *)
Section Tables.
Context `{MD : Mdbx} `{RT : RoaringTreemap} `{FP : FeltPostcard} {C R X : Type}.
Implicit Types (t : ClassTables (C := C)) (db : Db C R X) (i : Insertion (C := C) (R := R) (X := X)).

(** All the blocks stage writes: everything but class artifacts and checkpoints. *)
Definition class_part t := (CompiledClassHashes t, ClassDeclarationBlock t, ClassDeclarations t).
Definition block_part db :=
  (db_blocks db, db_txs db, class_part (db_classes db), db_storage db, db_contracts db).

Lemma fold_part {A} (f : ClassTables (C := C) -> A -> ClassTables (C := C)) l :
  (forall t t' a, class_part t = class_part t' -> class_part (f t a) = class_part (f t' a)) ->
  (forall t a, Classes (f t a) = Classes t) ->
  (forall t t', class_part t = class_part t' ->
     class_part (fold_left f l t) = class_part (fold_left f l t')) /\
  (forall t, Classes (fold_left f l t) = Classes t).
Proof.
  intros Hp Hc. induction l as [|a l [IH1 IH2]]; [done|]. simpl. split.
  - intros t t' Ht. by apply IH1, Hp.
  - intros t. by rewrite IH2, Hc.
Qed.

Lemma insert_one_part i db db' :
  classes (ins_states i) = [] -> block_part db = block_part db' ->
  block_part (insert_one db i) = block_part (insert_one db' i) /\
  Classes (db_classes (insert_one db i)) = Classes (db_classes db) /\
  StageCheckpoints (insert_one db i) = StageCheckpoints db.
Proof.
  intros Hc Hp. injection Hp as Hb Ht Hc1 Hc2 Hc3 Hs Hco.
  assert (class_part (db_classes db) = class_part (db_classes db')) as Hcp
    by (unfold class_part; congruence).
  unfold insert_one, insert_block_with_states_and_receipts, insert_classes, block_part. rewrite Hc.
  simpl. set (n := number _). set (u := state_updates _).
  destruct (fold_part (declare_class n) (declared_classes u)) as [D1 D2];
    [intros t t' a [= E1 E2 E3]; unfold class_part; simpl; congruence|done|].
  destruct (fold_part (declare_deprecated n) (deprecated_declared_classes u)) as [P1 P2];
    [intros t t' a [= E1 E2 E3]; unfold class_part; simpl; congruence|done|].
  split_and!; [|by rewrite P2, D2|done].
  rewrite (P1 _ _ (D1 _ _ Hcp)). by rewrite Hb, Ht, Hs, Hco.
Qed.

Lemma insert_all_part l db db' :
  Forall (fun i => classes (ins_states i) = []) l -> block_part db = block_part db' ->
  block_part (fold_left insert_one l db) = block_part (fold_left insert_one l db') /\
  Classes (db_classes (fold_left insert_one l db)) = Classes (db_classes db) /\
  StageCheckpoints (fold_left insert_one l db) = StageCheckpoints db.
Proof.
  revert db db'. induction l as [|i l IH]; intros db db' Hl Hp; [done|].
  apply Forall_cons_1 in Hl as [Hi Hl]. simpl.
  destruct (insert_one_part i db db' Hi Hp) as (H1 & H2 & H3).
  destruct (IH _ _ Hl H1) as (H4 & H5 & H6). by rewrite H4, H5, H6, H2, H3.
Qed.

Lemma declared_classes_part db db' id :
  block_part db = block_part db' ->
  provider_declared_classes db id = provider_declared_classes db' id.
Proof.
  intros [= Hb Ht Hc1 Hc2 Hc3 Hs Hco]. unfold provider_declared_classes, block_number_by_id, block_number_by_hash.
  by rewrite Hb, Hc1, Hc3.
Qed.

(** Storing artifacts writes their table only. *)
Lemma set_classes_part (l : list (Z * C)) db :
  let db' := fold_left (fun db e => set_class e.1 e.2 db) l db in
  block_part db' = block_part db /\ StageCheckpoints db' = StageCheckpoints db.
Proof.
  revert db. induction l as [|e l IH]; intros db; [done|]. simpl.
  destruct (IH (set_class e.1 e.2 db)) as [-> ->]. done.
Qed.

Lemma set_classes_get (f : Z -> C) l db h :
  t_get (Classes (db_classes (fold_left (fun db e => set_class e.1 e.2 db)
                                (map (fun h => (h, f h)) l) db))) h
  = if decide (h ∈ l) then Some (f h) else t_get (Classes (db_classes db)) h.
Proof.
  revert db. induction l as [|a l IH]; intros db; [done|]. simpl. rewrite IH. simpl.
  rewrite t_get_put. repeat case_decide; subst; set_solver.
Qed.

(** *** The classes a stored block declares are listed under it *)
Definition declared_at t (n h : Z) : Prop := h ∈ d_vals (ClassDeclarations t) n.
Definition felt_rows t : Prop := forall n h, declared_at t n h -> is_felt h.

Lemma felt_compress_inj f g : is_felt f -> is_felt g -> felt_compress f = felt_compress g -> f = g.
Proof.
  intros Hf Hg H. pose proof (felt_decompress_compress f Hf) as Ef.
  rewrite H, (felt_decompress_compress g Hg) in Ef. by injection Ef.
Qed.

(** What declaring [h] in block [n] does to the rows of every block. *)
Lemma declare_rows t t' n h :
  ClassDeclarations t' = d_put n h (ClassDeclarations t) -> is_felt h -> felt_rows t ->
  felt_rows t' /\ declared_at t' n h /\ (forall k g, declared_at t k g -> declared_at t' k g).
Proof.
  intros Ht Hh Hrows. unfold felt_rows, declared_at in *. rewrite Ht. split_and!.
  - intros k g. rewrite d_vals_put. case_decide; [|apply Hrows].
    intros [->|Hg]%elem_of_dup_insert; [done|]. by eapply Hrows.
  - rewrite d_vals_put, decide_True by done.
    destruct (decide (h ∈ d_vals (ClassDeclarations t) n)); [by apply elem_of_dup_insert_old|].
    apply elem_of_dup_insert_new. intros w Hw Heq. unfold dv_bytes in Heq. simpl in Heq.
    rewrite !app_nil_r in Heq. apply felt_compress_inj in Heq; [by subst|by eapply Hrows|done].
  - intros k g Hg. rewrite d_vals_put. case_decide; subst; [by apply elem_of_dup_insert_old|done].
Qed.

Definition rows_grow t t' : Prop :=
  felt_rows t' /\ (forall k g, declared_at t k g -> declared_at t' k g) /\
  (forall g, is_Some (t_get (CompiledClassHashes t) g) -> is_Some (t_get (CompiledClassHashes t') g)).

Lemma declare_all_rows n l : forall t, Forall is_felt (map fst l) -> felt_rows t ->
  let t' := fold_left (declare_class n) l t in
  rows_grow t t' /\ forall h, h ∈ map fst l ->
    declared_at t' n h /\ is_Some (t_get (CompiledClassHashes t') h).
Proof.
  induction l as [|[h c] l IH]; intros t Hf Hrows; simpl; [split; [done|set_solver]|].
  apply Forall_cons_1 in Hf as [Hh Hf]. simpl in Hh.
  destruct (declare_rows t (declare_class n t (h, c)) n h eq_refl Hh Hrows) as (H1 & H2 & H3).
  destruct (IH (declare_class n t (h, c)) Hf H1) as [(H4 & H5 & H6) H7].
  assert (forall g, is_Some (t_get (CompiledClassHashes t) g) ->
    is_Some (t_get (CompiledClassHashes (declare_class n t (h, c))) g)) as Hc.
  { intros g Hg. simpl. rewrite t_get_put. by case_decide. }
  split; [split_and!; [done|by eauto|by eauto]|].
  intros g [->|Hg]%elem_of_cons; [|by apply H7]. split; [by apply H5|].
  apply H6. simpl. rewrite t_get_put, decide_True by done. by eexists.
Qed.

Lemma deprecated_all_rows n l : forall t, Forall is_felt l -> felt_rows t ->
  rows_grow t (fold_left (declare_deprecated n) l t).
Proof.
  induction l as [|h l IH]; intros t Hf Hrows; simpl; [done|].
  apply Forall_cons_1 in Hf as [Hh Hf].
  destruct (declare_rows t (declare_deprecated n t h) n h eq_refl Hh Hrows) as (H1 & H2 & H3).
  destruct (IH _ Hf H1) as (H4 & H5 & H6). split_and!; [done|by eauto|by eauto].
Qed.

Definition felt_classes i : Prop :=
  Forall is_felt (map fst (declared_classes (ins_updates i))) /\
  Forall is_felt (deprecated_declared_classes (ins_updates i)).

Lemma declared_rows_of chain :
  Forall felt_classes chain -> Forall (fun i => classes (ins_states i) = []) chain ->
  let t := db_classes (db_of chain) in
  felt_rows t /\ forall i h, i ∈ chain -> h ∈ map fst (declared_classes (ins_updates i)) ->
    declared_at t (ins_number i) h /\ is_Some (t_get (CompiledClassHashes t) h).
Proof.
  induction chain as [|i chain IH] using rev_ind; intros Hf Hc.
  - split; [intros n h; unfold declared_at; simpl; rewrite d_vals_empty; set_solver|set_solver].
  - apply Forall_app in Hf as [Hf Hi0]. rewrite Forall_singleton in Hi0. destruct Hi0 as [Hi Hi'].
    apply Forall_app in Hc as [Hc Hci]. rewrite Forall_singleton in Hci.
    destruct (IH Hf Hc) as [Hrows Hdecl]. rewrite db_of_snoc. simpl.
    unfold insert_classes. rewrite Hci. simpl.
    destruct (declare_all_rows (ins_number i) _ _ Hi Hrows) as [(H1 & H2 & H3) H4].
    destruct (deprecated_all_rows (ins_number i) _ _ Hi' H1) as (H5 & H6 & H7).
    split; [done|]. intros j h [Hj|Hj]%elem_of_app Hh.
    + destruct (Hdecl j h Hj Hh) as [Hd Hs]. split; [by apply H6, H2|by apply H7, H3].
    + apply list_elem_of_singleton in Hj as ->. destruct (H4 h Hh) as [Hd Hs].
      split; [by apply H6|by apply H7].
Qed.

(** A compiled class hash is recorded only for a class some block declares with one, and
    so not for a legacy class. *)
Lemma declare_all_compiled n l : forall t h,
  is_Some (t_get (CompiledClassHashes (fold_left (declare_class n) l t)) h) ->
  h ∈ map fst l \/ is_Some (t_get (CompiledClassHashes t) h).
Proof.
  induction l as [|[g c] l IH]; intros t h; simpl; [by right|].
  intros [Hl|Hs]%IH; [left; set_solver|]. simpl in Hs. rewrite t_get_put in Hs.
  case_decide; subst; [left; set_solver|by right].
Qed.

Lemma deprecated_all_compiled n l : forall t,
  CompiledClassHashes (fold_left (declare_deprecated n) l t) = CompiledClassHashes t.
Proof. induction l as [|h l IH]; intros t; simpl; [done|]. by rewrite IH. Qed.

Lemma compiled_declared chain h :
  Forall (fun i => classes (ins_states i) = []) chain ->
  is_Some (t_get (CompiledClassHashes (db_classes (db_of chain))) h) ->
  exists i, i ∈ chain /\ h ∈ map fst (declared_classes (ins_updates i)).
Proof.
  induction chain as [|i chain IH] using rev_ind; intros Hc.
  - simpl. rewrite t_get_empty. by intros [].
  - apply Forall_app in Hc as [Hc Hci]. rewrite Forall_singleton in Hci.
    rewrite db_of_snoc. simpl. unfold insert_classes. rewrite Hci. simpl.
    rewrite deprecated_all_compiled. intros [Hh|Hs]%declare_all_compiled; [exists i; set_solver|].
    destruct (IH Hc Hs) as (j & Hj & Hh). exists j. set_solver.
Qed.

Lemma elem_of_btree_keys {V} (l : list (Z * V)) : forall m h,
  h ∈ map fst (fold_left (fun m e => btree_insert e.1 e.2 m) l m) <->
  h ∈ map fst l \/ h ∈ map fst m.
Proof.
  assert (forall k v m h, h ∈ map fst (btree_insert (V := V) k v m) <-> h = k \/ h ∈ map fst m)
    as Hone.
  { intros k v m h. induction m as [|[k' v'] m IH]; simpl; [set_solver|].
    destruct (Z.ltb_spec k k'); [|destruct (Z.eqb_spec k k') as [->|]]; simpl;
      rewrite ?elem_of_cons, ?IH; tauto. }
  induction l as [|[k v] l IH]; intros m h; simpl; [set_solver|].
  rewrite IH, Hone, elem_of_cons. tauto.
Qed.

Lemma listed_compiled db n m h :
  provider_declared_classes db (BNum n) = Ok (Some m) -> h ∈ map fst m ->
  is_Some (t_get (CompiledClassHashes (db_classes db)) h).
Proof.
  intros [= <-]. unfold btree_collect. rewrite elem_of_btree_keys, list_elem_of_fmap.
  intros [([h' c] & -> & (g & _ & Hg)%list_elem_of_omap)|]; [|set_solver].
  destruct (t_get _ g) as [x|] eqn:Hx; [|done]. injection Hg as <- <-. simpl. by rewrite Hx.
Qed.

Lemma declared_classes_listed chain i :
  Forall felt_classes chain -> Forall (fun i => classes (ins_states i) = []) chain -> i ∈ chain ->
  exists m, provider_declared_classes (db_of chain) (BNum (ins_number i)) = Ok (Some m) /\
    forall h, h ∈ map fst (declared_classes (ins_updates i)) -> h ∈ map fst m.
Proof.
  intros Hf Hc Hi. destruct (declared_rows_of chain Hf Hc) as [_ Hdecl].
  eexists. split; [reflexivity|]. intros h Hh. destruct (Hdecl i h Hi Hh) as [Hd [c Hs]].
  unfold btree_collect. apply elem_of_btree_keys. left. apply list_elem_of_fmap.
  exists (h, c). split; [done|]. apply list_elem_of_omap. exists h. split; [done|]. by rewrite Hs.
Qed.
End Tables.

(** ** The contract of the stages *)
Section Sync.
Context `{MD : Mdbx} `{RT : RoaringTreemap} `{FP : FeltPostcard} {C X Vm Conv GwClass : Type}.
Context (vm_default : Vm) (max_times : nat).
Context (get_block : nat -> Z -> result ClientError Gw.StateUpdateWithBlock).
Context (get_class : nat -> Z -> Z -> result ClientError GwClass).
Context (class_try_into : GwClass -> result Conv C).
Context (batch_size : Z) (class_batch : nat) (max_tip : Z).

(** The gateway serves one chain: whenever it answers, block [n] is the one with
    number [n], which converts to the insertion [ins n], and class [h] is
    [class_of h].  A block that did not convert would stop the blocks stage after it had
    stored the blocks of the range before it. *)
Record gateway_serves (chain : Z -> Gw.StateUpdateWithBlock)
    (ins : Z -> @Insertion C (@Receipt Vm) X) (class_of : Z -> C) : Prop := {
  gs_block t n x : get_block t n = Ok x -> x = chain n;
  gs_extract n : extract_block_data (Conv := Conv) vm_default (chain n)
    = Ok (ins_block (ins n), ins_receipts (ins n), ins_states (ins n));
  gs_executions n : ins_executions (ins n) = [];
  gs_number n : ins_number (ins n) = n;
  gs_felts n : felt_classes (ins n);
  gs_class t h b g : get_class t h b = Ok g -> class_try_into g = Ok (class_of h);
}.

(** All the gateway refuses is requests sent too fast. *)
Record gateway_live : Prop := {
  gl_blocks batch : only_rate_limits (fun '(BlocksGateway e) => is_rate_limited e) max_times
    (fetch_blocks get_block batch);
  gl_classes block hashes : only_rate_limits classes_rate_limited max_times
    (fetch_classes get_class class_try_into block hashes);
}.

Abbreviation blocks_stage := (BlocksStage (C := C) (X := X) (Conv := Conv) vm_default max_times get_block batch_size).
Abbreviation classes_stage := (ClassesStage (X := X) (Vm := Vm) max_times get_class class_try_into class_batch).

Context (chain : Z -> Gw.StateUpdateWithBlock) (ins : Z -> @Insertion C (@Receipt Vm) X).
Context (class_of : Z -> C) (serves : gateway_serves chain ins class_of).
Context (batch_pos : 0 < batch_size) (class_batch_pos : (0 < class_batch)%nat).
Context (max_tip_bound : max_tip + batch_size < u64_bound).

Definition blocks_upto (n : Z) : list (@Insertion C (@Receipt Vm) X) := map ins (urange 1 (n + 1)).

(** A block declares the class with a compiled class hash: a Sierra class.  The legacy
    classes a block declares are in [deprecated_declared_classes]. *)
Definition declares_sierra (k h : Z) : Prop := h ∈ map fst (declared_classes (ins_updates (ins k))).

(** What it is for a stage to have processed the blocks up to [n].  The classes stage
    asks the database which classes a block declares and is told the Sierra classes only:
    it stores their artifacts and no others. *)
Definition stage_synced (id : list Z) (n : Z) (w : World) : Prop :=
  (id = blocks_id -> block_part (w_db w) = block_part (db_of (blocks_upto n))) /\
  (id = classes_id ->
     (forall k h, 1 <= k <= n -> declares_sierra k h ->
        t_get (Classes (db_classes (w_db w))) h = Some (class_of h)) /\
     (forall h, is_Some (t_get (Classes (db_classes (w_db w))) h) ->
        exists k, 1 <= k /\ declares_sierra k h)).

Lemma extracted_no_classes n : classes (ins_states (ins n)) = [].
Proof.
  pose proof (gs_extract _ _ _ serves n) as He. unfold extract_block_data in He.
  rewrite !bind_ok in He. destruct He as (s & _ & He). rewrite bind_ok in He.
  destruct He as (txs & _ & He). rewrite bind_ok in He. destruct He as (rs & _ & He).
  rewrite bind_ok in He. destruct He as (p1 & _ & He). rewrite bind_ok in He.
  destruct He as (p2 & _ & He). rewrite bind_ok in He. destruct He as (p3 & _ & He).
  injection He as _ _ Hs. by rewrite <- Hs.
Qed.

Lemma store_blocks_spec l db :
  store_blocks (Conv := Conv) vm_default (map chain l) db
  = (Ok tt, fold_left insert_one (map ins l) db).
Proof.
  revert db. induction l as [|n l IH]; intros db; [done|]. cbn [map store_blocks fold_left].
  rewrite (gs_extract _ _ _ serves n), IH. do 2 f_equal. unfold insert_one.
  by rewrite (gs_executions _ _ _ serves n).
Qed.

Lemma download_blocks_spec from to clock l c :
  0 <= from -> to <= max_tip ->
  download_blocks max_times get_block batch_size from to clock = (Ok l, c) ->
  l = map chain (urange from (to + 1)).
Proof.
  intros Hf Ht Hd. rewrite <- (block_batches_cover from to batch_size) by lia.
  rewrite map_flat_map. eapply download_sound; [|exact Hd].
  intros b j bs _ Hb. eapply try_collect_served; [|exact Hb].
  intros n x Hx. unfold fetch_block in Hx. destruct (get_block j n) eqn:Hg; [|done].
  injection Hx as <-. by eapply gs_block.
Qed.

(** The blocks stage appends the range to the database, or fails leaving it as it was. *)
Lemma blocks_stage_safe pre : stage_safe stage_synced max_tip pre blocks_stage.
Proof.
  intros from to w r w' (Hft & Hmax & [Hsync _] & _) Hex. specialize (Hsync eq_refl).
  cbn [stage_execute BlocksStage] in Hex. unfold blocks_execute in Hex. simpl in Hex.
  destruct (download_blocks max_times get_block batch_size from to (w_clock w)) as [[l|e] c] eqn:Hd.
  - apply download_blocks_spec in Hd; [subst l|lia..]. rewrite store_blocks_spec in Hex.
    injection Hex as <- <-. simpl.
    destruct (insert_all_part (map ins (urange from (to + 1))) (w_db w) _
                ltac:(apply Forall_map, Forall_forall; intros; apply extracted_no_classes) Hsync)
      as (H1 & H2 & H3).
    split_and!.
    + split; [|done]. intros _. simpl. rewrite H1. unfold blocks_upto, db_of.
      rewrite <- fold_left_app, <- map_app. replace (from - 1 + 1) with from by lia.
      by rewrite urange_app by lia.
    + intros id n Hid [Hb Hc]. split; [by intros ->|]. intros Hid'. simpl. rewrite H2. by apply Hc.
    + intros id. unfold get_checkpoint. simpl. unfold checkpoint. by rewrite H3.
  - injection Hex as <- <-. simpl. split_and!; [by split|done|done].
Qed.

Lemma blocks_stage_live pre : gateway_live -> stage_live stage_synced max_tip pre blocks_stage.
Proof.
  intros Hl from to w (Hft & Hmax & _). cbn [stage_execute BlocksStage]. unfold blocks_execute. simpl.
  pose proof (download_live _ max_times (fetch_blocks get_block) (block_batches from to batch_size)
                (w_clock w) ltac:(intros b _; apply (gl_blocks Hl b))) as Hd.
  unfold download_blocks.
  destruct (download _ _ (fetch_blocks get_block) _ (w_clock w)) as [[l|e] c] eqn:Hd'; [|done].
  apply download_blocks_spec in Hd'; [subst l|lia..]. by rewrite store_blocks_spec.
Qed.

Lemma download_classes_spec hashes block clock l c :
  download_classes max_times get_class class_try_into class_batch hashes block clock = (Ok l, c) ->
  l = map class_of hashes.
Proof.
  intros Hd. rewrite <- (concat_chunks class_batch hashes) by done. rewrite concat_map.
  rewrite <- flat_map_concat_map. eapply download_sound; [|exact Hd].
  intros b j bs _ Hb. eapply try_collect_served; [|exact Hb].
  intros h x Hx. unfold fetch_class in Hx. destruct (get_class j h block) as [g|] eqn:Hg; [|done].
  simpl in Hx. rewrite (gs_class _ _ _ serves _ _ _ _ Hg) in Hx. by injection Hx.
Qed.

(** The classes block [b] declares, as the stage reads them. *)
Definition declared_hashes (db : Db C (@Receipt Vm) X) (b : Z) : list Z :=
  match provider_declared_classes db (BNum b) with Ok (Some m) => map fst m | _ => [] end.
Definition artifact (h : Z) : Z * C := (h, class_of h).

Lemma collect_classes_spec blocks db : forall clock,
  (forall l c, collect_classes max_times get_class class_try_into class_batch blocks db clock = (Ok l, c) ->
     l = map artifact (flat_map (declared_hashes db) blocks)) /\
  (gateway_live ->
   is_ok (collect_classes max_times get_class class_try_into class_batch blocks db clock).1 = true).
Proof.
  induction blocks as [|b blocks IH]; intros clock; [split; [intros l c [= <- <-]; done|done]|].
  cbn [collect_classes]. unfold provider_declared_classes at 1 2, block_number_by_id.
  cbn [mbind result_bind]. set (m := btree_collect _).
  assert (declared_hashes db b = map fst m) as Hm by done.
  destruct (download_classes max_times get_class class_try_into class_batch (map fst m) b clock)
    as [[arts|e] c1] eqn:Hd.
  - apply download_classes_spec in Hd as ->. destruct (IH c1) as [IH1 IH2].
    destruct (collect_classes max_times get_class class_try_into class_batch blocks db c1)
      as [[l2|e] c2]; [|split; [done|exact IH2]]. split; [|done].
    intros l c [= <- <-]. rewrite (IH1 l2 c2 eq_refl). cbn [flat_map]. rewrite map_app, Hm. f_equal.
    generalize (map fst m). intros hs. induction hs as [|h hs IHh]; [done|]. simpl. by rewrite IHh.
  - split; [done|]. intros Hl. exfalso.
    pose proof (download_live classes_rate_limited max_times (fetch_classes get_class class_try_into b)
      (chunks class_batch (map fst m)) clock ltac:(intros hs _; apply (gl_classes Hl b hs))) as Hok.
    unfold download_classes in Hd. by rewrite Hd in Hok.
Qed.

(** After the blocks stage has passed [to], the classes stage finds every class the
    blocks up to [to] declare. *)
Lemma declared_hashes_upto db m k h :
  block_part db = block_part (db_of (blocks_upto m)) -> 1 <= k <= m ->
  declares_sierra k h -> h ∈ declared_hashes db k.
Proof.
  intros Hp Hk Hh. unfold declared_hashes. rewrite (declared_classes_part _ _ _ Hp).
  destruct (declared_classes_listed (blocks_upto m) (ins k)) as (d & Hd & Hin).
  - apply Forall_map, Forall_forall. intros n _. apply (gs_felts _ _ _ serves).
  - apply Forall_map, Forall_forall. intros n _. apply extracted_no_classes.
  - apply list_elem_of_fmap. exists k. split; [done|]. apply elem_of_urange. lia.
  - rewrite (gs_number _ _ _ serves) in Hd. rewrite Hd. by apply Hin.
Qed.

Lemma declared_hashes_sierra db m k h :
  block_part db = block_part (db_of (blocks_upto m)) -> h ∈ declared_hashes db k ->
  exists j, 1 <= j /\ declares_sierra j h.
Proof.
  intros Hp. unfold declared_hashes. rewrite (declared_classes_part _ _ _ Hp).
  destruct (provider_declared_classes (db_of (blocks_upto m)) (BNum k)) as [[l|]|] eqn:Hd;
    [|set_solver..].
  intros Hh. destruct (compiled_declared (blocks_upto m) h) as (i & Hi & Hdecl).
  - apply Forall_map, Forall_forall. intros n _. apply extracted_no_classes.
  - by eapply listed_compiled.
  - apply list_elem_of_fmap in Hi as (j & -> & Hj%elem_of_urange). exists j. split; [lia|done].
Qed.

Lemma classes_stage_safe pre :
  blocks_stage ∈ pre -> stage_safe stage_synced max_tip pre classes_stage.
Proof.
  intros Hpre from to w r w' (Hft & Hmax & [_ Hsync] & Hbefore) Hex.
  destruct (Hsync eq_refl) as [Hstored Honly].
  destruct (Hbefore _ Hpre) as (m & Hm & [Hblocks _]). specialize (Hblocks eq_refl).
  cbn [stage_execute ClassesStage] in Hex. unfold classes_execute in Hex. simpl in Hex.
  destruct (collect_classes_spec (urange from (to + 1)) (w_db w) (w_clock w)) as [Hspec _].
  destruct (collect_classes max_times get_class class_try_into class_batch
              (urange from (to + 1)) (w_db w) (w_clock w)) as [[l|e] c].
  - rewrite (Hspec _ _ eq_refl) in Hex. injection Hex as <- <-. simpl.
    set (hs := flat_map _ _). destruct (set_classes_part (map artifact hs) (w_db w)) as [Hp Hck].
    split_and!.
    + split; [done|]. intros _. simpl. split.
      * intros k h Hk Hh. rewrite (set_classes_get class_of hs).
        case_decide as Hin; [done|]. apply (Hstored k h); [|done].
        destruct (decide (k < from)); [lia|]. exfalso. apply Hin. subst hs.
        apply list_elem_of_In, in_flat_map. exists k. rewrite <- !list_elem_of_In.
        split; [apply elem_of_urange; lia|]. eapply declared_hashes_upto; [done|lia|done].
      * intros h. rewrite (set_classes_get class_of hs). case_decide as Hin; [|by apply Honly].
        intros _. subst hs. apply list_elem_of_In, in_flat_map in Hin as (k & _ & Hh).
        apply list_elem_of_In in Hh. by eapply declared_hashes_sierra.
    + intros id n Hid [Hb _]. split; [|done]. intros Hid'. simpl. rewrite Hp. by apply Hb.
    + intros id. unfold get_checkpoint. simpl. unfold checkpoint. by rewrite Hck.
  - injection Hex as <- <-. simpl. split_and!; [by split|done|done].
Qed.

Lemma classes_stage_live pre : gateway_live -> stage_live stage_synced max_tip pre classes_stage.
Proof.
  intros Hl from to w _. cbn [stage_execute ClassesStage]. unfold classes_execute. simpl.
  destruct (collect_classes_spec (urange from (to + 1)) (w_db w) (w_clock w)) as [_ Hok].
  specialize (Hok Hl). by destruct (collect_classes _ _ _ _ _ (w_db w) (w_clock w)) as [[]].
Qed.

(** The database keeps checkpoints. *)
#[local] Instance world_laws : CheckpointLaws stage_synced.
Proof.
  split; [done| |done|done].
  intros id n w w' [= <-] id'. unfold get_checkpoint. simpl. unfold checkpoint. simpl.
  rewrite t_get_put. by case_decide.
Qed.

Lemma sync_inv_empty : pipeline_inv stage_synced [blocks_stage; classes_stage] (mkWorld Db_empty 0).
Proof.
  assert (forall s, cp (E := StageError Conv) s (mkWorld (Db_empty (C := C) (R := @Receipt Vm) (X := X)) 0) = 0)
    as Hcp by (intros s; unfold cp, get_checkpoint; simpl; unfold checkpoint; simpl; by rewrite t_get_empty).
  split.
  - intros s _. rewrite Hcp. split; [done|]. split; [done|]. intros _. split; [intros k h Hk; lia|].
    intros h. simpl. rewrite t_get_empty. by intros [].
  - intros. by rewrite !Hcp.
Qed.

(** C26. A node that syncs from an empty database with the blocks and classes
    stages works through any sequence of tips, whatever rate limits the gateway
    imposes within the retries: its tables are then exactly what inserting the
    gateway's blocks 1, 2, ..., n in order gives, for some n at or past every tip;
    the artifact of every Sierra class those blocks declare up to the tips is stored, and
    no artifact of another class, so that the legacy classes the blocks declare are never
    downloaded; and block 0, which no stage is ever asked for, is not there.  The gateway
    serves one chain, each block of which converts. *)
Theorem sync_from_empty fuel chunk_size tips :
  gateway_live -> (forall tip, Some tip ∈ tips -> tip <= max_tip) ->
  0 < chunk_size -> max_tip + chunk_size < u64_bound -> (S (Z.to_nat max_tip) <= fuel)%nat ->
  exists w n,
    run fuel [blocks_stage; classes_stage] chunk_size tips (mkWorld Db_empty 0) = Some (Ok tt, w) /\
    (forall tip, Some tip ∈ tips -> tip <= n) /\
    block_part (w_db w) = block_part (db_of (blocks_upto n)) /\
    (forall tip k h, Some tip ∈ tips -> 1 <= k <= tip -> declares_sierra k h ->
       t_get (Classes (db_classes (w_db w))) h = Some (class_of h)) /\
    (forall h, is_Some (t_get (Classes (db_classes (w_db w))) h) ->
       exists k, 1 <= k /\ declares_sierra k h) /\
    block_hash_by_num (w_db w) 0 = Ok None.
Proof.
  intros Hl Htips Hc Hb Hf.
  assert (NoDup (map stage_id [blocks_stage; classes_stage])) as Hids by (repeat constructor; set_solver).
  assert (all_stages (stage_safe stage_synced max_tip) [] [blocks_stage; classes_stage]) as Hsafe.
  { split; [apply blocks_stage_safe|]. split; [|done]. apply classes_stage_safe. set_solver. }
  assert (all_stages (stage_live stage_synced max_tip) [] [blocks_stage; classes_stage]) as Hlive.
  { split; [by apply blocks_stage_live|]. split; [by apply classes_stage_live|done]. }
  destruct (run_tips_spec stage_synced max_tip _ Hids Hsafe classes_stage eq_refl fuel chunk_size tips
              chunk_size _ sync_inv_empty Htips) as [Hsound Hret].
  destruct (Hret Hlive Hc Hb Hf) as [w Hrun]. destruct (Hsound _ _ Hrun) as (Hinv & _ & Hreach).
  destruct (inv_synced _ _ _ Hinv blocks_stage) as [Hnn [Hblocks _]]; [set_solver|].
  destruct (inv_synced _ _ _ Hinv classes_stage) as [_ [_ Hclasses]]; [set_solver|].
  specialize (Hblocks eq_refl). destruct (Hclasses eq_refl) as [Hstored Honly].
  exists w, (cp blocks_stage w). split_and!; [done| |done| |exact Honly|].
  - intros tip Htip. apply Hreach; [done|done|set_solver].
  - intros tip k h Htip Hk Hh. apply (Hstored k); [|done].
    pose proof (Hreach eq_refl tip classes_stage Htip ltac:(set_solver)). lia.
  - unfold block_hash_by_num. injection Hblocks as -> _. f_equal.
    destruct (t_get _ 0) eqn:Hz; [|done].
    destruct (block_hashes_dom (blocks_upto (cp blocks_stage w)) 0) as (i & Hi & Hn); [by eexists|].
    apply list_elem_of_fmap in Hi as (k & -> & Hk%elem_of_urange).
    rewrite (gs_number _ _ _ serves) in Hn. lia.
Qed.
End Sync.

(** ** A gateway that limits every other request *)
Definition sample_price : Gw.ResourcePrice := {| Gw.price_in_fri := 1; Gw.price_in_wei := 2 |}.
Definition sample_gw_block (n : Z) : Gw.StateUpdateWithBlock := {|
  Gw.sub_state_update := {|
    Gw.su_block_hash := Some (100 + n); Gw.su_new_root := None; Gw.su_old_root := 0;
    Gw.su_state_diff := {|
      Gw.diff_storage_diffs := []; Gw.diff_deployed_contracts := [];
      Gw.diff_old_declared_contracts := [];
      Gw.diff_declared_classes := [{| Gw.dcl_class_hash := n mod 50; Gw.dcl_compiled_class_hash := 1 |}];
      Gw.diff_nonces := []; Gw.diff_replaced_classes := [] |} |};
  Gw.sub_block := {|
    Gw.gb_block_hash := Some (100 + n); Gw.gb_block_number := Some n;
    Gw.gb_parent_block_hash := 99 + n; Gw.gb_timestamp := n; Gw.gb_sequencer_address := None;
    Gw.gb_state_root := None; Gw.gb_transaction_commitment := None; Gw.gb_event_commitment := None;
    Gw.gb_status := Gw.AcceptedOnL2; Gw.gb_l1_da_mode := Calldata;
    Gw.gb_l2_gas_price := sample_price; Gw.gb_l1_gas_price := sample_price;
    Gw.gb_l1_data_gas_price := sample_price; Gw.gb_transactions := [];
    Gw.gb_transaction_receipts := []; Gw.gb_starknet_version := None |} |}.
Definition sample_ins (n : Z) : @Insertion Z (@Receipt unit) Z :=
  match extract_block_data (Conv := unit) tt (sample_gw_block n) with
  | Ok (b, rs, st) => mkInsertion b st rs []
  | Err _ => mkInsertion {| sbs_block := {| sb_hash := 0; sb_header := Header_default; sb_body := [] |};
                            sbs_status := AcceptedOnL2 |}
               {| state_updates := Gw.state_diff_into (Gw.su_state_diff (Gw.sub_state_update (sample_gw_block n)));
                  classes := [] |} [] []
  end.
Definition sample_get_block (t : nat) (n : Z) : result ClientError Gw.StateUpdateWithBlock :=
  if Nat.even t then Err RateLimited else Ok (sample_gw_block n).
Definition sample_get_class (t : nat) (h b : Z) : result ClientError Z :=
  if Nat.even t then Err RateLimited else Ok h.
Definition sample_class_into (h : Z) : result unit Z := Ok (h + 1000).

Lemma sample_gateway_serves :
  gateway_serves (GwClass := Z) tt sample_get_block sample_get_class sample_class_into
    sample_gw_block sample_ins (fun h => h + 1000).
Proof.
  split; try done.
  - intros t n x. unfold sample_get_block. by destruct (Nat.even t); intros [= <-].
  - intros n. split; [|constructor]. repeat constructor; simpl.
    all: pose proof (Z.mod_pos_bound n 50); unfold is_felt, P; lia.
  - intros t h b g. unfold sample_get_class. by destruct (Nat.even t); intros [= <-].
Qed.

Lemma served_at_odd {E A B} (rl : E -> bool) (f : nat -> A -> result E B) l :
  (forall t a, Nat.even t = false -> is_ok (f t a) = true) ->
  (forall t a e, f t a = Err e -> rl e = true) -> only_rate_limits rl 1 (fun t => try_collect (f t) l).
Proof.
  intros Hf He.
  assert (forall t, Nat.even t = false -> is_ok (try_collect (f t) l) = true) as Hok.
  { intros t Ht. induction l as [|a l IH]; [done|]. simpl. specialize (Hf t a Ht).
    destruct (f t a); [|done]. simpl. by destruct (try_collect (f t) l). }
  split.
  - clear Hok. intros t e. induction l as [|a l IH]; simpl; [done|].
    destruct (f t a) eqn:Hr; simpl; [|intros [= <-]; by eapply He].
    destruct (try_collect (f t) l); simpl; [done|]. intros [= ->]. by apply IH.
  - intros clock. destruct (Nat.even clock) eqn:Hc.
    + exists 1%nat. split; [lia|]. apply Hok.
      by rewrite Nat.add_1_r, Nat.even_succ, <- Nat.negb_even, Hc.
    + exists 0%nat. split; [lia|]. apply Hok. by rewrite Nat.add_0_r.
Qed.

Lemma sample_gateway_live :
  gateway_live 1 sample_get_block sample_get_class sample_class_into.
Proof.
  split; intros; apply served_at_odd; intros t a;
    unfold fetch_block, fetch_class, sample_get_block, sample_get_class.
  - by intros ->.
  - intros e. destruct (Nat.even t); [by intros [= <-]|done].
  - by intros ->.
  - intros e. destruct (Nat.even t); [by intros [= <-]|done].
Qed.

Lemma sync_from_empty_witness : exists w n,
  run 8 [BlocksStage tt 1 sample_get_block 2; ClassesStage 1 sample_get_class sample_class_into 2]
    3 [None; Some 5; Some 7] (mkWorld Db_empty 0) = Some (Ok tt, w) /\
  (forall tip, Some tip ∈ [None; Some 5; Some 7] -> tip <= n) /\
  block_part (w_db w) = block_part (db_of (blocks_upto sample_ins n)) /\
  (forall tip k h, Some tip ∈ [None; Some 5; Some 7] -> 1 <= k <= tip ->
     declares_sierra sample_ins k h ->
     t_get (Classes (db_classes (w_db w))) h = Some (h + 1000)) /\
  (forall h, is_Some (t_get (Classes (db_classes (w_db w))) h) ->
     exists k, 1 <= k /\ declares_sierra sample_ins k h) /\
  block_hash_by_num (w_db w) 0 = Ok None.
Proof.
  apply (sync_from_empty tt 1 sample_get_block sample_get_class sample_class_into 2 2 7
           sample_gw_block sample_ins _ sample_gateway_serves).
  - lia.
  - lia.
  - by vm_compute.
  - exact sample_gateway_live.
  - intros tip. rewrite !elem_of_cons, elem_of_nil. intros [|[[= ->]|[[= ->]|[]]]]; [done|lia|lia].
  - lia.
  - by vm_compute.
  - simpl. lia.
Defined.

Abbreviation sample_blocks retries :=
  (BlocksStage (C := Z) (X := Z) (Conv := unit) tt retries sample_get_block 2).
Abbreviation sample_synced := (stage_synced sample_ins (fun h => h + 1000)).

Lemma sample_blocks_inv retries :
  pipeline_inv sample_synced [sample_blocks retries] (mkWorld Db_empty 0).
Proof.
  split.
  - intros s _. split; [done|]. split; [done|]. intros _. split; [|by intros h []].
    intros k h Hk Hh.
    assert (cp s (mkWorld (Db_empty (C := Z) (R := @Receipt unit) (X := Z)) 0) = 0) as H0 by done. lia.
  - intros [|i] [|j]; simpl; intros; (lia || done).
Qed.

Lemma sample_blocks_safe retries :
  all_stages (stage_safe sample_synced 7) [] [sample_blocks retries].
Proof.
  split; [|done]. 
  apply (blocks_stage_safe tt retries sample_get_block sample_get_class sample_class_into 2 2 7
           sample_gw_block sample_ins _ sample_gateway_serves); lia || (unfold u64_bound; lia).
Qed.

(** With retries the stage reaches the tip. *)
Lemma pipeline_reaches_tips_witness : exists w',
  run 8 [sample_blocks 1] 3 [Some 4; Some 7] (mkWorld Db_empty 0) = Some (Ok tt, w') /\
  pipeline_inv sample_synced [sample_blocks 1] w' /\
  forall tip s, Some tip ∈ [Some 4; Some 7] -> s ∈ [sample_blocks 1] -> tip <= cp s w'.
Proof.
  apply (pipeline_reaches_tips sample_synced 7 (laws := world_laws _ _)).
  - repeat constructor; set_solver.
  - done.
  - apply sample_blocks_safe.
  - split; [|done]. apply (blocks_stage_live tt 1 sample_get_block sample_get_class sample_class_into 2 2 7
      sample_gw_block sample_ins _ sample_gateway_serves);
      first [exact sample_gateway_live|lia|unfold u64_bound; lia].
  - apply sample_blocks_inv.
  - intros tip. rewrite !elem_of_cons, elem_of_nil. intros [[= ->]|[[= ->]|[]]]; lia.
  - lia.
  - by vm_compute.
  - simpl. lia.
Defined.

(** Without them the first request fails, and the checkpoints still hold. *)
Lemma pipeline_checkpoints_sound_witness : exists r w',
  run 8 [sample_blocks 0] 3 [Some 7] (mkWorld Db_empty 0) = Some (Err r, w') /\
  pipeline_inv sample_synced [sample_blocks 0] w' /\
  forall s : Stage _ (StageError unit), cp s (mkWorld Db_empty 0) <= cp s w'.
Proof.
  exists (PipelineStage (StageBlocks (BlocksGateway RateLimited))), (mkWorld Db_empty 1).
  split; [reflexivity|].
  apply (pipeline_checkpoints_sound sample_synced 7 (laws := world_laws _ _) 8 [sample_blocks 0] 3
           [Some 7] (mkWorld Db_empty 0) (Err (PipelineStage (StageBlocks (BlocksGateway RateLimited))))).
  - repeat constructor; set_solver.
  - done.
  - apply sample_blocks_safe.
  - apply sample_blocks_inv.
  - intros tip. rewrite list_elem_of_singleton. intros [= ->]. lia.
  - reflexivity.
Defined.
