(* ===== verification/GasOracle.v ===== *)
(** * The gas oracle (core/src/backend/gas_oracle.rs)

    Fixed prices, or the average of the last 60 samples of Ethereum's base fees.
    The worker's loop is a sequence of fee histories; the node's client to L1 that
    produces them is outside the program. *)

From Stdlib Require Import ZArith Lia.
From stdpp Require Import base numbers list.
From S2P Require Import Prelude Block.

Definition BUFFER_SIZE : nat := 60.
Definition ONE_GWEI : Z := 1000000000.

Record SampledPrices := mkSampledPrices { sp_gas_prices : GasPrice; sp_data_gas_prices : GasPrice }.
Inductive GasOracle :=
  | Fixed (gas_prices data_gas_prices : GasPrice)
  | Sampled (prices : SampledPrices).

Definition sampled_ethereum : GasOracle := Sampled (mkSampledPrices GasPrice_MIN GasPrice_MIN).
Definition sampled_starknet : GasOracle := Fixed GasPrice_MIN GasPrice_MIN.

Definition current_gas_prices (o : GasOracle) : GasPrice :=
  match o with Fixed g _ => g | Sampled p => sp_gas_prices p end.
Definition current_data_gas_prices (o : GasOracle) : GasPrice :=
  match o with Fixed _ d => d | Sampled p => sp_data_gas_prices p end.

(** ** Samples: [VecDeque<u128>], oldest first *)

Definition add_sample (sample : Z) (buffer : list Z) : list Z :=
  let buffer := if Nat.eqb (length buffer) BUFFER_SIZE then tail buffer else buffer in
  buffer ++ [sample].

(** [sum] wraps in release builds. *)
Definition average (buffer : list Z) : Z :=
  match buffer with
  | [] => 0
  | _ => fold_left (fun acc s => wrap128 (acc + s)) buffer 0 / Z.of_nat (length buffer)
  end.

(** [FeeHistory] of the L1 node, as far as it is read. *)
Record FeeHistory := mkFeeHistory { base_fee_per_gas : list Z; base_fee_per_blob_gas : list Z }.

Inductive GasOracleError := NoGasPrice | NoBlobGasPrice.

Record GasOracleWorker := mkWorker {
  wk_prices : SampledPrices;
  wk_gas_price_buffer : list Z;
  wk_data_gas_price_buffer : list Z;
}.
Definition worker_new (prices : SampledPrices) : GasOracleWorker := mkWorker prices [] [].

Definition same_price (p : Z) : GasPrice := {| gp_eth := p; gp_strk := p |}.

(** The sample of the gas price is kept even when the blob price is missing. *)
Definition update_gas_price (h : FeeHistory) (w : GasOracleWorker)
    : result GasOracleError unit * GasOracleWorker :=
  match last (base_fee_per_gas h) with
  | None => (Err NoGasPrice, w)
  | Some latest_gas_price =>
      let gas := add_sample latest_gas_price (wk_gas_price_buffer w) in
      match last (base_fee_per_blob_gas h) with
      | None => (Err NoBlobGasPrice, mkWorker (wk_prices w) gas (wk_data_gas_price_buffer w))
      | Some avg_blob_base_fee =>
          let data := add_sample avg_blob_base_fee (wk_data_gas_price_buffer w) in
          let avg_gas_price := same_price (wrap128 (average gas + ONE_GWEI)) in
          let avg_blob_price := same_price (average data) in
          (Ok tt, mkWorker (mkSampledPrices avg_gas_price avg_blob_price) gas data)
      end
  end.

(** The loop of [run] once the L1 node has answered: errors are logged and dropped. *)
Definition worker_run (histories : list FeeHistory) (w : GasOracleWorker) : GasOracleWorker :=
  fold_left (fun w h => (update_gas_price h w).2) histories w.

(** ** The window of samples *)

(** The last [n] elements of a list. *)
Definition suffix_of_length {A} (n : nat) (l : list A) : list A := drop (length l - n) l.

Lemma tail_drop {A} n : forall l : list A, tail (drop n l) = drop (S n) l.
Proof. induction n as [|n IH]; intros [|x l]; [done..|]. simpl. by rewrite IH. Qed.

Lemma add_sample_window s l :
  add_sample s (suffix_of_length BUFFER_SIZE l) = suffix_of_length BUFFER_SIZE (l ++ [s]).
Proof.
  unfold add_sample, suffix_of_length, BUFFER_SIZE. rewrite length_drop, length_app. simpl length.
  destruct (Nat.eqb_spec (length l - (length l - 60)) 60).
  - rewrite tail_drop, drop_app_le by lia. do 2 f_equal. lia.
  - rewrite drop_app_le by lia. do 2 f_equal. lia.
Qed.

(** A sample below [2 ^ 122]: 60 of them add up within [u128]. *)
Definition sample_bound : Z := Eval vm_compute in 2 ^ 122.
Definition small_sample (s : Z) : Prop := 0 <= s < sample_bound.

Lemma sum_bounds lo hi l : forall acc,
  Forall (fun s => lo <= s <= hi /\ small_sample s) l ->
  0 <= acc -> acc + Z.of_nat (length l) * sample_bound < u128_bound ->
  acc + Z.of_nat (length l) * lo <= fold_left (fun acc s => wrap128 (acc + s)) l acc
    <= acc + Z.of_nat (length l) * hi.
Proof.
  induction l as [|s l IH]; intros acc Hl H0 Hb; simpl fold_left; [simpl; lia|].
  apply Forall_cons_1 in Hl as [[Hs [Hn Hs2]] Hl].
  rewrite length_cons, Nat2Z.inj_succ in *. unfold sample_bound in *.
  assert (wrap128 (acc + s) = acc + s) as -> by (apply Z.mod_small; lia).
  specialize (IH (acc + s) Hl ltac:(lia) ltac:(lia)). lia.
Qed.

Lemma average_bounds lo hi l :
  (length l <= BUFFER_SIZE)%nat -> l <> [] ->
  Forall (fun s => lo <= s <= hi /\ small_sample s) l -> lo <= average l <= hi.
Proof.
  intros Hlen Hne Hl.
  assert (0 + Z.of_nat (length l) * sample_bound < u128_bound) as Hb.
  { unfold BUFFER_SIZE, u128_bound in *. change (2 ^ 128) with (64 * sample_bound). unfold sample_bound. lia. }
  pose proof (sum_bounds lo hi l 0 Hl ltac:(lia) Hb) as Hs.
  unfold average. destruct l as [|s l]; [done|]. set (n := Z.of_nat (length (s :: l))) in *.
  assert (0 < n) by (subst n; simpl; lia). split.
  - apply Z.div_le_lower_bound; lia.
  - apply Z.div_le_upper_bound; lia.
Qed.

(** What a history that has both fees adds. *)
Definition gas_sample (h : FeeHistory) : option Z := last (base_fee_per_gas h).
Definition blob_sample (h : FeeHistory) : option Z := last (base_fee_per_blob_gas h).

Lemma mapM_snoc {A B} (f : A -> option B) l x ys :
  mapM f (l ++ [x]) = Some ys -> exists ys' y, ys = ys' ++ [y] /\ mapM f l = Some ys' /\ f x = Some y.
Proof.
  intros H%mapM_Some. apply Forall2_app_inv_l in H as (ys' & l2 & H1 & H2 & ->).
  apply Forall2_cons_inv_l in H2 as (y & l3 & Hy & H3 & ->). apply Forall2_nil_inv_l in H3 as ->.
  exists ys', y. split_and!; [done|by apply mapM_Some|done].
Qed.

Lemma worker_run_buffers hs gs bs w :
  mapM gas_sample hs = Some gs -> mapM blob_sample hs = Some bs ->
  wk_gas_price_buffer w = [] -> wk_data_gas_price_buffer w = [] ->
  let w' := worker_run hs w in
  wk_gas_price_buffer w' = suffix_of_length BUFFER_SIZE gs /\
  wk_data_gas_price_buffer w' = suffix_of_length BUFFER_SIZE bs /\
  (hs <> [] -> wk_prices w' = mkSampledPrices
     (same_price (wrap128 (average (wk_gas_price_buffer w') + ONE_GWEI)))
     (same_price (average (wk_data_gas_price_buffer w')))).
Proof.
  revert gs bs. induction hs as [|h hs IH] using rev_ind; intros gs bs Hg Hb H1 H2.
  { injection Hg as <-. injection Hb as <-. done. }
  apply mapM_snoc in Hg as (gs' & g & -> & Hg & Eg).
  apply mapM_snoc in Hb as (bs' & b & -> & Hb & Eb).
  destruct (IH _ _ Hg Hb H1 H2) as (I1 & I2 & _).
  unfold worker_run in *. rewrite fold_left_app. simpl.
  unfold update_gas_price, gas_sample, blob_sample in *. rewrite Eg, Eb. simpl.
  by rewrite I1, I2, !add_sample_window.
Qed.

(** C38. The sampled gas oracle follows L1: after any number of complete fee histories
    with fees below 2^122, its gas price lies one gwei above, and its data gas price
    within, any bounds on the last 60 samples of the respective fee, whatever came
    before them. *)
Theorem sampled_prices_track_l1 hs gs bs lo hi dlo dhi p :
  hs <> [] -> mapM gas_sample hs = Some gs -> mapM blob_sample hs = Some bs ->
  Forall (fun s => lo <= s <= hi /\ small_sample s) (suffix_of_length BUFFER_SIZE gs) ->
  Forall (fun s => dlo <= s <= dhi /\ small_sample s) (suffix_of_length BUFFER_SIZE bs) ->
  let o := Sampled (wk_prices (worker_run hs (worker_new p))) in
  lo + ONE_GWEI <= gp_eth (current_gas_prices o) <= hi + ONE_GWEI /\
  gp_strk (current_gas_prices o) = gp_eth (current_gas_prices o) /\
  dlo <= gp_eth (current_data_gas_prices o) <= dhi /\
  gp_strk (current_data_gas_prices o) = gp_eth (current_data_gas_prices o).
Proof.
  intros Hne Hg Hb Hgl Hbl o.
  destruct (worker_run_buffers hs gs bs (worker_new p) Hg Hb eq_refl eq_refl) as (H1 & H2 & H3).
  subst o. cbn [current_gas_prices current_data_gas_prices]. rewrite (H3 Hne), H1, H2. simpl.
  assert (forall l : list Z, l <> [] -> suffix_of_length BUFFER_SIZE l <> [] /\
    (length (suffix_of_length BUFFER_SIZE l) <= BUFFER_SIZE)%nat) as Hsuf.
  { intros l Hl. unfold suffix_of_length, BUFFER_SIZE. rewrite length_drop. split; [|lia].
    intros Hn. apply (f_equal length) in Hn. rewrite length_drop in Hn.
    destruct l; [done|]. simpl in Hn. lia. }
  assert (gs <> [] /\ bs <> []) as [Hgs Hbs].
  { apply mapM_Some, Forall2_length in Hg, Hb. destruct hs, gs, bs; done. }
  destruct (Hsuf gs Hgs) as [G1 G2]. destruct (Hsuf bs Hbs) as [B1 B2].
  pose proof (average_bounds lo hi _ G2 G1 Hgl) as Ag.
  pose proof (average_bounds dlo dhi _ B2 B1 Hbl) as Ab.
  pose proof (average_bounds 0 sample_bound _ G2 G1
    ltac:(eapply Forall_impl; [exact Hgl|]; intros s [_ Hs]; unfold small_sample in *; lia)) as A2.
  unfold wrap128. rewrite Z.mod_small by (unfold u128_bound, ONE_GWEI, sample_bound in *; lia). lia.
Qed.

Lemma sampled_prices_track_l1_witness :
  let hs := [mkFeeHistory [7; 9] [2]; mkFeeHistory [12] [3; 4]] in
  let o := Sampled (wk_prices (worker_run hs (worker_new (mkSampledPrices GasPrice_MIN GasPrice_MIN)))) in
  9 + ONE_GWEI <= gp_eth (current_gas_prices o) <= 12 + ONE_GWEI /\
  gp_strk (current_gas_prices o) = gp_eth (current_gas_prices o) /\
  2 <= gp_eth (current_data_gas_prices o) <= 4 /\
  gp_strk (current_data_gas_prices o) = gp_eth (current_data_gas_prices o).
Proof.
  intros hs o.
  apply (sampled_prices_track_l1 hs [9; 12] [2; 4] 9 12 2 4); [done|done|done| |];
    repeat constructor; unfold small_sample, sample_bound; simpl; lia.
Defined.
