(* ===== verification/Backend.v ===== *)
(** * Block production: the backend (core/src/backend/mod.rs, core/src/env.rs)

    Closing a block: the successful transactions of an execution, the commitments
    over them, the state root, the header and its hash, the block hash registry,
    the insertion into the database; and the environment of the next block.  The
    hash functions, the bonsai trie and the provider's trie writer are parameters.
    A panic of the source ([unwrap], [expect]) is [None]. *)

From Stdlib Require Import ZArith Lia String.
From stdpp Require Import base numbers list.
From S2P Require Import Prelude BTreeMap Felt Tx Version Block Receipt Codec Versioned Mdbx DbProvider DbState GasOracle.

Record PartialHeader := {
  ph_parent_hash : Z;
  ph_number : Z;
  ph_timestamp : Z;
  ph_sequencer_address : Z;
  ph_l1_gas_prices : GasPrice;
  ph_l1_data_gas_prices : GasPrice;
  ph_l2_gas_prices : GasPrice;
  ph_l1_da_mode : L1DataAvailabilityMode;
  ph_protocol_version : ProtocolVersion;
}.

Record ExecutionStats := mkStats { l1_gas_used : Z; cairo_steps_used : Z }.
Definition ExecutionStats_default : ExecutionStats := mkStats 0 0.

Inductive ExecutorError := LimitsExhausted | OtherExecutorError.
Inductive BlockProductionError :=
  | ProductionProvider (e : ProviderError)
  | ExecutionTaskCancelled
  | TransactionExecutionError (e : ExecutorError).
Definition is_block_limit_exhausted (e : BlockProductionError) : bool :=
  match e with TransactionExecutionError LimitsExhausted => true | _ => false end.

Record MinedBlockOutcome := mkOutcome {
  outcome_block_number : Z;
  outcome_txs : list Z;
  outcome_stats : ExecutionStats;
}.

(** [TrieWriter] of the provider. *)
Class TrieWriter (T : Type) := {
  trie_insert_declared_classes : Z -> list (Z * Z) -> T -> ProviderResult (Z * T);
  trie_insert_contract_updates : Z -> StateUpdates -> T -> ProviderResult (Z * T);
}.

(** ** Commitments *)
Section Commit.
Context {Vm T : Type} `{!TrieWriter T} (poseidon starknet_keccak : list Z -> Z).
(** The root of a bonsai trie of the given height over keys and values. *)
Context (bonsai_root : Z -> list (list Z * Z) -> Z).

(** [compute_merkle_root::<Poseidon>]: value [i] at the 64-bit key [i]. *)
Definition compute_merkle_root (values : list Z) : Z :=
  bonsai_root 64 (imap (fun i value => (be_bytes 8 (Z.of_nat i), value)) values).

Definition compute_transaction_commitment (transactions : list TxWithHash) : Z :=
  compute_merkle_root (map twh_hash transactions).

Definition compute_receipt_commitment (receipts : list (ReceiptWithTxHash Vm)) : Z :=
  compute_merkle_root (map (receipt_compute_hash poseidon starknet_keccak) receipts).

Definition event_hash (tx : Z) (e : Event) : Z :=
  let keys_hash := poseidon (event_keys e) in
  let data_hash := poseidon (event_data e) in
  poseidon [tx; from_address e; keys_hash; data_hash].

Definition tx_events (receipts : list (ReceiptWithTxHash Vm)) : list (Z * Event) :=
  flat_map (fun r => map (pair (rct_tx_hash r)) (receipt_events (rct_receipt r))) receipts.

Definition compute_event_commitment (receipts : list (ReceiptWithTxHash Vm)) : Z :=
  compute_merkle_root (map (fun e => event_hash e.1 e.2) (tx_events receipts)).

Definition compute_new_state_root (number : Z) (state_updates : StateUpdates) (t : T)
    : option (Z * T) :=
  match trie_insert_declared_classes number (declared_classes state_updates) t with
  | Err _ => None
  | Ok (class_trie_root, t) =>
      match trie_insert_contract_updates number state_updates t with
      | Err _ => None
      | Ok (contract_trie_root, t) =>
          Some (poseidon [short_string "STARKNET_STATE_V0"; contract_trie_root; class_trie_root], t)
      end
  end.

Definition as_u32 (n : nat) : Z := Z.of_nat n mod 2 ^ 32.

(** [UncommittedBlock::commit]. *)
Definition commit (h : PartialHeader) (transactions : list TxWithHash)
    (receipts : list (ReceiptWithTxHash Vm)) (state_updates : StateUpdates) (t : T)
    : option (SealedBlock * T) :=
  let events_count :=
    fold_left (fun acc r => (acc + as_u32 (length (receipt_events (rct_receipt r)))) mod 2 ^ 32)
      receipts 0 in
  let transaction_count := as_u32 (length transactions) in
  let state_diff_length := state_updates_len state_updates mod 2 ^ 32 in
  '(state_root, t) ← compute_new_state_root (ph_number h) state_updates t;
  let header := {|
    parent_hash := ph_parent_hash h;
    number := ph_number h;
    state_diff_commitment := compute_state_diff_hash poseidon state_updates;
    transactions_commitment := compute_transaction_commitment transactions;
    receipts_commitment := compute_receipt_commitment receipts;
    events_commitment := compute_event_commitment receipts;
    state_root := state_root;
    transaction_count := transaction_count;
    events_count := events_count;
    state_diff_length := state_diff_length;
    timestamp := ph_timestamp h;
    sequencer_address := ph_sequencer_address h;
    l1_gas_prices := ph_l1_gas_prices h;
    l1_data_gas_prices := ph_l1_data_gas_prices h;
    l2_gas_prices := ph_l2_gas_prices h;
    l1_da_mode := ph_l1_da_mode h;
    protocol_version := ph_protocol_version h;
  |} in
  Some ({| sb_hash := compute_hash poseidon header; sb_header := header; sb_body := transactions |}, t).
End Commit.

(** ** The environment of the next block *)
Record BlockContextGenerator := mkContextGen {
  block_timestamp_offset : Z;   (* i64 *)
  next_block_start_time : Z;    (* u64 *)
}.

(** Reduction to [i64]. *)
Definition wrap_i64 (z : Z) : Z := (z + 2 ^ 63) mod 2 ^ 64 - 2 ^ 63.

Definition update_block_gas_prices (oracle : GasOracle) (env : BlockEnv) : BlockEnv := {|
  env_number := env_number env; env_timestamp := env_timestamp env;
  env_l2_gas_prices := env_l2_gas_prices env;
  env_l1_gas_prices := current_gas_prices oracle;
  env_l1_data_gas_prices := current_data_gas_prices oracle;
  env_sequencer_address := env_sequencer_address env |}.

(** [now] is the clock's reading in seconds. *)
Definition update_block_env (oracle : GasOracle) (now : Z) (gen : BlockContextGenerator)
    (env : BlockEnv) : BlockEnv * BlockContextGenerator :=
  let '(timestamp, gen) :=
    if next_block_start_time gen =? 0
    then (wrap64 (now + block_timestamp_offset gen), gen)
    else
      let timestamp := next_block_start_time gen in
      (timestamp, mkContextGen (wrap_i64 (timestamp - now)) 0) in
  (update_block_gas_prices oracle {|
     env_number := wrap64 (env_number env + 1); env_timestamp := timestamp;
     env_l2_gas_prices := env_l2_gas_prices env; env_l1_gas_prices := env_l1_gas_prices env;
     env_l1_data_gas_prices := env_l1_data_gas_prices env;
     env_sequencer_address := env_sequencer_address env |}, gen).

(** ** Mining *)
Section Mining.
Context `{MD : Mdbx} `{RT : RoaringTreemap} `{FP : FeltPostcard}.
Context {C Vm Trace Error T : Type} `{!TrieWriter T}.
Context (poseidon starknet_keccak : list Z -> Z) (bonsai_root : Z -> list (list Z * Z) -> Z).

Record ExecutionOutput := mkOutput {
  out_stats : ExecutionStats;
  out_states : StateUpdatesWithClasses C;
  out_transactions : list (TxWithHash * ExecutionResult Vm Trace Error);
}.

Abbreviation ChainDb := (Db C (Receipt Vm) (TypedTransactionExecutionInfo Trace)).

(** The provider: its tables and its tries. *)
Record Chain := mkChain { chain_db : ChainDb; chain_trie : T }.

(** The loop that keeps the successful transactions. *)
Fixpoint split_output (txs : list (TxWithHash * ExecutionResult Vm Trace Error))
    : option (list (TypedTransactionExecutionInfo Trace) * list (ReceiptWithTxHash Vm) * list TxWithHash) :=
  match txs with
  | [] => Some ([], [], [])
  | (tx, Success receipt trace) :: txs =>
      trace ← typed_info_new (receipt_type receipt) trace;
      '(traces, receipts, transactions) ← split_output txs;
      Some (trace :: traces, mkReceiptWithTxHash (twh_hash tx) receipt :: receipts, tx :: transactions)
  | (_, Failed _) :: txs => split_output txs
  end.

Definition STORED_BLOCK_HASH_BUFFER : Z := 10.

Definition update_block_hash_registry_contract (db : ChainDb) (state_updates : StateUpdates)
    (block_number : Z) : result BlockProductionError StateUpdates :=
  if STORED_BLOCK_HASH_BUFFER <=? block_number then
    let block_number := block_number - STORED_BLOCK_HASH_BUFFER in
    block_hash ← map_err ProductionProvider (block_hash_by_num db block_number);
    let block_hash := default 0 block_hash in
    Ok {| nonce_updates := nonce_updates state_updates;
          storage_updates :=
            btree_entry_insert 1 (felt_of block_number) block_hash (storage_updates state_updates);
          declared_classes := declared_classes state_updates;
          deployed_contracts := deployed_contracts state_updates;
          replaced_classes := replaced_classes state_updates;
          deprecated_declared_classes := deprecated_declared_classes state_updates |}
  else Ok state_updates.

(** The inner [None] is a panic; the state updates are returned as they were left. *)
Definition commit_block (c : Chain) (h : PartialHeader) (transactions : list TxWithHash)
    (receipts : list (ReceiptWithTxHash Vm)) (state_updates : StateUpdates)
    : result BlockProductionError (option (SealedBlock * StateUpdates * T)) :=
  state_updates ← update_block_hash_registry_contract (chain_db c) state_updates (ph_number h);
  Ok ('(block, t) ← commit poseidon starknet_keccak bonsai_root h transactions receipts
                      state_updates (chain_trie c);
      Some (block, state_updates, t)).

Definition store_block (block : SealedBlockWithStatus) (states : StateUpdatesWithClasses C)
    (receipts : list (Receipt Vm)) (traces : list (TypedTransactionExecutionInfo Trace)) (db : ChainDb)
    : ChainDb :=
  insert_block_with_states_and_receipts block states receipts traces db.

Definition do_mine_block (block_env : BlockEnv) (out : ExecutionOutput) (c : Chain)
    : option (result BlockProductionError MinedBlockOutcome * Chain) :=
  '(traces, receipts, transactions) ← split_output (out_transactions out);
  let tx_hashes := map twh_hash transactions in
  match latest_hash (chain_db c) with
  | Err e => Some (Err (ProductionProvider e), c)
  | Ok parent_hash =>
      let partial_header := {|
        ph_parent_hash := parent_hash; ph_number := env_number block_env;
        ph_timestamp := env_timestamp block_env;
        ph_sequencer_address := env_sequencer_address block_env;
        ph_l1_gas_prices := env_l1_gas_prices block_env;
        ph_l1_data_gas_prices := env_l1_data_gas_prices block_env;
        ph_l2_gas_prices := env_l2_gas_prices block_env;
        ph_l1_da_mode := Calldata; ph_protocol_version := CURRENT_STARKNET_VERSION |} in
      match commit_block c partial_header transactions receipts (state_updates (out_states out)) with
      | Err e => Some (Err e, c)
      | Ok None => None
      | Ok (Some (block, updates, t)) =>
          let sealed := {| sbs_block := block; sbs_status := AcceptedOnL2 |} in
          let states := {| state_updates := updates; classes := classes (out_states out) |} in
          let db := store_block sealed states (map rct_receipt receipts) traces (chain_db c) in
          Some (Ok (mkOutcome (number (sb_header block)) tx_hashes (out_stats out)), mkChain db t)
      end
  end.

(** The environment of the block after the latest, as both producers compute it;
    [None] is the panic on a missing environment. *)
Definition next_env (oracle : GasOracle) (now : Z) (gen : BlockContextGenerator) (db : ChainDb)
    : option (ProviderResult (BlockEnv * BlockContextGenerator)) :=
  match latest_number db with
  | Err e => Some (Err e)
  | Ok latest_num =>
      match block_env_at db (BNum latest_num) with
      | Err e => Some (Err e)
      | Ok None => None
      | Ok (Some block_env) => Some (Ok (update_block_env oracle now gen block_env))
      end
  end.

Definition ExecutionOutput_default : ExecutionOutput :=
  mkOutput ExecutionStats_default
    {| state_updates := {| nonce_updates := []; storage_updates := []; declared_classes := [];
                           deployed_contracts := []; replaced_classes := [];
                           deprecated_declared_classes := [] |}; classes := [] |} [].

Definition mine_empty_block (block_env : BlockEnv) (c : Chain)
    : option (result BlockProductionError MinedBlockOutcome * Chain) :=
  do_mine_block block_env ExecutionOutput_default c.

(** [init_dev_genesis], on a chain specification's genesis block and state: the error
    is the mismatch of the stored genesis. *)
Inductive GenesisError :=
  | GenesisMismatch (expected got : Z)
  | GenesisProvider (e : ProviderError).

Definition init_dev_genesis (genesis_number : Z) (genesis_block : Block)
    (genesis_states : StateUpdatesWithClasses C) (c : Chain) : result GenesisError Chain :=
  local_hash ← map_err GenesisProvider (block_hash_by_num (chain_db c) genesis_number);
  match local_hash with
  | Some local_hash =>
      let genesis_hash := compute_hash poseidon (block_header genesis_block) in
      if local_hash =? genesis_hash then Ok c else Err (GenesisMismatch genesis_hash local_hash)
  | None =>
      let block := seal poseidon genesis_block in
      let block_number := number (sb_header block) in
      let updates := state_updates genesis_states in
      '(class_trie_root, t) ← map_err GenesisProvider
        (trie_insert_declared_classes block_number (declared_classes updates) (chain_trie c));
      '(contract_trie_root, t) ← map_err GenesisProvider
        (trie_insert_contract_updates block_number updates t);
      let genesis_state_root :=
        poseidon [short_string "STARKNET_STATE_V0"; contract_trie_root; class_trie_root] in
      let h := sb_header block in
      let header := {|
        parent_hash := parent_hash h; number := number h;
        state_diff_commitment := state_diff_commitment h;
        transactions_commitment := transactions_commitment h;
        receipts_commitment := receipts_commitment h; events_commitment := events_commitment h;
        state_root := genesis_state_root; transaction_count := transaction_count h;
        events_count := events_count h; state_diff_length := state_diff_length h;
        timestamp := timestamp h; sequencer_address := sequencer_address h;
        l1_gas_prices := l1_gas_prices h; l1_data_gas_prices := l1_data_gas_prices h;
        l2_gas_prices := l2_gas_prices h; l1_da_mode := l1_da_mode h;
        protocol_version := protocol_version h |} in
      let block := {| sbs_block := {| sb_hash := sb_hash block; sb_header := header;
                                      sb_body := sb_body block |};
                      sbs_status := AcceptedOnL1 |} in
      Ok (mkChain (insert_block_with_states_and_receipts block genesis_states [] [] (chain_db c)) t)
  end.
End Mining.
