(* ===== verification/BackendProofs.v ===== *)
(** * What closing a block produces

    A mined block holds the successful transactions of its execution in order, with
    their receipts and traces; it is linked to its parent and carries its own hash;
    it records the hash of its tenth ancestor in the registry contract; and a chain
    grown by mining is read back as it was mined. *)

From Stdlib Require Import ZArith Lia.
From stdpp Require Import base numbers list sets sorting.
From S2P Require Import Prelude BTreeMap Felt Tx Version Block Receipt Codec Versioned Mdbx DbProvider DbState ChangeLog DbHistory DbLatest DbBlocks GasOracle Backend.

(** ** Time control *)

(** The clock of the chain follows the one that was set: when the next block's
    start time is set to [t], the next block has timestamp [t], and the ones after
    it are [t] plus the time that really passed; block numbers count up by one. *)
Theorem block_time_after_set oracle now now' t gen env :
  0 < t < 2 ^ 62 -> 0 <= now <= now' -> now' < 2 ^ 62 -> 0 <= env_number env < 2 ^ 63 ->
  next_block_start_time gen = t ->
  let '(env1, gen1) := update_block_env oracle now gen env in
  let '(env2, gen2) := update_block_env oracle now' gen1 env1 in
  env_timestamp env1 = t /\ env_number env1 = env_number env + 1 /\
  env_timestamp env2 = t + (now' - now) /\ env_number env2 = env_number env + 2 /\
  gen2 = gen1.
Proof.
  intros Ht Hn Hn' He Hgen. unfold update_block_env. rewrite Hgen.
  destruct (Z.eqb_spec t 0); [lia|]. simpl. unfold wrap_i64, wrap64, u64_bound.
  change (2 ^ 64) with (4 * 2 ^ 62). change (2 ^ 63) with (2 * 2 ^ 62) in *.
  assert (0 < 2 ^ 62) as Hp by done. revert Ht Hn' He Hp. generalize (2 ^ 62). intros p Ht Hn' He Hp.
  rewrite (Z.mod_small (env_number env + 1)), (Z.mod_small (t - now + 2 * p)) by lia.
  rewrite !Z.mod_small by lia. split_and!; (lia || done).
Qed.

Lemma block_time_after_set_witness :
  let gen := mkContextGen 0 1000 in
  let env := {| env_number := 4; env_timestamp := 50; env_l2_gas_prices := GasPrice_MIN;
                env_l1_gas_prices := GasPrice_MIN; env_l1_data_gas_prices := GasPrice_MIN;
                env_sequencer_address := 1 |} in
  let '(env1, gen1) := update_block_env sampled_starknet 60 gen env in
  let '(env2, gen2) := update_block_env sampled_starknet 75 gen1 env1 in
  env_timestamp env1 = 1000 /\ env_number env1 = 4 + 1 /\
  env_timestamp env2 = 1000 + (75 - 60) /\ env_number env2 = 4 + 2 /\ gen2 = gen1.
Proof. apply (block_time_after_set sampled_starknet 60 75 1000); simpl; lia. Defined.

(** ** Mined blocks *)
Section Mined.
Context `{MD : Mdbx} `{RT : RoaringTreemap} `{FP : FeltPostcard}.
Context {C Vm Trace Error T : Type} `{!TrieWriter T}.
Context (poseidon starknet_keccak : list Z -> Z) (bonsai_root : Z -> list (list Z * Z) -> Z).
Abbreviation Info := (TypedTransactionExecutionInfo Trace).
Abbreviation Ins := (@Insertion C (Receipt Vm) Info).
Abbreviation Output := (@ExecutionOutput C Vm Trace Error).
Abbreviation mine := (do_mine_block (C := C) (Error := Error) poseidon starknet_keccak bonsai_root).
Implicit Types (chain : list Ins) (i : Ins) (out : Output).

Definition ins_header i : Header := sb_header (sbs_block (ins_block i)).

(** The successful transactions of an execution, with their receipts and traces. *)
Definition successes out : list (TxWithHash * Receipt Vm * Trace) :=
  omap (fun e => match e.2 with Success r t => Some (e.1, r, t) | Failed _ => None end)
    (out_transactions out).

Lemma split_output_spec (txs : list (TxWithHash * ExecutionResult Vm Trace Error)) :
  exists traces receipts transactions,
    split_output txs = Some (traces, receipts, transactions) /\
    let ok := omap (fun e => match e.2 with Success r t => Some (e.1, r, t) | Failed _ => None end) txs in
    transactions = map (fun e => e.1.1) ok /\
    receipts = map (fun e => mkReceiptWithTxHash (twh_hash e.1.1) e.1.2) ok /\
    map typed_info traces = map snd ok /\
    map typed_info_type traces = map (fun e => receipt_type e.1.2) ok.
Proof.
  induction txs as [|[tx [r t|e]] txs (traces & rs & ts & Hs & H1 & H2 & H3 & H4)]; simpl.
  - do 3 eexists. split; [done|]. done.
  - destruct (typed_info_of_receipt r t) as (info & Hi & Hinfo & Hty). rewrite Hi, Hs. simpl.
    do 3 eexists. split; [done|]. simpl. by rewrite H1, H2, H3, H4, Hinfo, Hty.
  - by do 3 eexists.
Qed.

(** The block an execution is closed with, on top of [parent]. *)
Record mined_on chain (env : BlockEnv) out (parent_hash' : Z) i : Prop := {
  mo_number : ins_number i = env_number env;
  mo_parent : parent_hash (ins_header i) = parent_hash';
  mo_hash : ins_hash i = compute_hash poseidon (ins_header i);
  mo_time : timestamp (ins_header i) = env_timestamp env;
  mo_body : ins_body i = map (fun e => e.1.1) (successes out);
  mo_receipts : ins_receipts i = map (fun e => e.1.2) (successes out);
  mo_traces : map typed_info (ins_executions i) = map snd (successes out);
  mo_registry : Ok (ins_updates i)
    = update_block_hash_registry_contract (db_of chain)
        (state_updates (out_states out)) (env_number env);
  mo_classes : classes (ins_states i) = classes (out_states out);
  mo_status : sbs_status (ins_block i) = AcceptedOnL2;
}.

(** The tries take the updates. *)
Definition tries_accept : Prop := forall n u (t : T),
  (exists x, trie_insert_declared_classes n (declared_classes u) t = Ok x) /\
  (exists x, trie_insert_contract_updates n u t = Ok x).

Lemma registry_ok chain u n :
  exists u', update_block_hash_registry_contract (db_of chain) u n = Ok u'.
Proof. unfold update_block_hash_registry_contract. destruct (_ <=? _); simpl; eauto. Qed.

(** Mining on a chain appends one insertion, described by the execution. *)
Lemma do_mine_block_spec chain t env out h :
  tries_accept -> latest_hash (db_of chain) = Ok h ->
  exists i t', mine env out (mkChain (db_of chain) t)
    = Some (Ok (mkOutcome (env_number env) (map (fun e => twh_hash e.1.1) (successes out))
                  (out_stats out)), mkChain (db_of (chain ++ [i])) t') /\
    mined_on chain env out h i.
Proof.
  intros Htrie Hlatest. unfold do_mine_block. cbn [chain_db chain_trie].
  destruct (split_output_spec (out_transactions out)) as (trs & rs & ts & Hs & H1 & H2 & H3 & H4).
  rewrite Hs. cbn [mbind option_bind]. rewrite Hlatest. unfold commit_block. cbn [chain_db chain_trie].
  destruct (registry_ok chain (state_updates (out_states out)) (env_number env)) as [u Hu].
  cbn [ph_number]. rewrite Hu. cbn [mbind result_bind]. unfold commit, compute_new_state_root.
  cbn [ph_number].
  destruct (Htrie (env_number env) u t) as [[[croot t1] ->] _].
  destruct (Htrie (env_number env) u t1) as [_ [[sroot t2] ->]]. cbn [mbind option_bind].
  eexists (mkInsertion _ _ _ _), t2. split.
  - rewrite db_of_snoc. unfold insert_one, store_block. cbn [ins_block ins_states ins_receipts ins_executions].
    rewrite H1, map_map. reflexivity.
  - split; cbn; rewrite ?H2, ?map_map; done.
Qed.

(** Whatever the tries do: a block that was closed was appended to the chain, and a
    failure leaves the chain. *)
Lemma do_mine_block_sound chain t env out h r c :
  latest_hash (db_of chain) = Ok h -> mine env out (mkChain (db_of chain) t) = Some (r, c) ->
  match r with
  | Ok outcome =>
      exists i, chain_db c = db_of (chain ++ [i]) /\ mined_on chain env out h i /\
        outcome_block_number outcome = env_number env /\
        outcome_txs outcome = map (fun e => twh_hash e.1.1) (successes out)
  | Err _ => chain_db c = db_of chain
  end.
Proof.
  intros Hlatest. unfold do_mine_block. cbn [chain_db chain_trie].
  destruct (split_output_spec (out_transactions out)) as (trs & rs & ts & Hs & H1 & H2 & H3 & H4).
  rewrite Hs. cbn [mbind option_bind]. rewrite Hlatest. unfold commit_block. cbn [chain_db chain_trie].
  destruct (registry_ok chain (state_updates (out_states out)) (env_number env)) as [u Hu].
  cbn [ph_number]. rewrite Hu. cbn [mbind result_bind]. unfold commit, compute_new_state_root.
  cbn [ph_number].
  destruct (trie_insert_declared_classes _ _ t) as [[croot t1]|]; [|done].
  destruct (trie_insert_contract_updates _ _ t1) as [[sroot t2]|]; [|done]. cbn [mbind option_bind].
  intros [= <- <-]. eexists (mkInsertion _ _ _ _). split_and!.
  - rewrite db_of_snoc. unfold insert_one, store_block. cbn [ins_block ins_states ins_receipts ins_executions chain_db].
    reflexivity.
  - split; cbn; rewrite ?H2, ?map_map; done.
  - done.
  - cbn. by rewrite H1, map_map.
Qed.

(** ** A chain grown by mining *)

(** Execution outputs closed into blocks one after the other, with the prices and
    the clock each block is opened at. *)
Fixpoint mine_all (l : list (GasOracle * Z * Output)) (gen : BlockContextGenerator)
    (c : @Chain _ _ C Vm Trace T) : option (result BlockProductionError unit * @Chain _ _ C Vm Trace T) :=
  match l with
  | [] => Some (Ok tt, c)
  | (oracle, now, out) :: l =>
      match next_env oracle now gen (chain_db c) with
      | None => None
      | Some (Err e) => Some (Err (ProductionProvider e), c)
      | Some (Ok (env, gen)) =>
          match mine env out c with
          | None => None
          | Some (Err e, c) => Some (Err e, c)
          | Some (Ok _, c) => mine_all l gen c
          end
      end
  end.

Abbreviation ordered := (StronglySorted (fun i j => ins_number i < ins_number j)).

Lemma next_env_last oracle now gen pre p :
  ordered (pre ++ [p]) -> 0 <= ins_number p -> ins_number p + 1 < u64_bound ->
  exists env gen', next_env oracle now gen (db_of (pre ++ [p])) = Some (Ok (env, gen')) /\
    env_number env = ins_number p + 1.
Proof.
  intros Hs H0 Hb. unfold next_env. rewrite latest_number_sorted by done.
  unfold block_env_at, header, resolve. rewrite db_of_snoc. simpl.
  rewrite t_get_put, decide_True by done. simpl.
  destruct (update_block_env _ _ _ _) as [env gen'] eqn:Hu. exists env, gen'. split; [done|].
  unfold update_block_env in Hu. destruct (next_block_start_time gen =? 0);
    injection Hu as <- <-; simpl; apply Z.mod_small; unfold ins_number in *; lia.
Qed.

Lemma ordered_snoc pre p i : ordered (pre ++ [p]) -> ins_number i = ins_number p + 1 ->
  ordered ((pre ++ [p]) ++ [i]).
Proof.
  intros Hs Hi. apply StronglySorted_app. split_and!; [|done|by repeat constructor].
  intros a b Ha ->%list_elem_of_singleton. apply elem_of_app in Ha as [Ha| ->%list_elem_of_singleton].
  - apply StronglySorted_app in Hs as (Hc & _ & _). specialize (Hc a p Ha). set_solver by lia.
  - lia.
Qed.

Lemma mine_all_spec l : tries_accept -> forall gen t pre p,
  ordered (pre ++ [p]) -> 0 <= ins_number p -> ins_number p + Z.of_nat (length l) < u64_bound ->
  exists blks t',
    mine_all l gen (mkChain (db_of (pre ++ [p])) t) = Some (Ok tt, mkChain (db_of ((pre ++ [p]) ++ blks)) t') /\
    length blks = length l /\ ordered ((pre ++ [p]) ++ blks) /\
    forall k q i o, (p :: blks) !! k = Some q -> blks !! k = Some i -> l !! k = Some o ->
      ins_number i = ins_number q + 1 /\
      exists env, env_number env = ins_number i /\
        mined_on ((pre ++ [p]) ++ take k blks) env o.2 (ins_hash q) i.
Proof.
  intros Htrie. induction l as [|[[oracle now] out] l IH]; intros gen t pre p Hs H0 Hb.
  { exists [], t. rewrite app_nil_r. split_and!; [done..|]. by intros. }
  rewrite length_cons, Nat2Z.inj_succ in Hb. cbn [mine_all chain_db].
  destruct (next_env_last oracle now gen pre p Hs H0 ltac:(lia)) as (env & gen' & -> & Henv).
  destruct (do_mine_block_spec (pre ++ [p]) t env out (ins_hash p) Htrie) as (i & t1 & -> & Hi);
    [by apply latest_hash_sorted|].
  pose proof (mo_number _ _ _ _ _ Hi) as Hn.
  destruct (IH gen' t1 (pre ++ [p]) i) as (blks & t' & Hm & Hlen & Hord & Hall);
    [apply ordered_snoc; [done|lia]|lia|lia|].
  exists (i :: blks), t'. rewrite Hm. rewrite <- app_assoc in Hord |- *. split_and!; [done| |done|].
  - simpl. by rewrite Hlen.
  - intros [|k] q j o Hq Hj Ho; simpl in Hq, Hj, Ho.
    + simplify_eq. split; [lia|]. exists env. rewrite app_nil_r. split; [lia|done].
    + destruct (Hall k q j o Hq Hj Ho) as (H1 & env' & H2 & H3). split; [done|].
      exists env'. split; [done|]. by rewrite <- app_assoc in H3.
Qed.

(** The hash of a stored block is found under its number. *)
Lemma block_hash_ordered chain a : ordered chain -> a ∈ chain ->
  block_hash_by_num (db_of chain) (ins_number a) = Ok (Some (ins_hash a)).
Proof.
  unfold block_hash_by_num. induction chain as [|j chain IH] using rev_ind; [set_solver|].
  intros Hs Ha. rewrite db_of_snoc. simpl. rewrite t_get_put.
  apply StronglySorted_app in Hs as (Hc & Hs & _).
  apply elem_of_app in Ha as [Ha| ->%list_elem_of_singleton]; [|by rewrite decide_True].
  assert (ins_number a < ins_number j) by (apply Hc; set_solver).
  rewrite decide_False; [by apply IH|unfold ins_number in *; lia].
Qed.

(** The registry's entry for the block ten before. *)
Definition registered (u : StateUpdates) (n : Z) : option Z :=
  btree_get (felt_of n) (default [] (btree_get 1 (storage_updates u))).

Lemma registry_records chain u n a :
  ordered chain -> a ∈ chain -> ins_number a + STORED_BLOCK_HASH_BUFFER = n ->
  forall u', Ok u' = update_block_hash_registry_contract (db_of chain) u n -> 0 <= ins_number a ->
  registered u' (ins_number a) = Some (ins_hash a).
Proof.
  intros Hs Ha Hn u' Hu H0. unfold update_block_hash_registry_contract in Hu.
  destruct (Z.leb_spec STORED_BLOCK_HASH_BUFFER n); [|lia].
  replace (n - STORED_BLOCK_HASH_BUFFER) with (ins_number a) in Hu by lia.
  rewrite (block_hash_ordered chain a Hs Ha) in Hu. injection Hu as ->.
  unfold registered. simpl. unfold btree_entry_insert. rewrite btree_get_insert, Z.eqb_refl. simpl.
  by rewrite btree_get_insert, Z.eqb_refl.
Qed.

(** C5. Mining grows a linked chain: closing any sequence of execution outputs on top
    of a genesis block succeeds and appends one block for each, whose number is its
    parent's plus one, whose parent hash is its parent's hash, whose hash is that of
    its header, which holds exactly the transactions that succeeded, in order, with
    their receipts and traces, and which records in the registry contract the hash
    of its tenth ancestor. *)
Theorem mined_chain_linked (g : Ins) l gen t :
  tries_accept -> 0 <= ins_number g -> ins_number g + Z.of_nat (length l) < u64_bound ->
  exists blks t',
    mine_all l gen (mkChain (db_of [g]) t) = Some (Ok tt, mkChain (db_of (g :: blks)) t') /\
    length blks = length l /\
    forall k p i oracle now out,
      (g :: blks) !! k = Some p -> blks !! k = Some i -> l !! k = Some (oracle, now, out) ->
      ins_number i = ins_number p + 1 /\
      parent_hash (ins_header i) = ins_hash p /\
      ins_hash i = compute_hash poseidon (ins_header i) /\
      ins_body i = map (fun e => e.1.1) (successes out) /\
      ins_receipts i = map (fun e => e.1.2) (successes out) /\
      map typed_info (ins_executions i) = map snd (successes out) /\
      forall a, a ∈ g :: blks -> ins_number a + STORED_BLOCK_HASH_BUFFER = ins_number i ->
        registered (ins_updates i) (ins_number a) = Some (ins_hash a).
Proof.
  intros Htrie H0 Hb.
  destruct (mine_all_spec l Htrie gen t [] g) as (blks & t' & Hm & Hlen & Hord & Hall);
    [by repeat constructor|done|done|].
  exists blks, t'. split_and!; [done|done|]. intros k p i oracle now out Hp Hi Ho.
  destruct (Hall k p i _ Hp Hi Ho) as (Hn & env & Henv & Hmo).
  split_and!; [done|apply Hmo..|]. intros a Ha Ha10.
  simpl in Hord. assert (0 <= ins_number a) as Hna.
  { apply elem_of_cons in Ha as [->|Ha]; [done|].
    apply StronglySorted_inv in Hord as [_ Hf]. rewrite Forall_forall in Hf. specialize (Hf a Ha). lia. }
  assert (a ∈ [g] ++ take k blks) as Ha'.
  { simpl. apply elem_of_cons in Ha as [->|Ha]; [by left|]. right.
    rewrite <- (take_drop k blks) in Ha. apply elem_of_app in Ha as [Ha|Ha]; [done|]. exfalso.
    rewrite (drop_S blks i k) in Ha by done. unfold STORED_BLOCK_HASH_BUFFER in *.
    apply elem_of_cons in Ha as [->|Ha]; [lia|].
    rewrite <- (take_drop (S k) blks), (take_S_r blks k i) in Hord by done.
    rewrite app_comm_cons in Hord. apply StronglySorted_app in Hord as (Hc & _ & _).
    specialize (Hc i a). assert (ins_number i < ins_number a); [|lia]. apply Hc; set_solver. }
  eapply registry_records; [|exact Ha'|exact Ha10| |done].
  - rewrite <- (take_drop k blks) in Hord. change (g :: take k blks ++ drop k blks) with (([g] ++ take k blks) ++ drop k blks) in Hord.
    by apply StronglySorted_app in Hord as (_ & Hs & _).
  - rewrite <- Henv. apply (mo_registry _ _ _ _ _ Hmo).
Qed.

(** ** The dev genesis *)

(** Initialising the dev genesis on an empty database stores the block once and
    finds it again: the block is there under the hash of the specification's header,
    and a second initialisation accepts it and changes nothing.  That hash is not
    the hash of the header that is stored, whose state root was filled in after the
    block was sealed: they agree only if the roots do or the hash function collides. *)
Theorem dev_genesis_init (gb : Block.Block) (states : StateUpdatesWithClasses C) (t : T) c :
  let init := init_dev_genesis (Vm := Vm) (Trace := Trace) poseidon (number (block_header gb)) gb states in
  init (mkChain Db_empty t) = Ok c ->
  init c = Ok c /\
  block_hash_by_num (chain_db c) (number (block_header gb)) = Ok (Some (compute_hash poseidon (block_header gb))) /\
  exists h, header (chain_db c) (BNum (number (block_header gb))) = Ok (Some h) /\
    (compute_hash poseidon h = compute_hash poseidon (block_header gb) ->
     state_root h = state_root (block_header gb) \/ Collision poseidon).
Proof.
  intros init Hinit. unfold init, init_dev_genesis, block_hash_by_num in Hinit.
  simpl in Hinit. rewrite t_get_empty in Hinit. simpl in Hinit.
  rewrite bind_ok in Hinit. destruct Hinit as ([croot t1] & _ & Hinit).
  rewrite bind_ok in Hinit. destruct Hinit as ([sroot t2] & _ & Hinit). injection Hinit as <-.
  unfold init, init_dev_genesis, block_hash_by_num, header, resolve. simpl.
  rewrite !t_get_put, !decide_True by done. simpl. rewrite Z.eqb_refl.
  split_and!; [done..|]. eexists. split; [done|]. simpl. unfold compute_hash. intros Hh.
  match type of Hh with poseidon ?l1 = poseidon ?l2 => destruct (decide (l1 = l2)) as [He|He] end.
  - left. apply (f_equal (fun l => l !! 2%nat)) in He. by injection He.
  - right. by do 2 eexists.
Qed.
End Mined.

(** ** Witnesses *)
#[local] Instance unit_trie : TrieWriter unit := {
  trie_insert_declared_classes n c t := Ok (5, tt);
  trie_insert_contract_updates n u t := Ok (6, tt);
}.
Definition sum_hash (l : list Z) : Z := fold_left (fun acc x => acc * 31 + x) l 7.
Definition sample_genesis : Block.Block :=
  {| block_header := Header_default; block_body := [] |}.
Definition sample_genesis_ins : @Insertion Z (Receipt unit) (TypedTransactionExecutionInfo Z) :=
  mkInsertion {| sbs_block := seal sum_hash sample_genesis; sbs_status := AcceptedOnL1 |}
    (out_states (ExecutionOutput_default (Vm := unit) (Trace := Z) (Error := unit))) [] [].
Definition sample_output (h : Z) : @ExecutionOutput Z unit Z unit :=
  mkOutput ExecutionStats_default (out_states (ExecutionOutput_default (Vm := unit) (Trace := Z) (Error := unit)))
    [({| twh_hash := h; twh_transaction := TxL1Handler
           {| l1h_nonce := 0; l1h_chain_id := Id 0; l1h_paid_fee_on_l1 := 0; l1h_version := 0;
              l1h_message_hash := 0; l1h_calldata := []; l1h_contract_address := 0;
              l1h_entry_point_selector := 0 |} |}, Failed tt)].

Lemma mined_chain_linked_witness :
  let l := [(sampled_starknet, 10, sample_output 1); (sampled_starknet, 20, sample_output 2)] in
  exists blks t',
    mine_all sum_hash sum_hash (fun _ _ => 0) l (mkContextGen 0 0) (mkChain (db_of [sample_genesis_ins]) tt)
      = Some (Ok tt, mkChain (db_of (sample_genesis_ins :: blks)) t') /\
    length blks = length l /\
    forall k p i oracle now out,
      (sample_genesis_ins :: blks) !! k = Some p -> blks !! k = Some i -> l !! k = Some (oracle, now, out) ->
      ins_number i = ins_number p + 1 /\
      parent_hash (ins_header i) = ins_hash p /\
      ins_hash i = compute_hash sum_hash (ins_header i) /\
      ins_body i = map (fun e => e.1.1) (successes out) /\
      ins_receipts i = map (fun e => e.1.2) (successes out) /\
      map typed_info (ins_executions i) = map snd (successes out) /\
      forall a, a ∈ sample_genesis_ins :: blks -> ins_number a + STORED_BLOCK_HASH_BUFFER = ins_number i ->
        registered (ins_updates i) (ins_number a) = Some (ins_hash a).
Proof.
  intros l. apply (mined_chain_linked sum_hash sum_hash (fun _ _ => 0) sample_genesis_ins l (mkContextGen 0 0) tt).
  - intros n u []. split; by eexists.
  - done.
  - by vm_compute.
Defined.

Lemma dev_genesis_init_witness :
  let init := init_dev_genesis (C := Z) (Vm := unit) (Trace := Z) sum_hash 0 sample_genesis
                (ins_states sample_genesis_ins) in
  exists c, init (mkChain Db_empty tt) = Ok c /\ init c = Ok c /\
    block_hash_by_num (chain_db c) 0 = Ok (Some (compute_hash sum_hash Header_default)) /\
    exists h, header (chain_db c) (BNum 0) = Ok (Some h) /\
      (compute_hash sum_hash h = compute_hash sum_hash Header_default ->
       state_root h = state_root Header_default \/ Collision sum_hash).
Proof.
  intros init. eexists. split; [reflexivity|].
  apply (dev_genesis_init sum_hash sample_genesis (ins_states sample_genesis_ins) tt). reflexivity.
Defined.
