(* ===== verification/Processor.v ===== *)
(** * The block executor (executor/src/implementation/blockifier/mod.rs, utils.rs,
    executor/src/utils.rs)

    [StarknetVMProcessor]: executing a list of transactions within the limits of a
    block, building receipts, and handing over the output.  Blockifier's machine is
    a parameter, the class [Blockifier]: its cached state [S], its bouncer [B], and
    execution on a transactional layer over the state.  The shape of its execution
    infos is what the source reads of them. *)

From Stdlib Require Import ZArith Lia.
From stdpp Require Import base numbers list.
From S2P Require Import Prelude BTreeMap Felt Tx TxHash Block Receipt Executor Codec Versioned Mdbx DbProvider Backend.

(** ** Execution infos of blockifier *)
Record OrderedEvent := mkOrderedEvent { oe_order : Z; oe_keys : list Z; oe_data : list Z }.
Record OrderedL2ToL1Message := mkOrderedMessage {
  om_order : Z;
  om_to_address : Z;
  om_payload : list Z;
}.
Inductive EntryPointType := EntryConstructor | EntryExternal | EntryL1Handler.
Inductive CallType := CallTypeCall | CallTypeDelegate.
Inductive TrackedResource := CairoSteps | SierraGas.
(** [CallEntryPoint]. *)
Record CallEntryPoint := mkCallEntryPoint {
  call_class_hash : option Z;
  call_caller_address : Z;
  call_calldata : list Z;
  call_entry_point_selector : Z;
  call_entry_point_type : EntryPointType;
  call_call_type : CallType;
}.
(** A call and what its execution left: [call.storage_address], the rest of [call],
    the fields of [execution], the calls it made. *)
Inductive CallInfo := mkCallInfo {
  ci_storage_address : Z;
  ci_call : CallEntryPoint;
  ci_events : list OrderedEvent;
  ci_l2_to_l1_messages : list OrderedL2ToL1Message;
  ci_retdata : list Z;
  ci_failed : bool;
  ci_gas_consumed : Z;
  ci_tracked_resource : TrackedResource;
  ci_inner_calls : list CallInfo;
}.
Record GasVector := mkGasVector { gv_l1_gas : Z; gv_l1_data_gas : Z; gv_l2_gas : Z }.
Record TransactionReceipt (Vm : Type) := mkTransactionReceipt {
  tr_fee : Z;
  tr_gas : GasVector;
  tr_da_gas : GasVector;
  tr_vm_resources : Vm;
}.
Arguments mkTransactionReceipt {Vm}.
Arguments tr_fee {Vm}.
Arguments tr_gas {Vm}.
Arguments tr_da_gas {Vm}.
Arguments tr_vm_resources {Vm}.
Record TransactionExecutionInfo (Vm : Type) := mkExecutionInfo {
  validate_call_info : option CallInfo;
  execute_call_info : option CallInfo;
  fee_transfer_call_info : option CallInfo;
  revert_error : option (list Z);
  info_receipt : TransactionReceipt Vm;
}.
Arguments mkExecutionInfo {Vm}.
Arguments validate_call_info {Vm}.
Arguments execute_call_info {Vm}.
Arguments fee_transfer_call_info {Vm}.
Arguments revert_error {Vm}.
Arguments info_receipt {Vm}.

(** ** Receipts *)
Fixpoint get_events_recur (info : CallInfo) : list Event :=
  map (fun e => mkEvent (ci_storage_address info) (oe_keys e) (oe_data e)) (ci_events info)
    ++ flat_map get_events_recur (ci_inner_calls info).
Fixpoint get_l2_to_l1_messages_recur (info : CallInfo) : list MessageToL1 :=
  map (fun m => mkMessageToL1 (ci_storage_address info) (om_to_address m) (om_payload m))
      (ci_l2_to_l1_messages info)
    ++ flat_map get_l2_to_l1_messages_recur (ci_inner_calls info).

Section Receipts.
Context {Vm C : Type}.
Implicit Types (info : TransactionExecutionInfo Vm).

Definition from_calls {A} (f : CallInfo -> list A) info : list A :=
  let extend acc call := match call with Some call => acc ++ f call | None => acc end in
  extend (extend (extend [] (validate_call_info info)) (execute_call_info info))
    (fee_transfer_call_info info).
Definition events_from_exec_info info : list Event := from_calls get_events_recur info.
Definition l2_to_l1_messages_from_exec_info info : list MessageToL1 :=
  from_calls get_l2_to_l1_messages_recur info.

Definition get_receipt_resources (receipt : TransactionReceipt Vm) : ExecutionResources Vm :=
  mkExecutionResources
    (mkGasUsed (gv_l2_gas (tr_gas receipt)) (gv_l1_gas (tr_gas receipt))
       (gv_l1_data_gas (tr_gas receipt)))
    (tr_vm_resources receipt)
    (mkDaResources (gv_l1_gas (tr_da_gas receipt)) (gv_l1_data_gas (tr_da_gas receipt))).

Definition build_receipt (tx : ExecutableTx C) (fee : FeeInfo) info : Receipt Vm :=
  let events := events_from_exec_info info in
  let messages_sent := l2_to_l1_messages_from_exec_info info in
  let execution_resources := get_receipt_resources (info_receipt info) in
  let revert_error := revert_error info in
  match tx with
  | ExInvoke _ => RInvoke {|
      ir_fee := fee; ir_events := events; ir_messages_sent := messages_sent;
      ir_revert_error := revert_error; ir_execution_resources := execution_resources |}
  | ExDeclare _ => RDeclare {|
      dr_fee := fee; dr_events := events; dr_messages_sent := messages_sent;
      dr_revert_error := revert_error; dr_execution_resources := execution_resources |}
  | ExL1Handler tx => RL1Handler {|
      lr_fee := fee; lr_events := events; lr_message_hash := l1h_message_hash tx;
      lr_messages_sent := messages_sent; lr_revert_error := revert_error;
      lr_execution_resources := execution_resources |}
  | ExDeployAccount tx => RDeployAccount {|
      ar_fee := fee; ar_events := events; ar_messages_sent := messages_sent;
      ar_revert_error := revert_error; ar_execution_resources := execution_resources;
      ar_contract_address := deploy_account_contract_address tx |}
  end.
End Receipts.

(** ** The block's environment, in blockifier's terms *)
Record GasPriceVector := mkPriceVector { pv_l1_gas_price : Z; pv_l1_data_gas_price : Z; pv_l2_gas_price : Z }.
Record BlockInfo := mkBlockInfo {
  bi_block_number : Z;
  bi_block_timestamp : Z;
  bi_sequencer_address : Z;
  bi_eth_gas_prices : GasPriceVector;
  bi_strk_gas_prices : GasPriceVector;
}.

(** [NonzeroGasPrice::new(p).unwrap_or(NonzeroGasPrice::MIN)]. *)
Definition nonzero_price (p : Z) : Z := if p =? 0 then 1 else p.

Definition price_vectors (l1 l1_data : GasPrice) : GasPriceVector * GasPriceVector :=
  let eth_l1_gas_price := nonzero_price (gp_eth l1) in
  let strk_l1_gas_price := nonzero_price (gp_strk l1) in
  let eth_l1_data_gas_price := nonzero_price (gp_eth l1_data) in
  let strk_l1_data_gas_price := nonzero_price (gp_strk l1_data) in
  (mkPriceVector eth_l1_gas_price eth_l1_data_gas_price eth_l1_gas_price,
   mkPriceVector strk_l1_gas_price strk_l1_data_gas_price strk_l1_gas_price).

Definition block_context_from_envs (env : BlockEnv) : BlockInfo :=
  let '(eth, strk) := price_vectors (env_l1_gas_prices env) (env_l1_data_gas_prices env) in
  mkBlockInfo (env_number env) (env_timestamp env) (env_sequencer_address env) eth strk.

Definition fill_block_env_from_header (h : PartialHeader) : BlockInfo :=
  let '(eth, strk) := price_vectors (ph_l1_gas_prices h) (ph_l1_data_gas_prices h) in
  mkBlockInfo (ph_number h) (ph_timestamp h) (ph_sequencer_address h) eth strk.

Definition executor_block_env (info : BlockInfo) : BlockEnv :=
  let eth := bi_eth_gas_prices info in
  let strk := bi_strk_gas_prices info in
  {| env_number := bi_block_number info; env_timestamp := bi_block_timestamp info;
     env_l2_gas_prices := {| gp_eth := pv_l2_gas_price eth; gp_strk := pv_l2_gas_price strk |};
     env_l1_gas_prices := {| gp_eth := pv_l1_gas_price eth; gp_strk := pv_l1_gas_price strk |};
     env_l1_data_gas_prices :=
       {| gp_eth := pv_l1_data_gas_price eth; gp_strk := pv_l1_data_gas_price strk |};
     env_sequencer_address := bi_sequencer_address info |}.

Inductive FeeType := FeeEth | FeeStrk.

(** What the executor asks of blockifier.  [bf_execute] runs a transaction on a
    transactional layer over the state and returns the layer committed; [bf_try_update]
    weighs a layer against the block's capacity. *)
Record StateMaps := mkStateMaps {
  sm_nonces : list (Z * Z);
  sm_class_hashes : list (Z * Z);
  sm_storage : list (Z * Z * Z);
  sm_compiled_class_hashes : list (Z * Z);
}.
Class Blockifier (S B C Vm ExecErr : Type) := {
  bf_to_state_diff : S -> StateMaps;
  bf_provider_class : S -> Z -> option C;
  bf_execute : BlockInfo -> ExecutorTx C -> S -> result ExecErr (TransactionExecutionInfo Vm) * S;
  bf_try_update : S -> S -> TransactionExecutionInfo Vm -> B -> result ExecutorError B;
  bf_fee_type : ExecutorTx C -> FeeType;
  bf_tip : ExecutorTx C -> Z;
  bf_get_fee_by_gas_vector : BlockInfo -> GasVector -> FeeType -> Z -> Z;
  bf_n_steps : Vm -> Z;
}.

Section Processor.
Context {S B C Vm ExecErr : Type} {BF : Blockifier S B C Vm ExecErr}.
Abbreviation Info := (TransactionExecutionInfo Vm).
Abbreviation Result := (ExecutionResult Vm Info ExecErr).

(** Only version 3 account transactions have a tip. *)
Definition fee_tip (tx : ExecutorTx C) : Z :=
  match tx with
  | AccountTransaction t _ =>
      if tx_version (tx_of_executable (ewh_transaction t)) =? 3 then bf_tip tx else 0
  | L1HandlerTransaction _ => 0
  end.

Definition transact_fee (ctx : BlockInfo) (tx : ExecutorTx C) (info : Info) : FeeInfo :=
  let fee_type := bf_fee_type tx in
  let receipt := info_receipt info in
  let overall_fee :=
    if tr_fee receipt =? 0
    then bf_get_fee_by_gas_vector ctx (tr_gas receipt) fee_type (fee_tip tx)
    else tr_fee receipt in
  let '(unit, prices) :=
    match fee_type with
    | FeeEth => (Wei, bi_eth_gas_prices ctx)
    | FeeStrk => (Fri, bi_strk_gas_prices ctx)
    end in
  mkFeeInfo (pv_l1_gas_price prices) (pv_l2_gas_price prices) (pv_l1_data_gas_price prices)
    overall_fee unit.

(** [transact] with a bouncer: a transaction that does not fit is not committed; a
    transaction that fails is. *)
Definition transact (state : S) (ctx : BlockInfo) (flags : ExecutionFlags)
    (tx : ExecutableTxWithHash C) (bouncer : B) : result ExecutorError Result * S * B :=
  let transaction := to_executor_tx tx flags in
  match bf_execute ctx transaction state with
  | (Ok info, tx_state) =>
      match bf_try_update state tx_state info bouncer with
      | Err e => (Err e, state, bouncer)
      | Ok bouncer =>
          let receipt := build_receipt (ewh_transaction tx) (transact_fee ctx transaction info) info in
          (Ok (Success receipt info), tx_state, bouncer)
      end
  | (Err e, tx_state) => (Ok (Failed e), tx_state, bouncer)
  end.

(** [StarknetVMProcessor]; the class artifacts are those of the transactions that
    declared a class. *)
Record Processor := mkProcessor {
  pr_block_context : BlockInfo;
  pr_state : S;
  pr_declared_classes : list (Z * C);
  pr_transactions : list (TxWithHash * Result);
  pr_simulation_flags : ExecutionFlags;
  pr_stats : ExecutionStats;
  pr_bouncer : B;
}.

Definition declared_artifact (tx : ExecutableTx C) : option (Z * C) :=
  match tx with
  | ExDeclare d => Some (declare_class_hash (dwc_transaction d), dwc_class d)
  | _ => None
  end.

Definition add_stats (r : Result) (s : ExecutionStats) : ExecutionStats :=
  match r with
  | Success receipt _ =>
      let used := resources_used receipt in
      mkStats (wrap128 (l1_gas_used s + gu_l1_gas (er_gas used)))
        (wrap128 (cairo_steps_used s + bf_n_steps (er_computation_resources used)))
  | Failed _ => s
  end.

Definition record_result (tx : ExecutableTxWithHash C) (r : Result) (state : S) (bouncer : B)
    (p : Processor) : Processor :=
  mkProcessor (pr_block_context p) state
    (match r, declared_artifact (ewh_transaction tx) with
     | Success _ _, Some (h, c) => btree_insert h c (pr_declared_classes p)
     | _, _ => pr_declared_classes p
     end)
    (pr_transactions p ++ [(tx_with_hash_of_executable tx, r)])
    (pr_simulation_flags p) (add_stats r (pr_stats p)) bouncer.

Definition with_state_and_bouncer (state : S) (bouncer : B) (p : Processor) : Processor :=
  mkProcessor (pr_block_context p) state (pr_declared_classes p) (pr_transactions p)
    (pr_simulation_flags p) (pr_stats p) bouncer.

(** [total_executed] counts from [n]. *)
Fixpoint execute_from (n : nat) (txs : list (ExecutableTxWithHash C)) (p : Processor)
    : result ExecutorError (nat * option ExecutorError) * Processor :=
  match txs with
  | [] => (Ok (n, None), p)
  | tx :: txs =>
      match transact (pr_state p) (pr_block_context p) (pr_simulation_flags p) tx (pr_bouncer p) with
      | (Ok r, state, bouncer) => execute_from (n + 1) txs (record_result tx r state bouncer p)
      | (Err LimitsExhausted, state, bouncer) =>
          (Ok (n, Some LimitsExhausted), with_state_and_bouncer state bouncer p)
      | (Err e, state, bouncer) => (Err e, with_state_and_bouncer state bouncer p)
      end
  end.
Definition execute_transactions (txs : list (ExecutableTxWithHash C)) (p : Processor)
    : result ExecutorError (nat * option ExecutorError) * Processor := execute_from 0 txs p.

Definition execute_block (h : PartialHeader) (body : list (ExecutableTxWithHash C)) (p : Processor)
    : result ExecutorError unit * Processor :=
  let p := mkProcessor (fill_block_env_from_header h) (pr_state p) (pr_declared_classes p)
             (pr_transactions p) (pr_simulation_flags p) (pr_stats p) (pr_bouncer p) in
  match execute_transactions body p with
  | (Err e, p) => (Err e, p)
  | (Ok _, p) => (Ok tt, p)
  end.

(** ** Handing over the output *)
Context (is_legacy : C -> bool).

(** [CachedState::class]: what the block declared, else what the state knows. *)
Definition cached_class (p : Processor) (hash : Z) : option C :=
  match btree_get hash (pr_declared_classes p) with
  | Some c => Some c
  | None => bf_provider_class (pr_state p) hash
  end.

(** The loop over declared classes; [None] is the [expect] of a missing class. *)
Fixpoint split_classes (p : Processor) (l : list (Z * Z))
    (acc : list (Z * C) * list (Z * Z) * list Z) : option (list (Z * C) * list (Z * Z) * list Z) :=
  match l with
  | [] => Some acc
  | (hash, compiled_hash) :: l =>
      let '(classes, declared, deprecated) := acc in
      match cached_class p hash with
      | None => None
      | Some class =>
          let classes := btree_insert hash class classes in
          if is_legacy class
          then split_classes p l (classes, declared, hash :: deprecated)
          else split_classes p l (classes, btree_insert hash compiled_hash declared, deprecated)
      end
  end.

Definition state_update_from_cached_state (p : Processor) : option (StateUpdatesWithClasses C) :=
  let diff := bf_to_state_diff (pr_state p) in
  '(classes, declared, deprecated) ← split_classes p (sm_compiled_class_hashes diff) ([], [], []);
  Some {| classes := classes;
          state_updates := {|
            nonce_updates := btree_collect (sm_nonces diff);
            storage_updates :=
              fold_left (fun m e => btree_entry_insert e.1.1 e.1.2 e.2 m) (sm_storage diff) [];
            declared_classes := declared;
            deployed_contracts := btree_collect (sm_class_hashes diff);
            deprecated_declared_classes := btree_set_collect deprecated;
            replaced_classes := [] |} |}.

Definition take_execution_output (p : Processor)
    : option (@ExecutionOutput C Vm Info ExecErr * Processor) :=
  states ← state_update_from_cached_state p;
  Some (mkOutput (pr_stats p) states (pr_transactions p),
        mkProcessor (pr_block_context p) (pr_state p) (pr_declared_classes p) []
          (pr_simulation_flags p) ExecutionStats_default (pr_bouncer p)).
End Processor.
Arguments Processor : clear implicits.

(** ** Facts *)
Section ProcessorFacts.
Context {S B C Vm ExecErr : Type} {BF : Blockifier S B C Vm ExecErr}.
Abbreviation Proc := (Processor S B C Vm ExecErr).
Implicit Types (p : Proc) (txs : list (ExecutableTxWithHash C)).

(** The transactions an execution recorded are the ones it got to, in order. *)
Lemma execute_from_spec txs : forall n p r p',
  execute_from n txs p = (r, p') ->
  exists k, (k <= length txs)%nat /\
    map fst (pr_transactions p')
      = map fst (pr_transactions p) ++ map tx_with_hash_of_executable (take k txs) /\
    pr_block_context p' = pr_block_context p /\
    match r with
    | Ok (m, None) => k = length txs /\ m = (n + k)%nat
    | Ok (m, Some e) => e = LimitsExhausted /\ (k < length txs)%nat /\ m = (n + k)%nat
    | Err _ => (k < length txs)%nat
    end.
Proof.
  induction txs as [|tx txs IH]; intros n p r p' Hex; cbn [execute_from] in Hex.
  { injection Hex as <- <-. exists O. simpl. rewrite app_nil_r. split_and!; [lia|done..|lia]. }
  destruct (transact _ _ _ tx _) as [[[res|e] st] bn].
  - destruct (IH _ _ _ _ Hex) as (k & Hk & Htx & Hctx & Hr). exists (Datatypes.S k).
    simpl. split; [lia|]. rewrite Htx. simpl. rewrite map_app, <- app_assoc. split; [done|].
    split; [done|]. destruct r as [[m [e'|]]|]; [destruct Hr as (? & ? & ?)|destruct Hr as [? ?]|];
      split_and?; (done || lia).
  - exists O. simpl. rewrite app_nil_r.
    destruct e; injection Hex as <- <-; simpl; split_and!; (done || lia).
Qed.
End ProcessorFacts.
