(* ===== verification/BlockProducer.v ===== *)
(** * Block producers (core/src/service/block_producer.rs)

    The interval producer executes queued transactions on a pending executor and
    closes a block when its timer fires or the block is full; the instant producer
    closes a block as soon as transactions are queued.  Both hand work to blocking
    tasks.  A task is its closure's captures and, once it has run, its result; the
    steps of the system are queueing, polling and the running of tasks, which the
    thread pool schedules as it likes.  Executors are shared between the producer
    and its tasks: they live in a store, and everyone holds their index.  The
    validator of the pool reads the state of an executor, so it is the index of that
    executor with a block environment.  The permit is the raw mutex that validation waits on while a block is closed. *)

From Stdlib Require Import ZArith Lia.
From stdpp Require Import base numbers list.
From S2P Require Import Prelude BTreeMap Felt Tx Version Block Receipt Executor Codec Versioned Mdbx DbProvider DbState GasOracle Backend Processor.

(** The result of a blocking task: not yet run, run, or cancelled by a panic. *)
Inductive TaskStatus (A : Type) := NotRun | Done (a : A) | Cancelled.
Arguments NotRun {A}.
Arguments Done {A}.
Arguments Cancelled {A}.

Section Producers.
Context `{MD : Mdbx} `{RT : RoaringTreemap} `{FP : FeltPostcard}.
Context {S B C Vm ExecErr T : Type} {BF : Blockifier S B C Vm ExecErr} `{!TrieWriter T}.
Context (poseidon starknet_keccak : list Z -> Z) (bonsai_root : Z -> list (list Z * Z) -> Z).
Context (is_legacy : C -> bool).
Abbreviation Info := (TransactionExecutionInfo Vm).
Abbreviation Proc := (Processor S B C Vm ExecErr).
Abbreviation ExTx := (ExecutableTxWithHash C).
Abbreviation ChainDb := (Db C (Receipt Vm) (TypedTransactionExecutionInfo Info)).
Abbreviation ChainT := (@Chain _ _ C Vm Info T).
Abbreviation Output := (@ExecutionOutput C Vm Info ExecErr).

(** What the factory is built with: the state over a provider's latest state, a
    fresh bouncer, and the flags. *)
Context (latest_state : ChainDb -> S) (new_bouncer : B) (execution_flags : ExecutionFlags).

(** [ExecutorFactory::with_state_and_block_env]. *)
Definition with_state_and_block_env (state : S) (env : BlockEnv) : Proc :=
  mkProcessor (block_context_from_envs env) state [] [] execution_flags ExecutionStats_default
    new_bouncer.

(** Everything outside a producer it acts on: the backend, with the clock and the
    prices of the moment as arguments. *)
Record Backend := mkBackend {
  bk_chain : ChainT;
  bk_context_generator : BlockContextGenerator;
}.

(** The environment of the latest block, which the validator is updated with. *)
Definition latest_block_env (db : ChainDb) : ProviderResult (option BlockEnv) :=
  num ← latest_number db; block_env_at db (BNum num).

(** [create_new_executor_for_next_block]; [None] is a panic. *)
Definition create_new_executor_for_next_block (oracle : GasOracle) (now : Z) (bk : Backend)
    : option (result BlockProductionError (Proc * Backend)) :=
  match next_env oracle now (bk_context_generator bk) (chain_db (bk_chain bk)) with
  | None => None
  | Some (Err e) => Some (Err (ProductionProvider e))
  | Some (Ok (env, gen)) =>
      Some (Ok (with_state_and_block_env (latest_state (chain_db (bk_chain bk))) env,
                mkBackend (bk_chain bk) gen))
  end.

(** ** The interval producer *)

Record ExecutionTask := mkExecutionTask {
  et_executor : nat;
  et_transactions : list ExTx;
  et_status : TaskStatus (result BlockProductionError (option (list ExTx)));
}.
Record MiningTask := mkMiningTask {
  mt_executor : nat;
  mt_status : TaskStatus (result BlockProductionError MinedBlockOutcome);
}.

Record IntervalBlockProducer := mkInterval {
  iv_block_time : option Z;
  iv_ongoing_mining : option MiningTask;
  iv_queued : list (list ExTx);
  iv_executor : nat;
  iv_ongoing_execution : option ExecutionTask;
  iv_permit_locked : bool;
  iv_timer : bool;            (* whether the interval timer is running *)
  iv_is_block_full : bool;
}.

(** What became of an output that was taken from an executor: how [do_mine_block]
    returned, or [None] when it panicked. *)
Abbreviation Closing := (option (result BlockProductionError MinedBlockOutcome)).

(** The producer with the store of executors, the backend and, as history, the
    outputs that were taken from executors, with what became of them. *)
Record IntervalSys := mkSys {
  sy_producer : IntervalBlockProducer;
  sy_executors : list Proc;
  sy_backend : Backend;
  sy_outputs : list (Output * Closing);
  sy_validator : nat * BlockEnv;
}.

Definition set_producer (f : IntervalBlockProducer -> IntervalBlockProducer) (s : IntervalSys)
    : IntervalSys := mkSys (f (sy_producer s)) (sy_executors s) (sy_backend s) (sy_outputs s)
      (sy_validator s).

Definition set_mining (t : option MiningTask) (p : IntervalBlockProducer) : IntervalBlockProducer :=
  mkInterval (iv_block_time p) t (iv_queued p) (iv_executor p) (iv_ongoing_execution p)
    (iv_permit_locked p) (iv_timer p) (iv_is_block_full p).
Definition set_execution (t : option ExecutionTask) (p : IntervalBlockProducer) : IntervalBlockProducer :=
  mkInterval (iv_block_time p) (iv_ongoing_mining p) (iv_queued p) (iv_executor p) t
    (iv_permit_locked p) (iv_timer p) (iv_is_block_full p).
Definition set_queued (q : list (list ExTx)) (p : IntervalBlockProducer) : IntervalBlockProducer :=
  mkInterval (iv_block_time p) (iv_ongoing_mining p) q (iv_executor p) (iv_ongoing_execution p)
    (iv_permit_locked p) (iv_timer p) (iv_is_block_full p).
Definition set_permit (b : bool) (p : IntervalBlockProducer) : IntervalBlockProducer :=
  mkInterval (iv_block_time p) (iv_ongoing_mining p) (iv_queued p) (iv_executor p)
    (iv_ongoing_execution p) b (iv_timer p) (iv_is_block_full p).
Definition set_timer (b : bool) (p : IntervalBlockProducer) : IntervalBlockProducer :=
  mkInterval (iv_block_time p) (iv_ongoing_mining p) (iv_queued p) (iv_executor p)
    (iv_ongoing_execution p) (iv_permit_locked p) b (iv_is_block_full p).
Definition set_full (b : bool) (p : IntervalBlockProducer) : IntervalBlockProducer :=
  mkInterval (iv_block_time p) (iv_ongoing_mining p) (iv_queued p) (iv_executor p)
    (iv_ongoing_execution p) (iv_permit_locked p) (iv_timer p) b.
Definition set_executor (e : nat) (p : IntervalBlockProducer) : IntervalBlockProducer :=
  mkInterval (iv_block_time p) (iv_ongoing_mining p) (iv_queued p) e
    (iv_ongoing_execution p) (iv_permit_locked p) (iv_timer p) (iv_is_block_full p).

(** [BlockProducer::queue]. *)
Definition interval_queue (transactions : list ExTx) (s : IntervalSys) : IntervalSys :=
  set_producer (fun p => set_queued (iv_queued p ++ [transactions]) p) s.

(** [IntervalBlockProducer::execute_transactions] on an executor: the outcomes are
    dropped by the caller; what is left over is what the block had no room for. *)
Definition interval_execute_transactions (executor : Proc) (transactions : list ExTx)
    : result BlockProductionError (option (list ExTx)) * Proc :=
  match execute_transactions transactions executor with
  | (Err e, executor) => (Err (TransactionExecutionError e), executor)
  | (Ok (total_executed, is_full), executor) =>
      (Ok (match is_full with Some _ => Some (drop total_executed transactions) | None => None end),
       executor)
  end.

(** The execution task runs, holding the executor's lock. *)
Definition run_execution (s : IntervalSys) : option IntervalSys :=
  t ← iv_ongoing_execution (sy_producer s);
  match et_status t with
  | NotRun =>
      executor ← sy_executors s !! et_executor t;
      let '(r, executor) := interval_execute_transactions executor (et_transactions t) in
      Some (mkSys (set_execution (Some (mkExecutionTask (et_executor t) (et_transactions t) (Done r)))
                     (sy_producer s))
              (<[et_executor t := executor]> (sy_executors s)) (sy_backend s) (sy_outputs s)
              (sy_validator s))
  | _ => None
  end.

(** [IntervalBlockProducer::do_mine] once the permit is taken: the executor without the
    output it was taken, and how closing the block ended.  The outer [None] is a panic in
    [take_execution_output], before anything is taken; a panic in [do_mine_block] comes
    after, before the block is stored: the chain is as it was, up to the nodes a trie
    writer may have stored before another one panicked, which are left out. *)
Definition interval_do_mine (executor : Proc) (bk : Backend) : option (Proc * Output * Closing * Backend) :=
  let block_env := executor_block_env (pr_block_context executor) in
  '(output, executor) ← take_execution_output is_legacy executor;
  Some match do_mine_block poseidon starknet_keccak bonsai_root block_env output (bk_chain bk) with
       | None => (executor, output, None, bk)
       | Some (r, chain) => (executor, output, Some r, mkBackend chain (bk_context_generator bk))
       end.

(** The mining task runs: it waits for the permit and keeps it.  A panic cancels it. *)
Definition run_mining (s : IntervalSys) : option IntervalSys :=
  t ← iv_ongoing_mining (sy_producer s);
  match mt_status t with
  | NotRun =>
      if iv_permit_locked (sy_producer s) then None else
      executor ← sy_executors s !! mt_executor t;
      let ended status := set_permit true (set_mining (Some (mkMiningTask (mt_executor t) status)) (sy_producer s)) in
      Some match interval_do_mine executor (sy_backend s) with
      | None => mkSys (ended Cancelled) (sy_executors s) (sy_backend s) (sy_outputs s) (sy_validator s)
      | Some (executor, output, closing, bk) =>
          mkSys (ended (match closing with Some r => Done r | None => Cancelled end))
            (<[mt_executor t := executor]> (sy_executors s)) bk (sy_outputs s ++ [(output, closing)])
            (sy_validator s)
      end
  | _ => None
  end.

(** *** Polling *)

Definition spawn_mining (p : IntervalBlockProducer) : IntervalBlockProducer :=
  set_mining (Some (mkMiningTask (iv_executor p) NotRun)) p.

(** The timer branch; [tick] tells whether the timer is ready. *)
Definition poll_timer (tick : bool) (p : IntervalBlockProducer) : IntervalBlockProducer :=
  match iv_ongoing_mining p with
  | Some _ => p
  | None =>
      if iv_timer p then
        if tick || iv_is_block_full p then spawn_mining (set_full false (set_timer false p)) else p
      else if iv_is_block_full p then set_timer false (set_full false (spawn_mining p))
      else p
  end.

(** The head of the loop: execute what is queued. *)
Definition start_execution (p : IntervalBlockProducer) : IntervalBlockProducer :=
  match iv_queued p, iv_ongoing_execution p, iv_ongoing_mining p with
  | _ :: _, None, None =>
      let transactions := concat (iv_queued p) in
      let p := set_execution (Some (mkExecutionTask (iv_executor p) transactions NotRun))
                 (set_queued [] p) in
      if iv_timer p then p
      else set_timer (match iv_block_time p with Some _ => true | None => false end) p
  | _, _, _ => p
  end.

Inductive PollExecution :=
  | ExecutionContinue (p : IntervalBlockProducer)
  | ExecutionError (e : BlockProductionError) (p : IntervalBlockProducer).

(** The loop: a finished execution lets the next one start, which has not run yet
    when it is polled. *)
Definition poll_execution (p : IntervalBlockProducer) : PollExecution :=
  let p := start_execution p in
  match iv_ongoing_execution p with
  | None => ExecutionContinue p
  | Some t =>
      match et_status t with
      | NotRun => ExecutionContinue p
      | Done (Ok (Some leftovers)) =>
          let p := set_execution None p in
          ExecutionContinue (set_queued (leftovers :: iv_queued p) (set_full true p))
      | Done (Ok None) => ExecutionContinue (start_execution (set_execution None p))
      | Done (Err e) => ExecutionError e (set_execution None p)
      | Cancelled => ExecutionError ExecutionTaskCancelled (set_execution None p)
      end
  end.

Inductive PollResult :=
  | PollPending
  | PollReady (r : result BlockProductionError MinedBlockOutcome).

(** The mining future: a closed block gives way to a new executor. *)
Definition poll_mining (oracle : GasOracle) (now : Z) (s : IntervalSys)
    : option (PollResult * IntervalSys) :=
  match iv_ongoing_mining (sy_producer s) with
  | None => Some (PollPending, s)
  | Some t =>
      match mt_status t with
      | NotRun => Some (PollPending, s)
      | Cancelled => Some (PollReady (Err ExecutionTaskCancelled), set_producer (set_mining None) s)
      | Done outcome =>
          let s := set_producer (set_mining None) s in
          match create_new_executor_for_next_block oracle now (sy_backend s) with
          | None => None
          | Some (Err e) => Some (PollReady (Err e), s)
          | Some (Ok (executor, bk)) =>
              let e := length (sy_executors s) in
              match latest_number (chain_db (bk_chain bk)) with
              | Err err => Some (PollReady (Err (ProductionProvider err)), s)
              | Ok num =>
                  match block_env_at (chain_db (bk_chain bk)) (BNum num) with
                  | Ok (Some block_env) =>
                      Some (PollReady outcome,
                            mkSys (set_full false (set_permit false (set_executor e (sy_producer s))))
                              (sy_executors s ++ [executor]) bk (sy_outputs s) (e, block_env))
                  | _ => None
                  end
              end
          end
      end
  end.

Definition interval_poll_next (tick : bool) (oracle : GasOracle) (now : Z) (s : IntervalSys)
    : option (PollResult * IntervalSys) :=
  match poll_execution (poll_timer tick (sy_producer s)) with
  | ExecutionError e p => Some (PollReady (Err e), set_producer (fun _ => p) s)
  | ExecutionContinue p => poll_mining oracle now (set_producer (fun _ => p) s)
  end.

(** [force_mine]: [ForceBlocked] waits for the permit while it holds the producer's
    lock, [ForcePanicked] is a panic; a failure keeps the permit. *)
Inductive ForceResult :=
  | ForceBlocked
  | ForcePanicked
  | ForceReturned (s : IntervalSys).

Definition interval_force_mine (oracle : GasOracle) (now : Z) (s : IntervalSys) : ForceResult :=
  if iv_permit_locked (sy_producer s) then ForceBlocked else
  match sy_executors s !! iv_executor (sy_producer s) with
  | None => ForcePanicked
  | Some executor =>
      match interval_do_mine executor (sy_backend s) with
      | None | Some (_, _, None, _) => ForcePanicked
      | Some (executor, output, Some r, bk) =>
          let s := mkSys (set_permit true (sy_producer s))
                     (<[iv_executor (sy_producer s) := executor]> (sy_executors s)) bk
                     (sy_outputs s ++ [(output, Some r)]) (sy_validator s) in
          match r with
          | Err _ => ForceReturned s
          | Ok _ =>
              match create_new_executor_for_next_block oracle now (sy_backend s) with
              | Some (Ok (executor, bk)) =>
                  let e := length (sy_executors s) in
                  match latest_block_env (chain_db (bk_chain bk)) with
                  | Ok (Some block_env) =>
                      ForceReturned
                        (mkSys (set_permit false (set_executor e (sy_producer s)))
                           (sy_executors s ++ [executor]) bk (sy_outputs s) (e, block_env))
                  | _ => ForcePanicked
                  end
              | _ => ForcePanicked
              end
          end
      end
  end.

(** [IntervalBlockProducer::new]; [None] is a panic. *)
Definition interval_new (oracle : GasOracle) (now : Z) (block_time : option Z) (bk : Backend)
    : option IntervalSys :=
  match next_env oracle now (bk_context_generator bk) (chain_db (bk_chain bk)) with
  | Some (Ok (block_env, gen)) =>
      let executor := with_state_and_block_env (latest_state (chain_db (bk_chain bk))) block_env in
      Some (mkSys (mkInterval block_time None [] 0 None false false false) [executor]
              (mkBackend (bk_chain bk) gen) [] (0%nat, block_env))
  | _ => None
  end.

(** ** The instant producer *)
Record InstantBlockProducer := mkInstant {
  in_block_mining : option (list (list ExTx));
  in_queued : list (list ExTx);
}.
Record InstantSys := mkInstantSys {
  is_producer : InstantBlockProducer;
  is_backend : Backend;
  is_outputs : list Output;
  is_validator : S * BlockEnv;
}.

(** [InstantBlockProducer::new]; [None] is a panic. *)
Definition instant_new (oracle : GasOracle) (now : Z) (bk : Backend) : option InstantSys :=
  match next_env oracle now (bk_context_generator bk) (chain_db (bk_chain bk)) with
  | Some (Ok (block_env, gen)) =>
      Some (mkInstantSys (mkInstant None []) (mkBackend (bk_chain bk) gen) []
              (latest_state (chain_db (bk_chain bk)), block_env))
  | _ => None
  end.

Definition instant_queue (transactions : list ExTx) (s : InstantSys) : InstantSys :=
  mkInstantSys (mkInstant (in_block_mining (is_producer s)) (in_queued (is_producer s) ++ [transactions]))
    (is_backend s) (is_outputs s) (is_validator s).

(** [InstantBlockProducer::do_mine], with the state and environment it leaves the
    validator with; [None] is a panic. *)
Definition instant_do_mine (oracle : GasOracle) (now : Z) (transactions : list (list ExTx)) (bk : Backend)
    : option (result BlockProductionError (MinedBlockOutcome * Output * (S * BlockEnv)) * Backend) :=
  let db := chain_db (bk_chain bk) in
  let transactions := concat transactions in
  match next_env oracle now (bk_context_generator bk) db with
  | None => None
  | Some (Err e) => Some (Err (ProductionProvider e), bk)
  | Some (Ok (env, gen)) =>
      let bk := mkBackend (bk_chain bk) gen in
      match latest_hash db with
      | Err e => Some (Err (ProductionProvider e), bk)
      | Ok parent_hash =>
          let executor := with_state_and_block_env (latest_state db) {|
            env_number := 0; env_timestamp := 0; env_l2_gas_prices := GasPrice_MIN;
            env_l1_gas_prices := GasPrice_MIN; env_l1_data_gas_prices := GasPrice_MIN;
            env_sequencer_address := 0 |} in
          let header := {|
            ph_parent_hash := parent_hash; ph_number := env_number env;
            ph_timestamp := env_timestamp env; ph_sequencer_address := env_sequencer_address env;
            ph_l1_gas_prices := env_l1_gas_prices env;
            ph_l1_data_gas_prices := env_l1_data_gas_prices env;
            ph_l2_gas_prices := env_l2_gas_prices env; ph_l1_da_mode := Calldata;
            ph_protocol_version := CURRENT_STARKNET_VERSION |} in
          match execute_block header transactions executor with
          | (Err e, _) => Some (Err (TransactionExecutionError e), bk)
          | (Ok _, executor) =>
              '(output, _) ← take_execution_output is_legacy executor;
              '(r, chain) ← do_mine_block poseidon starknet_keccak bonsai_root env output (bk_chain bk);
              let bk := mkBackend chain (bk_context_generator bk) in
              match r with
              | Err e => Some (Err e, bk)
              | Ok outcome =>
                  match latest_block_env (chain_db chain) with
                  | Err e => Some (Err (ProductionProvider e), bk)
                  | Ok None => None
                  | Ok (Some block_env) =>
                      Some (Ok (outcome, output, (latest_state (chain_db chain), block_env)), bk)
                  end
              end
          end
      end
  end.

(** [poll_next]; [ready] tells whether the mining task has finished, which is when it
    takes effect: nothing else writes to the chain meanwhile. *)
Definition instant_poll_next (ready : bool) (oracle : GasOracle) (now : Z) (s : InstantSys)
    : PollResult * InstantSys :=
  let p := is_producer s in
  let p := match in_queued p, in_block_mining p with
           | _ :: _, None => mkInstant (Some (in_queued p)) []
           | _, _ => p
           end in
  match in_block_mining p with
  | Some transactions =>
      if ready then
        let p := mkInstant None (in_queued p) in
        match instant_do_mine oracle now transactions (is_backend s) with
        | None =>
            (PollReady (Err ExecutionTaskCancelled),
             mkInstantSys p (is_backend s) (is_outputs s) (is_validator s))
        | Some (Err e, bk) =>
            (PollReady (Err e), mkInstantSys p bk (is_outputs s) (is_validator s))
        | Some (Ok (outcome, output, v), bk) =>
            (PollReady (Ok outcome), mkInstantSys p bk (is_outputs s ++ [output]) v)
        end
      else (PollPending, mkInstantSys p (is_backend s) (is_outputs s) (is_validator s))
  | None => (PollPending, mkInstantSys p (is_backend s) (is_outputs s) (is_validator s))
  end.

(** [force_mine]: refused while a block is being mined; its result is dropped. *)
Definition instant_force_mine (oracle : GasOracle) (now : Z) (s : InstantSys) : option InstantSys :=
  match in_block_mining (is_producer s) with
  | Some _ => Some s
  | None =>
      let p := mkInstant None [] in
      match instant_do_mine oracle now (in_queued (is_producer s)) (is_backend s) with
      | None => None
      | Some (Err _, bk) => Some (mkInstantSys p bk (is_outputs s) (is_validator s))
      | Some (Ok (_, output, v), bk) => Some (mkInstantSys p bk (is_outputs s ++ [output]) v)
      end
  end.
End Producers.
