(* ===== verification/BlockProducerProofs.v ===== *)
(** * What the block producers do with the transactions they are given

    The interval producer keeps the order of arrival, loses nothing but what a block
    that could not be closed had taken, and stores the blocks it closes, as long as its
    tasks run in the order they were started.  When they do not, or when a block is
    forced in between, transactions and even blocks are lost; and the instant producer
    forgets what a full block leaves over. *)

From Stdlib Require Import ZArith Lia.
From stdpp Require Import base numbers list sets sorting.
From S2P Require Import Prelude BTreeMap Felt Tx Version Block Receipt Executor Codec Versioned Mdbx DbProvider DbState DbHistory DbBlocks GasOracle Backend BackendProofs Processor BlockProducer.

Section Conservation.
Context `{MD : Mdbx} `{RT : RoaringTreemap} `{FP : FeltPostcard}.
Context {S B C Vm ExecErr T : Type} {BF : Blockifier S B C Vm ExecErr} `{!TrieWriter T}.
Context (poseidon starknet_keccak : list Z -> Z) (bonsai_root : Z -> list (list Z * Z) -> Z).
Context (is_legacy : C -> bool).
Abbreviation Info := (TransactionExecutionInfo Vm).
Abbreviation Proc := (Processor S B C Vm ExecErr).
Abbreviation ExTx := (ExecutableTxWithHash C).
Abbreviation ChainDb := (Db C (Receipt Vm) (TypedTransactionExecutionInfo Info)).
Context (latest_state : ChainDb -> S) (new_bouncer : B) (execution_flags : ExecutionFlags).
Abbreviation Sys := (@IntervalSys _ _ S B C Vm ExecErr T).
Abbreviation mined_run := (run_mining poseidon starknet_keccak bonsai_root is_legacy).
Abbreviation polled := (interval_poll_next latest_state new_bouncer execution_flags).
Abbreviation forced := (interval_force_mine poseidon starknet_keccak bonsai_root is_legacy
                          latest_state new_bouncer execution_flags).
Implicit Types (s : Sys) (txs : list ExTx).

(** An execution task that has not run. *)
Definition execution_waits (p : IntervalBlockProducer (C := C)) : Prop :=
  exists t, iv_ongoing_execution p = Some t /\ et_status t = NotRun.

(** Runs of the producer in which tasks finish in the order they were started and no
    execution fails, with the transactions that were queued. *)
Inductive runs (s0 : Sys) : list ExTx -> Sys -> Prop :=
  | runs_start : runs s0 [] s0
  | runs_queue arrived txs s :
      runs s0 arrived s -> runs s0 (arrived ++ txs) (interval_queue txs s)
  | runs_execution arrived s s' t r :
      runs s0 arrived s -> run_execution s = Some s' ->
      iv_ongoing_execution (sy_producer s') = Some t -> et_status t = Done (Ok r) ->
      runs s0 arrived s'
  | runs_mining arrived s s' :
      runs s0 arrived s -> ~ execution_waits (sy_producer s) -> mined_run s = Some s' ->
      runs s0 arrived s'
  | runs_poll arrived s s' tick oracle now r :
      runs s0 arrived s -> polled tick oracle now s = Some (r, s') -> runs s0 arrived s'
  | runs_force arrived s s' oracle now :
      runs s0 arrived s -> ~ execution_waits (sy_producer s) ->
      iv_ongoing_mining (sy_producer s) = None ->
      forced oracle now s = ForceReturned s' -> runs s0 arrived s'.

(** Where transactions are: in outputs taken to close a block, on the pending executor,
    in an execution task, in the queue. *)
Definition recorded (l : list (TxWithHash * ExecutionResult Vm Info ExecErr)) : list TxWithHash := map fst l.
Definition in_outputs s : list TxWithHash :=
  flat_map (fun o => recorded (out_transactions o.1)) (sy_outputs s).
Definition on_executor s : list TxWithHash :=
  match sy_executors s !! iv_executor (sy_producer s) with
  | Some e => recorded (pr_transactions e)
  | None => []
  end.
Definition unexecuted (p : IntervalBlockProducer (C := C)) : list ExTx :=
  match iv_ongoing_execution p with
  | Some t =>
      match et_status t with
      | NotRun => et_transactions t
      | Done (Ok (Some leftovers)) => leftovers
      | _ => []
      end
  | None => []
  end ++ concat (iv_queued p).

Record conserved (arrived : list ExTx) s : Prop := {
  cons_order : map tx_with_hash_of_executable arrived
    = in_outputs s ++ on_executor s ++ map tx_with_hash_of_executable (unexecuted (sy_producer s));
  cons_executor : is_Some (sy_executors s !! iv_executor (sy_producer s));
  cons_task : forall t, iv_ongoing_execution (sy_producer s) = Some t ->
    (et_status t = NotRun /\ et_executor t = iv_executor (sy_producer s)) \/
    (exists r, et_status t = Done (Ok r));
  cons_mining : forall t, iv_ongoing_mining (sy_producer s) = Some t ->
    mt_executor t = iv_executor (sy_producer s) /\
    (forall r, mt_status t = Done r -> ~ execution_waits (sy_producer s) /\ on_executor s = []);
  cons_validator : fst (sy_validator s) = iv_executor (sy_producer s);
}.

Lemma conserved_queue arrived txs s :
  conserved arrived s -> conserved (arrived ++ txs) (interval_queue txs s).
Proof.
  intros [H1 H2 H3 H4 H5]. split; try done.
  rewrite map_app, H1. unfold in_outputs, on_executor, unexecuted. simpl.
  by rewrite concat_app, !map_app, <- !app_assoc; simpl; rewrite app_nil_r.
Qed.

Lemma conserved_execution arrived s s' t r :
  conserved arrived s -> run_execution s = Some s' ->
  iv_ongoing_execution (sy_producer s') = Some t -> et_status t = Done (Ok r) ->
  conserved arrived s'.
Proof.
  intros [H1 H2 H3 H4 HV] Hrun Ht Hr. unfold run_execution in Hrun.
  destruct (iv_ongoing_execution (sy_producer s)) as [t0|] eqn:Et; [|done]. simpl in Hrun.
  destruct (et_status t0) eqn:Est; [|done..].
  destruct (H3 t0 eq_refl) as [[_ Hex]|[r0 Hr0]]; [|congruence].
  rewrite Hex in Hrun. destruct (sy_executors s !! iv_executor (sy_producer s)) as [e|] eqn:Ee; [|done].
  simpl in Hrun. unfold interval_execute_transactions in Hrun.
  destruct (execute_transactions (et_transactions t0) e) as [re e'] eqn:Hx.
  apply execute_from_spec in Hx as (k & Hk & Htx & _ & Hres).
  assert (Hlt : (iv_executor (sy_producer s) < length (sy_executors s))%nat) by (by eapply lookup_lt_Some).
  destruct re as [[m is_full]|err]; injection Hrun as <-; simpl in Ht; injection Ht as <-;
    simpl in Hr; [|done]. injection Hr as <-.
  split.
  - unfold in_outputs, on_executor, unexecuted in *. simpl in *. rewrite Ee, Et, Est in H1. rewrite H1.
    rewrite list_lookup_insert_eq by done. unfold recorded in *. rewrite Htx, <- !app_assoc.
    do 2 f_equal. rewrite !map_app, app_assoc. f_equal.
    destruct is_full as [e0|]; [destruct Hres as (-> & _ & ->)|destruct Hres as [-> _]].
    + simpl. by rewrite <- map_app, take_drop.
    + by rewrite take_ge, app_nil_r by lia.
  - simpl. rewrite list_lookup_insert_eq by done. by eexists.
  - simpl. intros t [= <-]. right. by eexists.
  - simpl. intros t Ht. destruct (H4 t Ht) as [H5 H6]. split; [done|]. intros r Hd.
    destruct (H6 r Hd) as [Hw _]. destruct Hw. by exists t0.
  - exact HV.
Qed.

Abbreviation do_mine := (interval_do_mine poseidon starknet_keccak bonsai_root is_legacy).

Lemma do_mine_taken (e e' : Proc) bk closing bk' o :
  do_mine e bk = Some (e', o, closing, bk') ->
  out_transactions o = pr_transactions e /\ pr_transactions e' = [].
Proof.
  unfold interval_do_mine, take_execution_output.
  destruct (state_update_from_cached_state is_legacy e) as [st|]; [|done]. simpl.
  destruct (do_mine_block _ _ _ _ _ _) as [[r0 ch]|]; by intros [= <- <- <- <-].
Qed.

(** Closing a block moves what is on the executor to the outputs. *)
Lemma closed_order s (e e' : Proc) o closing p :
  sy_executors s !! iv_executor (sy_producer s) = Some e ->
  out_transactions o = pr_transactions e -> pr_transactions e' = [] ->
  iv_executor p = iv_executor (sy_producer s) ->
  let s' := mkSys p (<[iv_executor (sy_producer s) := e']> (sy_executors s)) (sy_backend s)
              (sy_outputs s ++ [(o, closing)]) (sy_validator s) in
  in_outputs s' ++ on_executor s' = in_outputs s ++ on_executor s /\ on_executor s' = [].
Proof.
  intros He Ho He' Hp. unfold in_outputs, on_executor. simpl. rewrite Hp, He.
  rewrite list_lookup_insert_eq by (by eapply lookup_lt_Some). rewrite He', flat_map_app. simpl.
  by rewrite Ho, !app_nil_r.
Qed.

Lemma conserved_mining arrived s s' :
  conserved arrived s -> ~ execution_waits (sy_producer s) -> mined_run s = Some s' ->
  conserved arrived s'.
Proof.
  intros [H1 [e He] H3 H4 HV] Hw Hrun. unfold run_mining in Hrun.
  destruct (iv_ongoing_mining (sy_producer s)) as [t|] eqn:Et; [|done]. simpl in Hrun.
  destruct (mt_status t) eqn:Est; [|done..]. destruct (iv_permit_locked (sy_producer s)); [done|].
  destruct (H4 t eq_refl) as [Hex _]. rewrite Hex, He in Hrun. cbn [mbind option_bind] in Hrun.
  destruct (do_mine e (sy_backend s)) as [[[[e' o] closing] bk]|] eqn:Hd; injection Hrun as <-.
  - apply do_mine_taken in Hd as [Ho He'].
    set (p := set_permit true _).
    destruct (closed_order s e e' o closing p He Ho He' eq_refl) as [Hord Hon].
    split; [|simpl; rewrite list_lookup_insert_eq by (by eapply lookup_lt_Some); by eexists|exact H3| |exact HV].
    + rewrite H1. unfold in_outputs, on_executor in *. simpl in *. rewrite !app_assoc, Hord. done.
    + intros t' [= <-]. split; [done|]. intros r' _. split; [exact Hw|exact Hon].
  - split; [exact H1|by eexists|exact H3| |exact HV]. intros t' [= <-]. split; [done|]. done.
Qed.

(** A change of the producer alone that keeps what is not executed. *)
Lemma conserved_producer arrived s p :
  conserved arrived s -> iv_executor p = iv_executor (sy_producer s) ->
  unexecuted p = unexecuted (sy_producer s) ->
  (forall t, iv_ongoing_execution p = Some t ->
    (et_status t = NotRun /\ et_executor t = iv_executor p) \/ (exists r, et_status t = Done (Ok r))) ->
  (forall t, iv_ongoing_mining p = Some t -> mt_executor t = iv_executor p /\
    (forall r, mt_status t = Done r -> ~ execution_waits p /\ on_executor s = [])) ->
  conserved arrived (set_producer (fun _ => p) s).
Proof.
  intros [H1 H2 _ _ HV] He Hu Hx Hm.
  assert (on_executor (set_producer (fun _ => p) s) = on_executor s) as Hon.
  { unfold on_executor. simpl. by rewrite He. }
  split; simpl; [by rewrite Hon, Hu|by rewrite He|done| |by rewrite He]. intros t Ht. by rewrite Hon; apply Hm.
Qed.

Lemma conserved_timer arrived s tick :
  conserved arrived s -> conserved arrived (set_producer (poll_timer tick) s).
Proof.
  intros H. pose proof (cons_task _ _ H) as H3. pose proof (cons_mining _ _ H) as H4.
  apply (conserved_producer arrived s (poll_timer tick (sy_producer s)) H); unfold poll_timer;
    destruct (iv_ongoing_mining (sy_producer s)) eqn:Em; try done; try (by rewrite Em);
    destruct (iv_timer (sy_producer s)), tick, (iv_is_block_full (sy_producer s));
    try done; simpl; try (by rewrite Em); intros t' [= <-]; split; done.
Qed.

Lemma conserved_start arrived s :
  conserved arrived s -> conserved arrived (set_producer start_execution s).
Proof.
  intros H. pose proof (cons_task _ _ H) as H3. pose proof (cons_mining _ _ H) as H4.
  apply (conserved_producer arrived s (start_execution (sy_producer s)) H); unfold start_execution;
    destruct (iv_queued (sy_producer s)) as [|q qs] eqn:Eq; try done;
    destruct (iv_ongoing_execution (sy_producer s)) as [t|] eqn:Ee; try (by rewrite ?Ee);
    destruct (iv_ongoing_mining (sy_producer s)) as [t|] eqn:Em; try (by rewrite ?Ee, ?Em);
    destruct (iv_timer (sy_producer s)) eqn:Et; simpl; rewrite ?Et; simpl; rewrite ?Em; try done;
    try (unfold unexecuted; simpl; by rewrite Ee, Eq, app_nil_r);
    intros t' [= <-]; by left.
Qed.
Lemma conserved_finished arrived s t r :
  conserved arrived s -> iv_ongoing_execution (sy_producer s) = Some t -> et_status t = Done (Ok r) ->
  let p := set_execution None (sy_producer s) in
  conserved arrived (set_producer (fun _ =>
    match r with Some leftovers => set_queued (leftovers :: iv_queued p) (set_full true p) | None => p end) s).
Proof.
  intros H Ht Hr p. pose proof (cons_mining _ _ H) as H4.
  apply conserved_producer; [done|by destruct r| | |].
  - unfold unexecuted. rewrite Ht, Hr. by destruct r.
  - by destruct r.
  - intros t' Ht'. replace (iv_ongoing_mining _) with (iv_ongoing_mining (sy_producer s)) in Ht' by (by destruct r).
    destruct (H4 t' Ht') as [Hx Hd]. split; [by destruct r|]. intros r' Hr'.
    destruct (Hd r' Hr') as [_ Hon]. split; [|done]. intros (t0 & Ht0 & _). by destruct r.
Qed.

Lemma conserved_poll_execution arrived s :
  conserved arrived s ->
  exists p, poll_execution (sy_producer s) = ExecutionContinue p /\
    conserved arrived (set_producer (fun _ => p) s).
Proof.
  intros H%conserved_start. unfold poll_execution.
  destruct (iv_ongoing_execution (start_execution (sy_producer s))) as [t|] eqn:Et; [|by eexists].
  destruct (cons_task _ _ H t Et) as [[-> _]|[r Hr]]; [by eexists|].
  pose proof (conserved_finished _ _ _ _ H Et Hr) as Hf. rewrite Hr.
  destruct r as [l|]; [by eexists|]. apply conserved_start in Hf. by eexists.
Qed.

Lemma created_empty oracle now (bk bk' : @Backend _ _ C Vm T) (e : Proc) :
  create_new_executor_for_next_block latest_state new_bouncer execution_flags oracle now bk
    = Some (Ok (e, bk')) ->
  pr_transactions e = [].
Proof.
  unfold create_new_executor_for_next_block.
  by destruct (next_env _ _ _ _) as [[[env gen]|err]|]; intros [= <- _].
Qed.

(** A new executor takes the place of an emptied one that no task waits for. *)
Lemma conserved_new_executor arrived s (e : Proc) bk p v :
  conserved arrived s -> on_executor s = [] -> ~ execution_waits (sy_producer s) ->
  pr_transactions e = [] -> iv_ongoing_mining p = None ->
  iv_ongoing_execution p = iv_ongoing_execution (sy_producer s) ->
  iv_queued p = iv_queued (sy_producer s) -> iv_executor p = length (sy_executors s) -> fst v = iv_executor p ->
  conserved arrived (mkSys p (sy_executors s ++ [e]) bk (sy_outputs s) v).
Proof.
  intros [H1 H2 H3 H4 HV] Hon Hw He Hm Hx Hq Hex Hv.
  assert (Hl : (sy_executors s ++ [e]) !! iv_executor p = Some e).
  { rewrite Hex, lookup_app_r, Nat.sub_diag by lia. done. }
  split; simpl.
  - rewrite H1, Hon. unfold on_executor, in_outputs, unexecuted. simpl. by rewrite Hl, He, Hx, Hq.
  - by rewrite Hl.
  - rewrite Hx. intros t Ht. destruct (H3 t Ht) as [[Hn _]|?]; [|by right]. destruct Hw. by exists t.
  - by rewrite Hm.
  - exact Hv.
Qed.

Lemma conserved_poll_mining arrived s s' oracle now r :
  conserved arrived s ->
  poll_mining latest_state new_bouncer execution_flags oracle now s = Some (r, s') ->
  conserved arrived s'.
Proof.
  intros H. unfold poll_mining. pose proof (cons_mining _ _ H) as H4.
  assert (Hdrop : conserved arrived (set_producer (set_mining None) s)).
  { apply (conserved_producer arrived s (set_mining None (sy_producer s)) H); try done.
    exact (cons_task _ _ H). }
  destruct (iv_ongoing_mining (sy_producer s)) as [t|] eqn:Et; [|by intros [= _ <-]].
  destruct (H4 t eq_refl) as [_ Hd].
  destruct (mt_status t) as [|outcome|] eqn:Est; [by intros [= _ <-]| |by intros [= _ <-]].
  destruct (Hd outcome eq_refl) as [Hw Hon].
  destruct (create_new_executor_for_next_block _ _ _ _ _ _) as [[[e bk]|err]|] eqn:Hc; [| |done];
    [|by intros [= _ <-]].
  destruct (latest_number _) as [num|err]; [|by intros [= _ <-]].
  destruct (block_env_at _ _) as [[env|]|err]; [|done..]. intros [= _ <-].
  by apply (conserved_new_executor arrived s e); [| | |eapply created_empty| | | | |].
Qed.

Lemma conserved_poll arrived s s' tick oracle now r :
  conserved arrived s -> polled tick oracle now s = Some (r, s') -> conserved arrived s'.
Proof.
  intros H. unfold interval_poll_next.
  apply (conserved_timer _ _ tick) in H. apply conserved_poll_execution in H as (p & Hp & H).
  simpl in Hp. rewrite Hp. by apply conserved_poll_mining.
Qed.

Lemma conserved_force arrived s s' oracle now :
  conserved arrived s -> ~ execution_waits (sy_producer s) ->
  iv_ongoing_mining (sy_producer s) = None ->
  forced oracle now s = ForceReturned s' -> conserved arrived s'.
Proof.
  intros H Hw Hm. unfold interval_force_mine. destruct H as [H1 [e He] H3 H4 HV] eqn:EH.
  destruct (iv_permit_locked (sy_producer s)); [done|]. rewrite He.
  destruct (do_mine e (sy_backend s)) as [[[[e' o] [r|]] bk]|] eqn:Hd; [|done..].
  apply do_mine_taken in Hd as [Ho He'].
  set (s1 := mkSys _ _ _ _ _) in *.
  destruct (closed_order s e e' o (Some r) (set_permit true (sy_producer s)) He Ho He' eq_refl) as [Hord Hon].
  assert (Hs1 : conserved arrived s1).
  { split; [|simpl; rewrite list_lookup_insert_eq by (by eapply lookup_lt_Some); by eexists|exact H3| |exact HV].
    - rewrite H1. unfold in_outputs, on_executor in *. simpl in *. by rewrite !app_assoc, Hord.
    - simpl. by rewrite Hm. }
  destruct r as [outcome|err]; [|by intros [= <-]].
  destruct (create_new_executor_for_next_block _ _ _ _ _ _) as [[[e2 bk2]|err]|] eqn:Hc; [|done..].
  destruct (latest_block_env _) as [[env|]|err]; [|done..]. intros [= <-].
  by apply (conserved_new_executor arrived s1 e2); [| | |eapply created_empty| | | | |].
Qed.

Lemma conserved_new oracle now block_time (bk : @Backend _ _ C Vm T) s :
  interval_new latest_state new_bouncer execution_flags oracle now block_time bk = Some s ->
  conserved [] s.
Proof.
  unfold interval_new.
  destruct (next_env _ _ _ _) as [[[env gen]|err]|]; [|done..]. by intros [= <-].
Qed.

(** ** The blocks that were closed *)

(** The outputs whose block was closed, with what was reported of it. *)
Definition closed_blocks s : list (@ExecutionOutput C Vm Info ExecErr * MinedBlockOutcome) :=
  omap (fun o => match o.2 with Some (Ok outcome) => Some (o.1, outcome) | _ => None end) (sy_outputs s).
Abbreviation stored_db s := (chain_db (bk_chain (sy_backend s))).

(** Every closed block is stored, the [k]-th with the [k]-th number after [n0]: it holds
    the transactions of its output that succeeded, which are the ones it is reported
    with; and no other block is. *)
Definition blocks_stored (n0 : Z) s : Prop :=
  latest_number (stored_db s) = Ok (n0 + Z.of_nat (length (closed_blocks s))) /\
  forall k out outcome, closed_blocks s !! k = Some (out, outcome) ->
    outcome_block_number outcome = n0 + 1 + Z.of_nat k /\
    outcome_txs outcome = map (fun e => twh_hash e.1.1) (successes out) /\
    transactions_by_block (stored_db s) (BNum (outcome_block_number outcome))
      = Ok (Some (map (fun e => e.1.1) (successes out))).

Section Stored.
Abbreviation Ins := (@Insertion C (Receipt Vm) (TypedTransactionExecutionInfo Info)).
Abbreviation sorted := (StronglySorted (fun i j : Ins => ins_number i < ins_number j)).
(** The chain the producer starts on. *)
Context (pre : list Ins) (p0 : Ins).
Abbreviation executor_number e := (env_number (executor_block_env (pr_block_context e))).

Definition stored_as (b : @ExecutionOutput C Vm Info ExecErr * MinedBlockOutcome) (i : Ins) : Prop :=
  outcome_block_number b.2 = ins_number i /\
  outcome_txs b.2 = map (fun e => twh_hash e.1.1) (successes b.1) /\
  ins_body i = map (fun e => e.1.1) (successes b.1).

(** The database is the chain with the closed blocks on top, and an executor that may be
    closed has the next number. *)
Record chained s (blks : list Ins) : Prop := {
  ch_db : stored_db s = db_of ((pre ++ [p0]) ++ blks);
  ch_sorted : sorted ((pre ++ [p0]) ++ blks);
  ch_numbers : map ins_number blks = seqZ (ins_number p0 + 1) (Z.of_nat (length blks));
  ch_closed : Forall2 stored_as (closed_blocks s) blks;
  ch_next : iv_permit_locked (sy_producer s) = false ->
    forall e, sy_executors s !! iv_executor (sy_producer s) = Some e ->
      executor_number e = ins_number p0 + 1 + Z.of_nat (length blks);
}.
(** Block numbers have room for what was taken. *)
Definition in_bounds s : Prop := ins_number p0 + Z.of_nat (length (sy_outputs s)) + 1 < u64_bound.
Definition chain_inv s : Prop := in_bounds s -> exists blks, chained s blks.

Lemma seqZ_snoc m (k : nat) : seqZ m (Z.of_nat k) ++ [m + Z.of_nat k] = seqZ m (Z.of_nat (k + 1)).
Proof. rewrite Nat2Z.inj_add, seqZ_app by lia. by rewrite (seqZ_cons _ 1) by lia. Qed.

Lemma chained_last s blks :
  chained s blks -> exists l p, (pre ++ [p0]) ++ blks = l ++ [p] /\
    ins_number p = ins_number p0 + Z.of_nat (length blks).
Proof.
  intros H. destruct blks as [|b blks _] using rev_ind.
  - exists pre, p0. rewrite app_nil_r. simpl. split; [done|lia].
  - exists ((pre ++ [p0]) ++ blks), b. rewrite app_assoc. split; [done|].
    pose proof (ch_numbers _ _ H) as Hn. rewrite map_app, length_app in Hn. simpl in Hn.
    rewrite <- seqZ_snoc in Hn. apply app_inj_tail in Hn as [_ Hn]. rewrite length_app. simpl. lia.
Qed.

Lemma closed_blocks_length s blks : chained s blks -> (length blks <= length (sy_outputs s))%nat.
Proof.
  intros H. rewrite <- (Forall2_length _ _ _ (ch_closed _ _ H)). unfold closed_blocks.
  generalize (sy_outputs s). intros l. induction l as [|[o [[oc|e]|]] l IH];
    [done|by apply le_n_S|by apply le_S..].
Qed.

(** Steps that write no block. *)
Lemma chained_keep s s' blks :
  chained s blks -> stored_db s' = stored_db s -> closed_blocks s' = closed_blocks s ->
  (iv_permit_locked (sy_producer s') = false -> iv_permit_locked (sy_producer s) = false /\
     forall e', sy_executors s' !! iv_executor (sy_producer s') = Some e' ->
       exists e, sy_executors s !! iv_executor (sy_producer s) = Some e /\
         executor_number e' = executor_number e) ->
  chained s' blks.
Proof.
  intros [H1 H2 H3 H4 H5] Hdb Hc Hn. split; try congruence. intros Hp e' He'.
  destruct (Hn Hp) as [Hp0 He]. destruct (He e' He') as (e & He0 & ->). by apply H5.
Qed.

Lemma chain_keep s s' :
  chain_inv s -> stored_db s' = stored_db s -> sy_outputs s' = sy_outputs s ->
  (iv_permit_locked (sy_producer s') = false -> iv_permit_locked (sy_producer s) = false /\
     forall e', sy_executors s' !! iv_executor (sy_producer s') = Some e' ->
       exists e, sy_executors s !! iv_executor (sy_producer s) = Some e /\
         executor_number e' = executor_number e) ->
  chain_inv s'.
Proof.
  intros Hinv Hdb Ho Hn Hb. unfold in_bounds in Hb. rewrite Ho in Hb.
  destruct (Hinv Hb) as [blks H]. exists blks. apply (chained_keep s); try done.
  unfold closed_blocks. by rewrite Ho.
Qed.

Lemma chain_same s s' :
  chain_inv s -> stored_db s' = stored_db s -> sy_outputs s' = sy_outputs s ->
  sy_executors s' = sy_executors s -> iv_executor (sy_producer s') = iv_executor (sy_producer s) ->
  iv_permit_locked (sy_producer s') = iv_permit_locked (sy_producer s) -> chain_inv s'.
Proof.
  intros Hinv Hdb Ho He Hx Hp. apply (chain_keep s); try done. rewrite Hp, He, Hx. intros ->. eauto.
Qed.

Lemma chain_execution s s' : chain_inv s -> run_execution s = Some s' -> chain_inv s'.
Proof.
  intros Hinv. unfold run_execution. destruct (iv_ongoing_execution _) as [t|]; [|done]. simpl.
  destruct (et_status t); [|done..]. destruct (sy_executors s !! _) as [e|] eqn:He; [|done]. simpl.
  unfold interval_execute_transactions.
  destruct (execute_transactions (et_transactions t) e) as [re e1] eqn:Hx.
  apply execute_from_spec in Hx as (k & _ & _ & Hctx & _).
  assert (forall r, chain_inv (mkSys
            (set_execution (Some (mkExecutionTask (et_executor t) (et_transactions t) (Done r))) (sy_producer s))
            (<[et_executor t := e1]> (sy_executors s)) (sy_backend s) (sy_outputs s) (sy_validator s))) as Hall.
  { intros r. apply (chain_keep s); try done. simpl. intros ->. split; [done|]. intros e' He'.
    destruct (decide (et_executor t = iv_executor (sy_producer s))) as [Heq|Hne].
    - rewrite Heq in He, He'. rewrite list_lookup_insert_eq in He' by (by eapply lookup_lt_Some).
      injection He' as <-. exists e. by rewrite Hctx.
    - rewrite list_lookup_insert_ne in He' by done. eauto. }
  destruct re as [[m full]|err]; intros [= <-]; apply Hall.
Qed.

(** What closing a block does to the chain. *)
Lemma do_mine_stored (e e' : Proc) (bk bk' : @Backend _ _ C Vm T) o closing l p :
  chain_db (bk_chain bk) = db_of (l ++ [p]) -> sorted (l ++ [p]) ->
  do_mine e bk = Some (e', o, closing, bk') ->
  match closing with
  | Some (Ok outcome) =>
      exists i, chain_db (bk_chain bk') = db_of ((l ++ [p]) ++ [i]) /\ stored_as (o, outcome) i /\
        ins_number i = executor_number e
  | _ => chain_db (bk_chain bk') = db_of (l ++ [p])
  end.
Proof.
  intros Hdb Hs. unfold interval_do_mine.
  destruct (take_execution_output is_legacy e) as [[o1 e1]|]; [|done]. simpl.
  destruct bk as [[db t] gen]. simpl in Hdb. subst db. cbn [bk_chain bk_context_generator].
  destruct (do_mine_block _ _ _ _ _ _) as [[r c]|] eqn:Hm; [|by intros [= <- <- <- <-]].
  intros [= <- <- <- <-].
  pose proof (do_mine_block_sound poseidon starknet_keccak bonsai_root (l ++ [p]) t _ _ _ _ _
                (latest_hash_sorted _ _ Hs) Hm) as Hsound.
  destruct r as [outcome|err]; [|done]. destruct Hsound as (i & Hc & Hi & Hn & Htxs).
  exists i. split; [done|]. pose proof (mo_number _ _ _ _ _ _ Hi) as Hnum.
  split; [|done]. split_and!; simpl; [by rewrite Hn, Hnum|done|apply Hi].
Qed.

Lemma chain_closed s (e e' : Proc) o closing bk executors producer validator :
  chain_inv s -> iv_permit_locked (sy_producer s) = false ->
  sy_executors s !! iv_executor (sy_producer s) = Some e ->
  do_mine e (sy_backend s) = Some (e', o, closing, bk) ->
  iv_permit_locked producer = true ->
  chain_inv (mkSys producer executors bk (sy_outputs s ++ [(o, closing)]) validator).
Proof.
  intros Hinv Hp He Hd Hl Hb.
  assert (in_bounds s) as Hb' by (unfold in_bounds in *; simpl in Hb; rewrite length_app in Hb; lia).
  destruct (Hinv Hb') as [blks H]. destruct (chained_last _ _ H) as (l & p & Hlp & Hpn).
  pose proof (ch_sorted _ _ H) as Hs. pose proof (ch_db _ _ H) as Hdb. rewrite Hlp in Hs, Hdb.
  pose proof (do_mine_stored _ _ _ _ _ _ _ _ Hdb Hs Hd) as Hc.
  set (s' := mkSys _ _ _ _ _).
  assert (closed_blocks s' = closed_blocks s ++ match closing with Some (Ok oc) => [(o, oc)] | _ => [] end)
    as Hcl.
  { unfold closed_blocks, s'. simpl. rewrite omap_app. simpl. by destruct closing as [[|]|]. }
  assert (forall A, iv_permit_locked (sy_producer s') = false -> A) as Hno by (simpl; congruence).
  destruct closing as [[outcome|err]|]; simpl in Hcl; rewrite ?app_nil_r in Hcl.
  2-3: exists blks; apply (chained_keep s); [done|simpl; by rewrite Hc, <- Hdb|done|exact (Hno _)].
  destruct Hc as (i & Hc & Hi & Hn). rewrite (ch_next _ _ H Hp e He) in Hn.
  exists (blks ++ [i]). rewrite <- Hlp in Hc. split; rewrite ?app_assoc; [done|..].
  - rewrite Hlp. apply ordered_snoc; [done|lia].
  - rewrite map_app, (ch_numbers _ _ H), length_app. simpl. rewrite Hn. apply seqZ_snoc.
  - rewrite Hcl. apply Forall2_app; [apply H|by constructor].
  - exact (Hno _).
Qed.

Lemma chain_mining arrived s s' :
  conserved arrived s -> chain_inv s -> mined_run s = Some s' -> chain_inv s'.
Proof.
  intros Hcons Hinv Hrun. unfold run_mining in Hrun.
  destruct (iv_ongoing_mining (sy_producer s)) as [t|] eqn:Et; [|done]. simpl in Hrun.
  destruct (mt_status t); [|done..]. destruct (iv_permit_locked (sy_producer s)) eqn:Hp; [done|].
  destruct (cons_mining _ _ Hcons t Et) as [Hex _]. rewrite Hex in Hrun.
  destruct (sy_executors s !! iv_executor (sy_producer s)) as [e|] eqn:He; [|done].
  cbn [mbind option_bind] in Hrun.
  destruct (do_mine e (sy_backend s)) as [[[[e' o] closing] bk]|] eqn:Hd; injection Hrun as <-.
  - by eapply chain_closed.
  - by apply (chain_keep s).
Qed.

(** The executor for the next block has the next number. *)
Lemma created_next oracle now s (e : Proc) bk :
  chain_inv s -> 0 <= ins_number p0 ->
  create_new_executor_for_next_block latest_state new_bouncer execution_flags oracle now (sy_backend s)
    = Some (Ok (e, bk)) ->
  forall producer v, iv_executor producer = length (sy_executors s) ->
  chain_inv (mkSys producer (sy_executors s ++ [e]) bk (sy_outputs s) v).
Proof.
  intros Hinv H0 Hcr producer v Hex Hb. destruct (Hinv Hb) as [blks H].
  destruct (chained_last _ _ H) as (l & p & Hlp & Hpn). pose proof (closed_blocks_length _ _ H) as Hlen.
  pose proof (ch_sorted _ _ H) as Hs. pose proof (ch_db _ _ H) as Hdb. rewrite Hlp in Hs, Hdb.
  unfold in_bounds in Hb. simpl in Hb.
  unfold create_new_executor_for_next_block in Hcr. rewrite Hdb in Hcr.
  destruct (next_env_last oracle now (bk_context_generator (sy_backend s)) l p Hs ltac:(lia) ltac:(lia))
    as (env & gen & Hne & Hnum).
  rewrite Hne in Hcr. injection Hcr as <- <-. exists blks. destruct H as [H1 H2 H3 H4 H5].
  split; try done. simpl. intros _ e'. rewrite Hex, lookup_app_r, Nat.sub_diag by lia. intros [= <-].
  simpl. lia.
Qed.

Lemma chain_poll_mining s s' oracle now r :
  chain_inv s -> 0 <= ins_number p0 ->
  poll_mining latest_state new_bouncer execution_flags oracle now s = Some (r, s') -> chain_inv s'.
Proof.
  intros Hinv H0. unfold poll_mining.
  assert (chain_inv (set_producer (set_mining None) s)) as Hdrop by (by apply (chain_same s)).
  destruct (iv_ongoing_mining (sy_producer s)) as [t|]; [|by intros [= _ <-]].
  destruct (mt_status t) as [|outcome|]; [by intros [= _ <-]| |by intros [= _ <-]].
  destruct (create_new_executor_for_next_block _ _ _ _ _ _) as [[[e bk]|err]|] eqn:Hc; [| |done];
    [|by intros [= _ <-]].
  destruct (latest_number _) as [num|err]; [|by intros [= _ <-]].
  destruct (block_env_at _ _) as [[env|]|err]; [|done..]. intros [= _ <-].
  by apply (created_next oracle now (set_producer (set_mining None) s)).
Qed.

Lemma poll_timer_permit tick (q : IntervalBlockProducer (C := C)) :
  iv_executor (poll_timer tick q) = iv_executor q /\ iv_permit_locked (poll_timer tick q) = iv_permit_locked q.
Proof.
  unfold poll_timer. destruct (iv_ongoing_mining q); [done|].
  by destruct (iv_timer q), tick, (iv_is_block_full q).
Qed.
Lemma start_execution_permit (q : IntervalBlockProducer (C := C)) :
  iv_executor (start_execution q) = iv_executor q /\ iv_permit_locked (start_execution q) = iv_permit_locked q.
Proof.
  unfold start_execution. destruct (iv_queued q); [done|].
  destruct (iv_ongoing_execution q); [done|]. destruct (iv_ongoing_mining q); [done|]. simpl. by destruct (iv_timer q).
Qed.
Lemma poll_execution_permit (q : IntervalBlockProducer (C := C)) :
  match poll_execution q with ExecutionContinue q' | ExecutionError _ q' =>
    iv_executor q' = iv_executor q /\ iv_permit_locked q' = iv_permit_locked q end.
Proof.
  unfold poll_execution. destruct (start_execution_permit q) as [<- <-]. generalize (start_execution q).
  clear q. intros q. destruct (iv_ongoing_execution q) as [t|]; [|done].
  destruct (et_status t) as [|[[l|]|e]|]; try done. by destruct (start_execution_permit (set_execution None q)).
Qed.

Lemma chain_poll s s' tick oracle now r :
  chain_inv s -> 0 <= ins_number p0 -> polled tick oracle now s = Some (r, s') -> chain_inv s'.
Proof.
  intros Hinv H0. unfold interval_poll_next.
  destruct (poll_timer_permit tick (sy_producer s)) as [Ht1 Ht2].
  pose proof (poll_execution_permit (poll_timer tick (sy_producer s))) as Hx. rewrite Ht1, Ht2 in Hx.
  assert (forall q, iv_executor q = iv_executor (sy_producer s) /\
            iv_permit_locked q = iv_permit_locked (sy_producer s) ->
            chain_inv (set_producer (fun _ => q) s)) as Hset
    by (intros q [Hq1 Hq2]; by apply (chain_same s)).
  destruct (poll_execution _) as [q|err q]; [|intros [= _ <-]; by apply Hset].
  apply chain_poll_mining; [by apply Hset|done].
Qed.

Lemma chain_force s s' oracle now :
  chain_inv s -> 0 <= ins_number p0 -> forced oracle now s = ForceReturned s' -> chain_inv s'.
Proof.
  intros Hinv H0. unfold interval_force_mine. destruct (iv_permit_locked (sy_producer s)) eqn:Hp; [done|].
  destruct (sy_executors s !! iv_executor (sy_producer s)) as [e|] eqn:He; [|done].
  destruct (do_mine e (sy_backend s)) as [[[[e' o] [r|]] bk]|] eqn:Hd; [|done..].
  set (s1 := mkSys _ _ _ _ _).
  assert (chain_inv s1) as Hs1 by (by eapply chain_closed).
  destruct r as [outcome|err]; [|by intros [= <-]].
  destruct (create_new_executor_for_next_block _ _ _ _ _ _) as [[[e2 bk2]|err]|] eqn:Hc; [|done..].
  destruct (latest_block_env _) as [[env|]|err]; [|done..]. intros [= <-].
  by apply (created_next oracle now s1).
Qed.

Lemma chain_new oracle now block_time (bk : @Backend _ _ C Vm T) s :
  chain_db (bk_chain bk) = db_of (pre ++ [p0]) -> sorted (pre ++ [p0]) -> 0 <= ins_number p0 ->
  interval_new latest_state new_bouncer execution_flags oracle now block_time bk = Some s -> chain_inv s.
Proof.
  intros Hdb Hs H0 Hnew Hb. unfold interval_new in Hnew. rewrite Hdb in Hnew.
  destruct (next_env oracle now (bk_context_generator bk) (db_of (pre ++ [p0]))) as [[[env gen]|err]|] eqn:Hne;
    [|done..].
  injection Hnew as <-. unfold in_bounds in Hb. simpl in Hb.
  destruct (next_env_last oracle now (bk_context_generator bk) pre p0 Hs H0 ltac:(lia))
    as (env' & gen' & Hne' & Hnum). rewrite Hne in Hne'. injection Hne' as <- <-.
  exists []. split; simpl; rewrite ?app_nil_r; try done.
  intros _ e [= <-]. simpl. lia.
Qed.

(** What the invariant says of the database. *)
Lemma chain_stored s : chain_inv s -> in_bounds s -> blocks_stored (ins_number p0) s.
Proof.
  intros Hinv Hb. destruct (Hinv Hb) as [blks H]. destruct (chained_last _ _ H) as (l & p & Hlp & Hpn).
  pose proof (Forall2_length _ _ _ (ch_closed _ _ H)) as Hlen. unfold blocks_stored. rewrite (ch_db _ _ H). split.
  - pose proof (ch_sorted _ _ H) as Hs. rewrite Hlp in Hs |- *. rewrite latest_number_sorted by done.
    by rewrite Hpn, Hlen.
  - intros k out outcome Hk.
    destruct (Forall2_lookup_l _ _ _ _ _ (ch_closed _ _ H) Hk) as (i & Hi & Hn & Htxs & Hbody). simpl in *.
    assert (ins_number i = ins_number p0 + 1 + Z.of_nat k) as Hnum.
    { pose proof (ch_numbers _ _ H) as Hnums. apply (f_equal (fun l => l !! k)) in Hnums.
      rewrite list_lookup_fmap, Hi, lookup_seqZ_lt in Hnums by (apply lookup_lt_Some in Hi; lia).
      by injection Hnums. }
    rewrite Hn. split_and!; [done|done|]. rewrite <- Hbody.
    apply list_elem_of_split_length in Hi as (l1 & l2 & -> & _).
    apply (transactions_by_number _ ((pre ++ [p0]) ++ l1) i l2); [|by rewrite <- !app_assoc].
    pose proof (ch_sorted _ _ H) as Hs. revert Hs. generalize ((pre ++ [p0]) ++ l1 ++ i :: l2).
    induction 1 as [|x xs _ IH Hf]; simpl; constructor; [|done].
    intros (y & Hy & Hin)%list_elem_of_fmap. rewrite Forall_forall in Hf. specialize (Hf y Hin). lia.
Qed.
End Stored.

(** C4. The interval producer keeps and orders what it is given: from a new producer on
    a chain that ends with block [p], after any run in which tasks finish in the order
    they were started, the transactions that arrived are, in order, those of the outputs
    taken to close a block, then those executed on the pending executor, then those in
    the execution task or the queue.  Blocks that filled up are covered: what did not
    fit comes first in the next one.  Each output whose block was closed is stored: the
    blocks closed have the numbers after [p]'s, and the database lists under each number
    the transactions of its output that succeeded.  The transactions of an output whose
    closing failed or panicked are in no block: they are what the producer loses.  And
    the pool's validator reads the pending executor's state, not the state of a closed
    block. *)
Theorem interval_no_loss oracle now block_time (bk : @Backend _ _ C Vm T) s0 s arrived pre p :
  chain_db (bk_chain bk) = db_of (pre ++ [p]) ->
  StronglySorted (fun i j => ins_number i < ins_number j) (pre ++ [p]) -> 0 <= ins_number p ->
  interval_new latest_state new_bouncer execution_flags oracle now block_time bk = Some s0 ->
  runs s0 arrived s -> ins_number p + Z.of_nat (length (sy_outputs s)) + 1 < u64_bound ->
  map tx_with_hash_of_executable arrived
  = in_outputs s ++ on_executor s ++ map tx_with_hash_of_executable (unexecuted (sy_producer s)) /\
  blocks_stored (ins_number p) s /\
  fst (sy_validator s) = iv_executor (sy_producer s).
Proof.
  intros Hdb Hs H0 Hnew Hrun Hb.
  assert (conserved arrived s /\ chain_inv pre p s) as [Hc Hi].
  { pose proof (conserved_new _ _ _ _ _ Hnew) as Hc0. pose proof (chain_new pre p _ _ _ _ _ Hdb Hs H0 Hnew) as Hi0.
    clear Hb. induction Hrun as [|arr txs s' _ [Hc Hi]|arr s1 s2 t r _ [Hc Hi]|arr s1 s2 _ [Hc Hi]
      |arr s1 s2 tick orc nw r _ [Hc Hi]|arr s1 s2 orc nw _ [Hc Hi]]; [done|split..].
    1: by apply conserved_queue.
    1: by apply (chain_same pre p s').
    all: eauto using conserved_execution, conserved_mining, conserved_poll, conserved_force, chain_execution,
      chain_mining, chain_poll, chain_force. }
  split_and!; [apply Hc|by eapply chain_stored|apply Hc].
Qed.

(** ** Schedules, executable *)
Inductive Step :=
  | StQueue (txs : list ExTx)
  | StExecute
  | StMine
  | StPoll (tick : bool) (oracle : GasOracle) (now : Z)
  | StForce (oracle : GasOracle) (now : Z).

Definition step (st : Step) s : option Sys :=
  match st with
  | StQueue txs => Some (interval_queue txs s)
  | StExecute => run_execution s
  | StMine => mined_run s
  | StPoll tick oracle now => snd <$> polled tick oracle now s
  | StForce oracle now => match forced oracle now s with ForceReturned s' => Some s' | _ => None end
  end.
Definition drive (l : list Step) s : option Sys := fold_left (fun o st => s ← o; step st s) l (Some s).

Definition waits (p : IntervalBlockProducer (C := C)) : bool :=
  match iv_ongoing_execution p with
  | Some t => match et_status t with NotRun => true | _ => false end
  | None => false
  end.

(** Whether a step keeps to the order in which tasks were started. *)
Definition in_order (st : Step) s : bool :=
  match st with
  | StExecute =>
      match run_execution s with
      | Some s' =>
          match iv_ongoing_execution (sy_producer s') with
          | Some t => match et_status t with Done (Ok _) => true | _ => false end
          | None => false
          end
      | None => false
      end
  | StMine => negb (waits (sy_producer s))
  | StForce _ _ =>
      negb (waits (sy_producer s)) &&
      match iv_ongoing_mining (sy_producer s) with None => true | Some _ => false end
  | _ => true
  end.
Definition arrivals (l : list Step) : list ExTx :=
  flat_map (fun st => match st with StQueue txs => txs | _ => [] end) l.
Fixpoint ordered (l : list Step) s : bool :=
  match l with
  | [] => true
  | st :: l => in_order st s && match step st s with Some s' => ordered l s' | None => false end
  end.

Lemma waits_spec p : waits p = false -> ~ execution_waits p.
Proof. intros H (t & Ht & Hs). unfold waits in H. by rewrite Ht, Hs in H. Qed.

Lemma step_runs s0 arrived s st s' :
  runs s0 arrived s -> in_order st s = true -> step st s = Some s' -> runs s0 (arrived ++ arrivals [st]) s'.
Proof.
  intros Hr Ho Hs. destruct st as [txs| | |tick oracle now|oracle now]; simpl in *; rewrite ?app_nil_r.
  - injection Hs as <-. by apply runs_queue.
  - rewrite Hs in Ho. destruct (iv_ongoing_execution (sy_producer s')) as [t|] eqn:Et; [|done].
    destruct (et_status t) as [|[r|e]|] eqn:Est; try done. by eapply runs_execution.
  - apply negb_true_iff, waits_spec in Ho. by eapply runs_mining.
  - apply fmap_Some in Hs as ([r s2] & Hp & ->). by eapply runs_poll.
  - apply andb_true_iff in Ho as [Hw Hm]. apply negb_true_iff, waits_spec in Hw.
    destruct (iv_ongoing_mining (sy_producer s)) eqn:Em; [done|].
    destruct (forced oracle now s) eqn:Ef; try done. injection Hs as <-. by eapply runs_force.
Qed.

Lemma drive_runs l : forall s0 arrived s s',
  runs s0 arrived s -> ordered l s = true -> drive l s = Some s' -> runs s0 (arrived ++ arrivals l) s'.
Proof.
  induction l as [|st l IH]; intros s0 arrived s s' Hr Ho Hd.
  - injection Hd as <-. by rewrite app_nil_r.
  - simpl in Ho. apply andb_true_iff in Ho as [Ho Hl].
    destruct (step st s) as [s1|] eqn:Es; [|done].
    unfold drive in Hd. simpl in Hd. rewrite Es in Hd.
    replace (arrivals (st :: l)) with (arrivals [st] ++ arrivals l) by (unfold arrivals; simpl; by rewrite app_nil_r).
    rewrite app_assoc. eapply IH; [|done|exact Hd]. by eapply step_runs.
Qed.
End Conservation.

(** ** Runs of a small machine

    A blockifier whose state is the number of transactions executed and whose
    blocks hold two of them. *)
#[local] Instance counting_blockifier : Blockifier nat nat Z unit unit := {
  bf_to_state_diff s := mkStateMaps [] [] [] [];
  bf_provider_class s h := None;
  bf_execute ctx tx s :=
    (Ok (mkExecutionInfo None None None None
           (mkTransactionReceipt 1 (mkGasVector 0 0 0) (mkGasVector 0 0 0) tt)), (s + 1)%nat);
  bf_try_update s s' info b := if (b <? 2)%nat then Ok (b + 1)%nat else Err LimitsExhausted;
  bf_fee_type tx := FeeStrk;
  bf_tip tx := 0;
  bf_get_fee_by_gas_vector ctx g f tip := 0;
  bf_n_steps v := 0;
}.
#[local] Instance unit_writer : TrieWriter unit := {
  trie_insert_declared_classes n c t := Ok (5, tt);
  trie_insert_contract_updates n u t := Ok (6, tt);
}.
Definition message (n : Z) : ExecutableTxWithHash Z :=
  {| ewh_hash := n; ewh_transaction := ExL1Handler
       {| l1h_nonce := n; l1h_chain_id := Id 0; l1h_paid_fee_on_l1 := 0; l1h_version := 0;
          l1h_message_hash := 0; l1h_calldata := []; l1h_contract_address := 0;
          l1h_entry_point_selector := 0 |} |}.
Definition small_genesis : @Insertion Z (Receipt unit) (TypedTransactionExecutionInfo (TransactionExecutionInfo unit)) :=
  mkInsertion {| sbs_block := seal sum_hash sample_genesis; sbs_status := AcceptedOnL1 |}
    (out_states (ExecutionOutput_default (Vm := unit) (Trace := TransactionExecutionInfo unit) (Error := unit))) [] [].
Definition small_backend : @Backend _ _ Z unit unit :=
  mkBackend (mkChain (db_of [small_genesis]) tt) (mkContextGen 0 0).
Abbreviation SmallSys := (@IntervalSys _ _ nat nat Z unit unit unit).
Definition small_new : option SmallSys :=
  interval_new (fun _ => 0%nat) 0%nat ExecutionFlags_new sampled_starknet 10 (Some 1000) small_backend.
Definition small_drive : list (Step (C := Z)) -> SmallSys -> option SmallSys :=
  drive sum_hash sum_hash (fun _ _ => 0) (fun _ => false) (fun _ => 0%nat) 0%nat ExecutionFlags_new.
Definition poll (tick : bool) : Step (C := Z) := StPoll tick sampled_starknet 10.

(** Three messages, two of which fit in the first block. *)
Definition full_block : list Step :=
  [StQueue [message 1; message 2; message 3]; poll false; StExecute; poll false; poll false;
   StMine; poll false].

Definition hashes (s : SmallSys) : list Z * list Z * list Z :=
  (map twh_hash (in_outputs s), map twh_hash (on_executor s), map ewh_hash (unexecuted (sy_producer s))).

Lemma full_block_run :
  (s0 ← small_new; s ← small_drive full_block s0; Some (hashes s,
     ordered sum_hash sum_hash (fun _ _ => 0) (fun _ => false) (fun _ => 0%nat) 0%nat ExecutionFlags_new
       full_block s0, length (sy_outputs s), length (closed_blocks s)))
  = Some ([1; 2], [], [3], true, 1%nat, 1%nat).
Proof. by vm_compute. Qed.

Lemma interval_no_loss_witness :
  match (s0 ← small_new; small_drive full_block s0) with
  | Some s =>
      hashes s = ([1; 2], [], [3]) /\ length (closed_blocks s) = 1%nat /\
      map tx_with_hash_of_executable (arrivals full_block)
      = in_outputs s ++ on_executor s ++ map tx_with_hash_of_executable (unexecuted (sy_producer s)) /\
      blocks_stored 0 s /\
      fst (sy_validator s) = iv_executor (sy_producer s)
  | None => False
  end.
Proof.
  pose proof full_block_run as H. destruct small_new as [s0|] eqn:E0; [|done].
  cbn [mbind option_bind] in *. destruct (small_drive full_block s0) as [s|] eqn:E; [|done].
  cbn [mbind option_bind] in H. injection H as H1 H2 H3 H4 H5 H6.
  split; [unfold hashes; congruence|]. split; [exact H6|].
  apply (interval_no_loss sum_hash sum_hash (fun _ _ => 0) (fun _ => false) (fun _ => 0%nat) 0%nat
    ExecutionFlags_new sampled_starknet 10 (Some 1000) small_backend s0 s (arrivals full_block) [] small_genesis).
  - reflexivity.
  - by repeat constructor.
  - done.
  - exact E0.
  - apply (drive_runs sum_hash sum_hash (fun _ _ => 0) (fun _ => false) (fun _ => 0%nat) 0%nat
      ExecutionFlags_new full_block s0 [] s0 s); [apply runs_start|exact H4|exact E].
  - rewrite H5. reflexivity.
Defined.

(** A panic that comes after the output was taken loses its transactions: here the
    tries refuse the updates, the message is in the output and in no block. *)
Definition refusing_writer : TrieWriter unit := {|
  trie_insert_declared_classes n c t := Err StateRootNotFound;
  trie_insert_contract_updates n u t := Ok (6, tt) |}.
Lemma panic_loses_output :
  (s0 ← small_new;
   s ← drive (TrieWriter0 := refusing_writer) sum_hash sum_hash (fun _ _ => 0) (fun _ => false) (fun _ => 0%nat)
         0%nat ExecutionFlags_new
         [StQueue [message 1]; poll false; StExecute; poll true; StMine; poll false] s0;
   Some (hashes s, length (closed_blocks s), latest_number (chain_db (bk_chain (sy_backend s)))))
  = Some ([1], [], [], 0%nat, Ok 0).
Proof. by vm_compute. Qed.

(** The order of tasks matters: a mining task that gets hold of the pending
    executor before the execution task that was started first closes a block without
    the transactions; the execution then runs on the closed block's executor, which is
    dropped.  The transactions are in no block, on no executor and in no queue. *)
Theorem late_execution_lost :
  (s0 ← small_new;
   s ← small_drive [StQueue [message 1]; poll false; poll true; StMine; StExecute; poll false; poll false] s0;
   Some (hashes s, latest_number (chain_db (bk_chain (sy_backend s)))))
  = Some ([], [], [], Ok 1).
Proof. by vm_compute. Qed.

(** Forcing a block while a mining task waits to run overwrites a block: the task
    closes the executor the forced block was taken from, with the same block number.
    The forced block's transaction was executed and handed over, the latest block is
    block 1 and it is empty. *)
Theorem forced_block_overwritten :
  (s0 ← small_new;
   s ← small_drive [StQueue [message 1]; poll false; StExecute; poll true; StForce sampled_starknet 10;
                    StMine; poll false] s0;
   let db := chain_db (bk_chain (sy_backend s)) in
   Some (hashes s, transactions_by_block db (BNum 1), latest_number db))
  = Some ([1], [], [], Ok (Some []), Ok 1).
Proof. by vm_compute. Qed.

(** The instant producer takes the whole queue but its executor stops when the
    block is full: the rest is neither in the block nor queued again, and the block is
    reported as mined. *)
Theorem instant_drops_leftovers :
  (s0 ← instant_new (T := unit) (fun _ => 0%nat) sampled_starknet 10 small_backend;
   let '(r, s) := instant_poll_next sum_hash sum_hash (fun _ _ => 0) (fun _ => false) (fun _ => 0%nat) 0%nat
      ExecutionFlags_new true sampled_starknet 10
      (instant_queue [message 1; message 2; message 3] s0) in
   Some (match r with PollReady (Ok outcome) => Some (outcome_block_number outcome) | _ => None end,
         map twh_hash (flat_map (fun o => recorded (out_transactions o)) (is_outputs s)),
         in_queued (is_producer s), in_block_mining (is_producer s)))
  = Some (Some 1, [1; 2], [], None).
Proof. by vm_compute. Qed.
