(* ===== verification/ForkBackend.v ===== *)
(** * The forking backend (storage/fork/src/lib.rs)

    A thread that answers requests for the state of a remote chain.  Requests for the
    same data are merged: one remote call, whose response goes to everyone who asked.
    The backend is a future; one [turn] is a pass of its loop.  What the outside does
    during a pass (the requests that arrive, whether all handles are gone, the answers
    the remote node has by then) is an argument of the pass. *)

From Stdlib Require Import ZArith Lia.
From stdpp Require Import base numbers list gmap sets.
From S2P Require Import Prelude Felt Tx Block PoolTypes Pool PoolProofs.

(** Errors of the [starknet] crate that the source tells apart. *)
Inductive StarknetProviderError (E : Type) :=
  | ContractNotFound
  | ClassHashNotFound
  | OtherStarknetError (e : E).
Arguments ContractNotFound {E}.
Arguments ClassHashNotFound {E}.
Arguments OtherStarknetError {E}.

Inductive BackendError (E : Type) :=
  | BackendThreadInit
  | StarknetProvider (e : StarknetProviderError E)
  | UnexpectedReceiveResult.
Arguments BackendThreadInit {E}.
Arguments StarknetProvider {E}.
Arguments UnexpectedReceiveResult {E}.

Inductive BackendRequestIdentifier :=
  | IdNonce (address : Z)
  | IdClass (hash : Z)
  | IdClassHash (address : Z)
  | IdStorage (address_key : Z * Z).
#[export] Instance BackendRequestIdentifier_eq_dec : EqDecision BackendRequestIdentifier.
Proof. solve_decision. Defined.
#[export] Instance BackendRequestIdentifier_countable : Countable BackendRequestIdentifier.
Proof.
  refine (inj_countable'
    (fun i => match i with
              | IdNonce a => inl (inl a) | IdClass h => inl (inr h)
              | IdClassHash a => inr (inl a) | IdStorage p => inr (inr p)
              end)
    (fun s => match s with
              | inl (inl a) => IdNonce a | inl (inr h) => IdClass h
              | inr (inl a) => IdClassHash a | inr (inr p) => IdStorage p
              end) _).
  by intros [].
Defined.

(** The sending half of a oneshot channel is its number. *)
Record Request (P : Type) := mkRequest { payload : P; sender : nat }.
Arguments mkRequest {P}.
Arguments payload {P}.
Arguments sender {P}.
Inductive BackendRequest :=
  | ReqNonce (r : Request Z)
  | ReqClass (r : Request Z)
  | ReqClassHash (r : Request Z)
  | ReqStorage (r : Request (Z * Z)).

Definition request_key (req : BackendRequest) : BackendRequestIdentifier :=
  match req with
  | ReqNonce r => IdNonce (payload r)
  | ReqClass r => IdClass (payload r)
  | ReqClassHash r => IdClassHash (payload r)
  | ReqStorage r => IdStorage (payload r)
  end.
Definition request_sender (req : BackendRequest) : nat :=
  match req with
  | ReqNonce r | ReqClass r | ReqClassHash r => sender r
  | ReqStorage r => sender r
  end.

Section Backend.
Context {K E : Type}.
Abbreviation BackendResult A := (result (BackendError E) A).

Inductive BackendResponse :=
  | ResNonce (r : BackendResult Z)
  | ResStorage (r : BackendResult Z)
  | ResClassHashAt (r : BackendResult Z)
  | ResClassAt (r : BackendResult K).

(** The remote node, as far as its answers have arrived. *)
Record Remote := mkRemote {
  rp_get_nonce : BlockHashOrNumber -> Z -> Poll (result (StarknetProviderError E) Z);
  rp_get_storage_at : Z -> Z -> BlockHashOrNumber -> Poll (result (StarknetProviderError E) Z);
  rp_get_class_hash_at : BlockHashOrNumber -> Z -> Poll (result (StarknetProviderError E) Z);
  rp_get_class : BlockHashOrNumber -> Z -> Poll (result (StarknetProviderError E) K);
}.

Record ForkBackend := mkForkBackend {
  request_dedup_map : gmap BackendRequestIdentifier (list nat);
  pending_requests : list BackendRequestIdentifier;
  queued_requests : list BackendRequest;
  fork_block : BlockHashOrNumber;
}.
Implicit Types (b : ForkBackend) (key : BackendRequestIdentifier).

Definition new_inner (block_id : BlockHashOrNumber) : ForkBackend := mkForkBackend ∅ [] [] block_id.

(** [dedup_request]; the future of a request is given by its identifier. *)
Definition dedup_request key (sender : nat) b : ForkBackend :=
  match request_dedup_map b !! key with
  | None =>
      mkForkBackend (<[key := [sender]]> (request_dedup_map b)) (pending_requests b ++ [key])
        (queued_requests b) (fork_block b)
  | Some sender_vec =>
      mkForkBackend (<[key := sender_vec ++ [sender]]> (request_dedup_map b)) (pending_requests b)
        (queued_requests b) (fork_block b)
  end.

Definition handle_requests (request : BackendRequest) b : ForkBackend :=
  match request with
  | ReqNonce r => dedup_request (IdNonce (payload r)) (sender r) b
  | ReqStorage r => dedup_request (IdStorage (payload r)) (sender r) b
  | ReqClassHash r => dedup_request (IdClassHash (payload r)) (sender r) b
  | ReqClass r => dedup_request (IdClass (payload r)) (sender r) b
  end.

(** The futures [handle_requests] makes, polled. *)
Definition poll_map {A B} (f : A -> B) (p : Poll A) : Poll B :=
  match p with Ready a => Ready (f a) | Pending => Pending end.
Definition future_poll (remote : Remote) (block : BlockHashOrNumber) key : Poll BackendResponse :=
  match key with
  | IdNonce a => poll_map (fun r => ResNonce (map_err StarknetProvider r)) (rp_get_nonce remote block a)
  | IdStorage (a, k) =>
      poll_map (fun r => ResStorage (map_err StarknetProvider r)) (rp_get_storage_at remote a k block)
  | IdClassHash a =>
      poll_map (fun r => ResClassHashAt (map_err StarknetProvider r))
        (rp_get_class_hash_at remote block a)
  | IdClass h => poll_map (fun r => ResClassAt (map_err StarknetProvider r)) (rp_get_class remote block h)
  end.

(** Polling one pending request, with the dedup map and the responses sent so far;
    [None] is the [expect] on the dedup map. *)
Definition poll_pending (remote : Remote) (block : BlockHashOrNumber) key
    (s : option (gmap BackendRequestIdentifier (list nat) * list (nat * BackendResponse)))
    : bool * BackendRequestIdentifier *
      option (gmap BackendRequestIdentifier (list nat) * list (nat * BackendResponse)) :=
  match future_poll remote block key with
  | Pending => (true, key, s)
  | Ready res =>
      (false, key,
       '(dedup, sent) ← s;
       sender_vec ← dedup !! key;
       Some (delete key dedup, sent ++ map (fun sender => (sender, res)) sender_vec))
  end.

Record Turn := mkTurn {
  tn_incoming : list BackendRequest;
  tn_closed : bool;
  tn_remote : Remote;
}.
Inductive TurnEnd := TurnReady | TurnPending | TurnLoop.

(** One pass of the loop of [poll]; the outer [None] is a panic. *)
Definition turn (t : Turn) b : option (TurnEnd * ForkBackend * list (nat * BackendResponse)) :=
  let b := fold_left (fun b req => handle_requests req b) (queued_requests b)
             (mkForkBackend (request_dedup_map b) (pending_requests b) [] (fork_block b)) in
  let queued := queued_requests b ++ tn_incoming t in
  if tn_closed t then
    Some (TurnReady, mkForkBackend (request_dedup_map b) (pending_requests b) queued (fork_block b), [])
  else
    '(pending, s) ← retain_rev (poll_pending (tn_remote t) (fork_block b))
                      (length (pending_requests b)) (pending_requests b)
                      (Some (request_dedup_map b, []));
    '(dedup, sent) ← s;
    Some (match queued with [] => TurnPending | _ => TurnLoop end,
          mkForkBackend dedup pending queued (fork_block b), sent).

(** [poll]: passes until one ends the loop, over what the outside does in each. *)
Fixpoint backend_poll (ts : list Turn) b
    : option (TurnEnd * ForkBackend * list (nat * BackendResponse)) :=
  match ts with
  | [] => Some (TurnLoop, b, [])
  | t :: ts =>
      '(e, b, sent) ← turn t b;
      match e with
      | TurnLoop => '(e, b, sent') ← backend_poll ts b; Some (e, b, sent ++ sent')
      | _ => Some (e, b, sent)
      end
  end.

(** ** The client *)
Inductive BackendClientError (CE CC CH : Type) :=
  | FailedSendRequest
  | FailedReceiveResult
  | ClientBackendError (e : BackendError E)
  | ClassConversion (e : CE)
  | ClassCompilation (e : CC)
  | ClassHashComputation (e : CH)
  | UnexpectedResponse (response : BackendResponse).
Arguments FailedSendRequest {CE CC CH}.
Arguments FailedReceiveResult {CE CC CH}.
Arguments ClientBackendError {CE CC CH}.
Arguments ClassConversion {CE CC CH}.
Arguments ClassCompilation {CE CC CH}.
Arguments ClassHashComputation {CE CC CH}.
Arguments UnexpectedResponse {CE CC CH}.

Section Client.
(** The conversion of classes, their compilation and the hash of a compiled class. *)
Context {C CE CC CH Compiled : Type}.
Context (class_of_rpc : K -> result CE C) (compile : C -> result CC Compiled)
  (compiled_hash : Compiled -> result CH Z).
Abbreviation ClientError := (BackendClientError CE CC CH).

Definition handle_not_found_err {A} (r : BackendResult A) : result ClientError (option A) :=
  match r with
  | Ok value => Ok (Some value)
  | Err (StarknetProvider ContractNotFound) => Ok None
  | Err (StarknetProvider ClassHashNotFound) => Ok None
  | Err err => Err (ClientBackendError err)
  end.

(** A call: the request is sent, unless the channel is full or closed, and the
    response awaited, which fails when the sending half is dropped. *)
Definition await (sent : bool) (received : option BackendResponse) : result ClientError BackendResponse :=
  if sent then ok_or received FailedReceiveResult else Err FailedSendRequest.

Definition get_nonce (sent : bool) (received : option BackendResponse) : result ClientError (option Z) :=
  response ← await sent received;
  match response with
  | ResNonce res => handle_not_found_err res
  | response => Err (UnexpectedResponse response)
  end.
Definition get_storage (sent : bool) (received : option BackendResponse) : result ClientError (option Z) :=
  response ← await sent received;
  match response with
  | ResStorage res => handle_not_found_err res
  | response => Err (UnexpectedResponse response)
  end.
Definition get_class_hash_at (sent : bool) (received : option BackendResponse)
    : result ClientError (option Z) :=
  response ← await sent received;
  match response with
  | ResClassHashAt res => handle_not_found_err res
  | response => Err (UnexpectedResponse response)
  end.
Definition get_class_at (sent : bool) (received : option BackendResponse)
    : result ClientError (option C) :=
  response ← await sent received;
  match response with
  | ResClassAt res =>
      class ← handle_not_found_err res;
      match class with
      | Some class => class ← map_err ClassConversion (class_of_rpc class); Ok (Some class)
      | None => Ok None
      end
  | response => Err (UnexpectedResponse response)
  end.
Definition get_compiled_class_hash (sent : bool) (received : option BackendResponse)
    : result ClientError (option Z) :=
  class ← get_class_at sent received;
  match class with
  | Some class =>
      class ← map_err ClassCompilation (compile class);
      hash ← map_err ClassHashComputation (compiled_hash class);
      Ok (Some hash)
  | None => Ok None
  end.
End Client.
End Backend.
Arguments BackendResponse : clear implicits.
Arguments Remote : clear implicits.
Arguments Turn : clear implicits.
Arguments FailedSendRequest {K E CE CC CH}.
Arguments FailedReceiveResult {K E CE CC CH}.
Arguments ClientBackendError {K E CE CC CH}.
Arguments ClassConversion {K E CE CC CH}.
Arguments ClassCompilation {K E CE CC CH}.
Arguments ClassHashComputation {K E CE CC CH}.
Arguments UnexpectedResponse {K E CE CC CH}.
