(* ===== verification/ForkBackendProofs.v ===== *)
(** * The forking backend answers every request

    The dedup map and the list of pending requests stay in step, so that every request
    is answered once, by a response to that very request, and at most one remote call
    per datum is under way. *)

From Stdlib Require Import ZArith Lia.
From stdpp Require Import base numbers list gmap sets.
From S2P Require Import Prelude Felt Tx Block PoolTypes Pool PoolProofs ForkBackend.

Section ForkBackendProofs.
Context {K E : Type}.
Abbreviation Response := (BackendResponse K E).
Abbreviation TurnT := (Turn K E).
Abbreviation Id := BackendRequestIdentifier.
Implicit Types (b : ForkBackend) (key : Id) (m : gmap Id (list nat)).

(** Who waits for what. *)
Definition waiters m key : list (nat * Id) := map (fun s => (s, key)) (default [] (m !! key)).
Definition in_flight b : list (nat * Id) :=
  flat_map (waiters (request_dedup_map b)) (pending_requests b).
Definition asked (req : BackendRequest) : nat * Id := (request_sender req, request_key req).
Definition waiting b : list (nat * Id) := in_flight b ++ map asked (queued_requests b).

Record backend_inv b : Prop := {
  inv_nodup : NoDup (pending_requests b);
  inv_keys : forall key, key ∈ pending_requests b <-> is_Some (request_dedup_map b !! key);
}.

Lemma waiters_ne m m' l :
  (forall key, key ∈ l -> m' !! key = m !! key) -> flat_map (waiters m') l = flat_map (waiters m) l.
Proof.
  intros H. induction l as [|k l IH]; [done|]. simpl. unfold waiters at 1 3.
  rewrite (H k) by (by left). f_equal. apply IH. intros key Hk. apply H. by right.
Qed.

Lemma dedup_request_spec key s b :
  backend_inv b ->
  let b' := dedup_request key s b in
  backend_inv b' /\ in_flight b' ≡ₚ in_flight b ++ [(s, key)] /\
  queued_requests b' = queued_requests b /\ fork_block b' = fork_block b.
Proof.
  intros [Hnd Hk]. unfold dedup_request. destruct (request_dedup_map b !! key) as [v|] eqn:Hm.
  - split_and!; try done; [split; [done|]|].
    + intros k. simpl. rewrite Hk, lookup_insert_is_Some'. naive_solver.
    + assert (Hin : key ∈ pending_requests b) by (apply Hk; by eexists).
      unfold in_flight. simpl. apply list_elem_of_split in Hin as (l1 & l2 & Hl). rewrite Hl in *.
      apply NoDup_app in Hnd as (_ & H1 & [H2 _]%NoDup_cons).
      rewrite !flat_map_app. simpl.
      assert (forall l, key ∉ l -> flat_map (waiters (<[key := v ++ [s]]> (request_dedup_map b))) l
        = flat_map (waiters (request_dedup_map b)) l) as Hne.
      { intros l Hl'. apply waiters_ne. intros k Hin. rewrite lookup_insert_ne; [done|]. by intros <-. }
      rewrite !Hne by (done || (intros Hin; apply (H1 key Hin); by left)).
      unfold waiters at 2 5. rewrite ?lookup_insert_eq, Hm. simpl. rewrite map_app. simpl.
      rewrite <- !app_assoc. do 2 f_equiv. by rewrite Permutation_app_comm.
  - assert (Hnin : key ∉ pending_requests b) by (rewrite Hk, Hm; by intros [? [=]]).
    split_and!; try done; [split|].
    + simpl. apply NoDup_app. split_and!; [done|set_solver|apply NoDup_singleton].
    + intros k. simpl. rewrite elem_of_app, Hk, lookup_insert_is_Some', list_elem_of_singleton.
      naive_solver.
    + unfold in_flight. simpl. rewrite flat_map_app. simpl. rewrite app_nil_r.
      rewrite (waiters_ne (request_dedup_map b) _ (pending_requests b)); [|].
      * unfold waiters at 2. rewrite lookup_insert_eq. done.
      * intros k Hin. rewrite lookup_insert_ne; [done|]. by intros <-.
Qed.

Lemma handle_request_dedup req b :
  handle_requests req b = dedup_request (request_key req) (request_sender req) b.
Proof. by destruct req. Qed.

Lemma handle_all_spec l : forall b,
  backend_inv b ->
  let b' := fold_left (fun b req => handle_requests req b) l b in
  backend_inv b' /\ in_flight b' ≡ₚ in_flight b ++ map asked l /\
  queued_requests b' = queued_requests b /\ fork_block b' = fork_block b.
Proof.
  induction l as [|req l IH]; intros b Hb; simpl; [by rewrite app_nil_r|].
  rewrite handle_request_dedup.
  destruct (dedup_request_spec (request_key req) (request_sender req) b Hb) as (Hi & Hp & Hq & Hbl).
  destruct (IH _ Hi) as (Hi' & Hp' & Hq' & Hbl'). split_and!; [done| |congruence..].
  rewrite Hp', Hp. by rewrite <- app_assoc.
Qed.

(** ** A pass over the pending requests *)
Definition answers (remote : Remote K E) (block : BlockHashOrNumber) (w : nat * Id) (a : nat * Response)
    : Prop := fst a = fst w /\ future_poll remote block (snd w) = Ready (snd a).

Lemma waiters_answered remote block m key (r : Response) :
  future_poll remote block key = Ready r ->
  Forall2 (answers remote block) (waiters m key) (map (fun s => (s, r)) (default [] (m !! key))).
Proof.
  intros Hr. unfold waiters. induction (default [] (m !! key)) as [|s l IH]; constructor; [|done].
  by split.
Qed.

Record pass_result (remote : Remote K E) block l m (kept : list Id) m' answered sent : Prop := {
  pass_nodup : NoDup kept;
  pass_kept : forall key, key ∈ kept <-> key ∈ l /\ future_poll remote block key = Pending;
  pass_same : forall key, key ∈ kept \/ key ∉ l -> m' !! key = m !! key;
  pass_gone : forall key, key ∈ l -> key ∉ kept -> m' !! key = None;
  pass_split : flat_map (waiters m) l ≡ₚ answered ++ flat_map (waiters m') kept;
  pass_answers : Forall2 (answers remote block) answered sent;
}.

Lemma visit_pending (remote : Remote K E) block l : forall m sent,
  NoDup l -> (forall key, key ∈ l -> is_Some (m !! key)) ->
  exists kept m' answered sent',
    visit_all (poll_pending remote block) l (Some (m, sent)) = (kept, Some (m', sent ++ sent')) /\
    pass_result remote block l m kept m' answered sent'.
Proof.
  induction l as [|k l IH]; intros m sent Hnd Hm.
  { exists [], m, [], []. rewrite app_nil_r. split; [done|]. split; try done; try constructor; set_solver. }
  apply NoDup_cons in Hnd as [Hk Hnd]. simpl. unfold poll_pending at 1.
  destruct (future_poll remote block k) as [r|] eqn:Hf.
  - destruct (Hm k) as [v Hv]; [by left|]. simpl. rewrite Hv. simpl.
    destruct (IH (delete k m) (sent ++ map (fun s => (s, r)) v) Hnd) as (kept & m' & ans & sent' & -> & Hp).
    { intros key Hin. rewrite lookup_delete_ne; [apply Hm; by right|]. by intros <-. }
    destruct Hp as [P1 P2 P3 P4 P5 P6].
    exists kept, m', (waiters m k ++ ans), (map (fun s => (s, r)) v ++ sent').
    rewrite <- app_assoc. split; [done|].
    assert (Hkept : k ∉ kept) by (rewrite P2; by intros [? ?]).
    split; [done| | | | |].
    + intros key. rewrite P2, elem_of_cons. split; [naive_solver|]. intros [[->|?] ?]; [congruence|done].
    + intros key Hkey. rewrite P3 by set_solver. rewrite lookup_delete_ne; [done|]. intros <-. set_solver.
    + intros key Hin Hn. apply elem_of_cons in Hin as [->|Hin]; [|by apply P4].
      rewrite P3 by (by right). by rewrite lookup_delete_eq.
    + simpl. rewrite <- app_assoc. f_equiv. rewrite <- P5.
      rewrite (waiters_ne m (delete k m) l); [done|]. intros key Hin. rewrite lookup_delete_ne; [done|]. by intros <-.
    + apply Forall2_app; [|done]. by pose proof (waiters_answered remote block m k r Hf) as H; rewrite Hv in H.
  - destruct (IH m sent Hnd) as (kept & m' & ans & sent' & -> & Hp); [set_solver|].
    destruct Hp as [P1 P2 P3 P4 P5 P6]. exists (k :: kept), m', ans, sent'. split; [done|].
    assert (Hkept : k ∉ kept) by (rewrite P2; naive_solver).
    split; [by constructor| | | | |done].
    + intros key. rewrite !elem_of_cons, P2. naive_solver.
    + intros key Hkey. apply P3. destruct (decide (key = k)) as [->|]; set_solver.
    + intros key Hin Hn. apply P4; set_solver.
    + simpl. replace (waiters m' k) with (waiters m k) by (unfold waiters; by rewrite (P3 k) by (by right)).
      rewrite P5, !(assoc_L (++)). by rewrite (comm (++) (waiters m k)).
Qed.

(** One turn, while a handle is alive: it does not panic, keeps the invariant, and
    everything asked for is answered or still waited for; what is in flight at its
    end is what the remote has not answered. *)
Lemma turn_spec (t : TurnT) b :
  backend_inv b -> tn_closed t = false ->
  exists b' answered sent,
    turn t b = Some (match tn_incoming t with [] => TurnPending | _ => TurnLoop end, b', sent) /\
    backend_inv b' /\ fork_block b' = fork_block b /\
    queued_requests b' = tn_incoming t /\
    (forall key, key ∈ pending_requests b' -> future_poll (tn_remote t) (fork_block b) key = Pending) /\
    waiting b ++ map asked (tn_incoming t) ≡ₚ answered ++ waiting b' /\
    Forall2 (answers (tn_remote t) (fork_block b)) answered sent.
Proof.
  intros Hb Hc. unfold turn. rewrite Hc.
  destruct (handle_all_spec (queued_requests b)
    (mkForkBackend (request_dedup_map b) (pending_requests b) [] (fork_block b))) as (Hi & Hp & Hq & Hbl).
  { split; apply Hb. }
  set (b1 := fold_left _ _ _) in *. rewrite Hq. simpl in *.
  destruct (retain_rev_all (poll_pending (tn_remote t) (fork_block b1)) (pending_requests b1)
    (Some (request_dedup_map b1, []))) as (kept' & -> & Hkp).
  destruct (visit_pending (tn_remote t) (fork_block b1) (reverse (pending_requests b1))
    (request_dedup_map b1) []) as (kept & m' & ans & sent & Hv & [P1 P2 P3 P4 P5 P6]).
  { rewrite reverse_Permutation. apply Hi. }
  { intros key Hin. apply (inv_keys _ Hi). by rewrite elem_of_reverse in Hin. }
  rewrite Hv in Hkp |- *. simpl in *.
  assert (Hin : forall key, key ∈ kept' <-> key ∈ pending_requests b1 /\
    future_poll (tn_remote t) (fork_block b1) key = Pending).
  { intros key. by rewrite Hkp, P2, elem_of_reverse. }
  exists (mkForkBackend m' kept' (tn_incoming t) (fork_block b1)), ans, sent.
  split_and!; [done|split|done|done| | |by rewrite <- Hbl].
  - simpl. by rewrite Hkp.
  - intros key. simpl. rewrite Hkp. destruct (decide (key ∈ kept)) as [Hk|Hk].
    + rewrite (P3 key) by (by left). apply P2 in Hk as Hk'. rewrite elem_of_reverse in Hk'.
      split; [|done]. intros _. apply (inv_keys _ Hi). tauto.
    + split; [done|]. intros [v Hv']. destruct (decide (key ∈ reverse (pending_requests b1))) as [Hr|Hr].
      * by rewrite (P4 key Hr Hk) in Hv'.
      * rewrite (P3 key) in Hv' by (by right). destruct Hr. rewrite elem_of_reverse.
        apply (inv_keys _ Hi). by eexists.
  - intros key Hk%Hin. rewrite <- Hbl. tauto.
  - unfold waiting, in_flight in *. simpl. rewrite <- app_assoc. rewrite app_assoc.
    rewrite <- Hp. rewrite <- (reverse_Permutation (pending_requests b1)), P5, Hkp.
    by rewrite <- !app_assoc.
Qed.
(** ** Runs *)

(** Turns one after the other, whatever poll they belong to. *)
Fixpoint serve (ts : list TurnT) b : option (ForkBackend * list (nat * Response)) :=
  match ts with
  | [] => Some (b, [])
  | t :: ts =>
      '(_, b, sent) ← turn t b;
      '(b, sent') ← serve ts b;
      Some (b, sent ++ sent')
  end.

(** A poll is a run of turns, up to the first one in which nothing arrives. *)
Lemma poll_is_served (ts : list TurnT) : forall b e b' sent,
  backend_poll ts b = Some (e, b', sent) ->
  exists ts1 ts2, ts = ts1 ++ ts2 /\ serve ts1 b = Some (b', sent) /\ (e = TurnLoop -> ts2 = []).
Proof.
  induction ts as [|t ts IH]; intros b e b' sent; simpl.
  { intros [= <- <- <-]. by exists [], []. }
  destruct (turn t b) as [[[e1 b1] sent1]|] eqn:Ht; [|done]. simpl.
  destruct e1.
  1, 2: intros [= <- <- <-]; exists [t], ts; simpl; by rewrite Ht; simpl; rewrite app_nil_r.
  destruct (backend_poll ts b1) as [[[e2 b2] sent2]|] eqn:Hp; [|done]. simpl. intros [= <- <- <-].
  destruct (IH _ _ _ _ Hp) as (ts1 & ts2 & -> & Hs & He). exists (t :: ts1), ts2. split; [done|].
  split; [|done]. simpl. by rewrite Ht; simpl; rewrite Hs.
Qed.

Definition answered_in (ts : list TurnT) (block : BlockHashOrNumber) (w : nat * Id) (a : nat * Response)
    : Prop := exists t, t ∈ ts /\ answers (tn_remote t) block w a.

Lemma serve_spec (ts : list TurnT) : forall b,
  backend_inv b -> Forall (fun t => tn_closed t = false) ts ->
  exists b' answered sent, serve ts b = Some (b', sent) /\
    backend_inv b' /\ fork_block b' = fork_block b /\
    waiting b ++ map asked (flat_map tn_incoming ts) ≡ₚ answered ++ waiting b' /\
    Forall2 (answered_in ts (fork_block b)) answered sent.
Proof.
  induction ts as [|t ts IH]; intros b Hb Hc; simpl.
  { exists b, [], []. by rewrite app_nil_r. }
  apply Forall_cons in Hc as [Hc Hcs].
  destruct (turn_spec t b Hb Hc) as (b1 & ans1 & sent1 & -> & Hb1 & Hbl1 & _ & _ & Hw1 & Ha1).
  destruct (IH b1 Hb1 Hcs) as (b2 & ans2 & sent2 & Hs & Hb2 & Hbl2 & Hw2 & Ha2). simpl. rewrite Hs. simpl.
  exists b2, (ans1 ++ ans2), (sent1 ++ sent2). split_and!; [done|done|congruence| |].
  - rewrite map_app, app_assoc, Hw1, <- !app_assoc. by f_equiv.
  - apply Forall2_app.
    + eapply Forall2_impl; [exact Ha1|]. intros w a Ha. exists t. split; [by left|done].
    + rewrite Hbl1 in Ha2. eapply Forall2_impl; [exact Ha2|]. intros w a (t' & Ht & Ha). exists t'.
      split; [by right|done].
Qed.

(** C14. The forking backend never panics and serves every request exactly once: after
    any sequence of turns, what was asked is what was answered together with what is
    still waited for; every answer went to the one who asked and is the remote's
    response for the datum asked for, at the pinned block; no two remote calls for the
    same datum are under way; and a turn in which nothing arrives and the remote has
    all answers leaves nobody waiting. *)
Theorem fork_backend_serves (ts : list TurnT) block last_turn :
  Forall (fun t => tn_closed t = false) (last_turn :: ts) ->
  exists b answered sent, serve ts (new_inner block) = Some (b, sent) /\
    map asked (flat_map tn_incoming ts) ≡ₚ answered ++ waiting b /\
    Forall2 (answered_in ts block) answered sent /\
    NoDup (pending_requests b) /\
    (tn_incoming last_turn = [] ->
     (forall key, future_poll (tn_remote last_turn) block key <> Pending) ->
     exists b' sent', turn last_turn b = Some (TurnPending, b', sent') /\ waiting b' = []).
Proof.
  intros [Hl Hts]%Forall_cons.
  destruct (serve_spec ts (new_inner block)) as (b & ans & sent & Hs & Hb & Hbl & Hw & Ha).
  { split; [constructor|]. intros key. simpl. rewrite lookup_empty, is_Some_alt. set_solver. }
  { done. }
  exists b, ans, sent. split_and!; [done|done|done|apply Hb|]. intros Hi Hall.
  destruct (turn_spec last_turn b Hb Hl) as (b' & ans' & sent' & Ht & _ & _ & Hq & Hp & _).
  rewrite Hi in Ht, Hq. exists b', sent'. split; [done|]. unfold waiting, in_flight. rewrite Hq.
  destruct (pending_requests b') as [|key l]; [done|]. exfalso. apply (Hall key). simpl in Hbl.
  rewrite <- Hbl. apply Hp. by left.
Qed.

(** ** What the client makes of an answer *)
Section ClientProofs.
Context {C CE CC CH Compiled : Type}.
Context (class_of_rpc : K -> result CE C) (compile : C -> result CC Compiled)
  (compiled_hash : Compiled -> result CH Z).

Definition found {A} (r : result (StarknetProviderError E) A)
    : result (BackendClientError (K := K) CE CC CH) (option A) :=
  match r with
  | Ok a => Ok (Some a)
  | Err (OtherStarknetError e) => Err (ClientBackendError (StarknetProvider (OtherStarknetError e)))
  | Err _ => Ok None
  end.

(** What a client gets for a request is what the remote node has: the value, no
    value when the contract or class does not exist there, or the remote's error.  A
    response of the wrong kind cannot arrive. *)
Theorem client_gets_remote (remote : Remote K E) block key response :
  future_poll remote block key = Ready response ->
  match key with
  | IdNonce a => exists r, rp_get_nonce remote block a = Ready r /\
      get_nonce true (Some response) = found r
  | IdStorage (a, k) => exists r, rp_get_storage_at remote a k block = Ready r /\
      get_storage true (Some response) = found r
  | IdClassHash a => exists r, rp_get_class_hash_at remote block a = Ready r /\
      get_class_hash_at true (Some response) = found r
  | IdClass h => exists r, rp_get_class remote block h = Ready r /\
      get_class_at class_of_rpc true (Some response)
      = (class ← found r;
         match class with
         | Some class => class ← map_err ClassConversion (class_of_rpc class); Ok (Some class)
         | None => Ok None
         end)
  end.
Proof.
  destruct key as [a|h|a|[a k]]; simpl;
    [destruct (rp_get_nonce _ _ _) as [r|]|destruct (rp_get_class _ _ _) as [r|]
    |destruct (rp_get_class_hash_at _ _ _) as [r|]|destruct (rp_get_storage_at _ _ _ _) as [r|]];
    simpl; try done; intros [= <-]; exists r; (split; [done|]);
    destruct r as [v|[| |e]]; reflexivity.
Qed.
End ClientProofs.
End ForkBackendProofs.

(** ** Witnesses: two clients ask for one nonce, a third for a storage value *)
Definition demo_remote : Remote Z Z := mkRemote
  (fun _ a => Ready (if a =? 7 then Err ContractNotFound else Ok (a + 1)))
  (fun a k _ => Ready (Ok (a * k))) (fun _ _ => Pending) (fun _ h => Ready (Ok h)).
Definition silent_remote : Remote Z Z :=
  mkRemote (fun _ _ => Pending) (fun _ _ _ => Pending) (fun _ _ => Pending) (fun _ _ => Pending).
Definition answering_remote : Remote Z Z := mkRemote
  (fun _ a => Ready (Ok a)) (fun a k _ => Ready (Ok k)) (fun _ a => Ready (Ok a)) (fun _ h => Ready (Ok h)).
Definition demo_turns : list (Turn Z Z) :=
  [mkTurn [ReqNonce (mkRequest 5 0%nat); ReqNonce (mkRequest 5 1%nat); ReqClassHash (mkRequest 5 2%nat)] false silent_remote;
   mkTurn [ReqStorage (mkRequest (3, 4) 3%nat)] false silent_remote;
   mkTurn [ReqClass (mkRequest 9 4%nat)] false demo_remote].

Lemma fork_backend_serves_witness :
  exists b answered sent, serve demo_turns (new_inner (BNum 1)) = Some (b, sent) /\
    map asked (flat_map tn_incoming demo_turns) ≡ₚ answered ++ waiting b /\
    Forall2 (answered_in demo_turns (BNum 1)) answered sent /\
    NoDup (pending_requests b) /\
    (tn_incoming (mkTurn [] false answering_remote) = [] ->
     (forall key, future_poll (tn_remote (mkTurn [] false answering_remote)) (BNum 1) key <> Pending) ->
     exists b' sent', turn (mkTurn [] false answering_remote) b = Some (TurnPending, b', sent') /\
       waiting b' = []).
Proof. apply fork_backend_serves. by repeat constructor. Defined.

(** Its responses: both clients of the nonce are answered by one call. *)
Example demo_sent :
  snd <$> serve demo_turns (new_inner (BNum 1))
  = Some [(3%nat, ResStorage (Ok 12)); (0%nat, ResNonce (Ok 6)); (1%nat, ResNonce (Ok 6))].
Proof. reflexivity. Qed.

Lemma client_gets_remote_witness :
  exists r, rp_get_nonce demo_remote (BNum 1) 7 = Ready r /\
    get_nonce (CE := unit) (CC := unit) (CH := unit) true
      (Some (ResNonce (K := Z) (Err (StarknetProvider ContractNotFound)))) = found r.
Proof.
  apply (client_gets_remote (fun k => Ok k) demo_remote (BNum 1) (IdNonce 7)).
  reflexivity.
Defined.
