(* ===== verification/ForkProvider.v ===== *)
(** * The forked provider (storage/provider/src/providers/fork)

    State of a chain that continues a remote one: what the local database does not
    have is asked of the forking backend.  The latest state stores what it gets in the
    local tables.  A provider reads from the snapshot its transaction was opened on
    and stores in the database as it is then, so both are arguments.  The state at a
    block also writes what it gets, but in transactions that are dropped without a
    commit, so the database stays as it is. *)

From Stdlib Require Import ZArith Lia.
From stdpp Require Import base numbers list gmap.
From S2P Require Import Prelude Felt Tx Version Block Codec Versioned Mdbx DbProvider DbState.

(** The calls of [BackendClient] a state provider makes, with what they return at the
    time. *)
Record ForkClient (C E : Type) := mkForkClient {
  fc_get_nonce : Z -> result E (option Z);
  fc_get_class_hash_at : Z -> result E (option Z);
  fc_get_storage : Z -> Z -> result E (option Z);
  fc_get_class_at : Z -> result E (option C);
  fc_get_compiled_class_hash : Z -> result E (option Z);
}.
Arguments mkForkClient {C E}.
Arguments fc_get_nonce {C E}.
Arguments fc_get_class_hash_at {C E}.
Arguments fc_get_storage {C E}.
Arguments fc_get_class_at {C E}.
Arguments fc_get_compiled_class_hash {C E}.

(** [?] on a client's result. *)
Definition asked_remote {E A} (r : result E A) : ProviderResult A := map_err (fun _ => ForkedBackend1) r.

Section ForkProvider.
Context `{MD : Mdbx} `{RT : RoaringTreemap} `{FP : FeltPostcard} {C R X E : Type}.
Implicit Types (fc : ForkClient C E) (snap db : Db C R X).

Definition put_info (address : Z) (info : GenericContractInfo) db : Db C R X :=
  with_contracts db (with_contract_info (db_contracts db)
    (t_put address info (ContractInfo (db_contracts db)))).
Definition put_storage_entry (address : Z) (entry : StorageEntry) db : Db C R X :=
  let t := db_storage db in
  mkDb (db_blocks db) (db_txs db) (db_classes db)
    (mkStorageTables (d_put address entry (ContractStorage t)) (StorageChangeSet t)
       (StorageChangeHistory t)) (db_contracts db) (StageCheckpoints db).

(** ** The latest state *)
Definition fork_latest_nonce fc snap (address : Z) db : ProviderResult (option Z) * Db C R X :=
  match latest_nonce snap address with
  | Err e => (Err e, db)
  | Ok (Some nonce) => (Ok (Some nonce), db)
  | Ok None =>
      match asked_remote (fc_get_nonce fc address) with
      | Err e => (Err e, db)
      | Ok None => (Ok None, db)
      | Ok (Some nonce) =>
          match asked_remote (fc_get_class_hash_at fc address) with
          | Err e => (Err e, db)
          | Ok None => (Err (MissingContractClassHash address), db)
          | Ok (Some class_hash) =>
              (Ok (Some nonce),
               put_info address {| gci_nonce := nonce; gci_class_hash := class_hash |} db)
          end
      end
  end.

Definition fork_latest_class_hash_of_contract fc snap (address : Z) db
    : ProviderResult (option Z) * Db C R X :=
  match latest_class_hash_of_contract snap address with
  | Err e => (Err e, db)
  | Ok (Some class_hash) => (Ok (Some class_hash), db)
  | Ok None =>
      match asked_remote (fc_get_class_hash_at fc address) with
      | Err e => (Err e, db)
      | Ok None => (Ok None, db)
      | Ok (Some class_hash) =>
          match asked_remote (fc_get_nonce fc address) with
          | Err e => (Err e, db)
          | Ok None => (Err (MissingContractNonce address), db)
          | Ok (Some nonce) =>
              (Ok (Some class_hash),
               put_info address {| gci_nonce := nonce; gci_class_hash := class_hash |} db)
          end
      end
  end.

Definition fork_latest_storage fc snap (address key : Z) db : ProviderResult (option Z) * Db C R X :=
  match latest_storage snap address key with
  | Err e => (Err e, db)
  | Ok (Some value) => (Ok (Some value), db)
  | Ok None =>
      match asked_remote (fc_get_storage fc address key) with
      | Err e => (Err e, db)
      | Ok None => (Ok None, db)
      | Ok (Some value) =>
          (Ok (Some value), put_storage_entry address {| se_key := key; se_value := value |} db)
      end
  end.

Definition fork_latest_class fc snap (hash : Z) db : ProviderResult (option C) * Db C R X :=
  match latest_class snap hash with
  | Err e => (Err e, db)
  | Ok (Some class) => (Ok (Some class), db)
  | Ok None =>
      match asked_remote (fc_get_class_at fc hash) with
      | Err e => (Err e, db)
      | Ok None => (Ok None, db)
      | Ok (Some class) => (Ok (Some class), set_class hash class db)
      end
  end.

Definition fork_latest_compiled_class_hash fc snap (hash : Z) db
    : ProviderResult (option Z) * Db C R X :=
  match latest_compiled_class_hash snap hash with
  | Err e => (Err e, db)
  | Ok (Some compiled_hash) => (Ok (Some compiled_hash), db)
  | Ok None =>
      match asked_remote (fc_get_compiled_class_hash fc hash) with
      | Err e => (Err e, db)
      | Ok None => (Ok None, db)
      | Ok (Some compiled_hash) =>
          (Ok (Some compiled_hash), set_compiled_class_hash_of_class_hash hash compiled_hash db)
      end
  end.

(** ** The state at a block *)
Definition or_remote {A} (local : ProviderResult (option A)) (remote : result E (option A))
    : ProviderResult (option A) :=
  value ← local;
  match value with Some a => Ok (Some a) | None => asked_remote remote end.

Definition fork_historical_nonce fc snap (block address : Z) : ProviderResult (option Z) :=
  or_remote (historical_nonce snap block address) (fc_get_nonce fc address).
Definition fork_historical_class_hash_of_contract fc snap (block address : Z)
    : ProviderResult (option Z) :=
  or_remote (historical_class_hash_of_contract snap block address) (fc_get_class_hash_at fc address).
Definition fork_historical_storage fc snap (block address key : Z) : ProviderResult (option Z) :=
  or_remote (historical_storage snap block address key) (fc_get_storage fc address key).
Definition fork_historical_class fc snap (block hash : Z) : ProviderResult (option C) :=
  or_remote (historical_class snap block hash) (fc_get_class_at fc hash).
Definition fork_historical_compiled_class_hash fc snap (block hash : Z) : ProviderResult (option Z) :=
  or_remote (historical_compiled_class_hash snap block hash) (fc_get_compiled_class_hash fc hash).

(** [StateFactoryProvider::historical] of the forked provider picks the view as the
    database provider does. *)
Definition fork_historical db (block_id : BlockHashOrNumber) : ProviderResult (option StateView) :=
  block_number ←
    match block_id with
    | BHash hash => n ← block_number_by_hash db hash; Ok (inr n)
    | BNum num =>
        latest_num ← latest_number db;
        Ok (match Z.compare num latest_num with
            | Lt => inr (Some num)
            | Gt => inl None
            | Eq => inl (Some LatestState)
            end)
    end;
  match block_number with
  | inl answer => Ok answer
  | inr None => Ok None
  | inr (Some block) => Ok (Some (HistoricalState block))
  end.
End ForkProvider.
