(* ===== verification/ForkProviderProofs.v ===== *)
(** * The forked state is the local one over the remote one

    Whatever was asked before and whatever of it is stored locally, the latest state
    answers the value the local chain wrote last, and the remote value when it wrote
    none; so does the state at a block. *)

From Stdlib Require Import ZArith Lia.
From stdpp Require Import base numbers list gmap sets sorting.
From S2P Require Import Prelude Felt Tx Version Block Codec Versioned Mdbx DbProvider DbState ChangeLog DbHistory DbLatest ForkProvider.

Lemma dup_insert_present {V S} `{DS : DupSort V S} (v : V) l :
  dup_sorted l -> v ∈ l -> dup_insert v l = l.
Proof.
  induction 1 as [|w l Hs IH Hall]; [set_solver|]. simpl. intros Hv. case_decide as Hb; [done|].
  apply elem_of_cons in Hv as [->|Hv]; [done|].
  rewrite Forall_forall in Hall. specialize (Hall v Hv).
  destruct (lex_le (dv_bytes v) (dv_bytes w)) eqn:Hle; [|by rewrite IH].
  by destruct Hb; apply lex_le_antisym.
Qed.

Section ForkRefinement.
Context `{MD : Mdbx} `{RT : RoaringTreemap} `{FP : FeltPostcard} {C R X E : Type}.
Abbreviation Ins := (@Insertion C R X).
Implicit Types (chain : list Ins) (fc : ForkClient C E) (snap db : Db C R X).

(** The remote state at the fork block: contracts and storage. *)
Variable remote_info : Z -> option GenericContractInfo.
Variable remote_storage : Z -> Z -> option Z.

(** A client that answers from that state when it answers at all. *)
Definition faithful fc : Prop :=
  (forall a v, fc_get_nonce fc a = Ok v -> v = gci_nonce <$> remote_info a) /\
  (forall a v, fc_get_class_hash_at fc a = Ok v -> v = gci_class_hash <$> remote_info a) /\
  (forall a k v, fc_get_storage fc a k = Ok v -> v = remote_storage a k).

Definition touched (i : Ins) (a : Z) : Prop :=
  a ∈ map fst (nonce_updates (ins_updates i)) \/ a ∈ map fst (deployed_contracts (ins_updates i)).

(** Databases of a forked node with the local chain: blocks are inserted, and values
    are read, from a snapshot of the same height.  A block changes the nonce or class
    of a remote contract only after its info was read, as executing a transaction on
    it does. *)
Inductive fork_runs : list Ins -> Db C R X -> Prop :=
  | fork_empty : fork_runs [] Db_empty
  | fork_insert chain db i :
      fork_runs chain db ->
      (forall a, touched i a -> remote_info a = None \/ is_Some (t_get (ContractInfo (db_contracts db)) a)) ->
      fork_runs (chain ++ [i]) (insert_one db i)
  | fork_read_nonce chain snap db fc a r db' :
      fork_runs chain snap -> fork_runs chain db -> faithful fc ->
      fork_latest_nonce fc snap a db = (r, db') -> fork_runs chain db'
  | fork_read_class_hash chain snap db fc a r db' :
      fork_runs chain snap -> fork_runs chain db -> faithful fc ->
      fork_latest_class_hash_of_contract fc snap a db = (r, db') -> fork_runs chain db'
  | fork_read_storage chain snap db fc a k r db' :
      fork_runs chain snap -> fork_runs chain db -> faithful fc -> is_felt k ->
      fork_latest_storage fc snap a k db = (r, db') -> fork_runs chain db'
  | fork_read_class chain snap db fc h r db' :
      fork_runs chain snap -> fork_runs chain db -> faithful fc ->
      fork_latest_class fc snap h db = (r, db') -> fork_runs chain db'
  | fork_read_compiled chain snap db fc h r db' :
      fork_runs chain snap -> fork_runs chain db -> faithful fc ->
      fork_latest_compiled_class_hash fc snap h db = (r, db') -> fork_runs chain db'.

(** ** What the tables hold *)

(** A contract's info: that of the local chain, over the remote one once it is known. *)
Definition over (remote : GenericContractInfo) (n c : option Z) : option GenericContractInfo :=
  info_of (Some (default (gci_nonce remote) n)) (Some (default (gci_class_hash remote) c)).

Definition info_ok chain db (a : Z) : Prop :=
  let n := latest_of (nonce_log chain) a in
  let c := latest_of (class_log chain) a in
  let i := t_get (ContractInfo (db_contracts db)) a in
  match remote_info a with
  | None => i = info_of n c
  | Some r => (i = None /\ n = None /\ c = None) \/ i = over r n c
  end.

Definition storage_ok chain db (a : Z) : Prop :=
  row_ok (d_vals (ContractStorage (db_storage db)) a) /\
  forall k,
    let v := row_get (d_vals (ContractStorage (db_storage db)) a) k in
    let l := latest_of (storage_log chain) {| csk_contract_address := a; csk_key := k |} in
    v = l \/ (l = None /\ v = remote_storage a k).

Definition tables_ok chain db : Prop := forall a, info_ok chain db a /\ storage_ok chain db a.

Lemma latest_of_log_snoc {K V} `{EqDecision K} (f : Ins -> list (K * V)) chain i k :
  latest_of (map (fun i => (ins_number i, f i)) (chain ++ [i])) k
  = match assoc k (f i) with
    | Some v => Some v
    | None => latest_of (map (fun i => (ins_number i, f i)) chain) k
    end.
Proof. rewrite map_app. apply latest_of_snoc. Qed.

Lemma insert_info_ok chain db i a :
  wf_updates (ins_updates i) -> info_ok chain db a ->
  (touched i a -> remote_info a = None \/ is_Some (t_get (ContractInfo (db_contracts db)) a)) ->
  info_ok (chain ++ [i]) (insert_one db i) a.
Proof.
  intros (Hn & _ & Hc & _) Hi Ht. unfold info_ok in *. unfold nonce_log, class_log in *.
  rewrite !latest_of_log_snoc. simpl.
  set (n := latest_of _ a) in Hi |- *. set (c := latest_of (map _ chain) a) in Hi |- *.
  assert (Hstep : forall n0 c0, t_get (ContractInfo (db_contracts db)) a = info_of n0 c0 ->
    t_get (ContractInfo (insert_contracts (ins_number i) (ins_updates i) (db_contracts db))) a
    = info_of (match assoc a (nonce_updates (ins_updates i)) with Some v => Some v | None => n0 end)
        (match assoc a (deployed_contracts (ins_updates i)) with Some v => Some v | None => c0 end)).
  { intros n0 c0 Hg. apply put_nonces_info; [exact Hn|]. by apply put_deployeds_info. }
  destruct (remote_info a) as [r|]; [|by apply Hstep].
  assert (Hover : t_get (ContractInfo (db_contracts db)) a = over r n c ->
    t_get (ContractInfo (insert_contracts (ins_number i) (ins_updates i) (db_contracts db))) a
    = over r (match assoc a (nonce_updates (ins_updates i)) with Some v => Some v | None => n end)
        (match assoc a (deployed_contracts (ins_updates i)) with Some v => Some v | None => c end)).
  { intros Hg. rewrite (Hstep _ _ Hg). unfold over.
    by destruct (assoc a (nonce_updates _)), (assoc a (deployed_contracts _)). }
  destruct Hi as [(Hi & Hn0 & Hc0)|Hi]; [|by right; apply Hover].
  destruct (assoc a (nonce_updates (ins_updates i))) as [v|] eqn:Ha.
  { destruct Ht as [Hr|[v' Hv']]; [|done|congruence]. left. apply dec_stable.
    intros Hnin. by apply assoc_None in Hnin; rewrite Ha in Hnin. }
  destruct (assoc a (deployed_contracts (ins_updates i))) as [v|] eqn:Hd.
  { destruct Ht as [Hr|[v' Hv']]; [|done|congruence]. right. apply dec_stable.
    intros Hnin. by apply assoc_None in Hnin; rewrite Hd in Hnin. }
  left. split_and!; [|done|done]. by apply (Hstep None None).
Qed.

Lemma insert_storage_ok chain db i a :
  wf_updates (ins_updates i) -> (forall a, storage_ok chain db a) ->
  storage_ok (chain ++ [i]) (insert_one db i) a.
Proof.
  intros (_ & _ & _ & _ & Hnd & Hv) Hs.
  assert (holds (ContractStorage (db_storage db)) (fun key =>
    row_get (d_vals (ContractStorage (db_storage db)) (csk_contract_address key)) (csk_key key))) as Hh.
  { intros a'. split; [apply (Hs a')|done]. }
  pose proof (put_entries_holds (ins_number i) _ (db_storage db) _ Hh Hnd Hv a) as [Hok Hget].
  unfold storage_ok. simpl. rewrite insert_storage_flat. split; [exact Hok|]. intros k.
  rewrite Hget. simpl. unfold storage_log in *. rewrite latest_of_log_snoc.
  destruct (assoc _ _); [by left|]. apply (Hs a).
Qed.

Lemma put_info_ok chain snap db a info :
  tables_ok chain snap -> tables_ok chain db -> remote_info a = Some info ->
  t_get (ContractInfo (db_contracts snap)) a = None ->
  tables_ok chain (put_info a info db).
Proof.
  intros Hsnap Hdb Hr Hnone a'. destruct (Hdb a') as [Hi Hs]. split; [|exact Hs].
  unfold info_ok in *. simpl. rewrite t_get_put. case_decide as Ha; [subst a'|exact Hi].
  rewrite Hr in Hi |- *. right.
  destruct (Hsnap a) as [Hia _]. unfold info_ok in Hia. rewrite Hr, Hnone in Hia.
  destruct Hia as [(_ & -> & ->)|Hia]; [by destruct info|done].
Qed.

Lemma put_storage_ok chain snap db a k v :
  tables_ok chain snap -> tables_ok chain db -> is_felt k -> remote_storage a k = Some v ->
  row_get (d_vals (ContractStorage (db_storage snap)) a) k = None ->
  tables_ok chain (put_storage_entry a {| se_key := k; se_value := v |} db).
Proof.
  intros Hsnap Hdb Hk Hr Hnone a'. destruct (Hdb a') as [Hi Hs]. split; [exact Hi|].
  unfold storage_ok in *. simpl. rewrite d_vals_put. case_decide as Ha; [subst a'|exact Hs].
  destruct Hs as [Hok Hget].
  assert (Hl : latest_of (storage_log chain) {| csk_contract_address := a; csk_key := k |} = None).
  { destruct (Hsnap a) as [_ [_ Hg]]. specialize (Hg k). simpl in Hg. rewrite Hnone in Hg.
    by destruct Hg as [<-|[? _]]. }
  set (l := d_vals (ContractStorage (db_storage db)) a) in *. set (e := {| se_key := k; se_value := v |}).
  assert (row_get l k = None \/ row_get l k = Some v) as [Hg|Hg].
  { specialize (Hget k). simpl in Hget. rewrite Hl, Hr in Hget. tauto. }
  - assert (dup_insert e l = row_put e l) as ->.
    { unfold row_put, row_get in *. simpl. destruct (dup_seek k l) as [c|]; [|done].
      by case_decide. }
    destruct (row_put_spec e l Hok Hk) as [Hok' Hget']. split; [done|]. intros k'. simpl.
    rewrite Hget'. simpl. case_decide as Hkk; [subst k'; right; by rewrite Hl, Hr|apply Hget].
  - rewrite dup_insert_present; [done|apply Hok|]. by apply row_get_elem.
Qed.

Lemma faithful_info fc a n c :
  faithful fc -> fc_get_nonce fc a = Ok (Some n) -> fc_get_class_hash_at fc a = Ok (Some c) ->
  remote_info a = Some {| gci_nonce := n; gci_class_hash := c |}.
Proof.
  intros (H1 & H2 & _) Hn%H1 Hc%H2. destruct (remote_info a) as [[n' c']|]; [|done].
  by simplify_eq/=.
Qed.

Lemma latest_storage_row db a k :
  latest_storage db a k = Ok (row_get (d_vals (ContractStorage (db_storage db)) a) k).
Proof. unfold latest_storage, row_get. destruct (dup_seek _ _); [by case_decide|done]. Qed.

Lemma fork_runs_ok chain db : fork_runs chain db -> wf_chain chain -> tables_ok chain db.
Proof.
  induction 1 as [|chain db i Hrun IH Ht|chain snap db fc a r db' _ IHs _ IH Hf Hread
    |chain snap db fc a r db' _ IHs _ IH Hf Hread|chain snap db fc a k r db' _ IHs _ IH Hf Hk Hread
    |chain snap db fc h r db' _ IHs _ IH Hf Hread|chain snap db fc h r db' _ IHs _ IH Hf Hread]; intros Hwf.
  - intros a. split; [|split].
    + unfold info_ok. simpl. rewrite t_get_empty. destruct (remote_info a); [by left|done].
    + simpl. rewrite d_vals_empty. by repeat constructor; set_solver.
    + intros k. left. simpl. by rewrite d_vals_empty.
  - specialize (IH (wf_chain_snoc _ _ Hwf)).
    pose proof (proj2 Hwf) as Hu. apply Forall_app in Hu as [_ Hu]. rewrite Forall_singleton in Hu.
    intros a. split; [apply insert_info_ok; [exact Hu|apply IH|apply Ht]|].
    apply insert_storage_ok; [exact Hu|]. intros a'. apply IH.
  - specialize (IHs Hwf). specialize (IH Hwf). unfold fork_latest_nonce in Hread.
    destruct (latest_nonce snap a) as [[n|]|e] eqn:Hl; [by simplify_eq| |by simplify_eq].
    destruct (fc_get_nonce fc a) as [[n|]|e] eqn:Hn; simpl in Hread; [|by simplify_eq..].
    destruct (fc_get_class_hash_at fc a) as [[c|]|e] eqn:Hc; simpl in Hread; [|by simplify_eq..].
    simplify_eq. apply (put_info_ok chain snap); [done|done|by eapply faithful_info|].
    unfold latest_nonce in Hl. by destruct (t_get (ContractInfo (db_contracts snap)) a); simplify_eq/=.
  - specialize (IHs Hwf). specialize (IH Hwf). unfold fork_latest_class_hash_of_contract in Hread.
    destruct (latest_class_hash_of_contract snap a) as [[c|]|e] eqn:Hl; [by simplify_eq| |by simplify_eq].
    destruct (fc_get_class_hash_at fc a) as [[c|]|e] eqn:Hc; simpl in Hread; [|by simplify_eq..].
    destruct (fc_get_nonce fc a) as [[n|]|e] eqn:Hn; simpl in Hread; [|by simplify_eq..].
    simplify_eq. apply (put_info_ok chain snap); [done|done|by eapply faithful_info|].
    unfold latest_class_hash_of_contract in Hl. by destruct (t_get (ContractInfo (db_contracts snap)) a); simplify_eq/=.
  - specialize (IHs Hwf). specialize (IH Hwf). unfold fork_latest_storage in Hread.
    rewrite latest_storage_row in Hread. destruct (row_get _ k) as [v|] eqn:Hl; [by simplify_eq|].
    destruct (fc_get_storage fc a k) as [[v|]|e] eqn:Hv; simpl in Hread; [|by simplify_eq..].
    simplify_eq. apply (put_storage_ok chain snap); [done|done|done| |done].
    destruct Hf as (_ & _ & Hs). symmetry. by apply Hs.
  - specialize (IH Hwf). unfold fork_latest_class in Hread.
    destruct (latest_class snap h) as [[v|]|e]; [by simplify_eq| |by simplify_eq].
    destruct (fc_get_class_at fc h) as [[v|]|e]; simpl in Hread; by simplify_eq.
  - specialize (IH Hwf). unfold fork_latest_compiled_class_hash in Hread.
    destruct (latest_compiled_class_hash snap h) as [[v|]|e]; [by simplify_eq| |by simplify_eq].
    destruct (fc_get_compiled_class_hash fc h) as [[v|]|e]; simpl in Hread; by simplify_eq.
Qed.

(** ** The history tables are those of the local chain *)
Definition contract_history (t : ContractTables) :=
  (ContractInfoChangeSet t, NonceChangeHistory t, ClassChangeHistory t).
Definition storage_history (t : StorageTables) := (StorageChangeSet t, StorageChangeHistory t).
Definition same_history (db db' : Db C R X) : Prop :=
  contract_history (db_contracts db) = contract_history (db_contracts db') /\
  storage_history (db_storage db) = storage_history (db_storage db').

Lemma contract_history_step {A} (f : ContractTables -> A -> ContractTables) l :
  (forall t t' x, contract_history t = contract_history t' ->
     contract_history (f t x) = contract_history (f t' x)) ->
  forall t t', contract_history t = contract_history t' ->
    contract_history (fold_left f l t) = contract_history (fold_left f l t').
Proof. intros Hf. induction l as [|x l IH]; intros t t' Ht; [done|]. simpl. by apply IH, Hf. Qed.

Lemma same_history_insert db db' i :
  same_history db db' -> same_history (insert_one db i) (insert_one db' i).
Proof.
  intros [Hc Hs]. split; simpl.
  - unfold insert_contracts. apply contract_history_step; [|apply contract_history_step; [|done]];
      intros t t' [a v] [= H1 H2 H3]; unfold contract_history; simpl; by rewrite H1, H2, H3.
  - rewrite !insert_storage_flat. revert Hs. generalize (db_storage db) as t, (db_storage db') as t'.
    induction (storage_entries _) as [|x l IH]; intros t t' Hs; [done|]. simpl. apply IH.
    injection Hs as H1 H2. unfold storage_history. simpl. by rewrite H1, H2.
Qed.

Lemma fork_runs_history chain db : fork_runs chain db -> same_history db (db_of chain).
Proof.
  induction 1 as [|chain db i Hrun IH Ht|chain snap db fc a r db' _ _ _ IH _ Hread
    |chain snap db fc a r db' _ _ _ IH _ Hread|chain snap db fc a k r db' _ _ _ IH _ _ Hread
    |chain snap db fc h r db' _ _ _ IH _ Hread|chain snap db fc h r db' _ _ _ IH _ Hread].
  - done.
  - rewrite db_of_snoc. by apply same_history_insert.
  - unfold fork_latest_nonce in Hread. repeat case_match; by simplify_eq.
  - unfold fork_latest_class_hash_of_contract in Hread. repeat case_match; by simplify_eq.
  - unfold fork_latest_storage in Hread. repeat case_match; by simplify_eq.
  - unfold fork_latest_class in Hread. repeat case_match; by simplify_eq.
  - unfold fork_latest_compiled_class_hash in Hread. repeat case_match; by simplify_eq.
Qed.

Lemma historical_of_history db db' n a k :
  same_history db db' ->
  historical_nonce db n a = historical_nonce db' n a /\
  historical_class_hash_of_contract db n a = historical_class_hash_of_contract db' n a /\
  historical_storage db n a k = historical_storage db' n a k.
Proof.
  intros [[= H1 H2 H3] [= H4 H5]].
  unfold historical_nonce, historical_class_hash_of_contract, historical_storage.
  by rewrite H1, H2, H3, H4, H5.
Qed.

(** ** Refinement *)

(** The abstract forked state: the local value, else the remote one. *)
Definition overlay_info (a : Z) (n c : option Z) : option GenericContractInfo :=
  match remote_info a with Some r => over r n c | None => info_of n c end.
Definition answers_with {A} (r : ProviderResult (option A)) (v : option A) : Prop :=
  r = Ok v \/ r = Err ForkedBackend1.
Definition available fc : Prop :=
  (forall a, is_ok (fc_get_nonce fc a)) /\ (forall a, is_ok (fc_get_class_hash_at fc a)) /\
  (forall a k, is_ok (fc_get_storage fc a k)).
Definition reads fc {A} (r : ProviderResult (option A)) (v : option A) : Prop :=
  answers_with r v /\ (available fc -> r = Ok v).

Lemma or_remote_reads fc {A} (l : option A) (r : result E (option A)) v :
  (forall w, r = Ok w -> w = v) -> (available fc -> is_ok r) ->
  reads fc (or_remote (Ok l) r) (match l with Some x => Some x | None => v end).
Proof.
  intros Hw Hav. destruct l as [x|]; [split; [by left|done]|].
  destruct r as [w|e]; simpl in *; [rewrite (Hw w eq_refl); split; [by left|done]|].
  split; [by right|]. intros Ha. by destruct (Hav Ha).
Qed.

Lemma nonce_answers chain snap db fc a :
  tables_ok chain snap -> faithful fc ->
  let r := (fork_latest_nonce fc snap a db).1 in
  let v := gci_nonce <$> overlay_info a (latest_of (nonce_log chain) a) (latest_of (class_log chain) a) in
  reads fc r v.
Proof.
  intros Hs (F1 & F2 & _). unfold fork_latest_nonce, latest_nonce, overlay_info.
  destruct (Hs a) as [Hi _]. unfold info_ok in Hi.
  specialize (F1 a). specialize (F2 a).
  assert (available fc -> is_ok (fc_get_nonce fc a) /\ is_ok (fc_get_class_hash_at fc a)) as Hav
    by (intros (A1 & A2 & _); auto).
  destruct (remote_info a) as [r|] eqn:Er; simpl in *.
  - destruct Hi as [(-> & Hn0 & Hc0)| ->]; [|split; [by left|done]]. rewrite ?Hn0, ?Hc0. simpl.
    destruct (fc_get_nonce fc a) as [n|e] eqn:Hn; simpl; [|split; [by right|naive_solver]].
    specialize (F1 _ eq_refl) as ->.
    destruct (fc_get_class_hash_at fc a) as [c|e] eqn:Hc; simpl; [|split; [by right|naive_solver]].
    specialize (F2 _ eq_refl) as ->. simpl. split; [by left|done].
  - rewrite Hi. destruct (info_of _ _) as [i|]; simpl; [split; [by left|done]|].
    destruct (fc_get_nonce fc a) as [n|e] eqn:Hn; simpl; [|split; [by right|naive_solver]].
    specialize (F1 _ eq_refl) as ->. split; [by left|done].
Qed.

Lemma class_hash_answers chain snap db fc a :
  tables_ok chain snap -> faithful fc ->
  let r := (fork_latest_class_hash_of_contract fc snap a db).1 in
  let v := gci_class_hash <$> overlay_info a (latest_of (nonce_log chain) a) (latest_of (class_log chain) a) in
  reads fc r v.
Proof.
  intros Hs (F1 & F2 & _). unfold fork_latest_class_hash_of_contract, latest_class_hash_of_contract, overlay_info.
  destruct (Hs a) as [Hi _]. unfold info_ok in Hi.
  specialize (F1 a). specialize (F2 a).
  assert (available fc -> is_ok (fc_get_nonce fc a) /\ is_ok (fc_get_class_hash_at fc a)) as Hav
    by (intros (A1 & A2 & _); auto).
  destruct (remote_info a) as [r|] eqn:Er; simpl in *.
  - destruct Hi as [(-> & Hn0 & Hc0)| ->]; [|split; [by left|done]]. rewrite ?Hn0, ?Hc0. simpl.
    destruct (fc_get_class_hash_at fc a) as [c|e] eqn:Hc; simpl; [|split; [by right|naive_solver]].
    specialize (F2 _ eq_refl) as ->. simpl.
    destruct (fc_get_nonce fc a) as [n|e] eqn:Hn; simpl; [|split; [by right|naive_solver]].
    specialize (F1 _ eq_refl) as ->. split; [by left|done].
  - rewrite Hi. destruct (info_of _ _) as [i|]; simpl; [split; [by left|done]|].
    destruct (fc_get_class_hash_at fc a) as [c|e] eqn:Hc; simpl; [|split; [by right|naive_solver]].
    specialize (F2 _ eq_refl) as ->. split; [by left|done].
Qed.

Lemma storage_answers chain snap db fc a k :
  tables_ok chain snap -> faithful fc ->
  let r := (fork_latest_storage fc snap a k db).1 in
  let v := match latest_of (storage_log chain) {| csk_contract_address := a; csk_key := k |} with
           | Some v => Some v
           | None => remote_storage a k
           end in
  reads fc r v.
Proof.
  intros Hs (_ & _ & F3). unfold fork_latest_storage. rewrite latest_storage_row.
  destruct (Hs a) as [_ [_ Hg]]. specialize (Hg k). specialize (F3 a k). simpl in Hg.
  destruct (row_get _ k) as [v|] eqn:Hr.
  { destruct Hg as [<-|[-> <-]]; split; try (by left); done. }
  assert (latest_of (storage_log chain) {| csk_contract_address := a; csk_key := k |} = None) as ->
    by (by destruct Hg as [<-|[? _]]).
  assert (available fc -> is_ok (fc_get_storage fc a k)) as Hav by (intros (_ & _ & A); auto).
  destruct (fc_get_storage fc a k) as [v|e]; simpl; [|split; [by right|naive_solver]].
  specialize (F3 _ eq_refl) as ->. destruct (remote_storage a k); split; try (by left); done.
Qed.

(** C13. The forked state refines the local chain over the remote state.  In any
    database reached by inserting blocks and reading, with the remote failing at any
    time, the latest state answers the value the local chain wrote last and otherwise
    the remote value, or reports the failure of the remote; it answers whenever the
    remote does.  The state at a local block is that of the local chain at the block,
    and otherwise the remote one: storing what was read does not change the past. *)
Theorem fork_state_refines chain snap db fc n a k :
  wf_chain chain -> fork_runs chain snap -> faithful fc ->
  Forall (fun i => ins_number i <= n) chain ->
  let nonce m := value_at (nonce_log chain) m a in
  let class m := value_at (class_log chain) m a in
  let slot m := value_at (storage_log chain) m {| csk_contract_address := a; csk_key := k |} in
  let or_else (l r : option Z) := match l with Some v => Some v | None => r end in
  reads fc (fork_latest_nonce fc snap a db).1 (gci_nonce <$> overlay_info a (nonce n) (class n)) /\
  reads fc (fork_latest_class_hash_of_contract fc snap a db).1
    (gci_class_hash <$> overlay_info a (nonce n) (class n)) /\
  reads fc (fork_latest_storage fc snap a k db).1 (or_else (slot n) (remote_storage a k)) /\
  forall m,
    reads fc (fork_historical_nonce fc snap m a) (or_else (nonce m) (gci_nonce <$> remote_info a)) /\
    reads fc (fork_historical_class_hash_of_contract fc snap m a)
      (or_else (class m) (gci_class_hash <$> remote_info a)) /\
    reads fc (fork_historical_storage fc snap m a k) (or_else (slot m) (remote_storage a k)).
Proof.
  intros Hwf Hrun Hf Hn nonce class slot or_else.
  pose proof (fork_runs_ok _ _ Hrun Hwf) as Hok.
  assert (Hlog : forall {K V} `{EqDecision K} (f : Ins -> list (K * V)) key,
    value_at (map (fun i => (ins_number i, f i)) chain) n key
    = latest_of (map (fun i => (ins_number i, f i)) chain) key).
  { intros. apply value_at_latest, Forall_map. exact Hn. }
  unfold nonce at 1 2, class at 1 2, slot at 1, nonce_log, class_log, storage_log. rewrite !Hlog.
  split_and!; [by apply nonce_answers|by apply class_hash_answers|by apply storage_answers|].
  intros m. destruct (historical_of_history _ _ m a k (fork_runs_history _ _ Hrun)) as (H1 & H2 & H3).
  unfold fork_historical_nonce, fork_historical_class_hash_of_contract, fork_historical_storage.
  rewrite H1, H2, H3, historical_nonce_value, historical_class_hash_value, historical_storage_value by done.
  destruct Hf as (F1 & F2 & F3).
  split_and!; (apply or_remote_reads; [auto|intros (A1 & A2 & A3); auto]).
Qed.

(** The forked provider chooses between the latest state and the state at a block as
    the database provider does. *)
Lemma fork_historical_view db id : fork_historical db id = historical db id.
Proof.
  destruct id as [h|num]; unfold fork_historical, historical; simpl.
  - destruct (block_number_by_hash db h) as [[b|]|e]; reflexivity.
  - destruct (latest_number db) as [l|e]; [|reflexivity]. simpl. by destruct (Z.compare num l).
Qed.
End ForkRefinement.

(** ** A fork of a chain with one contract *)
Definition demo_remote_info (a : Z) : option GenericContractInfo :=
  if a =? 5 then Some {| gci_nonce := 3; gci_class_hash := 9 |} else None.
Definition demo_remote_storage (a k : Z) : option Z := if a =? 5 then Some (10 * k) else None.
Definition demo_client : ForkClient unit unit := mkForkClient
  (fun a => Ok (gci_nonce <$> demo_remote_info a)) (fun a => Ok (gci_class_hash <$> demo_remote_info a))
  (fun a k => Ok (demo_remote_storage a k)) (fun _ => Ok None) (fun _ => Ok None).
Lemma demo_client_faithful : faithful demo_remote_info demo_remote_storage demo_client.
Proof. repeat split; intros; simpl in *; congruence. Qed.

Definition demo_updates (nonce : Z) : StateUpdates :=
  {| nonce_updates := [(5, nonce)]; storage_updates := [(5, [(7, 71)])];
     deployed_contracts := []; declared_classes := []; deprecated_declared_classes := [];
     replaced_classes := [] |}.
Definition demo_block : Insertion (C := unit) (R := Z) (X := Z) := sample_insertion 1 [11] (demo_updates 4).
Definition read_db : Db unit Z Z := (fork_latest_nonce demo_client Db_empty 5 Db_empty).2.
Definition forked_db : Db unit Z Z := insert_one read_db demo_block.

Lemma forked_db_runs : fork_runs demo_remote_info demo_remote_storage (E := unit) [demo_block] forked_db.
Proof.
  apply (fork_insert demo_remote_info demo_remote_storage [] read_db demo_block).
  - eapply (fork_read_nonce _ _ [] Db_empty Db_empty demo_client 5);
      [constructor|constructor|apply demo_client_faithful|reflexivity].
  - intros a [Ha|Ha]; simpl in Ha; [|set_solver]. apply list_elem_of_singleton in Ha as ->. right. by eexists.
Qed.

Lemma fork_state_refines_witness :
  (fork_latest_nonce demo_client forked_db 5 forked_db).1 = Ok (Some 4) /\
  (fork_latest_class_hash_of_contract demo_client forked_db 5 forked_db).1 = Ok (Some 9) /\
  (fork_latest_storage demo_client forked_db 5 8 forked_db).1 = Ok (Some 80) /\
  fork_historical_nonce demo_client forked_db 0 5 = Ok (Some 3).
Proof.
  assert (available demo_client) as Hav by (repeat split).
  destruct (fork_state_refines demo_remote_info demo_remote_storage [demo_block] forked_db forked_db
    demo_client 1 5 8) as (H1 & H2 & H3 & H4).
  - split; repeat constructor; set_solver || done.
  - apply forked_db_runs.
  - apply demo_client_faithful.
  - by repeat constructor.
  - split_and!; [apply (proj2 H1 Hav)|apply (proj2 H2 Hav)|apply (proj2 H3 Hav)|].
    apply (proj2 (proj1 (H4 0)) Hav).
Defined.

(** Reading through a provider that was opened before a block was stored can undo
    the block: the contract is missing from the provider's snapshot, so the remote
    info is fetched and stored over the local one.  The nonce block 1 set is gone. *)
Theorem stale_read_overwrites :
  latest_nonce forked_db 5 = Ok (Some 4) /\
  latest_nonce (fork_latest_nonce demo_client Db_empty 5 forked_db).2 5 = Ok (Some 3).
Proof. by vm_compute. Qed.
