(* ===== verification/Messaging.v ===== *)
(** * Messages from the settlement chain (messaging/src)

    The service asks the settlement chain for the messages of a range of blocks,
    turns them into L1 handler transactions and adds those to the pool.  The nodes of
    the settlement chains are parameters: what they return at the time of a call. *)

From Stdlib Require Import ZArith Lia.
From stdpp Require Import base numbers list gmap.
From S2P Require Import Prelude Felt Tx TxHash PoolTypes BTreeSet Pool.

Inductive MessagingError :=
  | InitError
  | UnsupportedChain
  | GatherError
  | EthereumProvider.                  (* the transport's own errors *)

(** What became of a call: a panic, a loop cut off by the fuel, or a result. *)
Inductive Outcome (A : Type) :=
  | Returned (a : A)
  | Panicked
  | OutOfFuel.
Arguments Returned {A}.
Arguments Panicked {A}.
Arguments OutOfFuel {A}.

Definition MAX_BLOCKS : Z := 200.

(** [to_block] of both messengers. *)
Definition last_to_gather (from_block max_blocks chain_latest_block : Z) : Z :=
  if wrap64 (from_block + max_blocks + 1) <? chain_latest_block
  then wrap64 (from_block + max_blocks) else chain_latest_block.

(** [if let Ok(tx) = convert(e) { txs.push(tx) }] over a list; a conversion can panic. *)
Fixpoint convert_all {A B} (convert : A -> option (result MessagingError B)) (l : list A)
    : option (list B) :=
  match l with
  | [] => Some []
  | x :: l =>
      r ← convert x;
      txs ← convert_all convert l;
      Some (match r with Ok tx => tx :: txs | Err _ => txs end)
  end.

(** ** Starknet as settlement chain *)
Record EmittedEvent := mkEmitted {
  em_keys : list Z;
  em_data : list Z;
  em_block_number : option Z;
}.
(** The node: its height, and pages of the events of the messaging contract with the
    message key, in a range of blocks. *)
Record StarknetNode (E : Type) := mkStarknetNode {
  sn_block_number : result E Z;
  sn_get_events : Z -> Z -> option (list Z) -> result E (list EmittedEvent * option (list Z));
}.
Arguments mkStarknetNode {E}.
Arguments sn_block_number {E}.
Arguments sn_get_events {E}.

Section StarknetMessaging.
Context {E : Type} (poseidon : list Z -> Z) (MESSAGE_SENT_EVENT_KEY : Z).

(** The loop over continuation tokens; [None] when the fuel runs out. *)
Fixpoint fetch_events (fuel : nat) (node : StarknetNode E) (from_block to_block : Z)
    (continuation_token : option (list Z)) (events : list EmittedEvent)
    : option (result E (list EmittedEvent)) :=
  match fuel with
  | O => None
  | S fuel =>
      match sn_get_events node from_block to_block continuation_token with
      | Err e => Some (Err e)
      | Ok (page, token) =>
          let events := events ++ filter (fun e => is_Some (em_block_number e)) page in
          match token with
          | None => Some (Ok events)
          | Some _ => fetch_events fuel node from_block to_block token events
          end
      end
  end.

Definition compute_starknet_to_appchain_message_hash (from_address to_address nonce
    entry_point_selector : Z) (payload : list Z) : Z :=
  poseidon ([from_address; to_address; nonce; entry_point_selector; Z.of_nat (length payload)] ++ payload).

(** Indexing beyond the end panics: [None].  A badly formatted event is only logged. *)
Definition l1_handler_tx_from_event (chain_id : ChainId) (event : EmittedEvent)
    : option (result MessagingError L1HandlerTx) :=
  key ← em_keys event !! 0%nat;
  if negb (key =? MESSAGE_SENT_EVENT_KEY) then Some (Err GatherError) else
  from_address ← em_keys event !! 2%nat;
  to_address ← em_keys event !! 3%nat;
  entry_point_selector ← em_data event !! 0%nat;
  nonce ← em_data event !! 1%nat;
  if (length (em_data event) <? 3)%nat then None else
  let calldata := from_address :: drop 3 (em_data event) in
  Some (Ok {|
    l1h_nonce := nonce; l1h_calldata := calldata; l1h_chain_id := chain_id;
    l1h_message_hash := compute_starknet_to_appchain_message_hash from_address to_address nonce
                          entry_point_selector calldata;
    l1h_paid_fee_on_l1 := 30000; l1h_entry_point_selector := entry_point_selector;
    l1h_version := 0; l1h_contract_address := to_address |}).

Definition starknet_gather_messages (fuel : nat) (node : StarknetNode E) (from_block max_blocks : Z)
    (chain_id : ChainId) : Outcome (result MessagingError (Z * list L1HandlerTx)) :=
  match sn_block_number node with
  | Err _ => Returned (Err GatherError)
  | Ok chain_latest_block =>
      if chain_latest_block <? from_block then Returned (Ok (chain_latest_block, [])) else
      let to_block := last_to_gather from_block max_blocks chain_latest_block in
      match fetch_events fuel node from_block to_block None [] with
      | None => OutOfFuel
      | Some (Err _) => Panicked
      | Some (Ok events) =>
          match convert_all (l1_handler_tx_from_event chain_id) events with
          | None => Panicked
          | Some txs => Returned (Ok (to_block, txs))
          end
      end
  end.
End StarknetMessaging.

(** ** Ethereum as settlement chain *)
Record LogMessageToL2 := mkLogMessage {
  lm_from_address : Z;                 (* an address: 160 bits *)
  lm_to_address : Z;                   (* the others: 256 bits *)
  lm_selector : Z;
  lm_payload : list Z;
  lm_nonce : Z;
  lm_fee : Z;
}.
Record EthereumNode (Log E : Type) := mkEthereumNode {
  en_get_block_number : result E Z;
  en_get_logs : Z -> Z -> result E (list Log);
}.
Arguments mkEthereumNode {Log E}.
Arguments en_get_block_number {Log E}.
Arguments en_get_logs {Log E}.

Section EthereumMessaging.
Context {Log E : Type}.
(** Alloy's decoding of a log and its block number, the felt written as a number of
    256 bits in hexadecimal, Starknet's hash of a message to L2. *)
Context (log_block_number : Log -> option Z) (decode_log : Log -> option LogMessageToL2)
  (felt_from_u256 : Z -> option Z)
  (compute_l1_to_l2_message_hash : Z -> Z -> Z -> list Z -> Z -> Z).

Definition fetch_logs (node : EthereumNode Log E) (from_block to_block : Z) : result E (list Log) :=
  logs ← en_get_logs node from_block to_block;
  Ok (filter (fun l => is_Some (log_block_number l)) logs).

(** Every failure is an [unwrap] or an [expect]: a panic. *)
Definition l1_handler_tx_from_log (chain_id : ChainId) (log : Log)
    : option (result MessagingError L1HandlerTx) :=
  log ← decode_log log;
  contract_address ← felt_from_u256 (lm_to_address log);
  entry_point_selector ← felt_from_u256 (lm_selector log);
  nonce ← (if lm_nonce log <? u64_bound then Some (lm_nonce log) else None);
  paid_fee_on_l1 ← (if lm_fee log <? u128_bound then Some (lm_fee log) else None);
  payload ← mapM felt_from_u256 (lm_payload log);
  Some (Ok {|
    l1h_calldata := lm_from_address log :: payload; l1h_chain_id := chain_id;
    l1h_message_hash := compute_l1_to_l2_message_hash (lm_from_address log) contract_address
                          entry_point_selector payload nonce;
    l1h_paid_fee_on_l1 := paid_fee_on_l1; l1h_nonce := nonce;
    l1h_entry_point_selector := entry_point_selector; l1h_version := 0;
    l1h_contract_address := contract_address |}).

Definition ethereum_gather_messages (node : EthereumNode Log E) (from_block max_blocks : Z)
    (chain_id : ChainId) : Outcome (result MessagingError (Z * list L1HandlerTx)) :=
  match en_get_block_number node with
  | Err _ => Returned (Err EthereumProvider)
  | Ok chain_latest_block =>
      let to_block := last_to_gather from_block max_blocks chain_latest_block in
      match fetch_logs node from_block to_block with
      | Err _ => Returned (Err EthereumProvider)
      | Ok logs =>
          match convert_all (l1_handler_tx_from_log chain_id) logs with
          | None => Panicked
          | Some txs => Returned (Ok (to_block, txs))
          end
      end
  end.
End EthereumMessaging.

(** ** The messenger of the service *)
Inductive MessengerMode (Log E : Type) :=
  | Ethereum (node : EthereumNode Log E)
  | Starknet (node : StarknetNode E).
Arguments Ethereum {Log E}.
Arguments Starknet {Log E}.

Section Messenger.
Context {Log E : Type} (poseidon : list Z -> Z) (MESSAGE_SENT_EVENT_KEY : Z).
Context (log_block_number : Log -> option Z) (decode_log : Log -> option LogMessageToL2)
  (felt_from_u256 : Z -> option Z)
  (compute_l1_to_l2_message_hash : Z -> Z -> Z -> list Z -> Z -> Z).

(** The gathering of [MessagingService::gather_messages], up to the messages it adds. *)
Definition gather_messages (fuel : nat) (messenger : MessengerMode Log E) (from_block : Z)
    (chain_id : ChainId) : Outcome (result MessagingError (Z * list L1HandlerTx)) :=
  match messenger with
  | Ethereum node =>
      ethereum_gather_messages log_block_number decode_log felt_from_u256 compute_l1_to_l2_message_hash
        node from_block MAX_BLOCKS chain_id
  | Starknet node =>
      starknet_gather_messages poseidon MESSAGE_SENT_EVENT_KEY fuel node from_block MAX_BLOCKS chain_id
  end.
End Messenger.

(** ** The service *)
Section Service.
Context {C V O L : Type} {VA : Validator V (ExecutableTxWithHash C)}.
Context {PO : PoolOrd O (ExecutableTxWithHash C)} {BT : BTreeSetImpl}.
Context {CH : UnboundedChannel (PendingTx (ExecutableTxWithHash C) (PriorityValue O (ExecutableTxWithHash C)))}.
Context (try_send : L -> Z -> TrySend * L) (pedersen : list Z -> Z).
Abbreviation PoolT := (Pool (ExecutableTxWithHash C) V O L).

Definition message_tx (tx : L1HandlerTx) : ExecutableTxWithHash C :=
  {| ewh_hash := l1_handler_calculate_hash pedersen tx; ewh_transaction := ExL1Handler tx |}.

(** Each transaction is added to the pool, the result of which is ignored; [None] is a
    panic. *)
Fixpoint add_messages (now : Z) (txs : list L1HandlerTx) (p : PoolT) : option PoolT :=
  match txs with
  | [] => Some p
  | tx :: txs =>
      '(_, p) ← add_transaction try_send now (message_tx tx) p;
      add_messages now txs p
  end.

Record MessagingService := mkMessaging {
  gather_from_block : Z;
  msg_gather_fut : option Z;           (* the block a running future gathers from *)
}.
Record MessagingOutcome := mkMessagingOutcome { lastest_block : Z; msg_count : Z }.

(** [poll_next]: [gather] is what polling a future that gathers from the given block
    comes to. *)
Definition messaging_poll_next (tick : bool)
    (gather : Z -> Poll (Outcome (result MessagingError (Z * list L1HandlerTx)))) (now : Z)
    (s : MessagingService) (p : PoolT)
    : option (Poll (option MessagingOutcome) * MessagingService * PoolT) :=
  let fut :=
    match msg_gather_fut s with
    | None => if tick then Some (gather_from_block s) else None
    | Some from_block => Some from_block
    end in
  match fut with
  | None => Some (Pending, mkMessaging (gather_from_block s) None, p)
  | Some from_block =>
      match gather from_block with
      | Pending => Some (Pending, mkMessaging (gather_from_block s) (Some from_block), p)
      | Ready (Returned (Ok (last_block, txs))) =>
          p ← add_messages now txs p;
          Some (Ready (Some (mkMessagingOutcome last_block (Z.of_nat (length txs)))),
                mkMessaging (wrap64 (last_block + 1)) None, p)
      | Ready (Returned (Err _)) => Some (Pending, mkMessaging (gather_from_block s) None, p)
      | Ready _ => None
      end
  end.
End Service.
