(* ===== verification/MessagingProofs.v ===== *)
(** * Every message of the settlement chain is gathered once

    As long as the settlement chain, Ethereum or Starknet, does not fall behind, the
    blocks the service has gathered are contiguous, and the pool is given their messages
    in order.  Two ways in which messages get lost or gathered too early are made
    precise. *)

From Stdlib Require Import ZArith Lia.
From stdpp Require Import base numbers list gmap.
From S2P Require Import Prelude Felt Tx TxHash PoolTypes BTreeSet Pool PoolProofs Executor Validator ValidatorProofs Messaging.

Lemma flat_map_flat_map {A B D} (f : A -> list B) (g : B -> list D) l :
  flat_map g (flat_map f l) = flat_map (fun x => flat_map g (f x)) l.
Proof. induction l as [|x l IH]; [done|]. simpl. by rewrite flat_map_app, IH. Qed.

Lemma last_to_gather_bounds from h :
  0 <= from <= h -> h + MAX_BLOCKS + 1 < u64_bound ->
  from <= last_to_gather from MAX_BLOCKS h <= h.
Proof.
  unfold last_to_gather, MAX_BLOCKS, wrap64. intros Hf Hh. rewrite !Z.mod_small by lia.
  destruct (Z.ltb_spec (from + 200 + 1) h); lia.
Qed.

(** What [if let Ok(tx)] keeps of a conversion. *)
Definition kept {A} (r : option (result MessagingError A)) : list A :=
  match r with Some (Ok tx) => [tx] | _ => [] end.

Lemma convert_all_kept {A B} (convert : A -> option (result MessagingError B)) l :
  Forall (fun x => exists tx, convert x = Some (Ok tx)) l ->
  convert_all convert l = Some (flat_map (fun x => kept (convert x)) l).
Proof.
  induction 1 as [|x l [tx Htx] _ IH]; [done|]. simpl. rewrite Htx. simpl. by rewrite IH.
Qed.

Lemma Forall_range {A} (P : Z -> A -> Prop) (items_at : Z -> list A) from to :
  (forall b, Forall (P b) (items_at b)) ->
  Forall (fun x => exists b, P b x) (flat_map items_at (urange from to)).
Proof.
  intros Hw. apply Forall_forall. intros x Hx. apply list_elem_of_In, in_flat_map in Hx as (b & _ & Hx).
  apply list_elem_of_In in Hx. specialize (Hw b). rewrite Forall_forall in Hw. exists b. by apply Hw.
Qed.

Lemma filter_numbered {A} (number : A -> option Z) l :
  Forall (fun x => exists b, number x = Some b) l -> filter (fun x => is_Some (number x)) l = l.
Proof.
  induction 1 as [|x l [b Hb] _ IH]; [done|]. rewrite filter_cons_True by (by rewrite Hb). by rewrite IH.
Qed.

(** ** Starknet as settlement chain *)
Section Gathering.
Context {E : Type} (poseidon : list Z -> Z) (key : Z) (chain_id : ChainId).
Implicit Types (node : StarknetNode E).

(** ** Paging: the pages a node returns from a token on. *)
Inductive pages_of node (from to : Z) : option (list Z) -> list EmittedEvent -> Prop :=
  | pages_last token page :
      sn_get_events node from to token = Ok (page, None) -> pages_of node from to token page
  | pages_more token page next rest :
      sn_get_events node from to token = Ok (page, Some next) ->
      pages_of node from to (Some next) rest -> pages_of node from to token (page ++ rest).

Lemma fetch_events_pages node from to token events :
  pages_of node from to token events ->
  exists enough, forall fuel acc, (enough <= fuel)%nat ->
    fetch_events fuel node from to token acc
    = Some (Ok (acc ++ filter (fun e => is_Some (em_block_number e)) events)).
Proof.
  induction 1 as [token page Hg|token page next rest Hg _ (enough & IH)].
  - exists 1%nat. intros [|fuel] acc Hf; [lia|]. simpl. by rewrite Hg.
  - exists (S enough). intros [|fuel] acc Hf; [lia|]. simpl. rewrite Hg.
    rewrite IH by lia. by rewrite filter_app, app_assoc.
Qed.

Lemma fetch_events_mono fuel : forall node from to token acc r,
  fetch_events fuel node from to token acc = Some r ->
  forall fuel', (fuel <= fuel')%nat -> fetch_events fuel' node from to token acc = Some r.
Proof.
  induction fuel as [|fuel IH]; intros node from to token acc r; [done|]. simpl.
  intros Hx [|fuel'] Hg; [lia|]. simpl. destruct (sn_get_events _ _ _ _) as [[page [t|]]|e]; [|done..].
  apply IH; [done|lia].
Qed.

(** ** The settlement chain: the events of each block, and a node at a height. *)
Variable events_at : Z -> list EmittedEvent.

Definition well_formed (b : Z) (e : EmittedEvent) : Prop :=
  em_block_number e = Some b /\ em_keys e !! 0%nat = Some key /\
  (4 <= length (em_keys e))%nat /\ (3 <= length (em_data e))%nat.
Hypothesis events_well_formed : forall b, Forall (well_formed b) (events_at b).

Definition honest node (height : Z) : Prop :=
  sn_block_number node = Ok height /\
  forall from to, from <= to <= height ->
    pages_of node from to None (flat_map events_at (urange from (to + 1))).

(** The messages of a block. *)
Definition event_messages (b : Z) : list L1HandlerTx :=
  flat_map (fun e => kept (l1_handler_tx_from_event poseidon key chain_id e)) (events_at b).

Lemma well_formed_converts b e :
  well_formed b e -> exists tx, l1_handler_tx_from_event poseidon key chain_id e = Some (Ok tx).
Proof.
  intros (_ & Hk & Hl & Hd). unfold l1_handler_tx_from_event. rewrite Hk. simpl. rewrite Z.eqb_refl. simpl.
  destruct (lookup_lt_is_Some_2 (em_keys e) 2) as [x2 ->]; [lia|].
  destruct (lookup_lt_is_Some_2 (em_keys e) 3) as [x3 ->]; [lia|].
  destruct (lookup_lt_is_Some_2 (em_data e) 0) as [d0 ->]; [lia|].
  destruct (lookup_lt_is_Some_2 (em_data e) 1) as [d1 ->]; [lia|].
  simpl. destruct (Nat.ltb_spec (length (em_data e)) 3); [lia|]. by eexists.
Qed.

(** ** One gathering *)
Lemma gather_spec node from h :
  honest node h -> 0 <= from <= h -> h + MAX_BLOCKS + 1 < u64_bound ->
  let to := last_to_gather from MAX_BLOCKS h in
  exists enough, forall fuel, (enough <= fuel)%nat ->
    starknet_gather_messages poseidon key fuel node from MAX_BLOCKS chain_id
    = Returned (Ok (to, flat_map event_messages (urange from (to + 1)))).
Proof.
  intros [Hh Hp] Hf Hb to. pose proof (last_to_gather_bounds from h Hf Hb) as Hto. fold to in Hto.
  destruct (fetch_events_pages node from to None _ (Hp from to Hto)) as (enough & He).
  exists enough. intros fuel Hfuel. unfold starknet_gather_messages. rewrite Hh.
  destruct (Z.ltb_spec h from); [lia|]. fold to. rewrite He by done. simpl.
  pose proof (Forall_range well_formed events_at from (to + 1) events_well_formed) as Hall.
  rewrite filter_numbered
    by (eapply Forall_impl; [exact Hall|]; intros e (b & He' & _); by exists b).
  rewrite convert_all_kept
    by (eapply Forall_impl; [exact Hall|]; intros e (b & He'); by apply (well_formed_converts b)).
  by rewrite flat_map_flat_map.
Qed.

(** A gathering that returns, returns the messages of a range, whatever the fuel. *)
Lemma gather_returned node from h fuel r :
  honest node h -> 0 <= from <= h + 1 -> h + MAX_BLOCKS + 1 < u64_bound ->
  starknet_gather_messages poseidon key fuel node from MAX_BLOCKS chain_id = Returned r ->
  exists to, r = Ok (to, flat_map event_messages (urange from (to + 1))) /\ from - 1 <= to <= h.
Proof.
  intros Hn Hf Hb Hr. destruct (Z.le_gt_cases from h) as [Hle|Hgt].
  - destruct (gather_spec node from h Hn) as (enough & He); [lia|done|].
    pose proof (last_to_gather_bounds from h ltac:(lia) Hb) as Hto.
    exists (last_to_gather from MAX_BLOCKS h). split; [|lia].
    destruct Hn as [Hh Hp]. unfold starknet_gather_messages in Hr, He. rewrite Hh in Hr, He.
    destruct (Z.ltb_spec h from); [lia|].
    destruct (fetch_events fuel node from (last_to_gather from MAX_BLOCKS h) None []) as [[evs|e]|] eqn:Hfe;
      [|done..].
    specialize (He (Nat.max enough fuel) ltac:(lia)).
    rewrite (fetch_events_mono _ _ _ _ _ _ _ Hfe (Nat.max enough fuel)) in He by lia. simpl in He.
    destruct (convert_all _ evs); congruence.
  - destruct Hn as [Hh _]. unfold starknet_gather_messages in Hr. rewrite Hh in Hr.
    destruct (Z.ltb_spec h from); [|lia]. injection Hr as <-. exists h. split; [|lia].
    by rewrite urange_nil by lia.
Qed.

End Gathering.

(** ** Ethereum as settlement chain *)
Section EthereumGathering.
Context {Log E : Type} (log_block_number : Log -> option Z) (decode_log : Log -> option LogMessageToL2)
  (felt_from_u256 : Z -> option Z) (message_hash : Z -> Z -> Z -> list Z -> Z -> Z) (chain_id : ChainId).
Implicit Types (node : EthereumNode Log E).
Variable logs_at : Z -> list Log.

(** A log of the messaging contract whose message fits an L1 handler transaction. *)
Definition well_formed_log (b : Z) (l : Log) : Prop :=
  log_block_number l = Some b /\
  exists m, decode_log l = Some m /\ is_Some (felt_from_u256 (lm_to_address m)) /\
    is_Some (felt_from_u256 (lm_selector m)) /\ lm_nonce m < u64_bound /\ lm_fee m < u128_bound /\
    Forall (fun v => is_Some (felt_from_u256 v)) (lm_payload m).
Hypothesis logs_well_formed : forall b, Forall (well_formed_log b) (logs_at b).

(** The logs of a range; an empty range may be refused. *)
Definition honest_ethereum node (height : Z) : Prop :=
  en_get_block_number node = Ok height /\
  (forall from to, from <= to <= height ->
     en_get_logs node from to = Ok (flat_map logs_at (urange from (to + 1)))) /\
  (forall from to, to < from ->
     en_get_logs node from to = Ok [] \/ exists e, en_get_logs node from to = Err e).

Abbreviation of_log := (l1_handler_tx_from_log decode_log felt_from_u256 message_hash chain_id).
Definition log_messages (b : Z) : list L1HandlerTx := flat_map (fun l => kept (of_log l)) (logs_at b).

Lemma well_formed_log_converts b l : well_formed_log b l -> exists tx, of_log l = Some (Ok tx).
Proof.
  intros (_ & m & Hm & [a Ha] & [sel Hs] & Hn & Hf & Hp). unfold l1_handler_tx_from_log.
  rewrite Hm. simpl. rewrite Ha. simpl. rewrite Hs. simpl.
  rewrite (proj2 (Z.ltb_lt _ _) Hn), (proj2 (Z.ltb_lt _ _) Hf). simpl.
  apply mapM_is_Some_2 in Hp as [payload ->]. by eexists.
Qed.

Abbreviation gather_from node from :=
  (ethereum_gather_messages log_block_number decode_log felt_from_u256 message_hash node from MAX_BLOCKS chain_id).

Lemma ethereum_gather_spec node from h :
  honest_ethereum node h -> 0 <= from <= h -> h + MAX_BLOCKS + 1 < u64_bound ->
  let to := last_to_gather from MAX_BLOCKS h in
  gather_from node from = Returned (Ok (to, flat_map log_messages (urange from (to + 1)))).
Proof using logs_well_formed.
  intros (Hh & Hl & _) Hf Hb to. pose proof (last_to_gather_bounds from h Hf Hb) as Hto. fold to in Hto.
  unfold ethereum_gather_messages, fetch_logs. rewrite Hh. fold to. rewrite (Hl from to Hto). simpl.
  pose proof (Forall_range well_formed_log logs_at from (to + 1) logs_well_formed) as Hall.
  rewrite filter_numbered
    by (eapply Forall_impl; [exact Hall|]; intros l (b & Hw & _); by exists b).
  rewrite convert_all_kept
    by (eapply Forall_impl; [exact Hall|]; intros l (b & Hw); by apply (well_formed_log_converts b)).
  by rewrite flat_map_flat_map.
Qed.

Lemma ethereum_gather_returned node from h r :
  honest_ethereum node h -> 0 <= from <= h + 1 -> h + MAX_BLOCKS + 2 < u64_bound ->
  gather_from node from = Returned r ->
  (exists e, r = Err e) \/
  exists to, r = Ok (to, flat_map log_messages (urange from (to + 1))) /\ from - 1 <= to <= h.
Proof using logs_well_formed.
  intros Hn Hf Hb Hr. destruct (Z.le_gt_cases from h) as [Hle|Hgt].
  - rewrite (ethereum_gather_spec node from h Hn) in Hr by lia. injection Hr as <-. right.
    pose proof (last_to_gather_bounds from h ltac:(lia) ltac:(lia)) as Hto.
    exists (last_to_gather from MAX_BLOCKS h). split; [done|lia].
  - destruct Hn as (Hh & _ & He). unfold ethereum_gather_messages, fetch_logs in Hr. rewrite Hh in Hr.
    assert (last_to_gather from MAX_BLOCKS h = h) as Hto.
    { unfold last_to_gather, MAX_BLOCKS, wrap64 in *. rewrite Z.mod_small by lia.
      by destruct (Z.ltb_spec (from + 200 + 1) h); [lia|]. }
    rewrite Hto in Hr. destruct (He from h ltac:(lia)) as [Hl|[e Hl]]; rewrite Hl in Hr; simpl in Hr;
      injection Hr as <-; [right|by left; eexists].
    exists h. split; [by rewrite urange_nil by lia|lia].
Qed.
End EthereumGathering.

(** ** The service *)
Section ServiceRuns.
Context {Log E : Type} (poseidon : list Z -> Z) (key : Z) (chain_id : ChainId).
Context (log_block_number : Log -> option Z) (decode_log : Log -> option LogMessageToL2)
  (felt_from_u256 : Z -> option Z) (message_hash : Z -> Z -> Z -> list Z -> Z -> Z).
Context {C V O L : Type} {VA : Validator V (ExecutableTxWithHash C)}.
Context {PO : PoolOrd O (ExecutableTxWithHash C)} {BT : BTreeSetImpl}.
Context {CH : UnboundedChannel (PendingTx (ExecutableTxWithHash C) (PriorityValue O (ExecutableTxWithHash C)))}.
Context (try_send : L -> Z -> TrySend * L) (pedersen : list Z -> Z).
Abbreviation PoolT := (Pool (ExecutableTxWithHash C) V O L).
Abbreviation Gather := (Poll (Outcome (result MessagingError (Z * list L1HandlerTx)))).
Abbreviation gathering fuel m from :=
  (gather_messages (E := E) poseidon key log_block_number decode_log felt_from_u256 message_hash fuel m from chain_id).

(** The settlement chain: what the messaging contract emitted in each block. *)
Inductive Settlement :=
  | OnEthereum (logs_at : Z -> list Log)
  | OnStarknet (events_at : Z -> list EmittedEvent).
Variable settlement : Settlement.

Definition settlement_wf : Prop :=
  match settlement with
  | OnEthereum logs_at =>
      forall b, Forall (well_formed_log log_block_number decode_log felt_from_u256 b) (logs_at b)
  | OnStarknet events_at => forall b, Forall (well_formed key b) (events_at b)
  end.
Hypothesis Hwf : settlement_wf.

Definition messages_at (b : Z) : list L1HandlerTx :=
  match settlement with
  | OnEthereum logs_at => log_messages decode_log felt_from_u256 message_hash chain_id logs_at b
  | OnStarknet events_at => event_messages poseidon key chain_id events_at b
  end.

(** A node of the settlement chain at a height. *)
Definition honest_at (m : MessengerMode Log E) (h : Z) : Prop :=
  match settlement, m with
  | OnEthereum logs_at, Ethereum node => honest_ethereum logs_at node h
  | OnStarknet events_at, Starknet node => honest events_at node h
  | _, _ => False
  end.
(** A node that answers one of the two requests of a gathering with an error. *)
Definition fails (m : MessengerMode Log E) (from : Z) : Prop :=
  match m with
  | Ethereum node =>
      (exists e, en_get_block_number node = Err e) \/
      (forall from to, exists e, en_get_logs node from to = Err e)
  | Starknet node =>
      (exists e, sn_block_number node = Err e) \/
      (exists h, sn_block_number node = Ok h /\ from <= h /\
         forall from to token, exists e, sn_get_events node from to token = Err e)
  end.

(** What a running future may come to: nothing yet, or a gathering from a node that
    fails or is honest and has not fallen behind. *)
Definition settles (from : Z) (g : Gather) : Prop :=
  g = Pending \/
  exists m fuel, g = Ready (gathering fuel m from) /\
    (fails m from \/ exists h, honest_at m h /\ from <= h + 1 /\ h + MAX_BLOCKS + 2 < u64_bound).

(** Such a gathering, when it returns, has failed or has the messages of a range.  The
    Starknet messenger panics when the events cannot be fetched. *)
Lemma failed_gather fuel m from r :
  fails m from -> gathering fuel m from = Returned r -> exists e, r = Err e.
Proof.
  destruct m as [node|node]; simpl; intros [[e He]|He].
  - unfold ethereum_gather_messages. rewrite He. intros [= <-]. by eexists.
  - unfold ethereum_gather_messages, fetch_logs. destruct (en_get_block_number node) as [h|e].
    + destruct (He from (last_to_gather from MAX_BLOCKS h)) as [e ->]. intros [= <-]. by eexists.
    + intros [= <-]. by eexists.
  - unfold starknet_gather_messages. rewrite He. intros [= <-]. by eexists.
  - destruct He as (h & Hh & Hle & He). unfold starknet_gather_messages. rewrite Hh.
    destruct (Z.ltb_spec h from); [lia|]. destruct fuel as [|fuel]; [done|]. simpl.
    by destruct (He from (last_to_gather from MAX_BLOCKS h) None) as [e ->].
Qed.

Lemma honest_gather m from h :
  honest_at m h -> 0 <= from <= h -> h + MAX_BLOCKS + 1 < u64_bound ->
  let to := last_to_gather from MAX_BLOCKS h in
  exists enough, forall fuel, (enough <= fuel)%nat ->
    gathering fuel m from = Returned (Ok (to, flat_map messages_at (urange from (to + 1)))).
Proof using Hwf.
  unfold honest_at, messages_at, settlement_wf in *.
  destruct settlement as [logs_at|events_at], m as [node|node]; try done; intros Hh Hf Hb; simpl.
  - exists 0%nat. intros _ _. by apply ethereum_gather_spec.
  - by apply gather_spec.
Qed.

Lemma settled_gather fuel m from r :
  0 <= from -> gathering fuel m from = Returned r ->
  fails m from \/ (exists h, honest_at m h /\ from <= h + 1 /\ h + MAX_BLOCKS + 2 < u64_bound) ->
  (exists e, r = Err e) \/
  exists to, r = Ok (to, flat_map messages_at (urange from (to + 1))) /\ from - 1 <= to /\ to + 1 < u64_bound.
Proof using Hwf.
  intros H0 Hr [Hfail|(h & Hh & Hle & Hb)]; [left; by eapply failed_gather|].
  assert ((exists e, r = Err e) \/ exists to,
    r = Ok (to, flat_map messages_at (urange from (to + 1))) /\ from - 1 <= to <= h) as [?|(to & -> & Hto)].
  { unfold honest_at, messages_at, settlement_wf in *.
    destruct settlement as [logs_at|events_at], m as [node|node]; try done.
    - by eapply ethereum_gather_returned; [..|exact Hr].
    - right. eapply gather_returned; [..|exact Hr]; try done; lia. }
  - by left.
  - right. exists to. unfold MAX_BLOCKS in Hb. split; [done|lia].
Qed.

(** Messages with the time they were added at. *)
Fixpoint add_timed (l : list (Z * L1HandlerTx)) (p : PoolT) : option PoolT :=
  match l with
  | [] => Some p
  | (now, tx) :: l => '(_, p) ← add_transaction try_send now (message_tx pedersen tx) p; add_timed l p
  end.

Inductive service_runs (s0 : MessagingService) (p0 : PoolT) : MessagingService -> PoolT -> Prop :=
  | service_start : service_runs s0 p0 s0 p0
  | service_poll tick gather now s p r s' p' :
      service_runs s0 p0 s p -> settles (gather_from_block s) (gather (gather_from_block s)) ->
      messaging_poll_next try_send pedersen tick gather now s p = Some (r, s', p') ->
      service_runs s0 p0 s' p'.

Lemma add_timed_app l1 l2 p p1 :
  add_timed l1 p = Some p1 -> add_timed (l1 ++ l2) p = add_timed l2 p1.
Proof.
  revert p. induction l1 as [|[now tx] l1 IH]; intros p; simpl; [by intros [= ->]|].
  destruct (add_transaction _ _ _ _) as [[r q]|]; [|done]. apply IH.
Qed.

Lemma add_messages_timed now txs (p : PoolT) :
  add_messages try_send pedersen now txs p = add_timed (map (pair now) txs) p.
Proof.
  revert p. induction txs as [|tx txs IH]; intros p; [done|]. simpl.
  destruct (add_transaction _ _ _ _) as [[r q]|]; [|done]. apply IH.
Qed.

Definition service_ok (start : Z) (p0 : PoolT) (s : MessagingService) (p : PoolT) : Prop :=
  start <= gather_from_block s < u64_bound /\
  (forall b, msg_gather_fut s = Some b -> b = gather_from_block s) /\
  exists l, map snd l = flat_map messages_at (urange start (gather_from_block s)) /\
    add_timed l p0 = Some p.

Lemma service_poll_ok start p0 tick gather now s p r s' p' :
  0 <= start -> service_ok start p0 s p -> settles (gather_from_block s) (gather (gather_from_block s)) ->
  messaging_poll_next try_send pedersen tick gather now s p = Some (r, s', p') ->
  service_ok start p0 s' p'.
Proof.
  intros H0 (Hs & Hf & l & Hl & Hadd) Hg. unfold messaging_poll_next.
  set (fut := match msg_gather_fut s with None => _ | Some b => Some b end).
  assert (forall b, fut = Some b -> b = gather_from_block s) as Hfut.
  { intros b Hb. subst fut. destruct (msg_gather_fut s) as [b'|] eqn:Eb; [|by destruct tick; simplify_eq].
    injection Hb as <-. by apply Hf. }
  assert (forall fut', (forall b, fut' = Some b -> b = gather_from_block s) ->
    service_ok start p0 (mkMessaging (gather_from_block s) fut') p) as Hkeep.
  { intros fut' Hf'. unfold service_ok. simpl. split; [done|]. split; [done|]. by exists l. }
  destruct fut as [from|]; [|intros [= _ <- <-]; by apply Hkeep].
  rewrite (Hfut from eq_refl) in *. clear from Hfut.
  destruct Hg as [->|(m & fuel & -> & Hm)].
  { intros [= _ <- <-]. apply Hkeep. by intros b [= <-]. }
  destruct (gathering fuel m (gather_from_block s)) as [res| |] eqn:Hres; [|done..].
  destruct (settled_gather fuel m (gather_from_block s) res ltac:(lia) Hres Hm) as [[e ->]|(to & -> & Hto)].
  { intros [= _ <- <-]. by apply Hkeep. }
  rewrite add_messages_timed.
  destruct (add_timed _ p) as [q|] eqn:Hq; [|done]. simpl. intros [= _ <- <-].
  unfold wrap64. rewrite Z.mod_small by lia. unfold service_ok. simpl. split; [lia|]. split; [done|].
  exists (l ++ map (pair now) (flat_map messages_at (urange (gather_from_block s) (to + 1)))).
  split; [|by rewrite (add_timed_app _ _ _ p)].
  rewrite map_app, Hl, map_map. simpl. rewrite map_id.
  by rewrite <- (urange_app start (gather_from_block s) (to + 1)), flat_map_app by lia.
Qed.

(** C15. Messages are gathered once and in order: in any run of the service on Ethereum or
    Starknet as settlement chain, with nodes that do not fall behind and fail at any time,
    the pool was given exactly the messages of the blocks from the configured one up to
    the one before [gather_from_block], in the order of the chain.  With a node at height
    [h] and, on Starknet, enough fuel for its pages, a poll on a tick gets past
    [min(h, from + 200)].  A run goes on as long as nothing panics: every message of the
    chain converts, and on Starknet a request for events that fails ends it. *)
Theorem messages_gathered_once start p0 s p :
  0 <= start < u64_bound -> service_runs (mkMessaging start None) p0 s p ->
  (exists l, map snd l = flat_map messages_at (urange start (gather_from_block s)) /\
    add_timed l p0 = Some p) /\
  forall m h now,
    honest_at m h -> gather_from_block s <= h -> h + MAX_BLOCKS + 1 < u64_bound ->
    let to := last_to_gather (gather_from_block s) MAX_BLOCKS h in
    exists enough, forall fuel, (enough <= fuel)%nat ->
      let gather from := Ready (gathering fuel m from) in
      messaging_poll_next try_send pedersen true gather now s p
      = (q ← add_messages try_send pedersen now (flat_map messages_at (urange (gather_from_block s) (to + 1))) p;
         Some (Ready (Some (mkMessagingOutcome to (Z.of_nat (length
                 (flat_map messages_at (urange (gather_from_block s) (to + 1))))))),
               mkMessaging (to + 1) None, q)) /\
      Z.min h (gather_from_block s + MAX_BLOCKS) <= to.
Proof using Hwf.
  intros H0 Hrun. assert (service_ok start p0 s p) as Hok.
  { induction Hrun as [|tick gather now s p r s' p' _ IH Hg Hp]; [|by eapply service_poll_ok; [lia|..]].
    unfold service_ok. simpl. split; [lia|]. split; [done|]. exists []. by rewrite urange_nil by lia. }
  destruct Hok as (Hs & Hf & Hl). split; [done|]. intros m h now Hn Hle Hb to.
  destruct (honest_gather m (gather_from_block s) h Hn) as (enough & He); [lia|done|].
  exists enough. intros fuel Hfuel gather. pose proof (He fuel Hfuel) as Hr. fold to in Hr.
  pose proof (last_to_gather_bounds (gather_from_block s) h ltac:(lia) Hb) as Hto. fold to in Hto.
  split.
  - unfold messaging_poll_next.
    assert (match msg_gather_fut s with None => Some (gather_from_block s) | Some b => Some b end
      = Some (gather_from_block s)) as ->.
    { destruct (msg_gather_fut s) as [b|]; [|done]. by rewrite (Hf b eq_refl). }
    unfold gather. rewrite Hr. unfold MAX_BLOCKS in Hb.
    destruct (add_messages _ _ _ _ _); [|done]. simpl. unfold wrap64. by rewrite Z.mod_small by lia.
  - subst to. unfold last_to_gather, MAX_BLOCKS, wrap64 in *. rewrite !Z.mod_small by lia.
    destruct (Z.ltb_spec (gather_from_block s + 200 + 1) h); lia.
Qed.

End ServiceRuns.

Section Behind.
Context {E : Type} (poseidon : list Z -> Z) (key : Z) (chain_id : ChainId).
Context {C V O L : Type} {VA : Validator V (ExecutableTxWithHash C)}.
Context {PO : PoolOrd O (ExecutableTxWithHash C)} {BT : BTreeSetImpl}.
Context {CH : UnboundedChannel (PendingTx (ExecutableTxWithHash C) (PriorityValue O (ExecutableTxWithHash C)))}.
Context (try_send : L -> Z -> TrySend * L) (pedersen : list Z -> Z).
Abbreviation PoolT := (Pool (ExecutableTxWithHash C) V O L).

(** A Starknet node that is behind the block to gather from moves the service
    back: the next gathering starts right after the node's height.  A configured first
    block in the future is forgotten, and messages gathered before are gathered again. *)
Theorem behind_node_rewinds fuel (node : StarknetNode E) h now s (p : PoolT) :
  sn_block_number node = Ok h -> 0 <= h < gather_from_block s -> gather_from_block s < u64_bound ->
  msg_gather_fut s = None ->
  exists outcome,
    messaging_poll_next try_send pedersen true
      (fun from => Ready (starknet_gather_messages poseidon key fuel node from MAX_BLOCKS chain_id)) now s p
    = Some (outcome, mkMessaging (h + 1) None, p) /\ h + 1 <= gather_from_block s.
Proof.
  intros Hh Hlt Hb Hf. unfold messaging_poll_next. rewrite Hf. unfold starknet_gather_messages. rewrite Hh.
  destruct (Z.ltb_spec h (gather_from_block s)); [|lia]. simpl. eexists. split; [|lia].
  unfold wrap64. by rewrite Z.mod_small by lia.
Qed.
End Behind.

(** ** Messages and the validator of the pool *)
Section Dropped.
Context {C St BlockEnv CfgEnv O L : Type}.
Context (sp_class : St -> Z -> result Z (option C)) (sp_nonce : St -> Z -> result Z (option Z)).
Context (perform_validations :
  St -> BlockEnv -> CfgEnv -> ExecutableTxWithHash C -> ExecutionFlags -> result StatefulValidatorError unit).
Context (fee_err_text : TransactionFeeError -> Z) (exec_err_text : TransactionExecutionError -> Z)
  (join_text : list Z -> Z) (box_text : BoxedError -> Z).
Context {PO : PoolOrd O (ExecutableTxWithHash C)} {BT : BTreeSetImpl}.
Context {CH : UnboundedChannel (PendingTx (ExecutableTxWithHash C) (PriorityValue O (ExecutableTxWithHash C)))}.
Context (try_send : L -> Z -> TrySend * L) (pedersen : list Z -> Z).
Abbreviation V := (TxValidator St BlockEnv CfgEnv).
#[local] Instance stateful_validator : Validator V (ExecutableTxWithHash C) :=
  TxValidator_Validator sp_class sp_nonce perform_validations fee_err_text exec_err_text join_text box_text.

(** The pool turns messages away: a message whose nonce, a counter of the
    settlement contract, is above the nonce of the contract it is sent to is taken for
    a transaction that waits for others of its sender.  The error is ignored and the
    message is gone, since the service has moved past its block. *)
Theorem l1_message_dropped now tx (p : Pool (ExecutableTxWithHash C) V O L) current :
  current_nonce sp_nonce (validator p) (l1h_contract_address tx) = Some current ->
  current < l1h_nonce tx ->
  add_transaction try_send now (message_tx pedersen tx) p
    = Some (Err (InvalidTransaction (InvalidNonce (l1h_contract_address tx) current (l1h_nonce tx))), p) /\
  add_messages try_send pedersen now [tx] p = Some p.
Proof.
  intros Hc Hlt.
  assert (add_transaction try_send now (message_tx pedersen tx) p
    = Some (Err (InvalidTransaction (InvalidNonce (l1h_contract_address tx) current (l1h_nonce tx))), p)) as H.
  { assert (validate (validator p) (message_tx pedersen tx)
      = Some (Ok (Dependent (message_tx pedersen tx) (l1h_nonce tx) current), validator p)) as Hv.
    { unfold validate, stateful_validator, TxValidator_Validator, tx_validate.
      change (pt_nonce (message_tx pedersen tx)) with (Some (l1h_nonce tx)).
      change (pt_sender (message_tx pedersen tx)) with (l1h_contract_address tx).
      unfold declare_check. rewrite Hc. by destruct (Z.ltb_spec current (l1h_nonce tx)); [|lia]. }
    unfold add_transaction. rewrite Hv. by destruct p. }
  split; [done|]. simpl. by rewrite H.
Qed.
End Dropped.

(** ** Witnesses: a settlement chain of height 3 with a message in block 2 *)
Definition demo_event : EmittedEvent := mkEmitted [77; 1; 12; 13] [14; 0; 1; 15] (Some 2).
Definition demo_events (b : Z) : list EmittedEvent := if b =? 2 then [demo_event] else [].
Definition demo_node : StarknetNode unit :=
  mkStarknetNode (Ok 3) (fun from to _ => Ok (flat_map demo_events (urange from (to + 1)), None)).
Definition first_felt (l : list Z) : Z := default 0 (head l).
Definition demo_start : DemoPool := pool_new mkNoopValidator FiFo_new.
(** The same on Ethereum: a log is its message and its block. *)
Definition demo_log : LogMessageToL2 * Z := (mkLogMessage 12 13 14 [15] 0 30000, 2).
Definition demo_logs (b : Z) : list (LogMessageToL2 * Z) := if b =? 2 then [demo_log] else [].
Definition demo_ethereum : EthereumNode (LogMessageToL2 * Z) unit :=
  mkEthereumNode (Ok 3)
    (fun from to => if to <? from then Err tt else Ok (flat_map demo_logs (urange from (to + 1)))).
Definition demo_gathering (m : MessengerMode (LogMessageToL2 * Z) unit) (from : Z)
    : Poll (Outcome (result MessagingError (Z * list L1HandlerTx))) :=
  Ready (gather_messages first_felt 77 (fun l => Some l.2) (fun l => Some l.1) Some (fun a _ _ _ _ => a) 5 m
           from (Id 1)).

Lemma demo_events_wf b : Forall (well_formed 77 b) (demo_events b).
Proof.
  unfold demo_events. destruct (Z.eqb_spec b 2) as [->|]; repeat constructor; simpl; lia.
Qed.
Lemma demo_node_honest : honest demo_events demo_node 3.
Proof. split; [done|]. intros from to _. by constructor. Qed.

Lemma demo_logs_wf b :
  Forall (well_formed_log (fun l => Some l.2) (fun l => Some l.1) Some b) (demo_logs b).
Proof.
  unfold demo_logs. destruct (Z.eqb_spec b 2) as [->|]; [|done]. constructor; [|done].
  split; [done|]. exists (mkLogMessage 12 13 14 [15] 0 30000). split_and!; try done; by repeat constructor.
Qed.
Lemma demo_ethereum_honest : honest_ethereum demo_logs demo_ethereum 3.
Proof.
  split_and!; [done|..]; intros from to Hft; simpl; destruct (Z.ltb_spec to from); try lia; try done.
  right. by eexists.
Qed.

Definition demo_polled m : option (MessagingService * DemoPool) :=
  '(_, s, p) ← messaging_poll_next demo_try_send first_felt true (demo_gathering m) 9 (mkMessaging 0 None)
                 demo_start;
  Some (s, p).
Abbreviation demo_messages c :=
  (messages_at first_felt 77 (Id 1) (fun l : LogMessageToL2 * Z => Some l.1) Some (fun a _ _ _ _ => a) c).

Lemma demo_polled_from :
  (fun sp => gather_from_block (fst sp)) <$> demo_polled (Starknet demo_node) = Some 4 /\
  (fun sp => gather_from_block (fst sp)) <$> demo_polled (Ethereum demo_ethereum) = Some 4 /\
  length (flat_map (demo_messages (OnEthereum demo_logs)) (urange 0 4)) = 1%nat.
Proof. by vm_compute. Qed.

Lemma messages_gathered_once_witness :
  (exists s p, demo_polled (Starknet demo_node) = Some (s, p) /\ gather_from_block s = 4 /\
    exists l, map snd l = flat_map (demo_messages (OnStarknet demo_events)) (urange 0 (gather_from_block s)) /\
      add_timed demo_try_send first_felt l demo_start = Some p) /\
  exists s p, demo_polled (Ethereum demo_ethereum) = Some (s, p) /\ gather_from_block s = 4 /\
    exists l, map snd l = flat_map (demo_messages (OnEthereum demo_logs)) (urange 0 (gather_from_block s)) /\
      add_timed demo_try_send first_felt l demo_start = Some p.
Proof.
  assert (forall c m h,
    settlement_wf 77 (fun l => Some l.2) (fun l => Some l.1) Some c ->
    honest_at (Log := LogMessageToL2 * Z) c m h -> 0 <= h + 1 -> h + MAX_BLOCKS + 2 < u64_bound ->
    (fun sp => gather_from_block (fst sp)) <$> demo_polled m = Some 4 ->
    exists s p, demo_polled m = Some (s, p) /\ gather_from_block s = 4 /\
      exists l, map snd l = flat_map (demo_messages c) (urange 0 (gather_from_block s)) /\
        add_timed demo_try_send first_felt l demo_start = Some p) as Hgen.
  { intros c m h Hw Hh H0 Hb Hfrom. destruct (demo_polled m) as [[s p]|] eqn:Hp; [|done].
    exists s, p. split; [done|]. injection Hfrom as Hfrom. split; [done|]. unfold demo_polled in Hp.
    destruct (messaging_poll_next _ _ _ _ _ _ _) as [[[r s'] p']|] eqn:Hpoll; [|done]. injection Hp as -> ->.
    apply (messages_gathered_once (E := unit) first_felt 77 (Id 1) (fun l => Some l.2) (fun l => Some l.1) Some
             (fun a _ _ _ _ => a) demo_try_send first_felt c Hw 0 demo_start s p); [unfold u64_bound; lia|].
    eapply service_poll; [apply service_start| |exact Hpoll].
    right. exists m, 5%nat. split; [done|]. right. exists h. split; [exact Hh|]. simpl. split; [lia|done]. }
  destruct demo_polled_from as (H1 & H2 & _). split.
  - apply (Hgen (OnStarknet demo_events) _ 3); [exact demo_events_wf|exact demo_node_honest|lia|reflexivity|exact H1].
  - apply (Hgen (OnEthereum demo_logs) _ 3);
      [exact demo_logs_wf|exact demo_ethereum_honest|lia|reflexivity|exact H2].
Defined.

Lemma behind_node_rewinds_witness :
  exists outcome,
    messaging_poll_next demo_try_send first_felt true
      (fun from => Ready (starknet_gather_messages first_felt 77 5 demo_node from MAX_BLOCKS (Id 1))) 9
      (mkMessaging 100 None) demo_start
    = Some (outcome, mkMessaging 4 None, demo_start) /\ 3 + 1 <= 100.
Proof.
  apply (behind_node_rewinds first_felt 77 (Id 1) demo_try_send first_felt 5 demo_node 3 9
           (mkMessaging 100 None) demo_start); [reflexivity|simpl; lia|reflexivity|reflexivity].
Defined.

Definition demo_message : L1HandlerTx :=
  {| l1h_nonce := 783082; l1h_chain_id := Id 1; l1h_paid_fee_on_l1 := 30000; l1h_version := 0;
     l1h_message_hash := 0; l1h_calldata := []; l1h_contract_address := 5; l1h_entry_point_selector := 6 |}.
Lemma l1_message_dropped_witness :
  let p : Pool (ExecutableTxWithHash unit) (TxValidator unit unit unit) FiFo bool :=
    pool_new demo_validator FiFo_new in
  add_messages (VA := stateful_validator demo_class demo_nonce demo_accept zero_text zero_text zero_text zero_text)
    demo_try_send first_felt 9 [demo_message] p = Some p.
Proof.
  intros p.
  apply (l1_message_dropped demo_class demo_nonce demo_accept zero_text zero_text zero_text zero_text
           demo_try_send first_felt 9 demo_message p 0); reflexivity.
Defined.
