(* ===== verification/TrieDb.v ===== *)
(** * The tries' tables and their snapshots
    ([crates/storage/db/src/trie/mod.rs], [trie/snapshot.rs], [models/trie.rs])

    A trie of bonsai-trie keeps its nodes in a table.  [TrieDbMut] writes them and
    remembers what was written until the trie is committed; [snapshot] then records
    the writes as the history of the block, and [SnapshotTrieDb] reads the nodes as
    they were at a block from that history.  A read-only [TrieDb] reads the table as it
    is.  The model is of one trie; the classes, contracts and storages tries have one set of tables each. *)

From Stdlib Require Import ZArith Lia.
From stdpp Require Import base numbers list gmap.
From S2P Require Import Prelude Felt Codec Mdbx DbProvider DbState.

(** ** Keys and entries *)
Inductive TrieDatabaseKeyType := KeyTrie | KeyFlat | KeyTrieLog.
Record TrieDatabaseKey := mkTrieKey { tdk_type : TrieDatabaseKeyType; tdk_key : list Z }.

Definition key_type_byte (t : TrieDatabaseKeyType) : Z :=
  match t with KeyTrie => 0 | KeyFlat => 1 | KeyTrieLog => 2 end.
(** [TryFrom<u8>]; the error carries the byte. *)
Definition key_type_of (b : Z) : result Z TrieDatabaseKeyType :=
  if Z.eqb b 0 then Ok KeyTrie else if Z.eqb b 1 then Ok KeyFlat
  else if Z.eqb b 2 then Ok KeyTrieLog else Err b.

#[export] Instance TrieDatabaseKeyType_eq_dec : EqDecision TrieDatabaseKeyType.
Proof. solve_decision. Defined.
#[export] Instance TrieDatabaseKey_eq_dec : EqDecision TrieDatabaseKey.
Proof. solve_decision. Defined.
#[export] Instance TrieDatabaseKey_countable : Countable TrieDatabaseKey.
Proof.
  apply (inj_countable (fun k => (key_type_byte (tdk_type k), tdk_key k))
    (fun p => match key_type_of p.1 with Ok t => Some (mkTrieKey t p.2) | Err _ => None end)).
  by intros [[] k].
Defined.

(** [self.key.len() as u8] keeps the low byte. *)
Definition encode_trie_key (k : TrieDatabaseKey) : list Z :=
  key_type_byte (tdk_type k) :: Z.of_nat (length (tdk_key k)) mod 256 :: tdk_key k.
(** [None] is one of the panics: a short buffer or an unknown type. *)
Definition decode_trie_key (b : list Z) : option TrieDatabaseKey :=
  match b with
  | t :: n :: rest =>
      match key_type_of t with
      | Err _ => None
      | Ok t =>
          if (length rest <? Z.to_nat n)%nat then None
          else Some (mkTrieKey t (take (Z.to_nat n) rest))
      end
  | _ => None
  end.

(** The serialised form of a node's bytes, by postcard. *)
Class BytesPostcard := {
  bytes_compress : list Z -> list Z;
  bytes_decompress : list Z -> result CodecError (list Z);
  bytes_decompress_compress v : bytes_decompress (bytes_compress v) = Ok v;
}.

Record TrieHistoryEntry := mkTrieEntry { the_key : TrieDatabaseKey; the_value : list Z }.

Definition compress_trie_entry `{BytesPostcard} (e : TrieHistoryEntry) : list Z :=
  encode_trie_key (the_key e) ++ bytes_compress (the_value e).
Definition decompress_trie_entry `{BytesPostcard} (b : list Z)
    : option (result CodecError TrieHistoryEntry) :=
  key ← decode_trie_key b;
  let key_bytes_length := (1 + 1 + length (tdk_key key))%nat in
  rest ← slice_from key_bytes_length b;
  Some (value ← bytes_decompress rest; Ok (mkTrieEntry key value)).

#[export] Instance TrieHistory_DupSort `{BytesPostcard} : DupSort TrieHistoryEntry TrieDatabaseKey := {
  dv_sub := the_key;
  dv_encode := encode_trie_key;
  dv_tail e := bytes_compress (the_value e);
}.

(** ** Bonsai's keys *)
Inductive DatabaseKey :=
  | DbTrie (bytes : list Z)
  | DbFlat (bytes : list Z)
  | DbTrieLog (bytes : list Z).
Definition database_key_bytes (k : DatabaseKey) : list Z :=
  match k with DbTrie b | DbFlat b | DbTrieLog b => b end.
Definition to_db_key (k : DatabaseKey) : TrieDatabaseKey :=
  match k with
  | DbFlat bytes => mkTrieKey KeyFlat bytes
  | DbTrie bytes => mkTrieKey KeyTrie bytes
  | DbTrieLog bytes => mkTrieKey KeyTrieLog bytes
  end.

(** [slice::starts_with]. *)
Fixpoint starts_with (prefix b : list Z) : bool :=
  match prefix, b with
  | [], _ => true
  | x :: prefix, y :: b => Z.eqb x y && starts_with prefix b
  | _ :: _, [] => false
  end.

Section TrieDb.
Context `{MD : Mdbx} `{RT : RoaringTreemap} `{BP : BytesPostcard}.

(** ** The tables of one trie *)
Record TrieTables := mkTrieTables {
  tr_trie : tbl TrieDatabaseKey (list Z);
  tr_history : dtbl TrieHistoryEntry;
  tr_changeset : tbl TrieDatabaseKey rt;
}.
Definition TrieTables_empty : TrieTables := mkTrieTables t_empty d_empty t_empty.

(** [TrieDb]: the trie as it is. *)
Definition trie_get (key : DatabaseKey) (t : TrieTables) : option (list Z) :=
  t_get (tr_trie t) (to_db_key key).
Definition trie_contains (key : DatabaseKey) (t : TrieTables) : bool :=
  match t_get (tr_trie t) (to_db_key key) with Some _ => true | None => false end.

(** ** [TrieDbMut] *)
Record TrieDbMut := mkTrieDbMut {
  tdm_tx : TrieTables;
  write_cache : gmap TrieDatabaseKey (list Z);
}.
Definition TrieDbMut_new (tx : TrieTables) : TrieDbMut := mkTrieDbMut tx ∅.

Definition with_trie (t : TrieTables) (trie : tbl TrieDatabaseKey (list Z)) : TrieTables :=
  mkTrieTables trie (tr_history t) (tr_changeset t).

Definition trie_insert (key : DatabaseKey) (value : list Z) (db : TrieDbMut)
    : option (list Z) * TrieDbMut :=
  let key := to_db_key key in
  let old_value := t_get (tr_trie (tdm_tx db)) key in
  (old_value,
   mkTrieDbMut (with_trie (tdm_tx db) (t_put key value (tr_trie (tdm_tx db))))
     (<[key := value]> (write_cache db))).

(** The removed key stays in the write cache if it was written before. *)
Definition trie_remove (key : DatabaseKey) (db : TrieDbMut) : option (list Z) * TrieDbMut :=
  let key := to_db_key key in
  let old_value := t_get (tr_trie (tdm_tx db)) key in
  (old_value,
   mkTrieDbMut (with_trie (tdm_tx db) (t_delete key (tr_trie (tdm_tx db)))) (write_cache db)).

(** The prefix is compared with the keys of every type. *)
Definition trie_remove_by_prefix (prefix : DatabaseKey) (db : TrieDbMut) : TrieDbMut :=
  let keys_to_remove :=
    filter (fun key => starts_with (database_key_bytes prefix) (tdk_key key) = true)
      (map fst (t_walk (tr_trie (tdm_tx db)))) in
  mkTrieDbMut
    (with_trie (tdm_tx db)
       (fold_left (fun t key => t_delete key t) keys_to_remove (tr_trie (tdm_tx db))))
    (write_cache db).

(** One entry of the snapshot: the change set of the key, then the history. *)
Definition snapshot_entry (block_number : Z) (t : TrieTables) (e : TrieDatabaseKey * list Z)
    : TrieTables :=
  let set := default rt_empty (t_get (tr_changeset t) e.1) in
  mkTrieTables (tr_trie t)
    (d_put block_number (mkTrieEntry e.1 e.2) (tr_history t))
    (t_put e.1 (rt_insert block_number set) (tr_changeset t)).

(** [snapshot]: the cache is taken and its entries recorded. *)
Definition snapshot (block_number : Z) (db : TrieDbMut) : TrieDbMut :=
  mkTrieDbMut (fold_left (snapshot_entry block_number) (map_to_list (write_cache db)) (tdm_tx db)) ∅.

(** ** [SnapshotTrieDb]: [None] is the panic on a missing entry. *)
Definition snapshot_get (block_number : Z) (key : DatabaseKey) (t : TrieTables)
    : option (option (list Z)) :=
  let key := to_db_key key in
  match t_get (tr_changeset t) key ≫= recent_change_from_block block_number with
  | None => Some None
  | Some num =>
      entry ← dup_seek key (d_vals (tr_history t) num);
      Some (if decide (the_key entry = key) then Some (the_value entry) else None)
  end.

(** ** Sessions: what a trie does to its database between two commits *)
Inductive TrieOp :=
  | TrieInsert (key : DatabaseKey) (value : list Z)
  | TrieRemove (key : DatabaseKey)
  | TrieRemovePrefix (prefix : DatabaseKey).
Definition trie_op (db : TrieDbMut) (op : TrieOp) : TrieDbMut :=
  match op with
  | TrieInsert key value => (trie_insert key value db).2
  | TrieRemove key => (trie_remove key db).2
  | TrieRemovePrefix prefix => trie_remove_by_prefix prefix db
  end.
Definition trie_session (block_number : Z) (t : TrieTables) (ops : list TrieOp) : TrieTables :=
  tdm_tx (snapshot block_number (fold_left trie_op ops (TrieDbMut_new t))).
(** A block commits one session for each of its tries. *)
Definition trie_block (t : TrieTables) (b : Z * list (list TrieOp)) : TrieTables :=
  fold_left (trie_session b.1) b.2 t.
Definition trie_blocks (blocks : list (Z * list (list TrieOp))) : TrieTables :=
  fold_left trie_block blocks TrieTables_empty.
End TrieDb.
