(* ===== verification/TrieDbProofs.v ===== *)
(** * What a snapshot of a trie reads

    The history tables of a trie refine the log of its commits, and a snapshot at a
    block reads the trie as it was right after that block's commit, as long as the
    trie only inserted nodes.  Removals are not recorded: a snapshot still has the
    nodes that were removed. *)

From Stdlib Require Import ZArith Lia.
From stdpp Require Import base numbers list gmap sets sorting.
From S2P Require Import Prelude Felt Codec Mdbx ChangeLog DbProvider DbState TrieDb.

(** ** Codecs *)
Definition valid_trie_key (k : TrieDatabaseKey) : Prop := (length (tdk_key k) < 256)%nat.

Lemma key_type_of_byte t : key_type_of (key_type_byte t) = Ok t.
Proof. by destruct t. Qed.
Lemma key_length_byte k : valid_trie_key k -> Z.of_nat (length (tdk_key k)) mod 256 = Z.of_nat (length (tdk_key k)).
Proof. intros Hk. apply Z.mod_small. unfold valid_trie_key in Hk. lia. Qed.

(** The length in front of a key makes the encoding prefix free. *)
Lemma trie_key_squeezes : squeezes valid_trie_key encode_trie_key.
Proof.
  intros [ty ks] [ty' ks'] t t' Hv Hv'. unfold encode_trie_key.
  rewrite !key_length_byte by done. simpl. intros H1 H2.
  assert (key_type_byte ty = key_type_byte ty' /\ length ks = length ks') as [Hty Hlen].
  { repeat match type of H1 with context [Z.ltb ?a ?b] => destruct (Z.ltb_spec a b) end;
      repeat match type of H1 with context [Z.eqb ?a ?b] => destruct (Z.eqb_spec a b) end;
      repeat match type of H2 with context [Z.ltb ?a ?b] => destruct (Z.ltb_spec a b) end;
      repeat match type of H2 with context [Z.eqb ?a ?b] => destruct (Z.eqb_spec a b) end;
      try done; lia. }
  rewrite Hty, Hlen, !Z.ltb_irrefl, !Z.eqb_refl in H1.
  rewrite Hty, Hlen, !Z.ltb_irrefl, !Z.eqb_refl in H2.
  f_equal; [by destruct ty, ty'|]. by eapply lex_squeeze.
Qed.

Section Codecs.
Context `{BP : BytesPostcard}.

Lemma decode_encode_trie_key k rest :
  valid_trie_key k -> decode_trie_key (encode_trie_key k ++ rest) = Some k.
Proof.
  intros Hk. unfold encode_trie_key, decode_trie_key. simpl.
  rewrite key_type_of_byte, key_length_byte, Nat2Z.id by done.
  destruct (Nat.ltb_spec (length (tdk_key k ++ rest)) (length (tdk_key k))) as [Hlt|_].
  { rewrite length_app in Hlt. lia. }
  rewrite take_app_length. by destruct k.
Qed.

(** A history entry is read back as it was written when its key is shorter than 256
    bytes, whose length is stored in one byte. *)
Lemma trie_entry_roundtrip e :
  valid_trie_key (the_key e) -> decompress_trie_entry (compress_trie_entry e) = Some (Ok e).
Proof.
  intros Hk. unfold decompress_trie_entry, compress_trie_entry.
  rewrite decode_encode_trie_key by done. cbn [mbind option_bind].
  assert (Hl : (1 + 1 + length (tdk_key (the_key e)))%nat = length (encode_trie_key (the_key e))) by done.
  rewrite Hl, (proj2 (slice_app _ _ _ eq_refl)). cbn [mbind option_bind].
  rewrite bytes_decompress_compress. by destruct e.
Qed.
End Codecs.

Section Snapshots.
Context `{MD : Mdbx} `{RT : RoaringTreemap} `{BP : BytesPostcard}.
Implicit Types (t : TrieTables) (k : TrieDatabaseKey) (blocks : list (Z * list (list TrieOp))).

(** ** What a session records *)
Definition cache_op (c : gmap TrieDatabaseKey (list Z)) (op : TrieOp) : gmap TrieDatabaseKey (list Z) :=
  match op with TrieInsert key value => <[to_db_key key := value]> c | _ => c end.
(** The writes of a session, the last one of each key. *)
Definition session_writes (ops : list TrieOp) : list (TrieDatabaseKey * list Z) :=
  map_to_list (fold_left cache_op ops ∅).
(** The abstract log: what each block wrote. *)
Definition block_log (b : Z * list (list TrieOp)) : Z * list (TrieDatabaseKey * list Z) :=
  (b.1, flat_map session_writes b.2).
Definition trie_log blocks : list (Z * list (TrieDatabaseKey * list Z)) := map block_log blocks.

(** Blocks in order, every key written by one of a block's sessions. *)
Definition wf_blocks blocks : Prop :=
  wf_log (trie_log blocks) /\ valid_log valid_trie_key (trie_log blocks).

Definition changes_of t k : list Z :=
  match t_get (tr_changeset t) k with Some l => rt_elems l | None => [] end.

Lemma ops_cache ops : forall db,
  write_cache (fold_left trie_op ops db) = fold_left cache_op ops (write_cache db) /\
  tr_history (tdm_tx (fold_left trie_op ops db)) = tr_history (tdm_tx db) /\
  tr_changeset (tdm_tx (fold_left trie_op ops db)) = tr_changeset (tdm_tx db).
Proof.
  induction ops as [|op ops IH]; intros db; [done|]. simpl.
  destruct (IH (trie_op db op)) as (-> & -> & ->). by destruct op.
Qed.

Lemma snapshot_entries b l : forall t,
  let t' := fold_left (snapshot_entry b) l t in
  tr_trie t' = tr_trie t /\
  d_vals (tr_history t') b = put_all mkTrieEntry l (d_vals (tr_history t) b) /\
  (forall b', b' <> b -> d_vals (tr_history t') b' = d_vals (tr_history t) b') /\
  forall k x, x ∈ changes_of t' k <-> x ∈ changes_of t k \/ (x = b /\ k ∈ map fst l).
Proof.
  induction l as [|[k0 v0] l IH]; intros t; simpl; [set_solver|].
  destruct (IH (snapshot_entry b t (k0, v0))) as (H1 & H2 & H3 & H4). split; [done|]. split; [|split].
  - rewrite H2. unfold put_all. simpl. by rewrite d_vals_put, decide_True.
  - intros b' Hb. rewrite H3 by done. simpl. by rewrite d_vals_put, decide_False.
  - intros k x. rewrite H4. unfold changes_of at 1. simpl. rewrite t_get_put.
    case_decide as Hk; [subst k0|].
    + rewrite rt_elems_insert. unfold changes_of.
      destruct (t_get (tr_changeset t) k) as [s|]; simpl; [set_solver|]. rewrite rt_elems_empty. set_solver.
    + fold (changes_of t k). set_solver.
Qed.

Lemma session_tables b t ops :
  let t' := trie_session b t ops in
  tr_trie t' = tr_trie (tdm_tx (fold_left trie_op ops (TrieDbMut_new t))) /\
  d_vals (tr_history t') b = put_all mkTrieEntry (session_writes ops) (d_vals (tr_history t) b) /\
  (forall b', b' <> b -> d_vals (tr_history t') b' = d_vals (tr_history t) b') /\
  forall k x, x ∈ changes_of t' k <-> x ∈ changes_of t k \/ (x = b /\ k ∈ map fst (session_writes ops)).
Proof.
  intros t'. unfold t', trie_session, snapshot. cbn [tdm_tx].
  destruct (ops_cache ops (TrieDbMut_new t)) as (Hc & Hh & Hs). cbn [write_cache TrieDbMut_new] in Hc.
  rewrite Hc. fold (session_writes ops).
  destruct (snapshot_entries b (session_writes ops) (tdm_tx (fold_left trie_op ops (TrieDbMut_new t))))
    as (H1 & H2 & H3 & H4).
  split; [done|]. split; [by rewrite H2, Hh|]. split; [intros b' Hb; by rewrite H3, Hh|].
  intros k x. rewrite H4. unfold changes_of at 1. by rewrite Hs.
Qed.

Lemma block_tables b sessions : forall t,
  let t' := trie_block t (b, sessions) in
  let l := flat_map session_writes sessions in
  d_vals (tr_history t') b = put_all mkTrieEntry l (d_vals (tr_history t) b) /\
  (forall b', b' <> b -> d_vals (tr_history t') b' = d_vals (tr_history t) b') /\
  forall k x, x ∈ changes_of t' k <-> x ∈ changes_of t k \/ (x = b /\ k ∈ map fst l).
Proof.
  unfold trie_block. cbn [fst snd].
  induction sessions as [|ops sessions IH]; intros t; simpl; [set_solver|].
  destruct (session_tables b t ops) as (_ & S1 & S2 & S3).
  destruct (IH (trie_session b t ops)) as (H1 & H2 & H3). split; [|split].
  - rewrite H1, S1. unfold put_all. by rewrite fold_left_app.
  - intros b' Hb. by rewrite H2, S2.
  - intros k x. rewrite H3, S3, map_app. set_solver.
Qed.

Lemma trie_blocks_snoc blocks b : trie_blocks (blocks ++ [b]) = trie_block (trie_blocks blocks) b.
Proof. unfold trie_blocks. by rewrite fold_left_app. Qed.

Lemma wf_blocks_snoc blocks b : wf_blocks (blocks ++ [b]) -> wf_blocks blocks.
Proof.
  unfold wf_blocks, trie_log. rewrite map_app. intros [H1 H2]. destruct b as [n ss].
  apply wf_log_snoc in H1 as (H1 & _). apply Forall_app in H2 as [H2 _]. done.
Qed.

(** The tables represent the log. *)
Lemma trie_represents blocks :
  wf_blocks blocks ->
  represents the_value (changes_of (trie_blocks blocks)) (d_vals (tr_history (trie_blocks blocks)))
    (trie_log blocks).
Proof.
  induction blocks as [|[b sessions] blocks IH] using rev_ind; intros Hwf.
  - split; unfold changes_of, trie_blocks; simpl; intros *; rewrite ?t_get_empty, ?d_vals_empty; try constructor;
      set_solver.
  - specialize (IH (wf_blocks_snoc _ _ Hwf)). destruct Hwf as [Hwf Hval]. rewrite trie_blocks_snoc.
    unfold trie_log in *. rewrite map_app in *.
    destruct (block_tables b sessions (trie_blocks blocks)) as (H1 & H2 & H3).
    by eapply (represents_snoc (DS := TrieHistory_DupSort) the_value valid_trie_key trie_key_squeezes mkTrieEntry);
      [done|done|exact Hwf|exact Hval|exact IH|exact H3|exact H1|exact H2].
Qed.

Lemma snapshot_get_represents t log n key :
  wf_log log -> valid_log valid_trie_key log ->
  represents the_value (changes_of t) (d_vals (tr_history t)) log ->
  snapshot_get n key t = Some (value_at log n (to_db_key key)).
Proof.
  intros Hwf Hval Hr. unfold snapshot_get. set (k := to_db_key key).
  pose proof (represents_seek (DS := TrieHistory_DupSort) the_value valid_trie_key trie_key_squeezes _ _ _ n k
    (t_get (tr_changeset t) k ≫= recent_change_from_block n) Hwf Hval Hr) as Hseek.
  destruct (t_get (tr_changeset t) k ≫= recent_change_from_block n) as [b|] eqn:Hb.
  - destruct Hseek as (e & -> & Hk & ->).
    2: { cbn [mbind option_bind]. by rewrite decide_True. }
    unfold changes_of. destruct (t_get (tr_changeset t) k) as [l|]; [|done]. simpl in Hb.
    pose proof (recent_change_max n l) as H. by rewrite Hb in H.
  - rewrite Hseek; [done|]. unfold changes_of. destruct (t_get (tr_changeset t) k) as [l|]; [|set_solver].
    simpl in Hb. pose proof (recent_change_max n l) as H. by rewrite Hb in H.
Qed.

(** ** The trie itself *)
Definition inserts_only (ops : list TrieOp) : Prop :=
  Forall (fun op => match op with TrieInsert _ _ => True | _ => False end) ops.

Lemma inserts_table ops : forall db k,
  inserts_only ops ->
  (forall v, write_cache db !! k = Some v -> t_get (tr_trie (tdm_tx db)) k = Some v) ->
  t_get (tr_trie (tdm_tx (fold_left trie_op ops db))) k
  = match fold_left cache_op ops (write_cache db) !! k with
    | Some v => Some v
    | None => t_get (tr_trie (tdm_tx db)) k
    end.
Proof.
  induction ops as [|op ops IH]; intros db k Hi Hc; simpl.
  - destruct (write_cache db !! k) as [v|] eqn:Hk; [by apply Hc|done].
  - apply Forall_cons in Hi as [Hop Hi]. destruct op as [key v| |]; [|done..]. simpl.
    rewrite IH; [|done|].
    + simpl. destruct (fold_left cache_op ops _ !! k) as [w|] eqn:Hw; [done|].
      rewrite t_get_put. case_decide as Hk; [|done]. exfalso.
      assert (Hmono : forall l c, is_Some (c !! k) -> is_Some (fold_left cache_op l c !! k)).
      { clear. induction l as [|o l IH]; intros c Hc; [done|]. simpl. apply IH.
        destruct o as [key v| |]; simpl; [|done..]. rewrite lookup_insert. by case_decide. }
      destruct (Hmono ops (<[to_db_key key := v]> (write_cache db))) as [x Hx];
        [rewrite Hk, lookup_insert_eq; by eexists|congruence].
    + simpl. intros w. rewrite lookup_insert, t_get_put. case_decide; [done|]. apply Hc.
Qed.

Lemma assoc_app {V} k (l l' : list (TrieDatabaseKey * V)) :
  assoc k (l ++ l') = match assoc k l with Some v => Some v | None => assoc k l' end.
Proof. induction l as [|[k' v] l IH]; [done|]. simpl. by case_decide. Qed.

Lemma block_trie b sessions : forall t k,
  Forall inserts_only sessions -> NoDup (map fst (flat_map session_writes sessions)) ->
  t_get (tr_trie (trie_block t (b, sessions))) k
  = match assoc k (flat_map session_writes sessions) with
    | Some v => Some v
    | None => t_get (tr_trie t) k
    end.
Proof.
  unfold trie_block. cbn [fst snd].
  induction sessions as [|ops sessions IH]; intros t k Hi Hnd; [done|]. simpl in *.
  apply Forall_cons in Hi as [Hops Hi]. rewrite map_app in Hnd. apply NoDup_app in Hnd as (_ & Hdis & Hnd).
  rewrite IH by done. destruct (session_tables b t ops) as [-> _].
  rewrite inserts_table by (try done; simpl; intros v; by rewrite lookup_empty). simpl.
  rewrite assoc_app. unfold session_writes at 2. rewrite assoc_map_to_list.
  destruct (fold_left cache_op ops ∅ !! k) as [v|] eqn:Hk; [|done].
  replace (assoc k (flat_map session_writes sessions)) with (@None (list Z)); [done|].
  symmetry. apply assoc_None. apply Hdis. apply list_elem_of_fmap. exists (k, v). split; [done|].
  by apply elem_of_map_to_list.
Qed.

Lemma trie_value blocks n k :
  wf_blocks blocks -> Forall (fun b => Forall inserts_only b.2 /\ b.1 <= n) blocks ->
  t_get (tr_trie (trie_blocks blocks)) k = value_at (trie_log blocks) n k.
Proof.
  induction blocks as [|[b sessions] blocks IH] using rev_ind; intros Hwf Hall.
  - unfold trie_blocks. simpl. by rewrite t_get_empty.
  - specialize (IH (wf_blocks_snoc _ _ Hwf)). apply Forall_app in Hall as [Hall Hb].
    apply Forall_singleton in Hb as [Hi Hle]. simpl in *.
    destruct Hwf as [Hwf _]. unfold trie_log in *. rewrite map_app in *.
    apply wf_log_snoc in Hwf as (_ & Hnd & _).
    change (map block_log [(b, sessions)]) with [(b, flat_map session_writes sessions)].
    rewrite trie_blocks_snoc, block_trie, value_at_snoc by done.
    rewrite decide_True by done. by rewrite IH.
Qed.

Lemma value_at_later log log' n k :
  (forall e, e ∈ log' -> n < e.1) -> value_at (K := TrieDatabaseKey) (V := list Z) (log ++ log') n k = value_at log n k.
Proof.
  intros H. induction log' as [|[b l] log' IH] using rev_ind; [by rewrite app_nil_r|].
  rewrite app_assoc, value_at_snoc. rewrite decide_False.
  - apply IH. set_solver.
  - assert (n < b); [|lia]. apply (H (b, l)). set_solver.
Qed.

(** C16. A snapshot of a trie reads the past: after any sequence of block commits in
    which every key of a block is written by one of its tries, a snapshot at block [n]
    never meets a missing history entry and answers the last value written up to [n],
    whatever was written or removed later.  If the tries only inserted nodes, that is
    the value the trie itself had right after block [n]. *)
Theorem snapshot_reads_past pre post n key :
  wf_blocks (pre ++ post) ->
  (forall b, b ∈ pre -> b.1 <= n) -> (forall b, b ∈ post -> n < b.1) ->
  snapshot_get n key (trie_blocks (pre ++ post)) = Some (value_at (trie_log pre) n (to_db_key key)) /\
  (Forall (fun b => Forall inserts_only b.2) pre ->
   snapshot_get n key (trie_blocks (pre ++ post)) = Some (trie_get key (trie_blocks pre))).
Proof.
  intros Hwf Hpre Hpost.
  assert (Hread : snapshot_get n key (trie_blocks (pre ++ post)) = Some (value_at (trie_log pre) n (to_db_key key))).
  { rewrite (snapshot_get_represents _ (trie_log (pre ++ post))) by (by (apply Hwf || apply trie_represents)).
    f_equal. unfold trie_log. rewrite map_app. apply value_at_later.
    intros e (b & -> & Hb)%list_elem_of_fmap. by apply Hpost. }
  split; [done|]. intros Hi. rewrite Hread. f_equal. symmetry. apply trie_value.
  - clear Hread Hpre Hi. revert Hwf Hpost. induction post as [|b post IH] using rev_ind; [by rewrite app_nil_r|].
    rewrite app_assoc. intros Hwf%wf_blocks_snoc Hpost. apply IH; [done|]. set_solver.
  - rewrite Forall_forall in *. intros b Hb. split; [by apply Hi|by apply Hpre].
Qed.
End Snapshots.

(** ** Witness: three blocks, the second with two tries *)
#[local, refine] Instance plain_bytes : BytesPostcard := {
  bytes_compress v := v;
  bytes_decompress b := Ok b;
}.
Proof. done. Defined.
Definition node_a : DatabaseKey := DbTrie [1].
Definition node_b : DatabaseKey := DbTrie [2].
Definition demo_pre : list (Z * list (list TrieOp)) :=
  [(1, [[TrieInsert node_a [10]]]); (2, [[TrieInsert node_b [20]]; [TrieInsert (DbFlat [1]) [21]]])].
Definition demo_post : list (Z * list (list TrieOp)) := [(3, [[TrieInsert node_a [30]]])].

Lemma demo_blocks_wf : wf_blocks (demo_pre ++ demo_post).
Proof.
  split.
  - split; [repeat constructor; simpl; lia|]. repeat (constructor; [by vm_compute; repeat constructor; set_solver|]).
    constructor.
  - repeat constructor; vm_compute; lia.
Qed.

Lemma snapshot_reads_past_witness :
  snapshot_get 2 node_a (trie_blocks (demo_pre ++ demo_post)) = Some (trie_get node_a (trie_blocks demo_pre)) /\
  trie_get node_a (trie_blocks demo_pre) = Some [10] /\
  trie_get node_a (trie_blocks (demo_pre ++ demo_post)) = Some [30].
Proof.
  split; [|by vm_compute].
  apply (snapshot_reads_past demo_pre demo_post 2 node_a demo_blocks_wf).
  - unfold demo_pre. intros b. rewrite !elem_of_cons. intros [->|[->|H]]; [simpl; lia..|by apply not_elem_of_nil in H].
  - intros b ->%list_elem_of_singleton. simpl. lia.
  - repeat constructor.
Defined.

(** Removing a node is not recorded: block 2 removes the node that block 1 wrote,
    the trie no longer has it, and the snapshot at block 2 still does.  A node written
    and removed within one session even enters the history. *)
Theorem snapshot_keeps_removed :
  let t := trie_blocks [(1, [[TrieInsert node_a [10]]]);
                        (2, [[TrieRemove node_a; TrieInsert node_b [20]; TrieRemove node_b]])] in
  trie_get node_a t = None /\ snapshot_get 2 node_a t = Some (Some [10]) /\
  trie_get node_b t = None /\ snapshot_get 2 node_b t = Some (Some [20]).
Proof. by vm_compute. Qed.
