(* ===== verification/Prune.v ===== *)
(** * Pruning the history of the tries (bin/katana/src/cli/db/prune.rs)

    [katana db prune] removes the history of the tries, all of it or that of the blocks
    before the last [n].  The progress bars and the text of the prompt are left out;
    the answer to the prompt is an argument. *)

From Stdlib Require Import ZArith Lia.
From stdpp Require Import base numbers list gmap.
From S2P Require Import Prelude Felt Codec Versioned Mdbx DbProvider DbState TrieDb.

Inductive PruneMode :=
  | Latest
  | KeepLastN (blocks : Z).

Record PruneArgs := mkPruneArgs {
  pa_latest : bool;
  pa_keep_last_n : option Z;
  pa_skip_confirmation : bool;
}.

(** [None] is the [unreachable!] of arguments clap does not let through. *)
Definition prune_mode (args : PruneArgs) : option PruneMode :=
  if pa_latest args then Some Latest
  else match pa_keep_last_n args with
       | Some blocks => Some (KeepLastN blocks)
       | None => None
       end.

Inductive PruneError := KeepNothing.

(** The tables whose entries are counted. *)
Inductive HistoryTable :=
  | ClassesTrieHistory | ContractsTrieHistory | StoragesTrieHistory
  | ClassesTrieChangeSet | ContractsTrieChangeSet | StoragesTrieChangeSet.
Definition PruningStats : Type := list (HistoryTable * Z).
(** [table_entries_deletions.values().sum()]. *)
Definition total_deletions (stats : PruningStats) : Z :=
  foldr Z.add 0 (map snd stats).

Section Prune.
Context `{MD : Mdbx} `{RT : RoaringTreemap} `{BP : BytesPostcard}.

(** What pruning sees of the database. *)
Record TrieStore := mkTrieStore {
  ts_headers : tbl Z VersionedHeader;
  ts_classes : TrieTables;
  ts_contracts : TrieTables;
  ts_storages : TrieTables;
}.

Definition get_latest_block_number (s : TrieStore) : Z :=
  match t_last (ts_headers s) with Some (block_num, _) => block_num | None => 0 end.

(** ** History tables *)

(** [cursor.first()], and [cursor.next()] once the duplicates of the current key are
    deleted, which gives the entry that followed them. *)
Definition cursor_first {V} (t : dtbl V) : option Z := fst <$> head (d_walk t).
Definition cursor_next_after {V} (key : Z) (t : dtbl V) : option Z :=
  fst <$> List.find (fun e => Z.ltb key e.1) (d_walk t).

(** The loop; [None] when the fuel runs out. *)
Fixpoint prune_history_loop {V} (fuel : nat) (current_block cutoff_block : Z) (t : dtbl V)
    : option (dtbl V) :=
  match fuel with
  | 0%nat => None
  | S fuel =>
      if Z.leb current_block cutoff_block then
        let t := d_delete_key current_block t in
        match cursor_next_after current_block t with
        | Some next_block => prune_history_loop fuel next_block cutoff_block t
        | None => Some t
        end
      else Some t
  end.
(** A turn deletes at least one entry. *)
Definition prune_history_table {V} (cutoff_block : Z) (t : dtbl V) : option (dtbl V) :=
  match cursor_first t with
  | Some block => prune_history_loop (S (length (d_walk t))) block cutoff_block t
  | None => Some t
  end.

(** ** Change sets *)
Definition BATCH_SIZE : nat := 1000.

Definition apply_change (t : tbl TrieDatabaseKey rt) (change : TrieDatabaseKey * option rt)
    : tbl TrieDatabaseKey rt :=
  match change.2 with
  | Some block_list => t_put change.1 block_list t
  | None => t_delete change.1 t
  end.

(** What becomes of an entry, if it changes. *)
Definition pruned_entry (cutoff_block : Z) (e : TrieDatabaseKey * rt)
    : option (TrieDatabaseKey * option rt) :=
  let '(total_blocks_removed, block_list) := rt_remove_to cutoff_block e.2 in
  if Z.ltb 0 total_blocks_removed then
    Some (e.1, match rt_select block_list 0 with None => None | Some _ => Some block_list end)
  else None.

(** The walk, writing a batch whenever enough keys are collected.  The writes are to keys the
    cursor has passed. *)
Fixpoint prune_changeset_loop (cutoff_block : Z) (entries : list (TrieDatabaseKey * rt))
    (keys : list (TrieDatabaseKey * option rt)) (t : tbl TrieDatabaseKey rt)
    : tbl TrieDatabaseKey rt :=
  match entries with
  | [] => fold_left apply_change keys t
  | e :: entries =>
      let keys :=
        match pruned_entry cutoff_block e with Some change => keys ++ [change] | None => keys end in
      if (BATCH_SIZE <=? length keys)%nat then
        prune_changeset_loop cutoff_block entries [] (fold_left apply_change keys t)
      else prune_changeset_loop cutoff_block entries keys t
  end.
Definition prune_changeset_table (cutoff_block : Z) (t : tbl TrieDatabaseKey rt)
    : tbl TrieDatabaseKey rt :=
  prune_changeset_loop cutoff_block (t_walk t) [] t.

(** ** Pruning *)
Definition clear_history (t : TrieTables) : TrieTables := mkTrieTables (tr_trie t) d_empty t_empty.
Definition prune_all_history (s : TrieStore) : TrieStore :=
  mkTrieStore (ts_headers s) (clear_history (ts_classes s)) (clear_history (ts_contracts s))
    (clear_history (ts_storages s)).

(** The history table, and later the change set, of one trie. *)
Definition prune_trie (cutoff_block : Z) (t : TrieTables) : option TrieTables :=
  history ← prune_history_table cutoff_block (tr_history t);
  Some (mkTrieTables (tr_trie t) history (prune_changeset_table cutoff_block (tr_changeset t))).

Definition prune_keep_last_n (cutoff_block : Z) (s : TrieStore) : option TrieStore :=
  if Z.eqb cutoff_block 0 then Some s else
  classes ← prune_trie cutoff_block (ts_classes s);
  contracts ← prune_trie cutoff_block (ts_contracts s);
  storages ← prune_trie cutoff_block (ts_storages s);
  Some (mkTrieStore (ts_headers s) classes contracts storages).

(** The store is the one committed: an early return drops the transaction. *)
Definition prune_database (mode : PruneMode) (s : TrieStore) : option (result PruneError unit * TrieStore) :=
  let latest_block := get_latest_block_number s in
  match mode with
  | Latest => Some (Ok tt, prune_all_history s)
  | KeepLastN blocks =>
      if Z.eqb blocks 0 then Some (Err KeepNothing, s)
      else if Z.ltb latest_block blocks then Some (Ok tt, s)
      else
        let cutoff_block := Z.max 0 (latest_block - blocks) in
        if Z.eqb cutoff_block 0 then Some (Ok tt, s)
        else s ← prune_keep_last_n cutoff_block s; Some (Ok tt, s)
  end.

(** ** Statistics *)
Definition history_entries (t : TrieTables) : Z := Z.of_nat (length (d_walk (tr_history t))).

Definition count_all_historical_deletions (s : TrieStore) : PruningStats :=
  [(ClassesTrieHistory, history_entries (ts_classes s));
   (ContractsTrieHistory, history_entries (ts_contracts s));
   (StoragesTrieHistory, history_entries (ts_storages s));
   (ClassesTrieChangeSet, t_entries (tr_changeset (ts_classes s)));
   (ContractsTrieChangeSet, t_entries (tr_changeset (ts_contracts s)));
   (StoragesTrieChangeSet, t_entries (tr_changeset (ts_storages s)))].

Definition count_history_table_deletions (cutoff_block : Z) (t : TrieTables) : Z :=
  Z.of_nat (length (filter (fun e => e.1 <= cutoff_block) (d_walk (tr_history t)))).

Definition emptied (cutoff_block : Z) (block_list : rt) : bool :=
  match rt_max block_list with Some block_num => Z.leb block_num cutoff_block | None => false end.
Definition count_changeset_table_deletions (cutoff_block : Z) (t : TrieTables) : Z :=
  Z.of_nat (length (filter (fun e => emptied cutoff_block e.2 = true) (t_walk (tr_changeset t)))).

Definition count_keep_last_n_deletions (keep_last_n : Z) (s : TrieStore) : PruningStats :=
  let cutoff_block := Z.max 0 (get_latest_block_number s - keep_last_n) in
  if Z.eqb cutoff_block 0 then []
  else
    [(ClassesTrieHistory, count_history_table_deletions cutoff_block (ts_classes s));
     (ContractsTrieHistory, count_history_table_deletions cutoff_block (ts_contracts s));
     (StoragesTrieHistory, count_history_table_deletions cutoff_block (ts_storages s));
     (ClassesTrieChangeSet, count_changeset_table_deletions cutoff_block (ts_classes s));
     (ContractsTrieChangeSet, count_changeset_table_deletions cutoff_block (ts_contracts s));
     (StoragesTrieChangeSet, count_changeset_table_deletions cutoff_block (ts_storages s))].

Definition collect_pruning_stats (mode : PruneMode) (s : TrieStore) : PruningStats :=
  match mode with
  | Latest => count_all_historical_deletions s
  | KeepLastN blocks => count_keep_last_n_deletions blocks s
  end.

(** [PruneArgs::execute], with the answer to the prompt for the statistics shown. *)
Definition execute_prune (args : PruneArgs) (confirm : PruningStats -> PruneMode -> bool) (s : TrieStore)
    : option (result PruneError unit * TrieStore) :=
  mode ← prune_mode args;
  if negb (pa_skip_confirmation args) && negb (confirm (collect_pruning_stats mode s) mode)
  then Some (Ok tt, s)
  else prune_database mode s.
End Prune.
