(* ===== verification/PruneProofs.v ===== *)
(** * What pruning leaves

    Pruning always ends, leaves the tries themselves alone, removes as many entries
    as the prompt announced, and leaves tables that represent the log of the blocks it
    kept.  That log does not hold what those blocks inherited: a node that was last
    written before the cut is lost to the snapshots of the kept blocks too. *)

From Stdlib Require Import ZArith Lia.
From stdpp Require Import base numbers list gmap sets sorting.
From S2P Require Import Prelude Felt Block Codec Versioned Mdbx ChangeLog DbProvider DbState TrieDb TrieDbProofs Prune.

(** ** Walks *)

(** A walk is determined by the duplicates of each key. *)
Lemma walk_ext {V} (l l' : list (Z * V)) :
  StronglySorted (fun e e' => e.1 <= e'.1) l -> StronglySorted (fun e e' => e.1 <= e'.1) l' ->
  (forall k, filter (fun e => e.1 = k) l = filter (fun e => e.1 = k) l') -> l = l'.
Proof.
  assert (Hle : forall (x : Z * V) l y m, StronglySorted (fun e e' => e.1 <= e'.1) (y :: m) ->
    filter (fun e => e.1 = x.1) (x :: l) = filter (fun e => e.1 = x.1) (y :: m) -> y.1 <= x.1).
  { intros x l0 y m Hs Hf. assert (x ∈ filter (fun e => e.1 = x.1) (y :: m)) as Hx.
    { rewrite <- Hf. apply list_elem_of_filter. split; [done|by left]. }
    apply list_elem_of_filter in Hx as [_ [->|Hx]%elem_of_cons]; [lia|].
    apply StronglySorted_inv in Hs as [_ Hall]. rewrite Forall_forall in Hall. by apply Hall. }
  revert l'. induction l as [|x l IH]; intros [|y l'] Hs Hs' Hf; [done|..].
  - specialize (Hf y.1). by rewrite filter_cons_True in Hf.
  - specialize (Hf x.1). by rewrite filter_cons_True in Hf.
  - assert (Heq : x.1 = y.1).
    { pose proof (Hle x l y l' Hs' (Hf x.1)). pose proof (Hle y l' x l Hs (eq_sym (Hf y.1))). lia. }
    pose proof (Hf x.1) as Hx. rewrite !filter_cons_True in Hx by done. injection Hx as -> Hx.
    f_equal. apply StronglySorted_inv in Hs as [Hs _]. apply StronglySorted_inv in Hs' as [Hs' _].
    apply IH; [done..|]. intros k. specialize (Hf k). rewrite !filter_cons in Hf. case_decide; [|done].
    by injection Hf.
Qed.

Lemma filter_keyed {V} (l l' : list (Z * V)) k :
  map snd (filter (fun e => e.1 = k) l) = map snd (filter (fun e => e.1 = k) l') ->
  filter (fun e => e.1 = k) l = filter (fun e => e.1 = k) l'.
Proof.
  assert (Hk : forall m : list (Z * V), filter (fun e => e.1 = k) m
    = map (pair k) (map snd (filter (fun e => e.1 = k) m))).
  { induction m as [|[k' v] m IH]; [done|]. rewrite filter_cons. simpl. case_decide; [|done].
    subst. simpl. by f_equal. }
  intros H. by rewrite (Hk l), (Hk l'), H.
Qed.

(** Keeping only some keys keeps all or nothing of a key. *)
Lemma filter_filter_key {V} (P : Z * V -> Prop) `{forall e, Decision (P e)} k (keep : bool) (l : list (Z * V)) :
  (forall e, e.1 = k -> P e <-> keep = true) ->
  filter (fun e => e.1 = k) (filter P l) = if keep then filter (fun e => e.1 = k) l else [].
Proof.
  intros HP. induction l as [|e l IH]; simpl; [by destruct keep|]. rewrite !filter_cons.
  destruct (decide (P e)) as [Hp|Hp]; rewrite ?filter_cons, ?IH; case_decide as Hk; destruct keep; try done.
  - by apply HP in Hp.
  - destruct Hp. by apply HP.
Qed.

Lemma NoDup_filter_keys {K V} (P : K * V -> Prop) `{forall e, Decision (P e)} (l : list (K * V)) :
  NoDup (map fst l) -> NoDup (map fst (filter P l)).
Proof.
  induction l as [|e l IH]; [done|]. simpl. intros [He Hnd]%NoDup_cons. rewrite filter_cons.
  case_decide; [|auto]. simpl. constructor; [|auto]. intros (x & Heq & [_ Hx]%list_elem_of_filter)%list_elem_of_fmap.
  apply He, list_elem_of_fmap. eauto.
Qed.

Lemma length_filter_split {A} (P Q : A -> Prop) `{forall x, Decision (P x)} `{forall x, Decision (Q x)} l :
  (forall x, Q x <-> ~ P x) -> (length (filter P l) + length (filter Q l) = length l)%nat.
Proof.
  intros HQ. induction l as [|x l IH]; [done|]. rewrite !filter_cons.
  specialize (HQ x). repeat case_decide; simpl; lia || tauto.
Qed.

Section Proofs.
Context `{MD : Mdbx} `{RT : RoaringTreemap} `{BP : BytesPostcard}.

Lemma d_walk_delete_key {V} k (t : dtbl V) :
  d_walk (d_delete_key k t) = filter (fun e => e.1 <> k) (d_walk t).
Proof.
  apply walk_ext; [apply d_walk_sorted|apply sorted_filter, d_walk_sorted|].
  intros k'. apply filter_keyed. rewrite d_walk_vals, d_vals_delete_key.
  rewrite (filter_filter_key _ k' (negb (Z.eqb k k'))).
  - rewrite <- d_walk_vals. destruct (Z.eqb_spec k k'); case_decide; done.
  - intros e <-. destruct (Z.eqb_spec k e.1); simpl; split; congruence.
Qed.

(** ** History tables *)
Lemma prune_history_loop_spec {V} cutoff fuel : forall current (t : dtbl V),
  (length (d_walk t) < fuel)%nat -> (forall e, e ∈ d_walk t -> current <= e.1) ->
  current ∈ map fst (d_walk t) ->
  exists t', prune_history_loop fuel current cutoff t = Some t' /\
    d_walk t' = filter (fun e => cutoff < e.1) (d_walk t).
Proof.
  induction fuel as [|fuel IH]; intros current t Hlen Hmin Hin; [lia|]. cbn [prune_history_loop].
  destruct (Z.leb_spec current cutoff) as [Hle|Hgt].
  2: { exists t. split; [done|]. symmetry. apply filter_all. apply Forall_forall. intros e He.
       specialize (Hmin e He). simpl. lia. }
  pose proof (d_walk_delete_key current t) as Hw.
  assert (Hlt : forall e, e ∈ d_walk (d_delete_key current t) -> current < e.1).
  { intros e He. rewrite Hw in He. apply list_elem_of_filter in He as [Hne He].
    specialize (Hmin e He). lia. }
  assert (Hfinal : filter (fun e => cutoff < e.1) (d_walk (d_delete_key current t))
                   = filter (fun e => cutoff < e.1) (d_walk t)).
  { rewrite Hw, list_filter_filter. apply list_filter_iff. intros e. lia. }
  assert (Hshort : (length (d_walk (d_delete_key current t)) < length (d_walk t))%nat).
  { rewrite Hw. apply list_elem_of_fmap in Hin as (e & -> & He).
    apply (length_filter_lt _ (d_walk t) e He). tauto. }
  unfold cursor_next_after. rewrite <- Hfinal.
  destruct (d_walk (d_delete_key current t)) as [|e w] eqn:Hd; cbn [List.find].
  { exists (d_delete_key current t). by rewrite Hd. }
  pose proof (Hlt e ltac:(by left)) as He. destruct (Z.ltb_spec current e.1) as [_|]; [|lia].
  cbn [fmap option_fmap option_map]. destruct (IH e.1 (d_delete_key current t)) as (t' & Hl & Ht').
  - rewrite Hd. lia.
  - intros x Hx. pose proof (d_walk_sorted (d_delete_key current t)) as Hs. rewrite Hd in Hs, Hx.
    apply StronglySorted_inv in Hs as [_ Hall]. rewrite Forall_forall in Hall.
    apply elem_of_cons in Hx as [->|Hx]; [lia|by apply Hall].
  - rewrite Hd. by left.
  - exists t'. split; [done|]. by rewrite Ht', Hd.
Qed.

Lemma prune_history_spec {V} cutoff (t : dtbl V) :
  exists t', prune_history_table cutoff t = Some t' /\
    d_walk t' = filter (fun e => cutoff < e.1) (d_walk t).
Proof.
  unfold prune_history_table, cursor_first. pose proof (d_walk_sorted t) as Hs.
  destruct (d_walk t) as [|e w] eqn:Hd; cbn [head fmap option_fmap option_map].
  { exists t. by rewrite Hd. }
  rewrite <- Hd. apply prune_history_loop_spec; rewrite Hd; [simpl; lia| |by left].
  intros x [->|Hx]%elem_of_cons; [lia|]. apply StronglySorted_inv in Hs as [_ Hall].
  rewrite Forall_forall in Hall. by apply Hall.
Qed.

Lemma filtered_vals {V} cutoff (t t' : dtbl V) b :
  d_walk t' = filter (fun e => cutoff < e.1) (d_walk t) ->
  d_vals t' b = if decide (cutoff < b) then d_vals t b else [].
Proof.
  intros H. rewrite <- !d_walk_vals, H, (filter_filter_key _ b (bool_decide (cutoff < b))).
  - by destruct (decide (cutoff < b)); [rewrite bool_decide_true|rewrite bool_decide_false].
  - intros e <-. by rewrite bool_decide_eq_true.
Qed.

(** ** Change sets *)

(** The batches make no difference. *)
Lemma prune_changeset_batches cutoff entries : forall keys t,
  prune_changeset_loop cutoff entries keys t
  = fold_left apply_change (keys ++ omap (pruned_entry cutoff) entries) t.
Proof.
  induction entries as [|e entries IH]; intros keys t; cbn [prune_changeset_loop];
    [simpl; by rewrite app_nil_r|].
  assert (Hone : omap (pruned_entry cutoff) (e :: entries)
    = match pruned_entry cutoff e with Some c => [c] | None => [] end ++ omap (pruned_entry cutoff) entries).
  { simpl. by destruct (pruned_entry cutoff e). }
  rewrite Hone, app_assoc.
  replace (match pruned_entry cutoff e with Some change => keys ++ [change] | None => keys end)
    with (keys ++ match pruned_entry cutoff e with Some c => [c] | None => [] end)
    by (destruct (pruned_entry cutoff e); by rewrite ?app_nil_r).
  set (keys' := keys ++ _). destruct (BATCH_SIZE <=? length keys')%nat; rewrite IH; [|done].
  by rewrite (fold_left_app _ keys').
Qed.

(** What becomes of the block list of a key. *)
Definition pruned_list (cutoff : Z) (l : rt) : option rt :=
  match pruned_entry cutoff (mkTrieKey KeyTrie [], l) with
  | Some (_, new) => new
  | None => Some l
  end.

Lemma pruned_entry_key cutoff k l :
  pruned_entry cutoff (k, l)
  = (fun c => (k, c.2)) <$> pruned_entry cutoff (mkTrieKey KeyTrie [], l).
Proof. unfold pruned_entry. simpl. destruct (rt_remove_to cutoff l). by destruct (0 <? z). Qed.

(** One entry. *)
Definition prune_one (cutoff : Z) (t : tbl TrieDatabaseKey rt) (e : TrieDatabaseKey * rt)
    : tbl TrieDatabaseKey rt :=
  match pruned_entry cutoff e with Some c => apply_change t c | None => t end.
Lemma prune_one_get cutoff t k0 l0 k :
  t_get t k0 = Some l0 ->
  t_get (prune_one cutoff t (k0, l0)) k = if decide (k0 = k) then pruned_list cutoff l0 else t_get t k.
Proof.
  intros H0. unfold prune_one, pruned_list. rewrite pruned_entry_key.
  destruct (pruned_entry cutoff _) as [[k1 new]|]; simpl; unfold apply_change; simpl.
  - by destruct new; rewrite ?t_get_put, ?t_get_delete.
  - case_decide; congruence.
Qed.

Lemma fold_prune_one cutoff entries : forall t,
  fold_left apply_change (omap (pruned_entry cutoff) entries) t = fold_left (prune_one cutoff) entries t.
Proof.
  induction entries as [|e entries IH]; intros t; [done|]. simpl. unfold prune_one at 2.
  by destruct (pruned_entry cutoff e); simpl; rewrite IH.
Qed.

Lemma fold_prune_get cutoff entries : forall t k,
  NoDup (map fst entries) -> (forall e, e ∈ entries -> t_get t e.1 = Some e.2) ->
  t_get (fold_left (prune_one cutoff) entries t) k
  = if decide (k ∈ map fst entries) then t_get t k ≫= pruned_list cutoff else t_get t k.
Proof.
  induction entries as [|[k0 l0] entries IH]; intros t k Hnd Hget; [done|]. simpl in Hnd |- *.
  apply NoDup_cons in Hnd as [Hk0 Hnd].
  pose proof (Hget (k0, l0) ltac:(by left)) as H0. simpl in H0.
  rewrite IH, (prune_one_get _ _ _ _ _ H0); [|done|].
  - destruct (decide (k0 = k)) as [->|Hne].
    + rewrite decide_False by done. rewrite decide_True by (by left). by rewrite H0.
    + repeat case_decide; try done; set_solver.
  - intros e He. rewrite (prune_one_get _ _ _ _ _ H0), decide_False; [apply Hget; by right|].
    intros ->. apply Hk0, list_elem_of_fmap. by exists e.
Qed.

Lemma prune_changeset_get cutoff t k :
  t_get (prune_changeset_table cutoff t) k = t_get t k ≫= pruned_list cutoff.
Proof.
  unfold prune_changeset_table. rewrite prune_changeset_batches. simpl. rewrite fold_prune_one, fold_prune_get.
  - case_decide as Hk; [done|]. destruct (t_get t k) as [l|] eqn:Hg; [|done].
    destruct Hk. apply list_elem_of_fmap. exists (k, l). split; [done|]. by apply t_walk_spec.
  - apply t_walk_keys.
  - intros [k' l] He. by apply t_walk_spec.
Qed.

Lemma pruned_list_spec cutoff l :
  match pruned_list cutoff l with
  | Some l' => rt_elems l' = filter (fun x => cutoff < x) (rt_elems l) /\ emptied cutoff l = false
  | None => filter (fun x => cutoff < x) (rt_elems l) = [] /\ emptied cutoff l = true
  end.
Proof.
  unfold pruned_list, pruned_entry, emptied. simpl.
  pose proof (rt_remove_to_count cutoff l) as Hcount. pose proof (rt_remove_to_elems cutoff l) as Helems.
  destruct (rt_remove_to cutoff l) as [n l']. simpl in *. rewrite rt_max_spec.
  pose proof (rt_elems_sorted l) as Hs. remember (rt_elems l) as es eqn:Hes.
  destruct (Z.ltb_spec 0 n) as [Hn|Hn].
  - rewrite rt_select_spec, Helems by lia. simpl.
    destruct (filter (fun x => cutoff < x) es) as [|y ys] eqn:Hf; simpl; (split; [done|]).
    + clear Hes. destruct es as [|x es _] using rev_ind; [subst n; simpl in Hn; lia|]. rewrite last_snoc.
      apply Z.leb_le. destruct (decide (x <= cutoff)) as [|Hx]; [done|].
      assert (x ∈ filter (fun x => cutoff < x) (es ++ [x])) as Hin.
      { apply list_elem_of_filter. split; [lia|set_solver]. }
      rewrite Hf in Hin. by apply not_elem_of_nil in Hin.
    + assert (y ∈ filter (fun x => cutoff < x) es) as Hin by (rewrite Hf; by left).
      apply list_elem_of_filter in Hin as [Hy Hin].
      clear Hes. destruct es as [|x es _] using rev_ind; [by apply not_elem_of_nil in Hin|]. rewrite last_snoc.
      apply Z.leb_gt. apply StronglySorted_app in Hs as (Hc & _ & _).
      apply elem_of_app in Hin as [Hin| ->%list_elem_of_singleton]; [|done].
      specialize (Hc y x Hin ltac:(by left)). lia.
  - assert (Hnil : filter (fun x => x <= cutoff) es = []).
    { destruct (filter (fun x => x <= cutoff) es); [done|]. simpl in Hcount. lia. }
    assert (Hall : forall x, x ∈ es -> cutoff < x).
    { intros x Hx. destruct (decide (x <= cutoff)) as [Hle|]; [|lia].
      assert (x ∈ filter (fun x => x <= cutoff) es) as Hin by (by apply list_elem_of_filter).
      rewrite Hnil in Hin. by apply not_elem_of_nil in Hin. }
    split; [rewrite <- Hes; symmetry; by apply filter_all, Forall_forall|].
    destruct (last es) as [x|] eqn:Hl; [|done]. apply last_Some in Hl as [es' ->].
    apply Z.leb_gt, Hall. set_solver.
Qed.

Lemma prune_changes cutoff t k :
  changes_of (mkTrieTables (tr_trie t) (tr_history t) (prune_changeset_table cutoff (tr_changeset t))) k
  = filter (fun x => cutoff < x) (changes_of t k).
Proof.
  unfold changes_of. simpl. rewrite prune_changeset_get.
  destruct (t_get (tr_changeset t) k) as [l|]; simpl; [|done].
  pose proof (pruned_list_spec cutoff l) as H. destruct (pruned_list cutoff l); [apply H|by destruct H].
Qed.

(** As many keys go as have no later block. *)
Lemma prune_changeset_entries cutoff (cs : tbl TrieDatabaseKey rt) :
  t_entries (prune_changeset_table cutoff cs)
  = t_entries cs - Z.of_nat (length (filter (fun e => emptied cutoff e.2 = true) (t_walk cs))).
Proof.
  rewrite !t_entries_walk.
  assert (Hperm : map fst (t_walk (prune_changeset_table cutoff cs))
                  ≡ₚ map fst (filter (fun e => ~ emptied cutoff e.2 = true) (t_walk cs))).
  { apply NoDup_Permutation; [apply t_walk_keys| |].
    - apply NoDup_filter_keys, t_walk_keys.
    - intros k. rewrite !list_elem_of_fmap. split.
      + intros ([k' l'] & -> & Hin%t_walk_spec). rewrite prune_changeset_get in Hin.
        destruct (t_get cs k') as [l|] eqn:Hl; [|done]. simpl in Hin. pose proof (pruned_list_spec cutoff l) as Hp.
        rewrite Hin in Hp. destruct Hp as [_ Hp].
        exists (k', l). split; [done|]. apply list_elem_of_filter. simpl. split; [congruence|]. by apply t_walk_spec.
      + intros ([k' l] & -> & [He Hin%t_walk_spec]%list_elem_of_filter). simpl in He.
        pose proof (pruned_list_spec cutoff l) as Hp. destruct (pruned_list cutoff l) as [l'|] eqn:Hl; [|by destruct Hp].
        exists (k', l'). split; [done|]. apply t_walk_spec. rewrite prune_changeset_get, Hin. done. }
  apply Permutation_length in Hperm. rewrite !length_map in Hperm. rewrite Hperm.
  pose proof (length_filter_split (fun e => emptied cutoff e.2 = true) (fun e => ~ emptied cutoff e.2 = true)
    (t_walk cs) ltac:(done)). lia.
Qed.

(** ** One trie *)
Record pruned_trie (cutoff : Z) (t t' : TrieTables) : Prop := {
  pt_trie : tr_trie t' = tr_trie t;
  pt_history : d_walk (tr_history t') = filter (fun e => cutoff < e.1) (d_walk (tr_history t));
  pt_changes k : changes_of t' k = filter (fun x => cutoff < x) (changes_of t k);
  pt_history_count : history_entries t' = history_entries t - count_history_table_deletions cutoff t;
  pt_changeset_count :
    t_entries (tr_changeset t') = t_entries (tr_changeset t) - count_changeset_table_deletions cutoff t;
}.

Lemma prune_trie_spec cutoff t : exists t', prune_trie cutoff t = Some t' /\ pruned_trie cutoff t t'.
Proof.
  unfold prune_trie. destruct (prune_history_spec cutoff (tr_history t)) as (h & -> & Hw). simpl.
  eexists. split; [done|]. split; simpl; [done|done| | |apply prune_changeset_entries].
  - intros k. rewrite <- prune_changes. done.
  - unfold history_entries, count_history_table_deletions. simpl. rewrite Hw.
    rewrite <- (length_filter_split (fun e => e.1 <= cutoff) (fun e => cutoff < e.1) (d_walk (tr_history t))); [lia|].
    intros e. lia.
Qed.

(** The log of the blocks after the cut. *)
Definition kept_log (cutoff : Z) (log : list (Z * list (TrieDatabaseKey * list Z)))
    : list (Z * list (TrieDatabaseKey * list Z)) := filter (fun e => cutoff < e.1) log.

Lemma kept_log_wf cutoff log :
  wf_log log -> valid_log valid_trie_key log ->
  wf_log (kept_log cutoff log) /\ valid_log valid_trie_key (kept_log cutoff log).
Proof.
  intros [Hs Hn] Hv. unfold kept_log. split; [split|].
  - by apply sorted_filter.
  - rewrite Forall_forall in *. intros e [_ He]%list_elem_of_filter. by apply Hn.
  - unfold valid_log in *. rewrite Forall_forall in *. intros e [_ He]%list_elem_of_filter. by apply Hv.
Qed.

Lemma pruned_represents cutoff t t' log :
  represents the_value (changes_of t) (d_vals (tr_history t)) log -> pruned_trie cutoff t t' ->
  represents the_value (changes_of t') (d_vals (tr_history t')) (kept_log cutoff log).
Proof.
  intros [R1 R2 R3 R4] Hp. pose proof (pt_changes _ _ _ Hp) as Hc.
  assert (Hv : forall b, d_vals (tr_history t') b = if decide (cutoff < b) then d_vals (tr_history t) b else []).
  { intros b. apply filtered_vals, (pt_history _ _ _ Hp). }
  unfold kept_log. split.
  - intros k b. rewrite Hc, list_elem_of_filter, R1. split.
    + intros [Hb (l & Hl & Hk)]. exists l. split; [by apply list_elem_of_filter|done].
    + intros (l & [Hb Hl]%list_elem_of_filter & Hk). eauto.
  - intros b. rewrite Hv. case_decide; [apply R2|constructor].
  - intros b e. rewrite Hv. case_decide as Hb; [|set_solver]. intros (l & Hl & Ha)%R3.
    exists l. split; [by apply list_elem_of_filter|done].
  - intros b l k v [Hb Hl]%list_elem_of_filter Ha. simpl in Hb. rewrite Hv, decide_True by done. eauto.
Qed.

(** A key that was written after the cut reads as before. *)
Lemma kept_value cutoff log n k e :
  wf_log log -> e ∈ log -> cutoff < e.1 <= n -> k ∈ map fst e.2 ->
  value_at (kept_log cutoff log) n k = value_at log n k.
Proof.
  unfold kept_log. intros Hwf He Hn Hk. induction log as [|[b l] log IH] using rev_ind; [by apply not_elem_of_nil in He|].
  apply wf_log_snoc in Hwf as (Hwf & _ & Hlt). rewrite filter_app, value_at_snoc.
  assert (Hlater : cutoff < b).
  { apply elem_of_app in He as [He| ->%list_elem_of_singleton]; [|apply Hn]. specialize (Hlt e He). simpl in *. lia. }
  rewrite filter_cons_True by done. change (filter _ []) with (@nil (Z * list (TrieDatabaseKey * list Z))).
  rewrite value_at_snoc. apply elem_of_app in He as [He| ->%list_elem_of_singleton].
  - by rewrite IH.
  - destruct (assoc_dom k l Hk) as [v ->]. simpl in Hn. by rewrite !decide_True by lia.
Qed.

(** ** The store *)
Definition tries (s : TrieStore) : list TrieTables := [ts_classes s; ts_contracts s; ts_storages s].
Definition total_entries (s : TrieStore) : Z :=
  foldr Z.add 0 (map (fun t => history_entries t + t_entries (tr_changeset t)) (tries s)).

Lemma prune_keep_last_n_spec cutoff s :
  cutoff <> 0 ->
  exists s', prune_keep_last_n cutoff s = Some s' /\ ts_headers s' = ts_headers s /\
    Forall2 (pruned_trie cutoff) (tries s) (tries s').
Proof.
  intros Hc. unfold prune_keep_last_n. destruct (Z.eqb_spec cutoff 0); [done|].
  destruct (prune_trie_spec cutoff (ts_classes s)) as (t1 & -> & H1).
  destruct (prune_trie_spec cutoff (ts_contracts s)) as (t2 & -> & H2).
  destruct (prune_trie_spec cutoff (ts_storages s)) as (t3 & -> & H3).
  simpl. eexists. split; [done|]. split; [done|]. unfold tries. simpl. auto.
Qed.

(** The cut is made when there are more blocks than are to be kept. *)
Definition cut (latest n : Z) (log : list (Z * list (TrieDatabaseKey * list Z)))
    : list (Z * list (TrieDatabaseKey * list Z)) :=
  if Z.leb latest n then log else kept_log (latest - n) log.

(** C22. Pruning to the last [n] blocks always succeeds, leaves every trie as it was
    and its history as the log of the blocks after the cut: a snapshot at a block [b]
    never meets a missing entry and reads the last value written after the cut and up
    to [b].  So a node that was written in that span reads as before the pruning; one
    that was last written earlier reads as absent. *)
Theorem prune_keeps_recent n s i t blocks :
  0 < n -> tries s !! i = Some t -> t = trie_blocks blocks -> wf_blocks blocks ->
  let latest := get_latest_block_number s in
  exists s' t', prune_database (KeepLastN n) s = Some (Ok tt, s') /\ tries s' !! i = Some t' /\
    (forall key, trie_get key t' = trie_get key t) /\
    (forall b key, snapshot_get b key t' = Some (value_at (cut latest n (trie_log blocks)) b (to_db_key key))) /\
    (forall b key e, e ∈ trie_log blocks -> latest - n < e.1 <= b -> to_db_key key ∈ map fst e.2 ->
       snapshot_get b key t' = snapshot_get b key t).
Proof.
  intros Hn Hi -> [Hwf Hval] latest.
  pose proof (trie_represents blocks (conj Hwf Hval)) as Hrep.
  unfold prune_database. fold latest. destruct (Z.eqb_spec n 0); [lia|].
  assert (Hsame : latest <= n -> exists s' t', Some (Ok (E := PruneError) tt, s) = Some (Ok tt, s') /\ tries s' !! i = Some t' /\
    (forall key, trie_get key t' = trie_get key (trie_blocks blocks)) /\
    (forall b key, snapshot_get b key t' = Some (value_at (cut latest n (trie_log blocks)) b (to_db_key key))) /\
    (forall b key e, e ∈ trie_log blocks -> latest - n < e.1 <= b -> to_db_key key ∈ map fst e.2 ->
       snapshot_get b key t' = snapshot_get b key (trie_blocks blocks))).
  { intros Hle. exists s, (trie_blocks blocks). split_and!; try done. unfold cut.
    destruct (Z.leb_spec latest n); [|lia]. intros b key. by apply snapshot_get_represents. }
  destruct (Z.ltb_spec latest n) as [Hlt|Hge]; [apply Hsame; lia|].
  destruct (Z.eqb_spec (Z.max 0 (latest - n)) 0) as [H0|H0]; [apply Hsame; lia|].
  rewrite Z.max_r in * by lia.
  destruct (prune_keep_last_n_spec (latest - n) s H0) as (s' & -> & _ & Hall). simpl.
  destruct (Forall2_lookup_l _ _ _ _ _ Hall Hi) as (t' & Ht' & Hp). exists s', t'.
  destruct (kept_log_wf (latest - n) _ Hwf Hval) as [Hwf' Hval'].
  pose proof (pruned_represents _ _ _ _ Hrep Hp) as Hrep'.
  unfold cut. destruct (Z.leb_spec latest n); [lia|].
  split_and!; [done|done| | |].
  - intros key. unfold trie_get. by rewrite (pt_trie _ _ _ Hp).
  - intros b key. by apply snapshot_get_represents.
  - intros b key e He Hb Hk. rewrite (snapshot_get_represents _ _ b key Hwf' Hval' Hrep'), (snapshot_get_represents _ _ b key Hwf Hval Hrep).
    f_equal. by apply (kept_value _ _ _ _ e).
Qed.

Lemma empty_walk {V} : d_walk (d_empty (V := V)) = [].
Proof.
  apply walk_ext; [apply d_walk_sorted|constructor|]. intros k. apply filter_keyed.
  by rewrite d_walk_vals, d_vals_empty.
Qed.

(** The prompt tells the truth: whenever pruning succeeds, in either mode, the
    number of entries it announced is the number of entries that are gone. *)
Theorem prune_counts mode s s' :
  prune_database mode s = Some (Ok tt, s') ->
  total_deletions (collect_pruning_stats mode s) = total_entries s - total_entries s'.
Proof.
  unfold prune_database, total_entries. destruct mode as [|n].
  - intros [= <-]. simpl. unfold total_deletions, history_entries. simpl.
    rewrite !empty_walk, !t_entries_empty. simpl. unfold history_entries. lia.
  - unfold collect_pruning_stats, count_keep_last_n_deletions.
    destruct (Z.eqb_spec n 0); [done|].
    destruct (Z.ltb_spec (get_latest_block_number s) n) as [Hlt|Hge].
    { intros [= <-]. destruct (Z.eqb_spec (Z.max 0 (get_latest_block_number s - n)) 0); [|lia].
      unfold total_deletions. simpl. lia. }
    destruct (Z.eqb_spec (Z.max 0 (get_latest_block_number s - n)) 0) as [H0|H0].
    { intros [= <-]. unfold total_deletions. simpl. lia. }
    destruct (prune_keep_last_n_spec _ s H0) as (s1 & -> & _ & Hall). simpl. intros [= <-].
    unfold tries in *. apply Forall2_cons in Hall as [P1 Hall]. apply Forall2_cons in Hall as [P2 Hall].
    apply Forall2_cons in Hall as [P3 _]. unfold total_deletions. simpl.
    destruct P1 as [_ _ _ -> ->], P2 as [_ _ _ -> ->], P3 as [_ _ _ -> ->]. lia.
Qed.
End Proofs.

(** ** Witnesses *)
#[local] Existing Instance plain_bytes.
Definition demo_blocks : list (Z * list (list TrieOp)) :=
  [(1, [[TrieInsert node_a [10]]]); (2, [[TrieInsert node_b [20]]]); (3, [[TrieInsert node_b [30]]]);
   (4, [[TrieInsert (DbFlat [1]) [40]]])].
Definition demo_headers : tbl Z VersionedHeader :=
  fold_left (fun t n => t_put n (header_from Header_default) t) [0; 1; 2; 3; 4] t_empty.
Definition demo_store : TrieStore :=
  mkTrieStore demo_headers (trie_blocks demo_blocks) TrieTables_empty TrieTables_empty.

Lemma prune_blocks_wf : wf_blocks demo_blocks.
Proof.
  split.
  - split; [repeat constructor; simpl; lia|]. repeat (constructor; [by vm_compute; repeat constructor; set_solver|]).
    constructor.
  - repeat constructor; vm_compute; lia.
Qed.

Lemma prune_keeps_recent_witness :
  exists s' t', prune_database (KeepLastN 2) demo_store = Some (Ok tt, s') /\ tries s' !! 0%nat = Some t' /\
    snapshot_get 4 node_b t' = snapshot_get 4 node_b (trie_blocks demo_blocks).
Proof.
  destruct (prune_keeps_recent 2 demo_store 0 (trie_blocks demo_blocks) demo_blocks)
    as (s' & t' & Hp & Ht & _ & _ & Hread); [lia|reflexivity|reflexivity|exact prune_blocks_wf|].
  exists s', t'. split; [exact Hp|]. split; [exact Ht|].
  apply (Hread 4 node_b (3, [(to_db_key node_b, [30])])).
  - vm_compute. right. right. left.
  - change (get_latest_block_number demo_store) with 4. simpl. lia.
  - left.
Defined.

Lemma demo_prune_ok :
  match prune_database (KeepLastN 2) demo_store with Some (Ok _, _) => true | _ => false end = true.
Proof. by vm_compute. Qed.
Lemma demo_prune_announced : total_deletions (collect_pruning_stats (KeepLastN 2) demo_store) = 3.
Proof. by vm_compute. Qed.

Lemma prune_counts_witness :
  exists s', prune_database (KeepLastN 2) demo_store = Some (Ok tt, s') /\
    total_deletions (collect_pruning_stats (KeepLastN 2) demo_store) = total_entries demo_store - total_entries s' /\
    total_deletions (collect_pruning_stats (KeepLastN 2) demo_store) = 3.
Proof.
  pose proof demo_prune_ok as Hok.
  destruct (prune_database (KeepLastN 2) demo_store) as [[[[]|e] s']|] eqn:Hp; [|done..].
  exists s'. split; [reflexivity|]. split; [|exact demo_prune_announced].
  apply (prune_counts (KeepLastN 2) demo_store s' Hp).
Defined.

(** The blocks that are kept lose what they did not write themselves: with four
    blocks pruned to the last two, the node that block 1 wrote and nothing changed since
    is still in the trie, but the snapshot at block 4, which read it before, has lost it. *)
Theorem pruned_block_loses_nodes :
  (s' ← snd <$> prune_database (KeepLastN 2) demo_store;
   Some (snapshot_get 4 node_a (ts_classes demo_store), snapshot_get 4 node_a (ts_classes s'),
         trie_get node_a (ts_classes s')))
  = Some (Some (Some [10]), Some None, Some [10]).
Proof. by vm_compute. Qed.
