(* ===== verification/Service.v ===== *)
(** * The block production service (core/src/service/mod.rs)

    The task that drives the chain: it polls the block producer, takes the
    transactions of the blocks that were closed out of the pool, and hands the
    producer what the miner drains from the pool's pending stream.  The producer is
    an interface, [Producer], with the two modes of [BlockProducer] as instances.
    What differs from one poll of the producer to the next (the timer, the clock,
    the gas prices, whether a blocking task has finished) is its sample. *)

From Stdlib Require Import ZArith Lia.
From stdpp Require Import base numbers list.
From S2P Require Import Prelude BTreeMap Felt Tx Version Block Receipt Executor Codec Versioned Mdbx DbProvider DbState GasOracle Backend Processor BlockProducer PoolTypes BTreeSet Pool.

(** [BlockProducer::queue] and [BlockProducer::poll_next]; [None] is a panic. *)
Class Producer (P C : Type) := {
  pd_sample : Type;
  pd_queue : list (ExecutableTxWithHash C) -> P -> P;
  pd_poll : pd_sample -> P -> option (PollResult * P);
}.
Arguments pd_sample P C {_}.

(** ** The two modes *)
Section Modes.
Context `{MD : Mdbx} `{RT : RoaringTreemap} `{FP : FeltPostcard}.
Context {S B C Vm ExecErr T : Type} {BF : Blockifier S B C Vm ExecErr} `{!TrieWriter T}.
Context (poseidon starknet_keccak : list Z -> Z) (bonsai_root : Z -> list (list Z * Z) -> Z).
Context (is_legacy : C -> bool).
Abbreviation ChainDb := (Db C (Receipt Vm) (TypedTransactionExecutionInfo (TransactionExecutionInfo Vm))).
Context (latest_state : ChainDb -> S) (new_bouncer : B) (execution_flags : ExecutionFlags).

(** A sample of the interval mode: whether the timer is ready, the prices, the clock. *)
Definition interval_mode : Producer (@IntervalSys _ _ S B C Vm ExecErr T) C := {|
  pd_sample := bool * GasOracle * Z;
  pd_queue := interval_queue;
  pd_poll '(tick, oracle, now) s :=
    interval_poll_next latest_state new_bouncer execution_flags tick oracle now s;
|}.

(** A sample of the instant mode: whether the mining task is done, the prices, the clock. *)
Definition instant_mode : Producer (@InstantSys _ _ S C Vm ExecErr T) C := {|
  pd_sample := bool * GasOracle * Z;
  pd_queue := instant_queue;
  pd_poll '(ready, oracle, now) s :=
    Some (instant_poll_next poseidon starknet_keccak bonsai_root is_legacy latest_state new_bouncer
            execution_flags ready oracle now s);
|}.
End Modes.

Section Task.
Context {C V O L P : Type}.
Abbreviation ExTx := (ExecutableTxWithHash C).
Context `{VA : Validator V ExTx} `{PO : PoolOrd O ExTx}.
Abbreviation PTx := (PendingTx ExTx (PriorityValue O ExTx)).
Context `{BT : BTreeSetImpl} `{CH : UnboundedChannel PTx} `{PD : Producer P C}.

(** ** The miner *)

(** [while let Poll::Ready(Some(tx)) = self.pending_txs.poll_next_unpin(cx)]; [None]
    when the fuel runs out. *)
Fixpoint drain_pending (fuel : nat) (transactions : list ExTx) (all txs : list PTx) (c : chan PTx)
    : option (list ExTx * list PTx * list PTx * chan PTx) :=
  match fuel with
  | 0%nat => None
  | S fuel =>
      match pending_poll 2 all txs c with
      | None => None
      | Some (Ready (Some tx), all, txs, c) =>
          drain_pending fuel (transactions ++ [ptx_tx tx]) all txs c
      | Some (_, all, txs, c) => Some (transactions, all, txs, c)
      end
  end.

(** What the stream still has to deliver bounds the turns of the loop. *)
Definition undelivered (all txs : list PTx) (c : chan PTx) : list PTx := all ++ txs ++ chan_queue c.

(** [TransactionMiner::poll]; the receiver's channel is in the pool's store. *)
Definition miner_poll (m : PendingTransactions (T := ExTx) (O := O)) (p : Pool ExTx V O L)
    : option (Poll (list ExTx) * PendingTransactions (T := ExTx) (O := O) * Pool ExTx V O L) :=
  let id := sub_receiver (pend_subscription m) in
  let all := pend_all m in
  let txs := sub_txs (pend_subscription m) in
  c ← chans p !! id;
  '(transactions, all, txs, c) ← drain_pending (S (length (undelivered all txs c))) [] all txs c;
  Some (match transactions with [] => Pending | _ => Ready transactions end,
        mkPendingTransactions all (mkSubscription txs id),
        mkPool (Pool.transactions p) (listeners p) (subscribers p) (<[id := c]> (chans p)) (validator p)
          (ordering p)).

(** ** The task *)
Record BlockProductionTask := mkTask {
  tk_block_producer : P;
  tk_miner : PendingTransactions (T := ExTx) (O := O);
  tk_pool : Pool ExTx V O L;
}.

(** How a poll of the task ends; [TaskUnfinished] when the samples run out. *)
Inductive TaskPoll :=
  | TaskPending
  | TaskFailed (e : BlockProductionError)
  | TaskPanicked
  | TaskUnfinished.

(** The loop and the loop within: after the miner's transactions are queued the next
    thing is a poll of the producer, as it is after a block was closed. *)
Fixpoint task_poll (samples : list (pd_sample P C)) (t : BlockProductionTask)
    : TaskPoll * BlockProductionTask :=
  match samples with
  | [] => (TaskUnfinished, t)
  | e :: samples =>
      match pd_poll e (tk_block_producer t) with
      | None => (TaskPanicked, t)
      | Some (PollReady (Ok outcome), pd) =>
          task_poll samples (mkTask pd (tk_miner t) (remove_transactions (outcome_txs outcome) (tk_pool t)))
      | Some (PollReady (Err error), pd) => (TaskFailed error, mkTask pd (tk_miner t) (tk_pool t))
      | Some (PollPending, pd) =>
          match miner_poll (tk_miner t) (tk_pool t) with
          | None => (TaskPanicked, mkTask pd (tk_miner t) (tk_pool t))
          | Some (Ready pool_txs, m, p) => task_poll samples (mkTask (pd_queue pool_txs pd) m p)
          | Some (Pending, m, p) => (TaskPending, mkTask pd m p)
          end
      end
  end.
End Task.
Arguments BlockProductionTask C V O L P {_ _}.
