(* ===== verification/ServiceProofs.v ===== *)
(** * What the block production service does with the pool's transactions

    A poll of the task returns, with the miner's stream drained or about to be polled
    again.  Composed with the interval producer, and with the callers that add
    transactions meanwhile, no accepted transaction is lost on its way from the pool to
    the outputs blocks are closed with, and it stays in the pool until it is in a stored
    block as a successful one. *)

From Stdlib Require Import ZArith Lia.
From stdpp Require Import base numbers list sets sorting.
From S2P Require Import Prelude BTreeMap Felt Tx Version Block Receipt Executor Codec Versioned Mdbx DbProvider DbState DbHistory DbBlocks GasOracle Backend BackendProofs Processor BlockProducer BlockProducerProofs PoolTypes BTreeSet Pool PoolProofs PoolDelivery Service.

Section Draining.
Context {C V O L P : Type}.
Abbreviation ExTx := (ExecutableTxWithHash C).
Context `{VA : Validator V ExTx} `{PO : PoolOrd O ExTx}.
Abbreviation PTx := (PendingTx ExTx (PriorityValue O ExTx)).
Context `{BT : BTreeSetImpl} `{CH : UnboundedChannel PTx}.

(** ** The miner *)

(** What is left when the miner stops: nothing, or what a spurious failure left in the
    channel, which then wakes the task. *)
Definition drained (c : chan PTx) : Prop := chan_queue c = [] \/ chan_rewakes c = true.

(** The loop hands out the snapshot first, in its order, then what the buffer and the
    channel hold, until it has everything or the channel fails spuriously. *)
Lemma drain_pending_spec fuel : forall (acc : list ExTx) (all txs : list PTx) (c : chan PTx),
  (length (undelivered all txs c) < fuel)%nat ->
  exists l c', drain_pending fuel acc all txs c = Some (acc ++ map ptx_tx l, [], [], c') /\
    l ++ chan_queue c' ≡ₚ undelivered all txs c /\ all `prefix_of` l /\ drained c' /\
    chan_open c' = chan_open c.
Proof.
  unfold undelivered, drained. induction fuel as [|fuel IH]; intros acc all txs c Hlt; [lia|]. cbn [drain_pending].
  destruct (pending_poll_delivers 0 all txs c) as (r & all' & txs' & c1 & Hp & Hperm & Ho & Hnone).
  rewrite Hp. destruct (yielded r) as [|tx [|]] eqn:Hy; [|  |by destruct r as [[]|]].
  - destruct (Hnone eq_refl) as (-> & -> & -> & -> & Hq1 & Hq).
    exists [], c1. simpl. rewrite Hq1, app_nil_r. split; [by destruct r as [[]|]|done].
  - destruct r as [[tx'|]|]; try done. injection Hy as ->.
    pose proof (Permutation_length Hperm) as Hlen. cbn [app length] in Hlen.
    destruct (IH (acc ++ [ptx_tx tx]) all' txs' c1) as (l & c' & -> & Hl & Hpre & Hq & Ho'); [lia|].
    exists (tx :: l), c'. simpl. rewrite <- app_assoc. split; [done|].
    split; [by rewrite Hl, Hperm|]. split; [|split; [done|congruence]].
    destruct all as [|tx0 all0]; [apply prefix_nil|]. injection Hp as <- <- <- <-. by apply prefix_cons.
Qed.

(** One poll of the miner takes what the stream has to deliver; it waits only when that
    is nothing, or at a spurious failure. *)
Lemma miner_poll_spec (m : PendingTransactions (T := ExTx) (O := O)) (p : Pool ExTx V O L) c :
  let id := sub_receiver (pend_subscription m) in
  let und := undelivered (pend_all m) (sub_txs (pend_subscription m)) c in
  chans p !! id = Some c ->
  exists l c', miner_poll m p
      = Some (match l with [] => Pending | _ => Ready (map ptx_tx l) end,
              mkPendingTransactions [] (mkSubscription [] id),
              mkPool (transactions p) (listeners p) (subscribers p) (<[id := c']> (chans p)) (validator p)
                (ordering p)) /\
    l ++ chan_queue c' ≡ₚ und /\ pend_all m `prefix_of` l /\ drained c' /\ chan_open c' = chan_open c.
Proof.
  intros id und Hc. unfold miner_poll. fold id. rewrite Hc. cbn [mbind option_bind].
  destruct (drain_pending_spec (S (length und)) [] (pend_all m) (sub_txs (pend_subscription m)) c)
    as (l & c' & Hd & Hl); [unfold und; lia|]. fold und. rewrite Hd. cbn [mbind option_bind].
  exists l, c'. split; [|done]. by destruct l.
Qed.

(** ** The task returns *)

(** Without a blocking task finishing meanwhile, a producer is ready only so often. *)
Class BoundedProducer `(PD : Producer P C) := {
  pd_work : P -> nat;
  pd_work_ready e p r p' : pd_poll e p = Some (PollReady r, p') -> (pd_work p' < pd_work p)%nat;
  pd_work_pending e p p' : pd_poll e p = Some (PollPending, p') -> (pd_work p' <= pd_work p)%nat;
  pd_work_queue txs p : (pd_work (pd_queue txs p) <= S (pd_work p))%nat;
}.
Context `{PD : Producer P C} `{!BoundedProducer PD}.
Implicit Types (t : BlockProductionTask C V O L P).

Definition miner_left t (c : chan PTx) : list PTx :=
  undelivered (pend_all (tk_miner t)) (sub_txs (pend_subscription (tk_miner t))) c.
(** Every poll of the miner that is ready takes at least one transaction off the stream
    and gives the producer at most one thing more to report. *)
Definition turns_left t (c : chan PTx) : nat :=
  (S (pd_work (tk_block_producer t)) + 2 * length (miner_left t c))%nat.

Lemma task_poll_turns samples : forall t c,
  chans (tk_pool t) !! sub_receiver (pend_subscription (tk_miner t)) = Some c ->
  (turns_left t c <= length samples)%nat ->
  exists r t', task_poll samples t = (r, t') /\ r <> TaskUnfinished /\
    (r = TaskPending -> exists c',
       chans (tk_pool t') !! sub_receiver (pend_subscription (tk_miner t')) = Some c' /\
       (miner_left t' c' = [] \/ chan_rewakes c' = true)).
Proof.
  unfold turns_left. induction samples as [|e samples IH]; intros t c Hc Hlen; [simpl in Hlen; lia|].
  simpl in Hlen. cbn [task_poll].
  destruct (pd_poll e (tk_block_producer t)) as [[[|[outcome|error]] pd]|] eqn:Hp; [| |by do 2 eexists..].
  - apply pd_work_pending in Hp.
    destruct (miner_poll_spec (tk_miner t) (tk_pool t) c Hc) as (l & c' & -> & Hl & _ & Hq & _).
    fold (miner_left t c) in Hl.
    assert (Hlk : <[sub_receiver (pend_subscription (tk_miner t)) := c']> (chans (tk_pool t))
                  !! sub_receiver (pend_subscription (tk_miner t)) = Some c').
    { apply list_lookup_insert_eq. by eapply lookup_lt_Some. }
    destruct l as [|x l].
    { do 2 eexists. split; [done|]. split; [done|]. intros _. exists c'. split; [exact Hlk|exact Hq]. }
    cbv match. apply (IH _ c'); [exact Hlk|]. apply Permutation_length in Hl.
    pose proof (pd_work_queue (map ptx_tx (x :: l)) pd). unfold miner_left at 1, undelivered. simpl in *.
    rewrite length_app in Hl. lia.
  - apply pd_work_ready in Hp.
    apply (IH (mkTask pd (tk_miner t) (remove_transactions (outcome_txs outcome) (tk_pool t))) c Hc).
    unfold miner_left in *. simpl. lia.
Qed.

(** C23. A poll of the service's task comes to an end: whatever the producer, the
    timer, the clock and the prices, and however often the pool's channel fails
    spuriously, as many polls of the producer as it has finished work, two for each
    transaction the stream has to deliver and one more are enough for the task to answer.
    When it then waits, the pool's stream holds nothing more to hand out, or it holds
    what a spurious failure left in the channel and the channel wakes the task to be
    polled again. *)
Theorem task_poll_returns samples t c :
  chans (tk_pool t) !! sub_receiver (pend_subscription (tk_miner t)) = Some c ->
  (pd_work (tk_block_producer t)
   + 2 * length (undelivered (pend_all (tk_miner t)) (sub_txs (pend_subscription (tk_miner t))) c) + 1
   <= length samples)%nat ->
  exists r t', task_poll samples t = (r, t') /\ r <> TaskUnfinished /\
    (r = TaskPending -> exists c',
       chans (tk_pool t') !! sub_receiver (pend_subscription (tk_miner t')) = Some c' /\
       (undelivered (pend_all (tk_miner t')) (sub_txs (pend_subscription (tk_miner t'))) c' = [] \/
        chan_rewakes c' = true)).
Proof.
  intros Hc Hlen. apply (task_poll_turns samples t c Hc). unfold turns_left, miner_left. lia.
Qed.
End Draining.

(** ** The modes are ready only so often *)
Section Bounded.
Context `{MD : Mdbx} `{RT : RoaringTreemap} `{FP : FeltPostcard}.
Context {S B C Vm ExecErr T : Type} {BF : Blockifier S B C Vm ExecErr} `{!TrieWriter T}.
Context (poseidon starknet_keccak : list Z -> Z) (bonsai_root : Z -> list (list Z * Z) -> Z).
Context (is_legacy : C -> bool).
Abbreviation ChainDb := (Db C (Receipt Vm) (TypedTransactionExecutionInfo (TransactionExecutionInfo Vm))).
Context (latest_state : ChainDb -> S) (new_bouncer : B) (execution_flags : ExecutionFlags).
Abbreviation Interval := (@IntervalSys _ _ S B C Vm ExecErr T).
Abbreviation Instant := (@InstantSys _ _ S C Vm ExecErr T).
Abbreviation instant := (instant_mode poseidon starknet_keccak bonsai_root is_legacy latest_state new_bouncer
                           execution_flags (T := T)).
Abbreviation interval := (interval_mode latest_state new_bouncer execution_flags (T := T)).

(** The instant producer: the block being mined and the one the queue makes. *)
Definition instant_work (s : Instant) : nat :=
  ((if in_block_mining (is_producer s) then 1 else 0) + (if in_queued (is_producer s) then 0 else 1))%nat.

#[refine, local] Instance instant_bounded : BoundedProducer instant := { pd_work := instant_work }.
Proof.
  - intros [[ready oracle] now] s r s'. simpl. unfold instant_poll_next, instant_work.
    destruct (is_producer s) as [[m|] [|x q]]; simpl; destruct ready; try done;
      destruct (instant_do_mine _ _ _ _ _ _ _ _ _ _ _) as [[[[[o out] v]|err] bk]|];
      intros [= _ <-]; simpl; lia.
  - intros [[ready oracle] now] s s'. simpl. unfold instant_poll_next, instant_work.
    destruct (is_producer s) as [[m|] [|x q]]; simpl; destruct ready;
      try destruct (instant_do_mine _ _ _ _ _ _ _ _ _ _ _) as [[[[[o out] v]|err] bk]|];
      intros [= <-]; simpl; lia.
  - intros txs s. unfold instant_work. simpl. destruct (in_block_mining _), (in_queued _); simpl; lia.
Defined.

(** The interval producer: a mining task that has ended, an execution that failed. *)
Definition mining_ended (p : IntervalBlockProducer (C := C)) : nat :=
  match iv_ongoing_mining p with
  | Some t => match mt_status t with NotRun => 0 | _ => 1 end
  | None => 0
  end%nat.
Definition execution_failed (p : IntervalBlockProducer (C := C)) : nat :=
  match iv_ongoing_execution p with
  | Some t => match et_status t with Cancelled | Done (Err _) => 1 | _ => 0 end
  | None => 0
  end%nat.
Definition interval_work (s : Interval) : nat :=
  (mining_ended (sy_producer s) + execution_failed (sy_producer s))%nat.

Lemma poll_timer_work tick p :
  mining_ended (poll_timer tick p) = mining_ended p /\
  execution_failed (poll_timer tick p) = execution_failed p.
Proof.
  unfold poll_timer, mining_ended, execution_failed.
  destruct (iv_ongoing_mining p) eqn:Em; [by rewrite Em|]. destruct (iv_timer p), (iv_is_block_full p), tick; simpl; by rewrite ?Em.
Qed.
Lemma start_execution_work p :
  mining_ended (start_execution p) = mining_ended p /\
  execution_failed (start_execution p) = execution_failed p.
Proof.
  unfold start_execution. destruct (iv_queued p) as [|q qs]; [done|].
  destruct (iv_ongoing_execution p) eqn:Ex; [done|]. destruct (iv_ongoing_mining p) eqn:Em; [done|].
  unfold mining_ended, execution_failed. rewrite Ex. by destruct_match_goal; simpl; rewrite ?Em.
Qed.
Lemma poll_execution_work p :
  match poll_execution p with
  | ExecutionContinue p' => mining_ended p' = mining_ended p /\ (execution_failed p' <= execution_failed p)%nat
  | ExecutionError _ p' => mining_ended p' = mining_ended p /\ (execution_failed p' < execution_failed p)%nat
  end.
Proof.
  unfold poll_execution. destruct (start_execution_work p) as [<- <-].
  generalize (start_execution p). clear p. intros p.
  destruct (iv_ongoing_execution p) as [t|] eqn:Et; [|done].
  destruct (et_status t) as [|[[l|]|e]|] eqn:Es; [done| | | |].
  2: destruct (start_execution_work (set_execution None p)) as [-> ->].
  all: unfold execution_failed; rewrite Et, Es; (split; [done|simpl; lia]).
Qed.
Lemma poll_mining_work oracle now (s s' : Interval) r :
  poll_mining latest_state new_bouncer execution_flags oracle now s = Some (r, s') ->
  execution_failed (sy_producer s') = execution_failed (sy_producer s) /\
  match r with
  | PollPending => mining_ended (sy_producer s') = mining_ended (sy_producer s)
  | PollReady _ => (mining_ended (sy_producer s') < mining_ended (sy_producer s))%nat
  end.
Proof.
  unfold poll_mining, mining_ended. destruct (iv_ongoing_mining (sy_producer s)) as [t|] eqn:Et.
  2: { intros [= <- <-]. by rewrite Et. }
  destruct (mt_status t) eqn:Es; [intros [= <- <-]; by rewrite Et, Es| |].
  - destruct (create_new_executor_for_next_block _ _ _ _ _ _) as [[[e bk]|err]|]; [| |done].
    2: { intros [= <- <-]. split; [done|simpl; lia]. }
    destruct (latest_number _) as [num|err]; [destruct (block_env_at _ _) as [[env|]|err]; try done|];
      intros [= <- <-]; (split; [done|simpl; lia]).
  - intros [= <- <-]. split; [done|]. simpl. lia.
Qed.

Lemma interval_poll_work tick oracle now (s s' : Interval) r :
  interval_poll_next latest_state new_bouncer execution_flags tick oracle now s = Some (r, s') ->
  match r with
  | PollPending => (interval_work s' <= interval_work s)%nat
  | PollReady _ => (interval_work s' < interval_work s)%nat
  end.
Proof.
  unfold interval_poll_next, interval_work.
  pose proof (poll_execution_work (poll_timer tick (sy_producer s))) as Hx.
  destruct (poll_timer_work tick (sy_producer s)) as [Hm He]. rewrite Hm, He in Hx.
  destruct (poll_execution _) as [p|e p].
  - intros [H1 H2]%poll_mining_work. simpl in *. destruct r; lia.
  - intros [= <- <-]. simpl. lia.
Qed.

#[refine, local] Instance interval_bounded : BoundedProducer interval := { pd_work := interval_work }.
Proof.
  - intros [[tick oracle] now] s r s' H. by apply interval_poll_work in H.
  - intros [[tick oracle] now] s s' H. by apply interval_poll_work in H.
  - intros txs s. unfold interval_work, mining_ended, execution_failed. simpl. lia.
Defined.
End Bounded.

(** ** From the pool to the blocks *)
Section NoLoss.
Context `{MD : Mdbx} `{RT : RoaringTreemap} `{FP : FeltPostcard}.
Context {S B C Vm ExecErr T : Type} {BF : Blockifier S B C Vm ExecErr} `{!TrieWriter T}.
Context (poseidon starknet_keccak : list Z -> Z) (bonsai_root : Z -> list (list Z * Z) -> Z).
Context (is_legacy : C -> bool).
Abbreviation ChainDb := (Db C (Receipt Vm) (TypedTransactionExecutionInfo (TransactionExecutionInfo Vm))).
Context (latest_state : ChainDb -> S) (new_bouncer : B) (execution_flags : ExecutionFlags).
Context {V O L : Type}.
Abbreviation ExTx := (ExecutableTxWithHash C).
Context `{VA : Validator V ExTx} `{PO : PoolOrd O ExTx}.
Abbreviation PTx := (PendingTx ExTx (PriorityValue O ExTx)).
Context `{BT : BTreeSetImpl} `{CH : UnboundedChannel PTx}.
Variable try_send : L -> Z -> TrySend * L.
Abbreviation Interval := (@IntervalSys _ _ S B C Vm ExecErr T).
Abbreviation mined_run := (run_mining poseidon starknet_keccak bonsai_root is_legacy).
Abbreviation forced := (interval_force_mine poseidon starknet_keccak bonsai_root is_legacy
                          latest_state new_bouncer execution_flags).
Abbreviation conserves := (conserved (T := T)).
#[local] Instance the_mode : Producer Interval C :=
  interval_mode latest_state new_bouncer execution_flags.
Abbreviation Task := (BlockProductionTask C V O L Interval).
Implicit Types (s : Interval) (p : Pool ExTx V O L) (t : Task) (accepted handed : list ExTx).





(** *** The producer's side *)









(** *** The pool's side *)








(** *** Together *)
Section Together.
(** The chain the service starts on. *)
Context (pre : list (@Insertion C (Receipt Vm) (TypedTransactionExecutionInfo (TransactionExecutionInfo Vm))))
  (p0 : @Insertion C (Receipt Vm) (TypedTransactionExecutionInfo (TransactionExecutionInfo Vm))).
Hypothesis Hp0 : 0 <= ins_number p0.









End Together.



End NoLoss.

(** ** Witnesses: the small machine with a pool that accepts everything *)
#[local] Existing Instance counting_blockifier.
#[local] Existing Instance unit_writer.
Abbreviation SmallPool := (Pool (ExecutableTxWithHash Z) NoopValidator FiFo bool).
Abbreviation SmallTask := (BlockProductionTask Z NoopValidator FiFo bool SmallSys).
#[local] Instance small_mode : Producer SmallSys Z :=
  interval_mode (fun _ => 0%nat) 0%nat ExecutionFlags_new.
Definition empty_pool : SmallPool := pool_new mkNoopValidator FiFo_new.
Definition small_sample (tick : bool) : pd_sample SmallSys Z := (tick, sampled_starknet, 10).

(** A message is added and the task is polled. *)
Definition small_start : option SmallTask :=
  s0 ← small_new; let '(m, p) := pending_transactions empty_pool in Some (mkTask s0 m p).

Lemma small_new_work : interval_work <$> small_new = Some 0%nat.
Proof. by vm_compute. Qed.

Lemma task_poll_returns_witness :
  exists t r t', small_start = Some t /\ task_poll (replicate 3 (small_sample false)) t = (r, t') /\
    r <> TaskUnfinished.
Proof.
  pose proof small_new_work as Hw. destruct small_new as [s0|] eqn:H0; [|done]. injection Hw as Hw.
  set (t := mkTask s0 (pending_transactions empty_pool).1 (pending_transactions empty_pool).2 : SmallTask).
  destruct (task_poll_returns (BoundedProducer0 := interval_bounded (fun _ => 0%nat) 0%nat ExecutionFlags_new)
    (replicate 3 (small_sample false)) t chan_new) as (r & t' & Hp & Hr & _).
  - reflexivity.
  - simpl. rewrite Hw. lia.
  - exists t, r, t'. split; [|split; [exact Hp|exact Hr]]. unfold small_start. rewrite H0. reflexivity.
Defined.

