(* ===== verification/RpcTypes.v ===== *)
(** * Wire types of the JSON-RPC API (rpc/rpc-types/src)

    Transactions, receipts, blocks, state updates and proof nodes as the API returns
    them, and the conversions from the primitive types.  The structs of starknet-rs
    are records with the fields the conversions fill in.  A type that comes with and
    without the hash of its transaction ([Transaction], [TransactionContent]) is one
    type over the hash.  Blocks with transactions, hashes or receipts differ in what
    they list.  A panic ([expect]) is [None]. *)

From Stdlib Require Import ZArith Lia.
From stdpp Require Import base numbers list option gmap.
From S2P Require Import Prelude Felt Tx Version Block Receipt GasOracle Backend.

(** ** Transactions (transaction.rs) *)
Inductive RpcDaMode := RpcL1 | RpcL2.
Record RpcResourceBounds := mkRpcBounds { rb_max_amount : Z; rb_max_price_per_unit : Z }.
Record RpcResourceBoundsMapping := mkRpcMapping {
  rbm_l1_gas : RpcResourceBounds;
  rbm_l1_data_gas : RpcResourceBounds;
  rbm_l2_gas : RpcResourceBounds;
}.

Definition from_rpc_da_mode (mode : RpcDaMode) : DataAvailabilityMode :=
  match mode with RpcL1 => DaL1 | RpcL2 => DaL2 end.
Definition to_rpc_da_mode (mode : DataAvailabilityMode) : RpcDaMode :=
  match mode with DaL1 => RpcL1 | DaL2 => RpcL2 end.

Definition from_rpc_resource_bounds (b : RpcResourceBoundsMapping) : ResourceBoundsMapping :=
  let bound b := {| max_amount := rb_max_amount b; max_price_per_unit := rb_max_price_per_unit b |} in
  AllBounds {| l1_gas := bound (rbm_l1_gas b); l2_gas := bound (rbm_l2_gas b);
               l1_data_gas := bound (rbm_l1_data_gas b) |}.
Definition to_rpc_resource_bounds (bounds : ResourceBoundsMapping) : RpcResourceBoundsMapping :=
  let bound b := mkRpcBounds (max_amount b) (max_price_per_unit b) in
  match bounds with
  | AllBounds all => mkRpcMapping (bound (l1_gas all)) (bound (l1_data_gas all)) (bound (l2_gas all))
  | L1Gas b => mkRpcMapping (bound b) (mkRpcBounds 0 0) (mkRpcBounds 0 0)
  end.

(** The fields every version 3 transaction has besides its own. *)
Record RpcV3Fields := mkV3 {
  v3_nonce : Z;
  v3_signature : list Z;
  v3_resource_bounds : RpcResourceBoundsMapping;
  v3_tip : Z;
  v3_paymaster_data : list Z;
  v3_nonce_da_mode : RpcDaMode;
  v3_fee_da_mode : RpcDaMode;
}.

Section Transactions.
(** The transaction hash, or nothing for a transaction's content. *)
Context {H : Type}.

Inductive RpcInvoke :=
  | RpcInvokeV0 (transaction_hash : H) (max_fee : Z) (signature : list Z)
      (contract_address entry_point_selector : Z) (calldata : list Z)
  | RpcInvokeV1 (transaction_hash : H) (sender_address : Z) (calldata : list Z) (max_fee : Z)
      (signature : list Z) (nonce : Z)
  | RpcInvokeV3 (transaction_hash : H) (sender_address : Z) (calldata : list Z)
      (account_deployment_data : list Z) (fields : RpcV3Fields).

Inductive RpcDeclare :=
  | RpcDeclareV0 (transaction_hash : H) (sender_address max_fee : Z) (signature : list Z)
      (class_hash : Z)
  | RpcDeclareV1 (transaction_hash : H) (sender_address max_fee : Z) (signature : list Z)
      (nonce class_hash : Z)
  | RpcDeclareV2 (transaction_hash : H) (sender_address compiled_class_hash max_fee : Z)
      (signature : list Z) (nonce class_hash : Z)
  | RpcDeclareV3 (transaction_hash : H) (sender_address compiled_class_hash class_hash : Z)
      (account_deployment_data : list Z) (fields : RpcV3Fields).

Inductive RpcDeployAccount :=
  | RpcDeployAccountV1 (transaction_hash : H) (max_fee : Z) (signature : list Z) (nonce : Z)
      (contract_address_salt : Z) (constructor_calldata : list Z) (class_hash : Z)
  | RpcDeployAccountV3 (transaction_hash : H) (contract_address_salt : Z)
      (constructor_calldata : list Z) (class_hash : Z) (fields : RpcV3Fields).

Inductive RpcTransaction :=
  | RpcTxInvoke (tx : RpcInvoke)
  | RpcTxDeclare (tx : RpcDeclare)
  | RpcTxL1Handler (transaction_hash : H) (version nonce contract_address entry_point_selector : Z)
      (calldata : list Z)
  | RpcTxDeployAccount (tx : RpcDeployAccount)
  | RpcTxDeploy (transaction_hash : H) (version contract_address_salt : Z)
      (constructor_calldata : list Z) (class_hash : Z).

Definition invoke_to_rpc (h : H) (tx : InvokeTx) : RpcInvoke :=
  match tx with
  | InvokeV0 tx =>
      RpcInvokeV0 h (felt_of (iv0_max_fee tx)) (iv0_signature tx) (iv0_contract_address tx)
        (iv0_entry_point_selector tx) (iv0_calldata tx)
  | InvokeV1 tx =>
      RpcInvokeV1 h (iv1_sender_address tx) (iv1_calldata tx) (felt_of (iv1_max_fee tx))
        (iv1_signature tx) (iv1_nonce tx)
  | InvokeV3 tx =>
      RpcInvokeV3 h (iv3_sender_address tx) (iv3_calldata tx) (iv3_account_deployment_data tx)
        (mkV3 (iv3_nonce tx) (iv3_signature tx) (to_rpc_resource_bounds (iv3_resource_bounds tx))
           (iv3_tip tx) (iv3_paymaster_data tx) (to_rpc_da_mode (iv3_nonce_da_mode tx))
           (to_rpc_da_mode (iv3_fee_da_mode tx)))
  end.

Definition declare_to_rpc (h : H) (tx : DeclareTx) : RpcDeclare :=
  match tx with
  | DeclareV0 tx =>
      RpcDeclareV0 h (dv0_sender_address tx) (felt_of (dv0_max_fee tx)) (dv0_signature tx)
        (dv0_class_hash tx)
  | DeclareV1 tx =>
      RpcDeclareV1 h (dv1_sender_address tx) (felt_of (dv1_max_fee tx)) (dv1_signature tx)
        (dv1_nonce tx) (dv1_class_hash tx)
  | DeclareV2 tx =>
      RpcDeclareV2 h (dv2_sender_address tx) (dv2_compiled_class_hash tx)
        (felt_of (dv2_max_fee tx)) (dv2_signature tx) (dv2_nonce tx) (dv2_class_hash tx)
  | DeclareV3 tx =>
      RpcDeclareV3 h (dv3_sender_address tx) (dv3_compiled_class_hash tx) (dv3_class_hash tx)
        (dv3_account_deployment_data tx)
        (mkV3 (dv3_nonce tx) (dv3_signature tx) (to_rpc_resource_bounds (dv3_resource_bounds tx))
           (dv3_tip tx) (dv3_paymaster_data tx) (to_rpc_da_mode (dv3_nonce_da_mode tx))
           (to_rpc_da_mode (dv3_fee_da_mode tx)))
  end.

Definition deploy_account_to_rpc (h : H) (tx : DeployAccountTx) : RpcDeployAccount :=
  match tx with
  | DeployAccountV1 tx =>
      RpcDeployAccountV1 h (felt_of (da1_max_fee tx)) (da1_signature tx) (da1_nonce tx)
        (da1_contract_address_salt tx) (da1_constructor_calldata tx) (da1_class_hash tx)
  | DeployAccountV3 tx =>
      RpcDeployAccountV3 h (da3_contract_address_salt tx) (da3_constructor_calldata tx)
        (da3_class_hash tx)
        (mkV3 (da3_nonce tx) (da3_signature tx) (to_rpc_resource_bounds (da3_resource_bounds tx))
           (da3_tip tx) (da3_paymaster_data tx) (to_rpc_da_mode (da3_nonce_da_mode tx))
           (to_rpc_da_mode (da3_fee_da_mode tx)))
  end.

(** [Felt::to_u64]. *)
Definition to_u64 (f : Z) : option Z := if Z.ltb f u64_bound then Some f else None.

(** [None]: the nonce of an L1 handler does not fit in 64 bits. *)
Definition tx_to_rpc (h : H) (tx : Tx) : option RpcTransaction :=
  match tx with
  | TxInvoke tx => Some (RpcTxInvoke (invoke_to_rpc h tx))
  | TxDeclare tx => Some (RpcTxDeclare (declare_to_rpc h tx))
  | TxL1Handler tx =>
      nonce ← to_u64 (l1h_nonce tx);
      Some (RpcTxL1Handler h (l1h_version tx) nonce (l1h_contract_address tx)
              (l1h_entry_point_selector tx) (l1h_calldata tx))
  | TxDeployAccount tx => Some (RpcTxDeployAccount (deploy_account_to_rpc h tx))
  | TxDeploy tx =>
      Some (RpcTxDeploy h (dep_version tx) (dep_contract_address_salt tx)
              (dep_constructor_calldata tx) (dep_class_hash tx))
  end.
End Transactions.
Arguments RpcInvoke : clear implicits.
Arguments RpcDeclare : clear implicits.
Arguments RpcDeployAccount : clear implicits.
Arguments RpcTransaction : clear implicits.

Abbreviation RpcTx := (RpcTransaction Z).
Abbreviation RpcTxContent := (RpcTransaction unit).

(** [From<TxWithHash> for Tx] and [for TxContent]. *)
Definition rpc_tx_from (tx : TxWithHash) : option RpcTx :=
  tx_to_rpc (twh_hash tx) (twh_transaction tx).
Definition rpc_content_from (tx : TxWithHash) : option RpcTxContent :=
  tx_to_rpc tt (twh_transaction tx).

(** ** Transactions as they are sent *)
Record BroadcastedInvokeTx := mkBroadcastedInvoke {
  bi_sender_address : Z;
  bi_calldata : list Z;
  bi_account_deployment_data : list Z;
  bi_fields : RpcV3Fields;
  bi_is_query : bool;
}.
Record BroadcastedDeployAccountTx := mkBroadcastedDeployAccount {
  bd_contract_address_salt : Z;
  bd_constructor_calldata : list Z;
  bd_class_hash : Z;
  bd_fields : RpcV3Fields;
  bd_is_query : bool;
}.

Definition invoke_into_tx_with_chain_id (tx : BroadcastedInvokeTx) (chain_id : ChainId) : InvokeTx :=
  let f := bi_fields tx in
  InvokeV3 {|
    iv3_chain_id := chain_id; iv3_nonce := v3_nonce f; iv3_calldata := bi_calldata tx;
    iv3_signature := v3_signature f; iv3_sender_address := bi_sender_address tx;
    iv3_account_deployment_data := bi_account_deployment_data tx;
    iv3_fee_da_mode := from_rpc_da_mode (v3_fee_da_mode f);
    iv3_nonce_da_mode := from_rpc_da_mode (v3_nonce_da_mode f);
    iv3_paymaster_data := v3_paymaster_data f;
    iv3_resource_bounds := from_rpc_resource_bounds (v3_resource_bounds f);
    iv3_tip := v3_tip f |}.

Section Submitted.
(** [get_contract_address] of starknet-rs: salt, class hash, calldata, deployer. *)
Context (get_contract_address : Z -> Z -> list Z -> Z -> Z).

Definition deploy_account_into_tx_with_chain_id (tx : BroadcastedDeployAccountTx)
    (chain_id : ChainId) : DeployAccountTx :=
  let f := bd_fields tx in
  let contract_address :=
    get_contract_address (bd_contract_address_salt tx) (bd_class_hash tx)
      (bd_constructor_calldata tx) 0 in
  DeployAccountV3 {|
    da3_chain_id := chain_id; da3_nonce := v3_nonce f; da3_signature := v3_signature f;
    da3_class_hash := bd_class_hash tx; da3_contract_address := contract_address;
    da3_constructor_calldata := bd_constructor_calldata tx;
    da3_contract_address_salt := bd_contract_address_salt tx;
    da3_fee_da_mode := from_rpc_da_mode (v3_fee_da_mode f);
    da3_nonce_da_mode := from_rpc_da_mode (v3_nonce_da_mode f);
    da3_paymaster_data := v3_paymaster_data f;
    da3_resource_bounds := from_rpc_resource_bounds (v3_resource_bounds f);
    da3_tip := v3_tip f |}.

(** The class of a declaration: its hash and its conversion are those of starknet-rs
    and of the compiler, and the conversion is unwrapped. *)
Context {C W : Type} (class_hash_of : W -> Z) (class_try_from : W -> option C).

Record BroadcastedDeclareTx := mkBroadcastedDeclare {
  bc_sender_address : Z;
  bc_compiled_class_hash : Z;
  bc_contract_class : W;
  bc_account_deployment_data : list Z;
  bc_fields : RpcV3Fields;
  bc_is_query : bool;
}.

(** [None] is the panic of [unwrap] on a class that does not convert. *)
Definition declare_try_into_tx_with_chain_id (tx : BroadcastedDeclareTx) (chain_id : ChainId)
    : option (DeclareTxWithClass C) :=
  let f := bc_fields tx in
  let class_hash := class_hash_of (bc_contract_class tx) in
  class ← class_try_from (bc_contract_class tx);
  let tx := DeclareV3 {|
    dv3_chain_id := chain_id; dv3_class_hash := class_hash; dv3_tip := v3_tip f;
    dv3_nonce := v3_nonce f; dv3_signature := v3_signature f;
    dv3_paymaster_data := v3_paymaster_data f; dv3_sender_address := bc_sender_address tx;
    dv3_compiled_class_hash := bc_compiled_class_hash tx;
    dv3_account_deployment_data := bc_account_deployment_data tx;
    dv3_resource_bounds := from_rpc_resource_bounds (v3_resource_bounds f);
    dv3_fee_da_mode := from_rpc_da_mode (v3_fee_da_mode f);
    dv3_nonce_da_mode := from_rpc_da_mode (v3_nonce_da_mode f) |} in
  Some {| dwc_class := class; dwc_transaction := tx |}.

Inductive BroadcastedTx :=
  | BroadcastedInvoke (tx : BroadcastedInvokeTx)
  | BroadcastedDeclare (tx : BroadcastedDeclareTx)
  | BroadcastedDeployAccount (tx : BroadcastedDeployAccountTx).
End Submitted.
Arguments BroadcastedDeclareTx : clear implicits.
Arguments BroadcastedTx : clear implicits.

(** ** Messages from L1 (message.rs) *)
Record MsgFromL1 := mkMsgFromL1 {
  mfl_from_address : Z;      (* 20 bytes *)
  mfl_to_address : Z;
  mfl_entry_point_selector : Z;
  mfl_payload : list Z;
}.

Definition message_into_tx_with_chain_id (compute_l2_to_l1_message_hash : Z -> Z -> list Z -> Z)
    (m : MsgFromL1) (chain_id : ChainId) : L1HandlerTx := {|
  l1h_nonce := 0; l1h_chain_id := chain_id; l1h_paid_fee_on_l1 := 1; l1h_version := 0;
  l1h_message_hash :=
    compute_l2_to_l1_message_hash (mfl_from_address m) (mfl_to_address m) (mfl_payload m);
  l1h_calldata := mfl_from_address m :: mfl_payload m;
  l1h_contract_address := mfl_to_address m;
  l1h_entry_point_selector := mfl_entry_point_selector m |}.

(** ** Receipts (receipt.rs) *)
Record RpcMsgToL1 := mkRpcMsg { rmsg_from_address : Z; rmsg_to_address : Z; rmsg_payload : list Z }.
Record RpcEvent := mkRpcEvent { rev_from_address : Z; rev_keys : list Z; rev_data : list Z }.
Record RpcExecutionResources := mkRpcResources { rer_l1_gas : Z; rer_l1_data_gas : Z; rer_l2_gas : Z }.
Record FeePayment := mkFeePayment { fp_amount : Z; fp_unit : PriceUnit }.
Inductive RpcExecutionResult := Succeeded | Reverted (reason : list Z).

(** The fields of every receipt. *)
Record RpcReceiptFields := mkReceiptFields {
  rrf_transaction_hash : Z;
  rrf_actual_fee : FeePayment;
  rrf_finality_status : FinalityStatus;
  rrf_messages_sent : list RpcMsgToL1;
  rrf_events : list RpcEvent;
  rrf_execution_resources : RpcExecutionResources;
  rrf_execution_result : RpcExecutionResult;
}.
Inductive RpcReceipt :=
  | RpcInvokeReceipt (fields : RpcReceiptFields)
  | RpcDeclareReceipt (fields : RpcReceiptFields)
  | RpcL1HandlerReceipt (message_hash : Z) (fields : RpcReceiptFields)
  | RpcDeployAccountReceipt (contract_address : Z) (fields : RpcReceiptFields).
Inductive ReceiptBlock := ReceiptPending | ReceiptInBlock (block_hash block_number : Z).
Record TxReceiptWithBlockInfo := mkReceiptInfo { ri_receipt : RpcReceipt; ri_block : ReceiptBlock }.

Definition msg_to_rpc (m : MessageToL1) : RpcMsgToL1 :=
  mkRpcMsg (msg_from_address m) (msg_to_address m) (msg_payload m).
Definition event_to_rpc (e : Event) : RpcEvent :=
  mkRpcEvent (from_address e) (event_keys e) (event_data e).
Definition to_rpc_resources {Vm} (r : ExecutionResources Vm) : RpcExecutionResources :=
  mkRpcResources (gu_l1_gas (er_gas r)) (gu_l1_data_gas (er_gas r)) (gu_l2_gas (er_gas r)).
Definition to_rpc_fee (fee : FeeInfo) : FeePayment :=
  mkFeePayment (felt_of (overall_fee fee)) (fee_unit fee).
(** [if let Some(reason) = revert_error { Reverted } else { Succeeded }]. *)
Definition execution_result_of (revert_error : option (list Z)) : RpcExecutionResult :=
  match revert_error with Some reason => Reverted reason | None => Succeeded end.

Definition rpc_receipt_new {Vm} (transaction_hash : Z) (finality_status : FinalityStatus)
    (receipt : Receipt Vm) : RpcReceipt :=
  let fields fee messages_sent events resources revert_error :=
    mkReceiptFields transaction_hash (to_rpc_fee fee) finality_status
      (map msg_to_rpc messages_sent) (map event_to_rpc events) (to_rpc_resources resources)
      (execution_result_of revert_error) in
  match receipt with
  | RInvoke r =>
      RpcInvokeReceipt (fields (ir_fee r) (ir_messages_sent r) (ir_events r)
                          (ir_execution_resources r) (ir_revert_error r))
  | RDeclare r =>
      RpcDeclareReceipt (fields (dr_fee r) (dr_messages_sent r) (dr_events r)
                           (dr_execution_resources r) (dr_revert_error r))
  | RL1Handler r =>
      RpcL1HandlerReceipt (lr_message_hash r)
        (fields (lr_fee r) (lr_messages_sent r) (lr_events r) (lr_execution_resources r)
           (lr_revert_error r))
  | RDeployAccount r =>
      RpcDeployAccountReceipt (ar_contract_address r)
        (fields (ar_fee r) (ar_messages_sent r) (ar_events r) (ar_execution_resources r)
           (ar_revert_error r))
  end.

Definition receipt_info_new {Vm} (block : ReceiptBlock) (transaction_hash : Z)
    (finality_status : FinalityStatus) (receipt : Receipt Vm) : TxReceiptWithBlockInfo :=
  mkReceiptInfo (rpc_receipt_new transaction_hash finality_status receipt) block.

(** ** Blocks (block.rs) *)
Record ResourcePrice := mkResourcePrice { price_in_fri : Z; price_in_wei : Z }.
Definition resource_price (p : GasPrice) : ResourcePrice :=
  mkResourcePrice (felt_of (gp_strk p)) (felt_of (gp_eth p)).

Record TransactionWithReceipt := mkTxWithReceipt {
  twr_transaction : RpcTxContent;
  twr_receipt : RpcReceipt;
}.

Section Blocks.
(** What a block lists: transactions, hashes, or transactions with receipts. *)
Context {T : Type}.

Record RpcBlock := mkRpcBlock {
  rbk_status : FinalityStatus;
  rbk_block_hash : Z;
  rbk_parent_hash : Z;
  rbk_block_number : Z;
  rbk_new_root : Z;
  rbk_timestamp : Z;
  rbk_sequencer_address : Z;
  rbk_l1_gas_price : ResourcePrice;
  rbk_l2_gas_price : ResourcePrice;
  rbk_l1_data_gas_price : ResourcePrice;
  rbk_l1_da_mode : L1DataAvailabilityMode;
  rbk_starknet_version : list Z;
  rbk_transactions : list T;
}.
Record RpcPendingBlock := mkRpcPendingBlock {
  rpb_transactions : list T;
  rpb_timestamp : Z;
  rpb_sequencer_address : Z;
  rpb_parent_hash : Z;
  rpb_l1_gas_price : ResourcePrice;
  rpb_l2_gas_price : ResourcePrice;
  rpb_l1_data_gas_price : ResourcePrice;
  rpb_l1_da_mode : L1DataAvailabilityMode;
  rpb_starknet_version : list Z;
}.
Inductive MaybePendingBlock :=
  | PendingRpcBlock (b : RpcPendingBlock)
  | MinedRpcBlock (b : RpcBlock).
End Blocks.
Arguments RpcBlock : clear implicits.
Arguments RpcPendingBlock : clear implicits.
Arguments MaybePendingBlock : clear implicits.

Definition block_with_txs_new (block_hash : Z) (b : Block) (status : FinalityStatus)
    : option (RpcBlock RpcTx) :=
  let h := block_header b in
  transactions ← mapM rpc_tx_from (block_body b);
  Some {|
    rbk_status := status; rbk_block_hash := block_hash; rbk_parent_hash := parent_hash h;
    rbk_block_number := number h; rbk_new_root := state_root h; rbk_timestamp := timestamp h;
    rbk_sequencer_address := sequencer_address h;
    rbk_l1_gas_price := resource_price (l1_gas_prices h);
    rbk_l2_gas_price := resource_price (l2_gas_prices h);
    rbk_l1_data_gas_price := resource_price (l1_data_gas_prices h);
    rbk_l1_da_mode := l1_da_mode h;
    rbk_starknet_version := version_display (protocol_version h);
    rbk_transactions := transactions |}.

Definition pending_block_with_txs_new (h : PartialHeader) (txs : list TxWithHash)
    : option (RpcPendingBlock RpcTx) :=
  transactions ← mapM rpc_tx_from txs;
  Some {|
    rpb_transactions := transactions; rpb_timestamp := ph_timestamp h;
    rpb_sequencer_address := ph_sequencer_address h; rpb_parent_hash := ph_parent_hash h;
    rpb_l1_gas_price := resource_price (ph_l1_gas_prices h);
    rpb_l2_gas_price := resource_price (ph_l2_gas_prices h);
    rpb_l1_data_gas_price := mkResourcePrice 0 0;
    rpb_l1_da_mode := Calldata;
    rpb_starknet_version := version_display (ph_protocol_version h) |}.

Definition block_with_tx_hashes_new (block_hash : Z) (b : BlockWithTxHashes)
    (status : FinalityStatus) : RpcBlock Z :=
  let h := bth_header b in {|
    rbk_status := status; rbk_block_hash := block_hash; rbk_parent_hash := parent_hash h;
    rbk_block_number := number h; rbk_new_root := state_root h; rbk_timestamp := timestamp h;
    rbk_sequencer_address := sequencer_address h;
    rbk_l1_gas_price := resource_price (l1_gas_prices h);
    rbk_l2_gas_price := resource_price (l2_gas_prices h);
    rbk_l1_data_gas_price := resource_price (l1_data_gas_prices h);
    rbk_l1_da_mode := l1_da_mode h;
    rbk_starknet_version := version_display (protocol_version h);
    rbk_transactions := bth_body b |}.

Definition pending_block_with_tx_hashes_new (h : PartialHeader) (txs : list Z)
    : RpcPendingBlock Z := {|
  rpb_transactions := txs; rpb_timestamp := ph_timestamp h;
  rpb_sequencer_address := ph_sequencer_address h; rpb_parent_hash := ph_parent_hash h;
  rpb_l1_gas_price := resource_price (ph_l1_gas_prices h);
  rpb_l2_gas_price := resource_price (ph_l2_gas_prices h);
  rpb_l1_data_gas_price := resource_price (ph_l1_data_gas_prices h);
  rpb_l1_da_mode := ph_l1_da_mode h;
  rpb_starknet_version := version_display (ph_protocol_version h) |}.

(** A transaction with its receipt, as both blocks with receipts list it. *)
Definition tx_with_receipt {Vm} (status : FinalityStatus) (e : TxWithHash * Receipt Vm)
    : option TransactionWithReceipt :=
  transaction ← rpc_content_from e.1;
  Some (mkTxWithReceipt transaction (rpc_receipt_new (twh_hash e.1) status e.2)).

Definition block_with_receipts_new {Vm} (hash : Z) (h : Header) (status : FinalityStatus)
    (receipts : list (TxWithHash * Receipt Vm)) : option (RpcBlock TransactionWithReceipt) :=
  transactions ← mapM (tx_with_receipt status) receipts;
  Some {|
    rbk_status := status; rbk_block_hash := hash; rbk_parent_hash := parent_hash h;
    rbk_block_number := number h; rbk_new_root := state_root h; rbk_timestamp := timestamp h;
    rbk_sequencer_address := sequencer_address h;
    rbk_l1_gas_price := resource_price (l1_gas_prices h);
    rbk_l2_gas_price := resource_price (l2_gas_prices h);
    rbk_l1_data_gas_price := resource_price (l1_data_gas_prices h);
    rbk_l1_da_mode := Calldata;
    rbk_starknet_version := version_display (protocol_version h);
    rbk_transactions := transactions |}.

Definition pending_block_with_receipts_new {Vm} (h : PartialHeader)
    (receipts : list (TxWithHash * Receipt Vm)) : option (RpcPendingBlock TransactionWithReceipt) :=
  transactions ← mapM (tx_with_receipt AcceptedOnL2) receipts;
  Some {|
    rpb_transactions := transactions; rpb_timestamp := ph_timestamp h;
    rpb_sequencer_address := ph_sequencer_address h; rpb_parent_hash := ph_parent_hash h;
    rpb_l1_gas_price := resource_price (ph_l1_gas_prices h);
    rpb_l2_gas_price := resource_price (ph_l2_gas_prices h);
    rpb_l1_data_gas_price := resource_price (ph_l1_data_gas_prices h);
    rpb_l1_da_mode := ph_l1_da_mode h;
    rpb_starknet_version := version_display (ph_protocol_version h) |}.

(** ** State updates (state_update.rs) *)
Record NonceUpdate := mkNonceUpdate { nu_contract_address : Z; nu_nonce : Z }.
Record DeclaredClassItem := mkDeclaredClass { dci_class_hash : Z; dci_compiled_class_hash : Z }.
Record DeployedContractItem := mkDeployed { dpi_address : Z; dpi_class_hash : Z }.
Record RpcStorageEntry := mkRpcStorageEntry { rse_key : Z; rse_value : Z }.
Record ContractStorageDiffItem := mkStorageDiff { csd_address : Z; csd_entries : list RpcStorageEntry }.
Record ReplacedClassItem := mkReplaced { rci_contract_address : Z; rci_class_hash : Z }.
Record StateDiff := mkStateDiff {
  sdf_storage_diffs : list ContractStorageDiffItem;
  sdf_deprecated_declared_classes : list Z;
  sdf_declared_classes : list DeclaredClassItem;
  sdf_deployed_contracts : list DeployedContractItem;
  sdf_replaced_classes : list ReplacedClassItem;
  sdf_nonces : list NonceUpdate;
}.
Record RpcStateUpdate := mkRpcStateUpdate {
  rsu_block_hash : Z;
  rsu_old_root : Z;
  rsu_new_root : Z;
  rsu_state_diff : StateDiff;
}.

Definition state_diff_from (u : StateUpdates) : StateDiff := {|
  sdf_nonces := map (fun e => mkNonceUpdate e.1 e.2) (nonce_updates u);
  sdf_deprecated_declared_classes := deprecated_declared_classes u;
  sdf_declared_classes := map (fun e => mkDeclaredClass e.1 e.2) (declared_classes u);
  sdf_deployed_contracts := map (fun e => mkDeployed e.1 e.2) (deployed_contracts u);
  sdf_storage_diffs :=
    map (fun e => mkStorageDiff e.1 (map (fun s => mkRpcStorageEntry s.1 s.2) e.2)) (storage_updates u);
  sdf_replaced_classes := [] |}.

(** ** Proof nodes (trie.rs) *)
Inductive ProofNode :=
  | ProofBinary (left right : Z)
  | ProofEdge (child : Z) (path : list bool).
Abbreviation MultiProof := (gmap Z ProofNode).
Inductive MerkleNode :=
  | MerkleEdge (path length child : Z)
  | MerkleBinary (left right : Z).
Record NodeWithHash := mkNodeWithHash { node_hash : Z; node : MerkleNode }.

(** The bits of the 32 big-endian bytes of an integer, [Felt::to_bits_be]. *)
Definition bits_be (n : nat) (z : Z) : list bool :=
  rev (map (fun i => Z.testbit z (Z.of_nat i)) (seq 0 n)).
Fixpoint bits_to_Z_acc (acc : Z) (bits : list bool) : Z :=
  match bits with [] => acc | b :: bits => bits_to_Z_acc (2 * acc + Z.b2z b) bits end.

(** [&felt.to_bits_be()[256 - length..]]. *)
Definition felt_to_path (felt length : Z) : list bool :=
  drop (Z.to_nat (256 - length)) (bits_be 256 felt).
(** The path's bits at the end of 32 zero bytes; [None]: a path of over 256 bits. *)
Definition path_to_felt (path : list bool) : option Z :=
  if Nat.leb (length path) 256
  then Some (felt_of (bits_to_Z_acc 0 (replicate (256 - length path) false ++ path)))
  else None.

Definition merkle_node_from (n : ProofNode) : option MerkleNode :=
  match n with
  | ProofBinary l r => Some (MerkleBinary l r)
  | ProofEdge child path =>
      felt ← path_to_felt path; Some (MerkleEdge felt (Z.of_nat (length path) mod 256) child)
  end.
Definition proof_node_from (n : MerkleNode) : ProofNode :=
  match n with
  | MerkleBinary l r => ProofBinary l r
  | MerkleEdge path length child => ProofEdge child (felt_to_path path length)
  end.
Definition nodes_from (p : MultiProof) : option (list NodeWithHash) :=
  mapM (fun e => n ← merkle_node_from e.2; Some (mkNodeWithHash e.1 n)) (map_to_list p).
(** [collect] into a hash map: the last entry of a hash stays. *)
Definition multi_proof_from (l : list NodeWithHash) : MultiProof :=
  fold_left (fun m n => <[node_hash n := proof_node_from (node n)]> m) l ∅.

Definition merkle_compute_hash (hash : Z -> Z -> Z) (n : MerkleNode) : Z :=
  match n with
  | MerkleBinary l r => hash l r
  | MerkleEdge path length child => felt_add (hash child path) (felt_of length)
  end.

(** ** What the conversions keep *)

Lemma da_mode_roundtrip m : to_rpc_da_mode (from_rpc_da_mode m) = m.
Proof. by destruct m. Qed.
Lemma resource_bounds_roundtrip b : to_rpc_resource_bounds (from_rpc_resource_bounds b) = b.
Proof. by destruct b as [[] [] []]. Qed.
#[export] Hint Rewrite da_mode_roundtrip resource_bounds_roundtrip : katana.

Lemma v3_fields_roundtrip f :
  mkV3 (v3_nonce f) (v3_signature f)
    (to_rpc_resource_bounds (from_rpc_resource_bounds (v3_resource_bounds f))) (v3_tip f)
    (v3_paymaster_data f) (to_rpc_da_mode (from_rpc_da_mode (v3_nonce_da_mode f)))
    (to_rpc_da_mode (from_rpc_da_mode (v3_fee_da_mode f))) = f.
Proof. autorewrite with katana. by destruct f. Qed.

(** A transaction that was sent is shown as it was sent. *)
Lemma invoke_shown hash tx chain_id :
  rpc_tx_from {| twh_hash := hash;
                 twh_transaction := TxInvoke (invoke_into_tx_with_chain_id tx chain_id) |}
  = Some (RpcTxInvoke (RpcInvokeV3 hash (bi_sender_address tx) (bi_calldata tx)
            (bi_account_deployment_data tx) (bi_fields tx))).
Proof. unfold rpc_tx_from. simpl. by rewrite v3_fields_roundtrip. Qed.

Lemma deploy_account_shown gca hash tx chain_id :
  rpc_tx_from {| twh_hash := hash;
                 twh_transaction :=
                   TxDeployAccount (deploy_account_into_tx_with_chain_id gca tx chain_id) |}
  = Some (RpcTxDeployAccount (RpcDeployAccountV3 hash (bd_contract_address_salt tx)
            (bd_constructor_calldata tx) (bd_class_hash tx) (bd_fields tx))).
Proof. unfold rpc_tx_from. simpl. by rewrite v3_fields_roundtrip. Qed.

Lemma declare_shown {C W} (class_hash_of : W -> Z) (class_try_from : W -> option C) hash tx chain_id d :
  declare_try_into_tx_with_chain_id class_hash_of class_try_from tx chain_id = Some d ->
  rpc_tx_from {| twh_hash := hash; twh_transaction := TxDeclare (dwc_transaction d) |}
  = Some (RpcTxDeclare (RpcDeclareV3 hash (bc_sender_address tx) (bc_compiled_class_hash tx)
            (class_hash_of (bc_contract_class tx)) (bc_account_deployment_data tx) (bc_fields tx))).
Proof.
  unfold declare_try_into_tx_with_chain_id. intros (class & Hc & [= <-])%bind_Some.
  unfold rpc_tx_from. simpl. by rewrite v3_fields_roundtrip.
Qed.

(** Only an L1 handler with a nonce of over 64 bits has no wire form. *)
Lemma rpc_tx_from_some tx :
  (forall l, twh_transaction tx = TxL1Handler l -> l1h_nonce l < u64_bound) ->
  is_Some (rpc_tx_from tx) /\ is_Some (rpc_content_from tx).
Proof.
  intros Hn. unfold rpc_tx_from, rpc_content_from. destruct (twh_transaction tx) as [| |l| |];
    simpl; try done. unfold to_u64. rewrite (proj2 (Z.ltb_lt _ _) (Hn l eq_refl)). done.
Qed.

Lemma mapM_is_Some {A B} (f : A -> option B) l :
  Forall (fun x => is_Some (f x)) l -> is_Some (mapM f l).
Proof. induction 1 as [|x l [y Hy] _ [ys IH]]; simpl; [done|]. by rewrite Hy; simpl; rewrite IH. Qed.

(** ** Paths *)
Lemma length_bits_be n z : length (bits_be n z) = n.
Proof. unfold bits_be. by rewrite length_rev, length_map, length_seq. Qed.

Lemma bits_be_S n z : bits_be (S n) z = Z.testbit z (Z.of_nat n) :: bits_be n z.
Proof. unfold bits_be. by rewrite seq_S, map_app, rev_app_distr. Qed.

Lemma drop_bits_be n m z : drop n (bits_be (n + m) z) = bits_be m z.
Proof. induction n as [|n IH]; [done|]. simpl. by rewrite bits_be_S. Qed.

Lemma bits_to_Z_acc_eq acc bits :
  bits_to_Z_acc acc bits = acc * 2 ^ Z.of_nat (length bits) + bits_to_Z_acc 0 bits.
Proof.
  revert acc. induction bits as [|b bits IH]; intros acc; [simpl; lia|].
  cbn [length bits_to_Z_acc]. rewrite IH, (IH (2 * 0 + Z.b2z b)), Nat2Z.inj_succ, Z.pow_succ_r; lia.
Qed.

Lemma bits_to_Z_acc_bound bits : 0 <= bits_to_Z_acc 0 bits < 2 ^ Z.of_nat (length bits).
Proof.
  induction bits as [|b bits IH]; [simpl; lia|].
  cbn [length bits_to_Z_acc]. rewrite bits_to_Z_acc_eq, Nat2Z.inj_succ, Z.pow_succ_r by lia.
  destruct b; simpl Z.b2z; lia.
Qed.

Lemma bits_be_of bits acc :
  bits_be (length bits) (acc * 2 ^ Z.of_nat (length bits) + bits_to_Z_acc 0 bits) = bits.
Proof.
  revert acc. induction bits as [|b bits IH]; intros acc; [done|].
  cbn [length bits_to_Z_acc]. rewrite bits_be_S, (bits_to_Z_acc_eq (2 * 0 + Z.b2z b)).
  set (k := length bits) in *.
  replace (acc * 2 ^ Z.of_nat (S k) + ((2 * 0 + Z.b2z b) * 2 ^ Z.of_nat k + bits_to_Z_acc 0 bits))
    with ((2 * acc + Z.b2z b) * 2 ^ Z.of_nat k + bits_to_Z_acc 0 bits)
    by (rewrite Nat2Z.inj_succ, Z.pow_succ_r by lia; lia).
  f_equal; [|apply IH]. pose proof (bits_to_Z_acc_bound bits) as Hb. fold k in Hb.
  rewrite <- (Z.add_0_l (Z.of_nat k)), <- Z.div_pow2_bits by lia.
  rewrite Z.add_comm, Z.div_add, Z.div_small by lia. rewrite Z.add_0_l.
  by rewrite Z.testbit_0_r.
Qed.

Lemma bits_to_Z_replicate n bits : bits_to_Z_acc 0 (replicate n false ++ bits) = bits_to_Z_acc 0 bits.
Proof. by induction n. Qed.

Lemma path_to_felt_value path :
  (length path <= 251)%nat -> path_to_felt path = Some (bits_to_Z_acc 0 path).
Proof.
  intros Hlen. unfold path_to_felt. rewrite (proj2 (Nat.leb_le _ _)) by lia.
  rewrite bits_to_Z_replicate. f_equal. apply felt_of_small.
  pose proof (bits_to_Z_acc_bound path) as [Hlo Hhi]. split; [done|].
  apply (Z.lt_trans _ (2 ^ 251)); [|done]. eapply Z.lt_le_trans; [done|].
  apply Z.pow_le_mono_r; lia.
Qed.

Lemma felt_to_path_of path :
  (length path <= 251)%nat ->
  felt_to_path (bits_to_Z_acc 0 path) (Z.of_nat (length path)) = path.
Proof.
  intros Hlen. unfold felt_to_path.
  replace (bits_be 256) with (bits_be (256 - length path + length path)%nat) by (f_equal; lia).
  replace (Z.to_nat (256 - Z.of_nat (length path))) with (256 - length path)%nat by lia.
  rewrite drop_bits_be. exact (bits_be_of path 0).
Qed.

Definition short_edges (n : ProofNode) : Prop :=
  match n with ProofBinary _ _ => True | ProofEdge _ path => (length path <= 251)%nat end.

Lemma node_roundtrip n :
  short_edges n -> exists m, merkle_node_from n = Some m /\ proof_node_from m = n.
Proof.
  destruct n as [l r|child path]; simpl; [by eexists|]. intros Hlen.
  rewrite path_to_felt_value by done. simpl. eexists; split; [done|]. simpl.
  rewrite Z.mod_small by lia. by rewrite felt_to_path_of.
Qed.

Lemma nodes_from_list (l : list (Z * ProofNode)) :
  Forall (fun e => short_edges e.2) l ->
  exists ns, mapM (fun e => n ← merkle_node_from e.2; Some (mkNodeWithHash e.1 n)) l = Some ns /\
    map (fun n => (node_hash n, proof_node_from (node n))) ns = l.
Proof.
  induction 1 as [|[h n] l Hn _ (ns & IH & Hns)]; [by exists []|].
  destruct (node_roundtrip n Hn) as (m & Hm & Hr). exists (mkNodeWithHash h m :: ns).
  simpl in *. rewrite Hm. simpl. rewrite IH. simpl. by rewrite Hr, Hns.
Qed.

Lemma fold_insert_lookup (l : list (Z * ProofNode)) (m : MultiProof) k :
  NoDup l.*1 ->
  fold_left (fun m e => <[e.1 := e.2]> m) l m !! k
  = match (list_to_map l : MultiProof) !! k with Some v => Some v | None => m !! k end.
Proof.
  revert m. induction l as [|[h n] l IH]; intros m Hnd; simpl; [by rewrite lookup_empty|].
  apply NoDup_cons in Hnd as [Hh Hnd]. rewrite IH by done. simpl.
  destruct (decide (h = k)) as [->|Hne].
  - rewrite !lookup_insert_eq. by rewrite (not_elem_of_list_to_map_1 l k Hh).
  - by rewrite !lookup_insert_ne.
Qed.

(** Proof nodes survive the trip over the wire: a proof whose edges are no
    longer than the trie is high has a wire form, and reading it gives the proof. *)
Theorem proof_nodes_roundtrip (p : MultiProof) :
  map_Forall (fun _ n => short_edges n) p ->
  multi_proof_from <$> nodes_from p = Some p.
Proof.
  intros Hp. destruct (nodes_from_list (map_to_list p)) as (ns & Hns & Hl).
  { apply Forall_forall. intros [h n] Hin%elem_of_map_to_list. exact (Hp h n Hin). }
  unfold nodes_from. rewrite Hns. simpl. f_equal. unfold multi_proof_from.
  replace (fold_left _ ns ∅) with (fold_left (fun (m : MultiProof) e => <[e.1 := e.2]> m) (map_to_list p) ∅).
  2: { rewrite <- Hl. generalize (∅ : MultiProof). clear. induction ns as [|n ns IH]; intros m; [done|].
       simpl. apply IH. }
  apply map_eq. intros k. rewrite fold_insert_lookup by apply NoDup_fst_map_to_list.
  rewrite list_to_map_to_list. destruct (p !! k); [done|]. by rewrite lookup_empty.
Qed.

Lemma proof_nodes_roundtrip_witness :
  multi_proof_from <$> nodes_from {[7 := ProofBinary 1 2; 8 := ProofEdge 3 [false; true; false]]}
  = Some {[7 := ProofBinary 1 2; 8 := ProofEdge 3 [false; true; false]]}.
Proof.
  apply proof_nodes_roundtrip.
  intros k n [[<- <-]|[_ [<- <-]%lookup_singleton_Some]]%lookup_insert_Some; simpl; [done|lia].
Defined.
