(* ===== verification/RpcForking.v ===== *)
(** * The client of a forked network (rpc/rpc/src/starknet/forking.rs)

    A node forked at a block answers for the blocks up to it by asking the remote
    node, whose answers it filters.  The remote node is a record of what its calls
    return. *)

From Stdlib Require Import ZArith Lia String.
From stdpp Require Import base numbers list.
From S2P Require Import Prelude Felt Tx Version Block Receipt DbProvider Events RpcError RpcEvents RpcTypes.

Inductive TransactionStatus :=
  | StatusReceived
  | StatusRejected
  | StatusAcceptedOnL2 (r : RpcExecutionResult)
  | StatusAcceptedOnL1 (r : RpcExecutionResult).

Inductive MaybePendingStateUpdate :=
  | PendingStateUpdate (old_root : Z) (diff : StateDiff)
  | MinedStateUpdate (u : RpcStateUpdate).

(** [starknet::providers::Provider], as far as the client uses it. *)
Abbreviation remote A := (result StarknetRsProviderError A).
Record RemoteNode := mkRemoteNode {
  rn_block_with_tx_hashes : BlockIdOrTag -> remote (MaybePendingBlock Z);
  rn_block_with_txs : BlockIdOrTag -> remote (MaybePendingBlock RpcTx);
  rn_block_with_receipts : BlockIdOrTag -> remote (MaybePendingBlock TransactionWithReceipt);
  rn_transaction_by_hash : Z -> remote RpcTx;
  rn_transaction_receipt : Z -> remote TxReceiptWithBlockInfo;
  rn_transaction_status : Z -> remote TransactionStatus;
  rn_transaction_by_block_id_and_index : BlockIdOrTag -> Z -> remote RpcTx;
  rn_block_transaction_count : BlockIdOrTag -> remote Z;
  rn_state_update : BlockIdOrTag -> remote MaybePendingStateUpdate;
  rn_events : Z -> Z -> Filter -> option (list Z) -> Z -> remote EventsPage;
}.

Record RpcForkClient := mkRpcForkClient { rfc_block : Z; rfc_provider : RemoteNode }.

(** [?] on the provider's result. *)
Definition ask {A} (m : remote A) : result ForkError A := map_err ForkProvider m.

Definition mined_number {T} (b : MaybePendingBlock T) : option Z :=
  match b with MinedRpcBlock b => Some (rbk_block_number b) | PendingRpcBlock _ => None end.

(** The client as the event queries see it. *)
Definition event_client (c : RpcForkClient) : ForkedClient :=
  mkForkedClient (rfc_block c)
    (fun hash => mined_number <$> ask (rn_block_with_tx_hashes (rfc_provider c) (IdHash hash)))
    (fun from to filter token chunk => ask (rn_events (rfc_provider c) from to filter token chunk)).

Section Client.
Implicit Types (c : RpcForkClient) (hash : Z) (id : BlockIdOrTag).

Definition fork_transaction_by_hash c hash : result ForkError RpcTx :=
  ask (rn_transaction_by_hash (rfc_provider c) hash).

Definition fork_transaction_receipt c hash : result ForkError TxReceiptWithBlockInfo :=
  receipt ← ask (rn_transaction_receipt (rfc_provider c) hash);
  match ri_block receipt with
  | ReceiptInBlock _ block_number =>
      if Z.ltb (rfc_block c) block_number then Err BlockOutOfRange else Ok receipt
  | ReceiptPending => Ok receipt
  end.

(** Both requests are sent; the receipt's outcome is looked at first. *)
Definition fork_transaction_status c hash : result ForkError TransactionStatus :=
  _ ← fork_transaction_receipt c hash;
  ask (rn_transaction_status (rfc_provider c) hash).

Definition fork_transaction_by_block_id_and_index c id (idx : Z) : result ForkError RpcTx :=
  match id with
  | IdNumber num =>
      if Z.ltb (rfc_block c) num then Err BlockOutOfRange
      else ask (rn_transaction_by_block_id_and_index (rfc_provider c) id idx)
  | IdHash hash =>
      block ← ask (rn_block_with_tx_hashes (rfc_provider c) (IdHash hash));
      match mined_number block with
      | None => Err UnexpectedPendingData
      | Some number =>
          if Z.ltb (rfc_block c) number then Err BlockOutOfRange
          else ask (rn_transaction_by_block_id_and_index (rfc_provider c) id idx)
      end
  | IdTag _ => Err BlockTagNotAllowed
  end.

(** The check the three block queries make on what they get. *)
Definition guard_block {T} c (b : MaybePendingBlock T) : result ForkError (MaybePendingBlock T) :=
  match mined_number b with
  | Some number => if Z.ltb (rfc_block c) number then Err BlockOutOfRange else Ok b
  | None => Err UnexpectedPendingData
  end.
Definition fork_block_with_txs c id : result ForkError (MaybePendingBlock RpcTx) :=
  b ← ask (rn_block_with_txs (rfc_provider c) id); guard_block c b.
Definition fork_block_with_receipts c id : result ForkError (MaybePendingBlock TransactionWithReceipt) :=
  b ← ask (rn_block_with_receipts (rfc_provider c) id); guard_block c b.
Definition fork_block_with_tx_hashes c id : result ForkError (MaybePendingBlock Z) :=
  b ← ask (rn_block_with_tx_hashes (rfc_provider c) id); guard_block c b.

(** The check on a block id before a query by it. *)
Definition guard_id c id : result ForkError unit :=
  match id with
  | IdNumber num => if Z.ltb (rfc_block c) num then Err BlockOutOfRange else Ok tt
  | IdHash hash =>
      block ← ask (rn_block_with_tx_hashes (rfc_provider c) (IdHash hash));
      match mined_number block with
      | Some number => if Z.ltb (rfc_block c) number then Err BlockOutOfRange else Ok tt
      | None => Ok tt
      end
  | IdTag _ => Err BlockTagNotAllowed
  end.
Definition fork_block_transaction_count c id : result ForkError Z :=
  _ ← guard_id c id; ask (rn_block_transaction_count (rfc_provider c) id).
Definition fork_state_update c id : result ForkError MaybePendingStateUpdate :=
  _ ← guard_id c id; ask (rn_state_update (rfc_provider c) id).
End Client.

(** ** What the client lets through *)
Lemma guard_block_ok {T} c (b b' : MaybePendingBlock T) :
  guard_block c b = Ok b' ->
  b' = b /\ exists m, b = MinedRpcBlock m /\ rbk_block_number m <= rfc_block c.
Proof.
  unfold guard_block. destruct b as [|m]; simpl; [done|].
  destruct (Z.ltb_spec (rfc_block c) (rbk_block_number m)); [done|]. intros [= <-]. eauto.
Qed.

Lemma guarded_block {T} c (r : remote (MaybePendingBlock T)) b :
  (b ← ask r; guard_block c b) = Ok b <->
  r = Ok b /\ exists m, b = MinedRpcBlock m /\ rbk_block_number m <= rfc_block c.
Proof.
  split.
  - intros (b' & Hr & [-> Hm]%guard_block_ok)%bind_ok. split; [|done].
    destruct r; simpl in Hr; congruence.
  - intros [-> (m & -> & Hm)]. unfold guard_block. simpl.
    by rewrite (proj2 (Z.ltb_ge _ _) Hm).
Qed.

(** The transaction is of a block not above the fork point, or of the remote node's
    pending block. *)
Definition receipt_in_range (c : RpcForkClient) (r : TxReceiptWithBlockInfo) : Prop :=
  match ri_block r with ReceiptInBlock _ n => n <= rfc_block c | ReceiptPending => True end.

Lemma guarded_receipt c hash r :
  fork_transaction_receipt c hash = Ok r <->
  rn_transaction_receipt (rfc_provider c) hash = Ok r /\ receipt_in_range c r.
Proof.
  unfold fork_transaction_receipt, receipt_in_range.
  destruct (rn_transaction_receipt _ _) as [r0|]; [simpl|split; [done|by intros [? _]]].
  destruct (ri_block r0) as [|h n] eqn:Eb; [split; [intros [= <-]; by rewrite Eb|by intros [[= <-] _]]|].
  destruct (Z.ltb_spec (rfc_block c) n).
  - split; [done|]. intros [[= <-] Hn]. rewrite Eb in Hn. lia.
  - split; [intros [= <-]; by rewrite Eb|by intros [[= <-] _]].
Qed.

(** The block is named by a number not above the fork point, or by the hash of a block
    the remote node shows as mined and not above it. *)
Definition position_in_range (c : RpcForkClient) (id : BlockIdOrTag) : Prop :=
  match id with
  | IdNumber n => n <= rfc_block c
  | IdHash _ =>
      exists m, rn_block_with_tx_hashes (rfc_provider c) id = Ok (MinedRpcBlock m) /\
        rbk_block_number m <= rfc_block c
  | IdTag _ => False
  end.

Lemma guarded_position c id idx tx :
  fork_transaction_by_block_id_and_index c id idx = Ok tx <->
  rn_transaction_by_block_id_and_index (rfc_provider c) id idx = Ok tx /\ position_in_range c id.
Proof.
  assert (forall r : remote RpcTx, ask r = Ok tx <-> r = Ok tx) as Hask.
  { by intros [|]; split; intros [=]; subst. }
  destruct id as [h|n|t]; simpl; [| |by split; [|intros [_ []]]].
  - destruct (rn_block_with_tx_hashes (rfc_provider c) (IdHash h)) as [[|m]|e]; simpl;
      [by split; [|intros [_ (? & ? & _)]]| |by split; [|intros [_ (? & ? & _)]]].
    destruct (Z.ltb_spec (rfc_block c) (rbk_block_number m)).
    + split; [done|]. intros [_ (m' & [= <-] & Hm)]. lia.
    + rewrite Hask. split; [eauto|by intros [? _]].
  - destruct (Z.ltb_spec (rfc_block c) n); [split; [done|intros [_ ?]; lia]|].
    rewrite Hask. split; [done|by intros [? _]].
Qed.

(** C37. What the guards of a forked node let through of the remote node's answers.  A
    block is shown exactly when it is mined and not above the fork point; a receipt,
    and with it a status, exactly when its transaction is in a block not above the fork
    point or in the remote node's pending block, which is not guarded against; a
    transaction by position exactly when its block is named by a number not above the
    fork point or by the hash of a mined block not above it, never by a tag; and a
    transaction by hash is passed on whatever its block. *)
Theorem fork_answers_in_range c :
  (forall id b, fork_block_with_txs c id = Ok b <->
     rn_block_with_txs (rfc_provider c) id = Ok b /\
     exists m, b = MinedRpcBlock m /\ rbk_block_number m <= rfc_block c) /\
  (forall id b, fork_block_with_receipts c id = Ok b <->
     rn_block_with_receipts (rfc_provider c) id = Ok b /\
     exists m, b = MinedRpcBlock m /\ rbk_block_number m <= rfc_block c) /\
  (forall id b, fork_block_with_tx_hashes c id = Ok b <->
     rn_block_with_tx_hashes (rfc_provider c) id = Ok b /\
     exists m, b = MinedRpcBlock m /\ rbk_block_number m <= rfc_block c) /\
  (forall hash r, fork_transaction_receipt c hash = Ok r <->
     rn_transaction_receipt (rfc_provider c) hash = Ok r /\ receipt_in_range c r) /\
  (forall hash s, fork_transaction_status c hash = Ok s <->
     rn_transaction_status (rfc_provider c) hash = Ok s /\
     exists r, rn_transaction_receipt (rfc_provider c) hash = Ok r /\ receipt_in_range c r) /\
  (forall id idx tx, fork_transaction_by_block_id_and_index c id idx = Ok tx <->
     rn_transaction_by_block_id_and_index (rfc_provider c) id idx = Ok tx /\ position_in_range c id) /\
  (forall hash tx, fork_transaction_by_hash c hash = Ok tx <->
     rn_transaction_by_hash (rfc_provider c) hash = Ok tx).
Proof.
  split_and!; [by intros; apply guarded_block..|exact (guarded_receipt c)| |exact (guarded_position c)|].
  - intros hash s. unfold fork_transaction_status. split.
    + intros (r & Hr%guarded_receipt & Hs)%bind_ok. split; [|eauto].
      destruct (rn_transaction_status _ _); simpl in Hs; congruence.
    + intros [Hs (r & Hr%guarded_receipt)]. by rewrite Hr; simpl; rewrite Hs.
  - intros hash tx. unfold fork_transaction_by_hash.
    by destruct (rn_transaction_by_hash _ _); split; intros [=]; subst.
Qed.

(** A transaction asked for by its hash is not checked: one the remote chain mined
    after the fork point is shown, while its receipt is not. *)
Theorem fork_transaction_unguarded c hash tx r h n :
  rn_transaction_by_hash (rfc_provider c) hash = Ok tx ->
  rn_transaction_receipt (rfc_provider c) hash = Ok r ->
  ri_block r = ReceiptInBlock h n -> rfc_block c < n ->
  fork_transaction_by_hash c hash = Ok tx /\
  fork_transaction_receipt c hash = Err BlockOutOfRange /\
  fork_transaction_status c hash = Err BlockOutOfRange.
Proof.
  intros Ht Hr Hb Hn.
  assert (fork_transaction_receipt c hash = Err BlockOutOfRange) as Hrec.
  { unfold fork_transaction_receipt. rewrite Hr. simpl. rewrite Hb.
    by rewrite (proj2 (Z.ltb_lt _ _) Hn). }
  split_and!; [by unfold fork_transaction_by_hash; rewrite Ht|done|].
  unfold fork_transaction_status. by rewrite Hrec.
Qed.
