(* ===== verification/RpcStarknet.v ===== *)
(** * The read handlers of the JSON-RPC server (rpc/rpc/src/starknet/mod.rs,
    rpc/rpc-types-builder/src)

    [StarknetApi] answers from the database, the pending block of the block producer,
    the pool and, on a forked node, the remote network.  A handler returns a result or
    panics: [option] around [result].  Reads are of one state of these components; the
    only thing a handler of this file changes is the block context generator, which
    is threaded. *)

From Stdlib Require Import ZArith Lia String.
From stdpp Require Import base numbers list gmap.
From S2P Require Import Prelude Felt Tx Version Block Receipt PoolTypes Codec Versioned Mdbx DbProvider DbState Events RpcError RpcEvents GasOracle Backend RpcTypes RpcForking.

(** ** Handlers *)
Definition handler (A : Type) : Type := option (result StarknetApiError A).
Definition ret {E A} (a : A) : option (result E A) := Some (Ok a).
Definition fail {E A} (e : E) : option (result E A) := Some (Err e).
Definition hbind {E A B} (m : option (result E A)) (f : A -> option (result E B)) : option (result E B) :=
  match m with Some (Ok a) => f a | Some (Err e) => Some (Err e) | None => None end.
Notation "'let!' x := m 'in' k" := (hbind m (fun x => k))
  (at level 200, x pattern, right associativity) : katana_scope.
Open Scope katana_scope.

(** [?] on a provider's result, on that of a call that can panic, [expect], [ok_or(e)?]. *)
Definition provided {A} (m : ProviderResult A) : handler A := Some (map_err api_of_provider m).
Definition answered {A} (m : option (ProviderResult A)) : handler A :=
  option_map (map_err api_of_provider) m.
Definition expect {A} (o : option A) : handler A :=
  match o with Some a => ret a | None => None end.
Definition required {A} (o : option A) (e : StarknetApiError) : handler A :=
  match o with Some a => ret a | None => fail e end.

(** ** State providers: [Box<dyn StateProvider>] as the record of its methods, [None]
    where a method panics *)
Record StateProvider (C : Type) := mkStateProvider {
  sp_class : Z -> ProviderResult (option C);
  sp_compiled_class_hash : Z -> ProviderResult (option Z);
  sp_nonce : Z -> option (ProviderResult (option Z));
  sp_class_hash_of_contract : Z -> option (ProviderResult (option Z));
  sp_storage : Z -> Z -> option (ProviderResult (option Z));
  sp_state_root : option (ProviderResult Z);
  sp_classes_root : ProviderResult Z;
  sp_contracts_root : ProviderResult Z;
  sp_storage_root : Z -> ProviderResult (option Z);
  sp_class_multiproof : list Z -> ProviderResult MultiProof;
  sp_contract_multiproof : list Z -> ProviderResult MultiProof;
  sp_storage_multiproof : Z -> list Z -> ProviderResult MultiProof;
}.
Arguments mkStateProvider {C}.
Arguments sp_class {C}.
Arguments sp_compiled_class_hash {C}.
Arguments sp_nonce {C}.
Arguments sp_class_hash_of_contract {C}.
Arguments sp_storage {C}.
Arguments sp_state_root {C}.
Arguments sp_classes_root {C}.
Arguments sp_contracts_root {C}.
Arguments sp_storage_root {C}.
Arguments sp_class_multiproof {C}.
Arguments sp_contract_multiproof {C}.
Arguments sp_storage_multiproof {C}.

(** The tries of bonsai-trie a state is committed to, opened at a state. *)
Inductive TrieKind := ClassesTrie | ContractsTrie | StoragesTrie (address : Z).
Record Tries := mkTries {
  trie_root : StateView -> TrieKind -> Z;
  trie_multiproof : StateView -> TrieKind -> list Z -> MultiProof;
}.

Section Api.
Context `{MD : Mdbx} `{RT : RoaringTreemap} `{FP : FeltPostcard} {C Vm Info ExecErr : Type}.
Context (poseidon : list Z -> Z).
Abbreviation ChainDb := (Db C (Receipt Vm) (TypedTransactionExecutionInfo Info)).
Abbreviation ExecResult := (ExecutionResult Vm Info ExecErr).

(** [LatestStateProvider] and [HistoricalStateProvider]; [state_root] is the trait's
    default for the former, the header's for the latter. *)
Definition db_state (db : ChainDb) (t : Tries) (v : StateView) : StateProvider C := {|
  sp_class hash :=
    match v with
    | LatestState => latest_class db hash
    | HistoricalState n => historical_class db n hash
    end;
  sp_compiled_class_hash hash :=
    match v with
    | LatestState => latest_compiled_class_hash db hash
    | HistoricalState n => historical_compiled_class_hash db n hash
    end;
  sp_nonce a := Some (view_nonce db v a);
  sp_class_hash_of_contract a := Some (view_class_hash db v a);
  sp_storage a k := Some (view_storage db v a k);
  sp_state_root :=
    match v with
    | LatestState =>
        Some (Ok (poseidon [short_string "STARKNET_STATE_V0";
                            trie_root t v ContractsTrie; trie_root t v ClassesTrie]))
    | HistoricalState n => (fun r => Ok r) <$> historical_state_root db n
    end;
  sp_classes_root := Ok (trie_root t v ClassesTrie);
  sp_contracts_root := Ok (trie_root t v ContractsTrie);
  sp_storage_root a := Ok (Some (trie_root t v (StoragesTrie a)));
  sp_class_multiproof l := Ok (trie_multiproof t v ClassesTrie l);
  sp_contract_multiproof l := Ok (trie_multiproof t v ContractsTrie l);
  sp_storage_multiproof a l := Ok (trie_multiproof t v (StoragesTrie a) l) |}.

(** ** The server's state *)
Record PendingExecutor := mkPendingExecutor {
  pe_block_env : BlockEnv;
  pe_transactions : list (TxWithHash * ExecResult);
  pe_state : StateProvider C;
}.

(** [BlockProducerMode]: only the interval producer has a pending executor. *)
Inductive ProducerMode := ModeInstant | ModeInterval (e : PendingExecutor).

(** [StarknetApiInner]; the pool by the two reads the handlers make of it. *)
Record StarknetApi := mkStarknetApi {
  sa_pool_get : Z -> option (ExecutableTxWithHash C);
  sa_pool_nonce : Z -> result Z (option Z);
  sa_db : ChainDb;
  sa_tries : Tries;
  sa_forked_client : option RpcForkClient;
  sa_block_producer : option ProducerMode;
  sa_max_event_page_size : option Z;
  sa_max_proof_keys : option Z;
}.
Implicit Types (api : StarknetApi) (id : BlockIdOrTag) (hash address : Z).

Definition pending_executor api : option PendingExecutor :=
  bp ← sa_block_producer api;
  match bp with ModeInstant => None | ModeInterval e => Some e end.

(** ** States and environments *)
Definition api_latest api : ProviderResult (StateProvider C) :=
  Ok (db_state (sa_db api) (sa_tries api) LatestState).
Definition api_historical api (id : BlockHashOrNumber) : ProviderResult (option (StateProvider C)) :=
  option_map (db_state (sa_db api) (sa_tries api)) <$> historical (sa_db api) id.

Definition api_state api id : handler (StateProvider C) :=
  let! state :=
    match id with
    | IdTag Latest => let! s := provided (api_latest api) in ret (Some s)
    | IdTag PendingTag =>
        match pending_executor api with
        | Some exec => ret (Some (pe_state exec))
        | None => let! s := provided (api_latest api) in ret (Some s)
        end
    | IdHash hash => provided (api_historical api (BHash hash))
    | IdNumber num => provided (api_historical api (BNum num))
    end in
  required state BlockNotFound.

(** Without a pending block the environment of the next one is computed by the
    backend, which updates its block context generator. *)
Definition api_block_env_at (oracle : GasOracle) (now : Z) api id (gen : BlockContextGenerator)
    : handler (BlockEnv * BlockContextGenerator) :=
  let db := sa_db api in
  let keep gen (m : ProviderResult (option BlockEnv)) :=
    let! env := provided m in
    let! env := required env BlockNotFound in ret (env, gen) in
  match id with
  | IdTag PendingTag =>
      match pending_executor api with
      | Some exec => ret (pe_block_env exec, gen)
      | None =>
          let! num := provided (latest_number db) in
          let! env := provided (block_env_at db (BNum num)) in
          let! env := expect env in
          ret (update_block_env oracle now gen env)
      end
  | IdTag Latest => let! num := provided (latest_number db) in keep gen (block_env_at db (BNum num))
  | IdHash hash => keep gen (block_env_at db (BHash hash))
  | IdNumber num => keep gen (block_env_at db (BNum num))
  end.

Definition api_block_hash_and_number api : handler (Z * Z) :=
  let! hash := provided (latest_hash (sa_db api)) in
  let! number := provided (latest_number (sa_db api)) in
  ret (hash, number).

Definition api_latest_block_number api : handler Z := provided (latest_number (sa_db api)).

(** ** Contracts and classes *)

(** [RpcContractClass::try_from(class).unwrap()]. *)
Context {RC : Type} (rpc_class_try_from : C -> option RC).

Definition class_at_hash api id (class_hash : Z) : handler RC :=
  let! state := api_state api id in
  let! class := provided (sp_class state class_hash) in
  let! class := required class ClassHashNotFound in
  expect (rpc_class_try_from class).

Definition class_hash_at_address api id address : handler Z :=
  if Z.eqb address 1 then ret 0
  else
    let! state := api_state api id in
    let! class_hash := answered (sp_class_hash_of_contract state address) in
    required class_hash ContractNotFound.

Definition class_at_address api id address : handler RC :=
  let! hash := class_hash_at_address api id address in
  class_at_hash api id hash.

Definition storage_at api address (key : Z) id : handler Z :=
  let! state := api_state api id in
  let! missing :=
    if Z.eqb address 1 then ret false
    else
      let! class_hash := answered (sp_class_hash_of_contract state address) in
      ret (match class_hash with None => true | Some _ => false end) in
  if (missing : bool) then fail ContractNotFound
  else
    let! value := answered (sp_storage state address key) in
    ret (default 0 value).

Definition nonce_at api id address : handler Z :=
  let! result :=
    match id with
    | IdTag PendingTag =>
        Some (map_err (fun e => UnexpectedError (ReasonError e)) (sa_pool_nonce api address))
    | _ => let! state := api_state api id in answered (sp_nonce state address)
    end in
  required result ContractNotFound.

(** ** Transactions *)

(** What was found locally, else what the forked network has, else [missing]. *)
Definition or_forked {A} api (local : option A) (remote : RpcForkClient -> result ForkError A)
    (missing : handler A) : handler A :=
  match local with
  | Some a => ret a
  | None =>
      match sa_forked_client api with
      | Some client => Some (map_err api_of_fork (remote client))
      | None => missing
      end
  end.

Definition block_tx_count api id : handler Z :=
  let db := sa_db api in
  let by_block (id : BlockHashOrNumber) := provided (transaction_count_by_block db id) in
  let! count :=
    match id with
    | IdTag PendingTag =>
        match pending_executor api with
        | Some exec => ret (Some (Z.of_nat (length (pe_transactions exec))))
        | None => let! h := provided (latest_hash db) in by_block (BHash h)
        end
    | IdTag Latest => let! n := provided (latest_number db) in by_block (BNum n)
    | IdNumber num => by_block (BNum num)
    | IdHash hash => by_block (BHash hash)
    end in
  or_forked api count (fun c => fork_block_transaction_count c id) (fail BlockNotFound).

(** [Option::map(Tx::from)]. *)
Definition show_tx (tx : option TxWithHash) : handler (option RpcTx) :=
  match tx with
  | None => ret None
  | Some tx => let! tx := expect (rpc_tx_from tx) in ret (Some tx)
  end.

Definition transaction_by_block_id_and_index api id (index : Z) : handler RpcTx :=
  let! tx :=
    match id with
    | IdTag PendingTag =>
        match pending_executor api with
        | None => fail BlockNotFound
        | Some exec => ret (fst <$> pe_transactions exec !! Z.to_nat index)
        end
    | _ =>
        let! num := provided (convert_block_id (sa_db api) id) in
        let! num := required num BlockNotFound in
        provided (transaction_by_block_and_idx (sa_db api) (BNum num) index)
    end in
  let! tx := show_tx tx in
  or_forked api tx (fun c => fork_transaction_by_block_id_and_index c id index)
    (fail InvalidTxnIndex).

(** [transactions().iter().find(|(tx, _)| tx.hash == hash)]. *)
Definition find_pending (exec : PendingExecutor) hash : option (TxWithHash * ExecResult) :=
  List.find (fun e => Z.eqb (twh_hash e.1) hash) (pe_transactions exec).

Definition transaction api hash : handler RpcTx :=
  let! tx := provided (transaction_by_hash (sa_db api) hash) in
  let tx :=
    match tx with
    | Some tx => Some tx
    | None => exec ← pending_executor api; fst <$> find_pending exec hash
    end in
  let! tx := show_tx tx in
  or_forked api tx (fun c => fork_transaction_by_hash c hash)
    (let! tx := required (sa_pool_get api hash) TxnHashNotFound in
     expect (rpc_tx_from (tx_with_hash_of_executable tx))).

(** [ReceiptBuilder::build], whose errors become [anyhow] errors. *)
Definition receipt_build (db : ChainDb) hash : handler (option TxReceiptWithBlockInfo) :=
  let! receipt := provided (receipt_by_hash db hash) in
  match receipt with
  | None => ret None
  | Some receipt =>
      let! at_block := provided (transaction_block_num_and_hash db hash) in
      let! (block_number, block_hash) := expect at_block in
      let! finality_status := provided (transaction_status db hash) in
      let! finality_status := expect finality_status in
      ret (Some (receipt_info_new (ReceiptInBlock block_hash block_number) hash finality_status
                   receipt))
  end.

(** [iter().find_map]: the receipt of the first transaction with the hash that
    succeeded. *)
Definition pending_receipt (exec : PendingExecutor) hash : option (Receipt Vm) :=
  head (omap (fun e => if Z.eqb (twh_hash e.1) hash then result_receipt e.2 else None)
          (pe_transactions exec)).

Definition api_receipt api hash : handler TxReceiptWithBlockInfo :=
  let! receipt := receipt_build (sa_db api) hash in
  let receipt :=
    match receipt with
    | Some receipt => Some receipt
    | None =>
        exec ← pending_executor api;
        receipt ← pending_receipt exec hash;
        Some (receipt_info_new ReceiptPending hash AcceptedOnL2 receipt)
    end in
  or_forked api receipt (fun c => fork_transaction_receipt c hash) (fail TxnHashNotFound).

Definition status_of_result (res : ExecResult) : TransactionStatus :=
  match res with
  | Failed _ => StatusRejected
  | Success receipt _ => StatusAcceptedOnL2 (execution_result_of (revert_reason receipt))
  end.

Definition api_transaction_status api hash : handler TransactionStatus :=
  let db := sa_db api in
  let! status := provided (transaction_status db hash) in
  let! status :=
    match status with
    | Some status =>
        let! receipt := provided (receipt_by_hash db hash) in
        let! receipt :=
          required receipt
            (UnexpectedError (ReasonText "Transaction hash exist, but the receipt is missing")) in
        let exec_status := execution_result_of (revert_reason receipt) in
        ret (Some (match status with
                   | AcceptedOnL1 => StatusAcceptedOnL1 exec_status
                   | AcceptedOnL2 => StatusAcceptedOnL2 exec_status
                   end))
    | None =>
        match pending_executor api with
        | Some exec =>
            let! (_, res) := required (find_pending exec hash) TxnHashNotFound in
            ret (Some (status_of_result res))
        | None => ret None
        end
    end in
  or_forked api status (fun c => fork_transaction_status c hash)
    (let! _ := required (sa_pool_get api hash) TxnHashNotFound in ret StatusReceived).

(** ** Blocks *)

(** [BlockBuilder]: the three forms of a stored block. *)
Definition block_build (db : ChainDb) (id : BlockHashOrNumber) : handler (option (RpcBlock RpcTx)) :=
  let! found := provided (block_hash_by_id db id) in
  match found with
  | None => ret None
  | Some hash =>
      let! b := provided (block db id) in let! b := expect b in
      let! status := provided (block_status db id) in let! status := expect status in
      let! b := expect (block_with_txs_new hash b status) in ret (Some b)
  end.

Definition block_build_with_tx_hash (db : ChainDb) (id : BlockHashOrNumber)
    : handler (option (RpcBlock Z)) :=
  let! found := provided (block_hash_by_id db id) in
  match found with
  | None => ret None
  | Some hash =>
      let! b := provided (block_with_tx_hashes db id) in let! b := expect b in
      let! status := provided (block_status db id) in let! status := expect status in
      ret (Some (block_with_tx_hashes_new hash b status))
  end.

Definition block_build_with_receipts (db : ChainDb) (id : BlockHashOrNumber)
    : handler (option (RpcBlock TransactionWithReceipt)) :=
  let! found := provided (block_hash_by_id db id) in
  match found with
  | None => ret None
  | Some hash =>
      let! b := provided (block db id) in let! b := expect b in
      let! status := provided (block_status db id) in let! status := expect status in
      let! receipts := provided (receipts_by_block db id) in let! receipts := expect receipts in
      let! b := expect (block_with_receipts_new hash (block_header b) status
                          (combine (block_body b) receipts)) in
      ret (Some b)
  end.

(** The header the three handlers give a pending block. *)
Definition pending_header (env : BlockEnv) (latest_hash : Z) : PartialHeader := {|
  ph_l1_da_mode := Calldata; ph_l2_gas_prices := env_l2_gas_prices env;
  ph_l1_gas_prices := env_l1_gas_prices env;
  ph_l1_data_gas_prices := env_l1_data_gas_prices env; ph_number := env_number env;
  ph_parent_hash := latest_hash; ph_timestamp := env_timestamp env;
  ph_sequencer_address := env_sequencer_address env;
  ph_protocol_version := CURRENT_STARKNET_VERSION |}.

(** [filter(|(_, receipt)| receipt.is_success())]. *)
Definition pending_successes (exec : PendingExecutor) : list TxWithHash :=
  map fst (filter (fun e => result_is_success e.2 = true) (pe_transactions exec)).
Definition pending_with_receipts (exec : PendingExecutor) : list (TxWithHash * Receipt Vm) :=
  omap (fun e => match e.2 with Success receipt _ => Some (e.1, receipt) | Failed _ => None end)
    (pe_transactions exec).

(** The shape the three block handlers share: the pending block if it is asked for and
    there is one, else the stored block, else the forked network's. *)
Definition block_handler {T} api id (pending : PartialHeader -> PendingExecutor -> handler (RpcPendingBlock T))
    (build : BlockHashOrNumber -> handler (option (RpcBlock T)))
    (forked : RpcForkClient -> result ForkError (MaybePendingBlock T)) : handler (MaybePendingBlock T) :=
  let stored :=
    let! num := provided (convert_block_id (sa_db api) id) in
    match num with
    | Some num => let! b := build (BNum num) in ret (MinedRpcBlock <$> b)
    | None => ret None
    end in
  let! b :=
    match id, pending_executor api with
    | IdTag PendingTag, Some exec =>
        let! latest_hash := provided (latest_hash (sa_db api)) in
        let! b := pending (pending_header (pe_block_env exec) latest_hash) exec in
        ret (Some (PendingRpcBlock b))
    | _, _ => stored
    end in
  or_forked api b forked (fail BlockNotFound).

Definition block_with_txs api id : handler (MaybePendingBlock RpcTx) :=
  block_handler api id
    (fun header exec => expect (pending_block_with_txs_new header (pending_successes exec)))
    (block_build (sa_db api)) (fun c => fork_block_with_txs c id).

Definition block_with_receipts api id : handler (MaybePendingBlock TransactionWithReceipt) :=
  block_handler api id
    (fun header exec => expect (pending_block_with_receipts_new header (pending_with_receipts exec)))
    (block_build_with_receipts (sa_db api)) (fun c => fork_block_with_receipts c id).

Definition api_block_with_tx_hashes api id : handler (MaybePendingBlock Z) :=
  block_handler api id
    (fun header exec =>
       ret (pending_block_with_tx_hashes_new header (map twh_hash (pending_successes exec))))
    (block_build_with_tx_hash (sa_db api)) (fun c => fork_block_with_tx_hashes c id).

(** ** State updates *)

(** [StateUpdateBuilder::build]. *)
Definition state_root_at api (id : BlockHashOrNumber) : handler Z :=
  let! s := provided (api_historical api id) in
  let! s := expect s in
  answered (sp_state_root s).

Definition state_update_build api (id : BlockHashOrNumber) : handler (option RpcStateUpdate) :=
  let db := sa_db api in
  let! block_hash := provided (block_hash_by_id db id) in
  match block_hash with
  | None => ret None
  | Some block_hash =>
      let! new_root := state_root_at api id in
      let! num := provided (block_number_by_hash db block_hash) in
      let! num := expect num in
      let! old_root := if Z.eqb num 0 then ret 0 else state_root_at api (BNum (num - 1)) in
      let! updates := provided (state_update db id) in
      let! updates := expect updates in
      ret (Some (mkRpcStateUpdate block_hash old_root new_root (state_diff_from updates)))
  end.

Definition api_state_update api id : handler MaybePendingStateUpdate :=
  let! block_id :=
    match id with
    | IdNumber num => ret (BNum num)
    | IdHash hash => ret (BHash hash)
    | IdTag Latest => let! n := provided (latest_number (sa_db api)) in ret (BNum n)
    | IdTag PendingTag => fail BlockNotFound
    end in
  let! update := state_update_build api block_id in
  or_forked api (MinedStateUpdate <$> update) (fun c => fork_state_update c id) (fail BlockNotFound).

(** ** Storage proofs *)
Record ContractStorageKeys := mkStorageKeys { csks_address : Z; csks_keys : list Z }.
Record ContractLeafData := mkLeafData { cld_storage_root : Z; cld_nonce : Z; cld_class_hash : Z }.
Record StorageProofResponse := mkProofResponse {
  spr_block_hash : Z;
  spr_classes_tree_root : Z;
  spr_contracts_tree_root : Z;
  spr_classes_proof : list NodeWithHash;
  spr_contracts_proof : list NodeWithHash;
  spr_contract_leaves_data : list ContractLeafData;
  spr_contracts_storage_proofs : list (list NodeWithHash);
}.

(** A [for] loop that pushes what its body computes. *)
Fixpoint for_each {A B} (f : A -> handler B) (l : list A) : handler (list B) :=
  match l with
  | [] => ret []
  | a :: l => let! b := f a in let! bs := for_each f l in ret (b :: bs)
  end.

Definition proof_nodes (m : ProviderResult MultiProof) : handler (list NodeWithHash) :=
  let! p := provided m in expect (nodes_from p).

Definition leaf_data (state : StateProvider C) (address : Z) : handler ContractLeafData :=
  let! nonce := answered (sp_nonce state address) in
  let! class_hash := answered (sp_class_hash_of_contract state address) in
  let! storage_root := provided (sp_storage_root state address) in
  ret (mkLeafData (default 0 storage_root) (default 0 nonce) (default 0 class_hash)).

Definition total_keys (class_hashes contract_addresses : option (list Z))
    (storage_keys : option (list ContractStorageKeys)) : Z :=
  let len {A} (l : option (list A)) := Z.of_nat (match l with Some l => length l | None => 0%nat end) in
  len class_hashes + len contract_addresses + len storage_keys.

Definition get_proofs api id (class_hashes contract_addresses : option (list Z))
    (storage_keys : option (list ContractStorageKeys)) : handler StorageProofResponse :=
  let db := sa_db api in
  let! num := provided (convert_block_id db id) in
  let! num := required num BlockNotFound in
  let! _ :=
    match sa_max_proof_keys api with
    | Some limit =>
        let total := total_keys class_hashes contract_addresses storage_keys in
        if Z.ltb limit total then fail (ProofLimitExceeded limit total) else ret tt
    | None => ret tt
    end in
  let! state := api_state api (IdNumber num) in
  let! block_hash := provided (block_hash_by_num db num) in
  let! block_hash := required block_hash (api_of_provider (MissingBlockHeader num)) in
  let! classes_proof :=
    match class_hashes with
    | Some classes => proof_nodes (sp_class_multiproof state classes)
    | None => ret []
    end in
  let! contracts_proof :=
    match contract_addresses with
    | Some addresses =>
        let! proofs := provided (sp_contract_multiproof state addresses) in
        let! leaves := for_each (leaf_data state) addresses in
        let! nodes := expect (nodes_from proofs) in
        ret (nodes, leaves)
    | None => ret ([], [])
    end in
  let! storage_proofs :=
    match storage_keys with
    | Some l =>
        for_each (fun k => proof_nodes (sp_storage_multiproof state (csks_address k) (csks_keys k))) l
    | None => ret []
    end in
  let! classes_root := provided (sp_classes_root state) in
  let! contracts_root := provided (sp_contracts_root state) in
  ret (mkProofResponse block_hash classes_root contracts_root classes_proof contracts_proof.1
         contracts_proof.2 storage_proofs).

(** ** Events: the handler of [RpcEvents] on this server *)
Definition pending_block (exec : PendingExecutor) : PendingBlock (Receipt Vm) :=
  mkPendingBlock (env_number (pe_block_env exec))
    (map (fun e => (twh_hash e.1, result_receipt e.2)) (pe_transactions exec)).
Definition events_api api : @Api _ _ C (Receipt Vm) (TypedTransactionExecutionInfo Info) :=
  mkApi (sa_db api) (event_client <$> sa_forked_client api)
    (pending_block <$> pending_executor api) (sa_max_event_page_size api).
Definition api_events api (from to : option BlockIdOrTag) (address : option Z)
    (keys : option (list (list Z))) (token : option (list Z)) (chunk_size : Z)
    : handler EventsPage :=
  Some (events receipt_events (events_api api) from to address keys token chunk_size).
End Api.
Arguments StarknetApi {_ _} C Vm Info ExecErr.
Arguments PendingExecutor : clear implicits.
