(* ===== verification/RpcStarknetProofs.v ===== *)
(** * What the read handlers answer

    On a node whose database holds a chain of blocks, the handlers answer for the
    abstract chain: the state after the block an id names, the block and its
    transactions as they were inserted.  Then what they answer for pending and pooled
    transactions, and where they do not do what they mean to. *)

From Stdlib Require Import ZArith Lia String.
From stdpp Require Import base numbers list gmap sorting.
From S2P Require Import Prelude BTreeMap Felt Tx Version Block Receipt PoolTypes Codec Versioned Mdbx DbProvider DbState ChangeLog DbHistory DbLatest DbBlocks DbUpdates Events RpcError RpcEvents GasOracle Backend RpcTypes RpcForking RpcStarknet.

Section Refinement.
Context `{MD : Mdbx} `{RT : RoaringTreemap} `{FP : FeltPostcard} {C Vm Info ExecErr : Type}.
Context (poseidon : list Z -> Z).
Abbreviation Ins := (@Insertion C (Receipt Vm) (TypedTransactionExecutionInfo Info)).
Abbreviation Server := (StarknetApi C Vm Info ExecErr).
Implicit Types (chain : list Ins) (i : Ins) (api : Server) (id : BlockIdOrTag).

(** The id names block [i] of the chain, and is not answered from a pending block. *)
Definition names_block api chain id i : Prop :=
  id = IdNumber (ins_number i) \/ id = IdHash (ins_hash i) \/
  ((id = IdTag Latest \/ (id = IdTag PendingTag /\ pending_executor api = None)) /\ last chain = Some i).

(** No block of the chain has the id. *)
Definition names_nothing chain id : Prop :=
  match id with
  | IdNumber n => exists i, last chain = Some i /\ ins_number i < n
  | IdHash h => Forall (fun i => ins_hash i <> h) chain
  | IdTag _ => False
  end.

(** A view that shows the state after block number [n]. *)
Definition shows chain (n : Z) (v : StateView) : Prop :=
  v = HistoricalState n \/ (v = LatestState /\ Forall (fun i => ins_number i <= n) chain).

Lemma last_bounds chain i :
  wf_chain chain -> last chain = Some i -> Forall (fun j => ins_number j <= ins_number i) chain.
Proof.
  intros [Hs _] [l ->]%last_Some. apply StronglySorted_app in Hs as (Hc & _ & _).
  apply Forall_app. split; [|by repeat constructor]. apply Forall_forall. intros j Hj.
  apply Z.lt_le_incl, Hc; set_solver.
Qed.

Lemma historical_number chain pre i post :
  wf_chain chain -> chain = pre ++ i :: post ->
  exists v, historical (db_of chain) (BNum (ins_number i)) = Ok (Some v) /\
    shows chain (ins_number i) v /\ (post <> [] -> v = HistoricalState (ins_number i)).
Proof.
  intros Hwf Hc. destruct post as [|j post _] using rev_ind.
  - exists LatestState. unfold historical. rewrite Hc, latest_number_last by (by subst chain).
    simpl. rewrite Z.compare_refl. split_and!; [done| |done]. right. split; [done|].
    rewrite <- Hc. apply last_bounds; [done|]. by rewrite Hc, last_snoc.
  - exists (HistoricalState (ins_number i)). split_and!; [|by left|done].
    rewrite app_comm_cons, app_assoc in Hc.
    unfold historical. rewrite Hc, latest_number_last by (by subst chain). simpl.
    replace (ins_number i ?= ins_number j) with Lt; [done|]. symmetry. apply Z.compare_lt_iff.
    destruct Hwf as [Hs _]. rewrite Hc in Hs. apply StronglySorted_app in Hs as (Hcross & _ & _).
    apply Hcross; set_solver.
Qed.

Lemma historical_hash chain pre i post :
  wf_rows chain -> chain = pre ++ i :: post ->
  historical (db_of chain) (BHash (ins_hash i)) = Ok (Some (HistoricalState (ins_number i))).
Proof.
  intros Hrows Hc. unfold historical, block_number_by_hash. simpl.
  by rewrite (br_number _ _ _ (block_rows_of chain pre i post Hrows Hc)).
Qed.

Lemma block_numbers_dom chain h :
  Forall (fun i => ins_hash i <> h) chain -> t_get (BlockNumbers (db_blocks (db_of chain))) h = None.
Proof.
  induction chain as [|j chain IH] using rev_ind; [intros _; apply t_get_empty|].
  rewrite Forall_app, Forall_singleton. intros [Hf Hj]. rewrite db_of_snoc. simpl.
  rewrite t_get_put, decide_False by done. by apply IH.
Qed.

Section Server.
Variables (chain : list Ins) (api : Server).
Hypothesis Hwf : wf_chain chain.
Hypothesis Hrows : wf_rows chain.
Hypothesis Hdb : sa_db api = db_of chain.

Lemma api_historical_of (bid : BlockHashOrNumber) v :
  historical (db_of chain) bid = Ok (Some v) ->
  api_historical poseidon api bid = Ok (Some (db_state poseidon (db_of chain) (sa_tries api) v)).
Proof. intros Hv. unfold api_historical. by rewrite Hdb, Hv. Qed.

Lemma api_state_named pre i post id :
  chain = pre ++ i :: post -> names_block api chain id i ->
  exists v, api_state poseidon api id = ret (db_state poseidon (db_of chain) (sa_tries api) v) /\
    shows chain (ins_number i) v.
Proof.
  intros Hc [->|[->|[Hid Hlast]]].
  - destruct (historical_number chain pre i post Hwf Hc) as (v & Hv & Hs & _). exists v.
    split; [|done]. unfold api_state. by rewrite (api_historical_of _ v Hv).
  - exists (HistoricalState (ins_number i)). split; [|by left]. unfold api_state.
    by rewrite (api_historical_of _ _ (historical_hash chain pre i post Hrows Hc)).
  - exists LatestState. split; [|by right; auto using last_bounds].
    unfold api_state, api_latest. rewrite Hdb. destruct Hid as [->|[-> Hp]]; [done|]. by rewrite Hp.
Qed.

(** A node does not know a contract's nonce without knowing the contract. *)
Definition nonces_deployed : Prop :=
  forall n a, is_Some (value_at (nonce_log chain) n a) -> is_Some (value_at (class_log chain) n a).

Lemma shown_storage n v a k :
  shows chain n v ->
  view_storage (db_of chain) v a k
  = Ok (value_at (storage_log chain) n {| csk_contract_address := a; csk_key := k |}).
Proof. intros [->|[-> Hn]]; [by apply historical_storage_value|by apply latest_storage_value]. Qed.

Lemma shown_class n v a :
  nonces_deployed -> shows chain n v ->
  view_class_hash (db_of chain) v a = Ok (value_at (class_log chain) n a).
Proof.
  intros Hd [->|[-> Hn]]; [by apply historical_class_hash_value|]. simpl.
  unfold latest_class_hash_of_contract. rewrite contract_infos by done.
  rewrite <- !(value_at_latest _ n) by (apply Forall_map; exact Hn). specialize (Hd n a).
  destruct (value_at (nonce_log chain) n a), (value_at (class_log chain) n a); try done.
  by destruct Hd.
Qed.

Lemma shown_nonce n v a x :
  shows chain n v -> value_at (nonce_log chain) n a = Some x ->
  view_nonce (db_of chain) v a = Ok (Some x).
Proof.
  intros [->|[-> Hn]] Hx; [by rewrite <- Hx; apply historical_nonce_value|]. simpl.
  unfold latest_nonce. rewrite contract_infos by done.
  rewrite <- !(value_at_latest _ n) by (apply Forall_map; exact Hn). rewrite Hx.
  by destruct (value_at (class_log chain) n a).
Qed.

Lemma api_state_unknown id :
  names_nothing chain id -> api_state poseidon api id = fail BlockNotFound.
Proof using Hwf Hdb.
  unfold api_state, api_historical. rewrite Hdb. destruct id as [h|n|t]; simpl; [| |done].
  - intros Hh. unfold block_number_by_hash. by rewrite block_numbers_dom.
  - intros (i & [l Hl]%last_Some & Hn). pose proof Hwf as Hwf'. rewrite Hl in Hwf' |- *.
    rewrite latest_number_last by done. simpl.
    by rewrite (proj2 (Z.compare_gt_iff _ _) Hn).
Qed.
End Server.

(** The class hash and the storage of a contract, at a block named in any way. *)
Lemma class_and_storage_answered chain api pre i post id a k :
  wf_chain chain -> wf_rows chain -> sa_db api = db_of chain -> nonces_deployed chain ->
  chain = pre ++ i :: post -> names_block api chain id i ->
  let n := ins_number i in
  let class := value_at (class_log chain) n a in
  class_hash_at_address poseidon api id a
    = (if Z.eqb a 1 then ret 0 else required class ContractNotFound) /\
  storage_at poseidon api a k id
    = (if Z.eqb a 1 || bool_decide (is_Some class)
       then ret (default 0 (value_at (storage_log chain) n {| csk_contract_address := a; csk_key := k |}))
       else fail ContractNotFound).
Proof.
  intros Hwf Hrows Hdb Hd Hc Hid. cbn zeta.
  destruct (api_state_named chain api Hwf Hrows Hdb pre i post id Hc Hid) as (v & Hv & Hs).
  split.
  - unfold class_hash_at_address. destruct (Z.eqb a 1); [done|]. rewrite Hv. simpl.
    by rewrite (shown_class chain Hwf _ _ _ Hd Hs).
  - unfold storage_at. rewrite Hv. simpl.
    destruct (Z.eqb a 1); simpl; [by rewrite (shown_storage chain Hwf _ _ _ _ Hs)|].
    rewrite (shown_class chain Hwf _ _ _ Hd Hs). simpl.
    destruct (value_at (class_log chain) (ins_number i) a); simpl; [|done].
    by rewrite (shown_storage chain Hwf _ _ _ _ Hs).
Qed.

(** The nonce the database answers for a contract with no recorded nonce: the latest
    state, opened by tag or by the last block's number, has one for every deployed
    contract; a historical state, and so every block named by hash, has none. *)
Definition fresh_nonce (id : BlockIdOrTag) {A} (post : list A) (deployed : bool) : option Z :=
  match id, post with
  | IdHash _, _ => None
  | _, [] => if deployed then Some 0 else None
  | _, _ :: _ => None
  end.

Lemma named_latest_last chain pre i post :
  wf_chain chain -> chain = pre ++ i :: post -> last chain = Some i -> post = [].
Proof.
  intros Hwf Hc Hl. destruct post as [|j post _] using rev_ind; [done|exfalso].
  rewrite app_comm_cons, app_assoc in Hc.
  assert (i = j) as -> by (rewrite Hc, last_snoc in Hl; congruence).
  destruct Hwf as [Hs _]. rewrite Hc in Hs. apply StronglySorted_app in Hs as (Hcross & _ & _).
  specialize (Hcross j j ltac:(set_solver) ltac:(set_solver)). lia.
Qed.

Lemma latest_nonce_fresh chain a n :
  wf_chain chain -> Forall (fun i => ins_number i <= n) chain ->
  value_at (nonce_log chain) n a = None ->
  view_nonce (db_of chain) LatestState a
  = Ok (if bool_decide (is_Some (value_at (class_log chain) n a)) then Some 0 else None).
Proof.
  intros Hwf Hn. simpl. unfold latest_nonce. rewrite contract_infos by done.
  rewrite <- !(value_at_latest _ n) by (apply Forall_map; exact Hn). intros ->.
  by destruct (value_at (class_log chain) n a).
Qed.

Lemma nonce_answered chain api pre i post id a :
  wf_chain chain -> wf_rows chain -> sa_db api = db_of chain ->
  chain = pre ++ i :: post -> names_block api chain id i -> id <> IdTag PendingTag ->
  nonce_at poseidon api id a
  = required (match value_at (nonce_log chain) (ins_number i) a with
              | Some x => Some x
              | None => fresh_nonce id post
                          (bool_decide (is_Some (value_at (class_log chain) (ins_number i) a)))
              end) ContractNotFound.
Proof.
  intros Hwf Hrows Hdb Hc Hid Hp. unfold nonce_at.
  assert (forall A (u w : A), match id with IdTag PendingTag => u | _ => w end = w) as ->
    by (by destruct id as [| |[]]).
  destruct (value_at (nonce_log chain) (ins_number i) a) as [x|] eqn:Hx.
  { destruct (api_state_named chain api Hwf Hrows Hdb pre i post id Hc Hid) as (v & -> & Hs).
    simpl. by rewrite (shown_nonce chain Hwf _ _ _ _ Hs Hx). }
  assert (forall id', id' <> IdTag PendingTag -> (forall h, id' <> IdHash h) -> last chain = Some i ->
            (let! result := answered (sp_nonce (db_state poseidon (db_of chain) (sa_tries api)
              LatestState) a) in required result ContractNotFound)
            = required (fresh_nonce id' post
                (bool_decide (is_Some (value_at (class_log chain) (ins_number i) a)))) ContractNotFound)
    as Hlatest.
  { intros id' _ Hh Hl. rewrite (named_latest_last chain pre i post Hwf Hc Hl). cbn [sp_nonce db_state].
    rewrite (latest_nonce_fresh chain a (ins_number i) Hwf (last_bounds _ _ Hwf Hl) Hx).
    destruct id'; [by destruct (Hh hash)| |]; done. }
  destruct Hid as [->|[->|[[->|[-> _]] Hl]]]; [| | |done].
  - destruct (historical_number chain pre i post Hwf Hc) as (v & Hv & Hs & Hpost).
    unfold api_state. rewrite (api_historical_of chain api Hdb _ v Hv). destruct post as [|j post].
    + unfold historical in Hv. rewrite Hc, latest_number_last in Hv by (by subst chain).
      simpl in Hv. rewrite Z.compare_refl in Hv. injection Hv as <-. apply Hlatest; [done..|].
      by rewrite Hc, last_snoc.
    + rewrite (Hpost ltac:(done)). simpl. by rewrite historical_nonce_value, Hx.
  - unfold api_state.
    rewrite (api_historical_of chain api Hdb _ _ (historical_hash chain pre i post Hrows Hc)). simpl.
    by rewrite historical_nonce_value, Hx.
  - unfold api_state, api_latest. rewrite Hdb. by apply Hlatest.
Qed.

(** C6. State queries answer for the abstract chain.  By number, by hash, for the latest
    block and for the pending one when there is no pending block, the class hash and
    the storage of a contract are those after the named block; a contract that was not
    deployed by then is not found, except the system contract 0x1, which has storage
    and no class.  The nonce is the last one set by then; a deployed contract for which
    none was set has nonce zero for the latest tag and the last block's number and is not
    found for a block named by hash or an earlier number; and for the pending tag the
    nonce is the pool's answer. *)
Theorem rpc_state_refines chain api pre i post id a k :
  wf_chain chain -> wf_rows chain -> sa_db api = db_of chain -> nonces_deployed chain ->
  chain = pre ++ i :: post -> names_block api chain id i ->
  let n := ins_number i in
  let class := value_at (class_log chain) n a in
  class_hash_at_address poseidon api id a
    = (if Z.eqb a 1 then ret 0 else required class ContractNotFound) /\
  storage_at poseidon api a k id
    = (if Z.eqb a 1 || bool_decide (is_Some class)
       then ret (default 0 (value_at (storage_log chain) n {| csk_contract_address := a; csk_key := k |}))
       else fail ContractNotFound) /\
  nonce_at poseidon api id a
    = match id with
      | IdTag PendingTag =>
          match sa_pool_nonce api a with
          | Ok nonce => required nonce ContractNotFound
          | Err e => fail (UnexpectedError (ReasonError e))
          end
      | _ =>
          match value_at (nonce_log chain) n a with
          | Some nonce => ret nonce
          | None => required (fresh_nonce id post (bool_decide (is_Some class))) ContractNotFound
          end
      end.
Proof.
  intros Hwf Hrows Hdb Hd Hc Hid. cbn zeta.
  destruct (class_and_storage_answered chain api pre i post id a k Hwf Hrows Hdb Hd Hc Hid) as [H1 H2].
  split_and!; [exact H1|exact H2|].
  pose proof (nonce_answered chain api pre i post id a Hwf Hrows Hdb Hc Hid) as Hn.
  destruct id as [h|num|[|]]; [..|unfold nonce_at; by destruct (sa_pool_nonce api a)];
    rewrite Hn by done; by destruct (value_at (nonce_log chain) (ins_number i) a).
Qed.

(** An id beyond the chain is a block that is not found, for every state query. *)
Theorem rpc_unknown_block {RC} (rpc_class : C -> option RC) chain api id a k :
  wf_chain chain -> sa_db api = db_of chain -> names_nothing chain id ->
  storage_at poseidon api a k id = fail BlockNotFound /\
  nonce_at poseidon api id a = fail BlockNotFound /\
  (a <> 1 -> class_hash_at_address poseidon api id a = fail BlockNotFound) /\
  class_at_hash poseidon rpc_class api id k = fail BlockNotFound.
Proof.
  intros Hwf Hdb Hid. pose proof (api_state_unknown chain api Hwf Hdb id Hid) as Hs.
  unfold storage_at, nonce_at, class_hash_at_address, class_at_hash. rewrite Hs.
  split_and!; [done|by destruct id|by intros Ha; rewrite (proj2 (Z.eqb_neq _ _) Ha)|done].
Qed.

(** The same contract at the same block, asked for in two ways: a contract that was
    deployed and sent no transaction has nonce zero when the block is named by its
    number or as the latest, and does not exist when it is named by its hash. *)
Theorem rpc_fresh_nonce_by_hash chain api pre i a class :
  wf_chain chain -> wf_rows chain -> sa_db api = db_of chain -> chain = pre ++ [i] ->
  value_at (class_log chain) (ins_number i) a = Some class ->
  value_at (nonce_log chain) (ins_number i) a = None ->
  nonce_at poseidon api (IdNumber (ins_number i)) a = ret 0 /\
  nonce_at poseidon api (IdTag Latest) a = ret 0 /\
  nonce_at poseidon api (IdHash (ins_hash i)) a = fail ContractNotFound.
Proof.
  intros Hwf Hrows Hdb Hc Hcl Hno.
  assert (Forall (fun j => ins_number j <= ins_number i) chain) as Hn.
  { apply last_bounds; [done|]. by rewrite Hc, last_snoc. }
  assert (gci_nonce <$> t_get (ContractInfo (db_contracts (db_of chain))) a = Some 0) as Hl.
  { rewrite contract_infos by done.
    rewrite value_at_latest in Hcl, Hno by (apply Forall_map; exact Hn). by rewrite Hcl, Hno. }
  unfold nonce_at, api_state, api_historical, api_latest. rewrite Hdb. split_and!.
  - assert (historical (db_of chain) (BNum (ins_number i)) = Ok (Some LatestState)) as ->.
    { unfold historical. rewrite Hc, latest_number_last by (by subst chain). simpl.
      by rewrite Z.compare_refl. }
    simpl. by rewrite Hl.
  - simpl. by rewrite Hl.
  - rewrite (historical_hash chain pre i [] Hrows Hc). simpl.
    by rewrite historical_nonce_value, Hno.
Qed.

(** ** Blocks *)
Lemma convert_named chain api pre i post id :
  wf_chain chain -> wf_rows chain -> chain = pre ++ i :: post -> names_block api chain id i ->
  convert_block_id (db_of chain) id = Ok (Some (ins_number i)).
Proof.
  intros Hwf Hrows Hc [->|[->|[Hid Hlast]]]; simpl; [done| |].
  - unfold block_number_by_hash.
    by rewrite (br_number _ _ _ (block_rows_of chain pre i post Hrows Hc)).
  - apply last_Some in Hlast as [l Hl]. subst chain. rewrite Hl in *.
    destruct Hid as [->|[-> _]]; simpl; by rewrite latest_number_last.
Qed.

Lemma not_pending {T} api chain id i (u : PendingExecutor C Vm Info ExecErr -> T) (w : T) :
  names_block api chain id i ->
  match id, pending_executor api with IdTag PendingTag, Some exec => u exec | _, _ => w end = w.
Proof. intros [->|[->|[[->|[-> ->]] _]]]; done. Qed.

(** The wire form of a transaction exists. *)
Definition wire_ok (tx : TxWithHash) : Prop :=
  forall l, twh_transaction tx = TxL1Handler l -> l1h_nonce l < u64_bound.

Lemma wire_txs txs : Forall wire_ok txs -> is_Some (mapM rpc_tx_from txs).
Proof.
  intros Hf. apply mapM_is_Some. eapply Forall_impl; [exact Hf|]. intros tx Hw.
  by apply rpc_tx_from_some.
Qed.
Lemma wire_receipts status (l : list (TxWithHash * Receipt Vm)) :
  Forall wire_ok l.*1 -> is_Some (mapM (tx_with_receipt status) l).
Proof.
  intros Hf. apply mapM_is_Some. rewrite Forall_fmap in Hf. eapply Forall_impl; [exact Hf|].
  intros [tx r] Hw. unfold tx_with_receipt. simpl in *.
  destruct (proj2 (rpc_tx_from_some tx Hw)) as [c ->]. by eexists.
Qed.

Lemma block_with_txs_some hash (b : Block) status :
  Forall wire_ok (block_body b) -> is_Some (block_with_txs_new hash b status).
Proof. intros [txs Htxs]%wire_txs. unfold block_with_txs_new. rewrite Htxs. by eexists. Qed.
Lemma block_with_receipts_some hash h status (l : list (TxWithHash * Receipt Vm)) :
  Forall wire_ok l.*1 -> is_Some (block_with_receipts_new hash h status l).
Proof.
  intros Hl. destruct (wire_receipts status l Hl) as [txs Htxs].
  unfold block_with_receipts_new. rewrite Htxs. by eexists.
Qed.

Lemma fst_combine {A B} (l : list A) (l' : list B) :
  length l' = length l -> (combine l l').*1 = l.
Proof. revert l'. induction l as [|x l IH]; intros [|y l'] H; try done. simpl in *. f_equal. apply IH. lia. Qed.

(** A named block that is stored is the handler's answer in each form. *)
Lemma block_handler_stored {T} chain api pre i post id pending build forked (r : RpcBlock T) :
  wf_chain chain -> wf_rows chain -> sa_db api = db_of chain -> chain = pre ++ i :: post ->
  names_block api chain id i -> build (BNum (ins_number i)) = ret (Some r) ->
  block_handler api id pending build forked = ret (MinedRpcBlock r).
Proof.
  intros Hwf Hrows Hdb Hc Hid Hr. unfold block_handler.
  rewrite (not_pending api chain id i), Hdb, (convert_named chain api pre i post id) by done. simpl.
  by rewrite Hr.
Qed.

(** What every form of an inserted block says of it. *)
Record carries {T} (i : Ins) (r : RpcBlock T) : Prop := {
  cr_status : rbk_status r = sbs_status (ins_block i);
  cr_hash : rbk_block_hash r = ins_hash i;
  cr_parent : rbk_parent_hash r = parent_hash (sb_header (sbs_block (ins_block i)));
  cr_number : rbk_block_number r = ins_number i;
  cr_root : rbk_new_root r = state_root (sb_header (sbs_block (ins_block i)));
  cr_timestamp : rbk_timestamp r = timestamp (sb_header (sbs_block (ins_block i)));
  cr_sequencer : rbk_sequencer_address r = sequencer_address (sb_header (sbs_block (ins_block i)));
  cr_l1_gas : rbk_l1_gas_price r = resource_price (l1_gas_prices (sb_header (sbs_block (ins_block i))));
  cr_l2_gas : rbk_l2_gas_price r = resource_price (l2_gas_prices (sb_header (sbs_block (ins_block i))));
  cr_l1_data_gas :
    rbk_l1_data_gas_price r = resource_price (l1_data_gas_prices (sb_header (sbs_block (ins_block i))));
  cr_version :
    rbk_starknet_version r = version_display (protocol_version (sb_header (sbs_block (ins_block i))));
}.

(** C11. Block queries answer with the stored block.  By number, by hash, as the latest, and
    as the pending one when there is no pending block, the three forms of a block carry
    the hash, header, status and transactions of the insertion, with their receipts in
    order, and the count is the number of its transactions.  The data availability mode is
    the header's in two of the forms. *)
Theorem rpc_block_refines chain api pre i post id :
  wf_chain chain -> wf_rows chain -> sa_db api = db_of chain ->
  chain = pre ++ i :: post -> names_block api chain id i -> Forall wire_ok (ins_body i) ->
  let mode := l1_da_mode (sb_header (sbs_block (ins_block i))) in
  (exists r, block_with_txs api id = ret (MinedRpcBlock r) /\ carries i r /\ rbk_l1_da_mode r = mode /\
     mapM rpc_tx_from (ins_body i) = Some (rbk_transactions r)) /\
  (exists r, block_with_receipts api id = ret (MinedRpcBlock r) /\ carries i r /\
     mapM (tx_with_receipt (sbs_status (ins_block i))) (combine (ins_body i) (ins_receipts i))
       = Some (rbk_transactions r)) /\
  (exists r, api_block_with_tx_hashes api id = ret (MinedRpcBlock r) /\ carries i r /\
     rbk_l1_da_mode r = mode /\ rbk_transactions r = map twh_hash (ins_body i)) /\
  block_tx_count api id = ret (Z.of_nat (length (ins_body i))).
Proof.
  intros Hwf Hrows Hdb Hc Hid Hwire. cbn zeta.
  pose proof (br_hash _ _ _ (block_rows_of chain pre i post Hrows Hc)) as Hhash.
  destruct (block_read_back chain pre i post (BNum (ins_number i)) Hrows Hc (or_introl eq_refl))
    as (Hb & Hbh & Hst & Hrc & _ & Hcount).
  destruct (block_lengths chain pre post i Hrows Hc) as [Hlen _].
  split_and!.
  - destruct (block_with_txs_some (ins_hash i) (unseal (sbs_block (ins_block i)))
                (sbs_status (ins_block i)) Hwire) as [r Hr].
    exists r. split.
    + apply (block_handler_stored chain api pre i post); try done. rewrite Hdb. unfold block_build. simpl.
      unfold block_hash_by_num. rewrite Hhash. simpl. rewrite Hb. simpl. rewrite Hst. simpl. by rewrite Hr.
    + apply bind_Some in Hr as (txs & Htxs & [= <-]). by repeat split.
  - destruct (block_with_receipts_some (ins_hash i) (sb_header (sbs_block (ins_block i)))
                (sbs_status (ins_block i)) (combine (ins_body i) (ins_receipts i))) as [r Hr].
    { by rewrite fst_combine. }
    exists r. split.
    + apply (block_handler_stored chain api pre i post); try done. rewrite Hdb. unfold block_build_with_receipts.
      simpl. unfold block_hash_by_num. rewrite Hhash. simpl. rewrite Hb. simpl. rewrite Hst. simpl.
      rewrite Hrc. simpl. change (sb_body (sbs_block (ins_block i))) with (ins_body i). by rewrite Hr.
    + apply bind_Some in Hr as (txs & Htxs & [= <-]). by repeat split.
  - exists (block_with_tx_hashes_new (ins_hash i)
              {| bth_header := sb_header (sbs_block (ins_block i)); bth_body := map twh_hash (ins_body i) |}
              (sbs_status (ins_block i))).
    split; [|by repeat split]. apply (block_handler_stored chain api pre i post); try done. rewrite Hdb.
    unfold block_build_with_tx_hash. simpl. unfold block_hash_by_num. rewrite Hhash. simpl.
    rewrite Hbh. simpl. by rewrite Hst.
  - destruct (block_read_back chain pre i post (BHash (ins_hash i)) Hrows Hc (or_intror eq_refl))
      as (_ & _ & _ & _ & _ & Hcount').
    unfold block_tx_count. rewrite Hdb.
    destruct Hid as [->|[->|[Hid [l Hl]%last_Some]]]; rewrite ?Hcount, ?Hcount'; try done.
    destruct Hid as [->|[-> ->]].
    + rewrite Hl at 1. rewrite latest_number_last by (by rewrite <- Hl). simpl. by rewrite Hcount.
    + rewrite Hl at 1. rewrite latest_hash_sorted by (rewrite <- Hl; apply Hwf). simpl. by rewrite Hcount'.
Qed.

(** ** Transactions *)
Definition status_in_block (status : FinalityStatus) (r : RpcExecutionResult) : TransactionStatus :=
  match status with AcceptedOnL1 => StatusAcceptedOnL1 r | AcceptedOnL2 => StatusAcceptedOnL2 r end.

(** C10. Transaction queries answer for the block a transaction is in.  By hash and by
    position in a block named in any way, the transaction is the inserted one; its
    receipt is the inserted one with the number and hash of the block; its status is the
    block's with the outcome of its execution. *)
Theorem rpc_transaction_refines chain api pre i post id m tx r :
  wf_chain chain -> wf_rows chain -> sa_db api = db_of chain ->
  chain = pre ++ i :: post -> names_block api chain id i -> id <> IdTag PendingTag ->
  ins_body i !! m = Some tx -> ins_receipts i !! m = Some r -> wire_ok tx ->
  let status := sbs_status (ins_block i) in
  exists t, rpc_tx_from tx = Some t /\
    transaction api (twh_hash tx) = ret t /\
    transaction_by_block_id_and_index api id (Z.of_nat m) = ret t /\
    api_receipt api (twh_hash tx)
      = ret (receipt_info_new (ReceiptInBlock (ins_hash i) (ins_number i)) (twh_hash tx) status r) /\
    api_transaction_status api (twh_hash tx)
      = ret (status_in_block status (execution_result_of (revert_reason r))).
Proof.
  intros Hwf Hrows Hdb Hc Hid Hp Hm Hr Hw. cbn zeta.
  destruct (transaction_read_back chain pre i post m tx Hrows Hc Hm)
    as (Htx & Hidx & Hnum & Hst & Hrc & _). rewrite Hr in Hrc.
  destruct (proj1 (rpc_tx_from_some tx Hw)) as [t Ht]. exists t. split_and!; [done|..].
  - unfold transaction. rewrite Hdb, Htx. simpl. by rewrite Ht.
  - unfold transaction_by_block_id_and_index.
    assert (forall A (u w : A), match id with IdTag PendingTag => u | _ => w end = w) as ->
      by (by destruct id as [| |[]]).
    rewrite Hdb, (convert_named chain api pre i post id) by done. simpl. rewrite Hidx. simpl.
    by rewrite Ht.
  - unfold api_receipt, receipt_build. rewrite Hdb, Hrc. simpl. rewrite Hnum. simpl. by rewrite Hst.
  - unfold api_transaction_status. rewrite Hdb, Hst. simpl. rewrite Hrc. simpl.
    by destruct (sbs_status (ins_block i)).
Qed.

(** A hash the database does not have. *)
Definition not_stored (api : Server) (hash : Z) : Prop :=
  t_get (TxNumbers (db_txs (sa_db api))) hash = None.

Lemma not_stored_reads api hash :
  not_stored api hash ->
  transaction_by_hash (sa_db api) hash = Ok None /\ transaction_status (sa_db api) hash = Ok None /\
  receipt_by_hash (sa_db api) hash = Ok None.
Proof.
  intros H. unfold transaction_by_hash, transaction_status, receipt_by_hash. by rewrite H.
Qed.

Lemma pending_receipt_first (exec : PendingExecutor C Vm Info ExecErr) hash (tx : TxWithHash) (res : ExecutionResult Vm Info ExecErr) :
  NoDup (map (fun e => twh_hash e.1) (pe_transactions exec)) ->
  find_pending exec hash = Some (tx, res) -> pending_receipt exec hash = result_receipt res.
Proof.
  unfold find_pending, pending_receipt.
  induction (pe_transactions exec) as [|[tx' res'] l IH]; [done|]. cbn -[Z.eqb].
  intros Hnd. apply NoDup_cons in Hnd as [Hnin Hnd]. destruct (Z.eqb_spec (twh_hash tx') hash) as [<-|He].
  - intros [= <- <-]. destruct (result_receipt res'); [done|].
    assert (omap (fun e : TxWithHash * ExecutionResult Vm Info ExecErr =>
              if Z.eqb (twh_hash e.1) (twh_hash tx') then result_receipt e.2 else None) l = []) as ->; [|done].
    clear -Hnin. induction l as [|[t s] l IH]; [done|]. cbn -[Z.eqb]. cbn in Hnin.
    rewrite not_elem_of_cons in Hnin. destruct Hnin as [H1 H2].
    destruct (Z.eqb_spec (twh_hash t) (twh_hash tx')); [congruence|]. by apply IH.
  - intros Hf. by apply IH.
Qed.

(** A transaction of the pending block is shown, with the status of its outcome; it has
    a pending receipt if its execution succeeded, and none otherwise. *)
Theorem rpc_pending_transaction api exec tx res :
  pending_executor api = Some exec -> sa_forked_client api = None ->
  NoDup (map (fun e => twh_hash e.1) (pe_transactions exec)) ->
  not_stored api (twh_hash tx) -> find_pending exec (twh_hash tx) = Some (tx, res) -> wire_ok tx ->
  (exists t, rpc_tx_from tx = Some t /\ transaction api (twh_hash tx) = ret t) /\
  api_transaction_status api (twh_hash tx) = ret (status_of_result res) /\
  api_receipt api (twh_hash tx)
    = required ((fun r => receipt_info_new ReceiptPending (twh_hash tx) AcceptedOnL2 r)
                  <$> result_receipt res) TxnHashNotFound.
Proof.
  intros Hp Hf Hnd Hns Hfind Hw. destruct (not_stored_reads api _ Hns) as (H1 & H2 & H3).
  destruct (proj1 (rpc_tx_from_some tx Hw)) as [t Ht]. split_and!.
  - exists t. split; [done|]. unfold transaction. rewrite H1. simpl. rewrite Hp. simpl.
    rewrite Hfind. simpl. by rewrite Ht.
  - unfold api_transaction_status. rewrite H2. simpl. rewrite Hp, Hfind. done.
  - unfold api_receipt, receipt_build. rewrite H3. simpl. rewrite Hp. simpl.
    rewrite (pending_receipt_first exec _ tx res Hnd Hfind). unfold or_forked. rewrite Hf.
    by destruct (result_receipt res).
Qed.

(** C40. A transaction that is in the pool and not executed yet.  On a node that is not
    forked it is shown by hash, and its status is received when the node mines instantly;
    on a node with a pending block the status is an unknown hash, the pool is not asked.
    On a forked node the pool is never asked: the remote network answers for the
    transaction, and for its status when there is no pending block. *)
Theorem rpc_pooled_transaction api tx :
  sa_pool_get api (ewh_hash tx) = Some tx ->
  not_stored api (ewh_hash tx) -> wire_ok (tx_with_hash_of_executable tx) ->
  match pending_executor api with
  | None => True
  | Some exec => find_pending exec (ewh_hash tx) = None
  end ->
  match sa_forked_client api with
  | None =>
      exists t, rpc_tx_from (tx_with_hash_of_executable tx) = Some t /\
                transaction api (ewh_hash tx) = ret t
  | Some client =>
      transaction api (ewh_hash tx)
      = Some (map_err api_of_fork (fork_transaction_by_hash client (ewh_hash tx)))
  end /\
  api_transaction_status api (ewh_hash tx)
    = match pending_executor api, sa_forked_client api with
      | Some _, _ => fail TxnHashNotFound
      | None, None => ret StatusReceived
      | None, Some client =>
          Some (map_err api_of_fork (fork_transaction_status client (ewh_hash tx)))
      end.
Proof.
  intros Hpool Hns Hw Hpend. destruct (not_stored_reads api _ Hns) as (H1 & H2 & H3).
  destruct (proj1 (rpc_tx_from_some _ Hw)) as [t Ht]. split.
  - unfold transaction. rewrite H1. simpl. unfold or_forked.
    destruct (sa_forked_client api) as [client|];
      [by destruct (pending_executor api); simpl; rewrite ?Hpend|].
    exists t. split; [done|].
    destruct (pending_executor api); simpl; rewrite ?Hpend, Hpool; simpl; by rewrite Ht.
  - unfold api_transaction_status. rewrite H2. simpl. unfold or_forked.
    destruct (pending_executor api); simpl; rewrite ?Hpend; [done|].
    by destruct (sa_forked_client api); simpl; rewrite ?Hpool.
Qed.

(** ** State updates *)
Lemma header_state_root chain pre i post :
  wf_rows chain -> chain = pre ++ i :: post ->
  historical_state_root (db_of chain) (ins_number i)
  = Some (state_root (sb_header (sbs_block (ins_block i)))).
Proof.
  intros Hrows Hc. unfold historical_state_root.
  by rewrite (br_header _ _ _ (block_rows_of chain pre i post Hrows Hc)).
Qed.

Lemma state_root_at_historical chain api pre i post bid :
  wf_rows chain -> sa_db api = db_of chain -> chain = pre ++ i :: post ->
  historical (db_of chain) bid = Ok (Some (HistoricalState (ins_number i))) ->
  state_root_at poseidon api bid = ret (state_root (sb_header (sbs_block (ins_block i)))).
Proof.
  intros Hrows Hdb Hc Hh. unfold state_root_at. rewrite (api_historical_of chain api Hdb _ _ Hh).
  simpl. by rewrite (header_state_root chain pre i post Hrows Hc).
Qed.

(** The state update of a stored block that is not the last goes from the state root of
    the block before it to its own, and lists its nonces and deployed contracts. *)
Theorem rpc_state_update_refines chain api pre h i post id :
  wf_chain chain -> wf_rows chain -> sa_db api = db_of chain ->
  chain = pre ++ h :: i :: post -> post <> [] -> ins_number i = ins_number h + 1 -> 0 < ins_number i ->
  id = IdNumber (ins_number i) \/ id = IdHash (ins_hash i) ->
  btree_sorted (nonce_updates (ins_updates i)) ->
  btree_sorted (deployed_contracts (ins_updates i)) ->
  exists u, api_state_update poseidon api id = ret (MinedStateUpdate u) /\
    rsu_block_hash u = ins_hash i /\
    rsu_old_root u = state_root (sb_header (sbs_block (ins_block h))) /\
    rsu_new_root u = state_root (sb_header (sbs_block (ins_block i))) /\
    sdf_nonces (rsu_state_diff u)
      = map (fun e => mkNonceUpdate e.1 e.2) (nonce_updates (ins_updates i)) /\
    sdf_deployed_contracts (rsu_state_diff u)
      = map (fun e => mkDeployed e.1 e.2) (deployed_contracts (ins_updates i)).
Proof.
  intros Hwf Hrows Hdb Hc Hpost Hnum Hpos Hid Hsn Hsc.
  assert (chain = (pre ++ [h]) ++ i :: post) as Hci by (by rewrite <- app_assoc).
  pose proof (block_rows_of chain _ i post Hrows Hci) as Hbr.
  destruct (historical_number chain _ i post Hwf Hci) as (v & Hv & _ & Hlast).
  rewrite (Hlast Hpost) in Hv.
  destruct (historical_number chain pre h (i :: post) Hwf Hc) as (v' & Hv' & _ & Hlast').
  rewrite Hlast' in Hv' by done.
  destruct (state_update_read_back chain i Hwf) as (u & Hu & Hun & Hud & _); [by rewrite Hci; set_solver|done..|].
  assert (exists bid, (bid = BNum (ins_number i) \/ bid = BHash (ins_hash i)) /\
    api_state_update poseidon api id
    = hbind (state_update_build poseidon api bid) (fun update =>
        or_forked api (MinedStateUpdate <$> update) (fun c => fork_state_update c id)
          (fail BlockNotFound))) as (bid & Hbid & ->).
  { destruct Hid as [->| ->]; eexists; (split; [|done]); auto. }
  assert (state_update_build poseidon api bid
          = ret (Some (mkRpcStateUpdate (ins_hash i)
                         (state_root (sb_header (sbs_block (ins_block h))))
                         (state_root (sb_header (sbs_block (ins_block i)))) (state_diff_from u)))) as ->.
  { assert (block_hash_by_id (db_of chain) bid = Ok (Some (ins_hash i)) /\
            historical (db_of chain) bid = Ok (Some (HistoricalState (ins_number i))) /\
            state_update (db_of chain) bid = Ok (Some u)) as (E1 & E2 & E3).
    { destruct Hbid as [->| ->]; simpl.
      - unfold block_hash_by_num. by rewrite (br_hash _ _ _ Hbr).
      - unfold state_update, block_number_by_id in *. unfold block_number_by_hash.
        by rewrite (br_number _ _ _ Hbr). }
    unfold state_update_build. rewrite Hdb, E1. simpl.
    rewrite (state_root_at_historical chain api _ i post bid Hrows Hdb Hci E2). simpl.
    unfold block_number_by_hash. rewrite (br_number _ _ _ Hbr). simpl.
    rewrite (proj2 (Z.eqb_neq _ _)) by lia.
    replace (ins_number i - 1) with (ins_number h) by lia.
    rewrite (state_root_at_historical chain api pre h (i :: post) _ Hrows Hdb Hc Hv'). simpl.
    by rewrite E3. }
  eexists. split; [done|]. simpl. rewrite Hun, Hud. done.
Qed.

(** Asking for the state update of an unknown block hash panics. *)
Theorem state_update_unknown_hash_panics chain api h :
  sa_db api = db_of chain -> Forall (fun i => ins_hash i <> h) chain ->
  api_state_update poseidon api (IdHash h) = None.
Proof.
  intros Hdb Hh. unfold api_state_update, state_update_build. rewrite Hdb. simpl.
  unfold state_root_at, api_historical. rewrite Hdb. simpl. unfold block_number_by_hash.
  by rewrite (block_numbers_dom chain h Hh).
Qed.

(** ** The next block's timestamp *)
(** Asking for the environment of the pending block, as a call or a fee estimation does,
    on a node that mines instantly: the timestamp that was set for the next block is shown
    and used up, and a block that is mined later gets another one. *)
Theorem pending_query_uses_timestamp oracle oracle' now now' chain api i gen env :
  pending_executor api = None -> sa_db api = db_of (chain ++ [i]) ->
  wf_chain (chain ++ [i]) -> wf_rows (chain ++ [i]) -> next_block_start_time gen <> 0 ->
  exists env' gen',
    api_block_env_at oracle now api (IdTag PendingTag) gen = ret (env', gen') /\
    env_timestamp env' = next_block_start_time gen /\
    env_timestamp (update_block_env oracle' now' gen env).1 = next_block_start_time gen /\
    env_timestamp (update_block_env oracle' now' gen' env).1
      = wrap64 (now' + wrap_i64 (next_block_start_time gen - now)).
Proof.
  intros Hp Hdb Hwf Hrows Ht. unfold api_block_env_at. rewrite Hp, Hdb.
  rewrite latest_number_last by done. simpl. unfold block_env_at.
  rewrite (header_read (chain ++ [i]) chain [] i Hrows eq_refl _ (or_introl eq_refl)). simpl.
  unfold update_block_env. rewrite (proj2 (Z.eqb_neq _ _) Ht). simpl.
  eexists _, _. split; [done|]. simpl. done.
Qed.

(** ** The pending block *)
Lemma pending_receipts_txs (exec : PendingExecutor C Vm Info ExecErr) :
  (pending_with_receipts exec).*1 = pending_successes exec.
Proof.
  unfold pending_with_receipts, pending_successes.
  induction (pe_transactions exec) as [|[tx [r tr|e]] l IH]; [done|..].
  - rewrite filter_cons_True by done. simpl. f_equal. exact IH.
  - rewrite filter_cons_False by done. exact IH.
Qed.

(** C36. The pending block of a node in interval mode builds on the latest block and lists
    the transactions that succeeded, in the order they were executed; its three forms
    list the same ones.  The count of its transactions also counts those that failed. *)
Theorem rpc_pending_block chain api i exec :
  pending_executor api = Some exec -> sa_db api = db_of (chain ++ [i]) -> wf_chain (chain ++ [i]) ->
  Forall wire_ok (pending_successes exec) ->
  let id := IdTag PendingTag in
  let txs := pending_successes exec in
  (exists b, block_with_txs api id = ret (PendingRpcBlock b) /\
     rpb_parent_hash b = ins_hash i /\ Some (rpb_transactions b) = mapM rpc_tx_from txs) /\
  (exists b, block_with_receipts api id = ret (PendingRpcBlock b) /\
     rpb_parent_hash b = ins_hash i /\
     Some (rpb_transactions b) = mapM (tx_with_receipt AcceptedOnL2) (pending_with_receipts exec) /\
     (pending_with_receipts exec).*1 = txs) /\
  (exists b, api_block_with_tx_hashes api id = ret (PendingRpcBlock b) /\
     rpb_parent_hash b = ins_hash i /\ rpb_transactions b = map twh_hash txs) /\
  block_tx_count api id = ret (Z.of_nat (length (pe_transactions exec))).
Proof.
  intros Hp Hdb Hwf Hw. cbn zeta.
  assert (latest_hash (sa_db api) = Ok (ins_hash i)) as Hh.
  { rewrite Hdb. apply latest_hash_sorted, Hwf. }
  destruct (wire_txs _ Hw) as [txs Htxs]. rewrite <- pending_receipts_txs in Hw.
  destruct (wire_receipts AcceptedOnL2 _ Hw) as [rs Hrs].
  unfold block_with_txs, block_with_receipts, api_block_with_tx_hashes, block_handler, block_tx_count.
  rewrite Hp, Hh. simpl. unfold pending_block_with_txs_new, pending_block_with_receipts_new.
  rewrite Htxs, Hrs. simpl. split_and!; [eexists; split_and!; [done..|]; done| | |done].
  - eexists. split_and!; [done..|apply pending_receipts_txs].
  - by eexists.
Qed.
End Refinement.

(** ** Concrete servers *)
Definition rpc_receipt_of (reverted : bool) : Receipt unit := RInvoke {|
  ir_fee := FeeInfo_default; ir_events := []; ir_messages_sent := [];
  ir_revert_error := if reverted then Some [1] else None;
  ir_execution_resources := mkExecutionResources (mkGasUsed 5 6 7) tt (mkDaResources 0 0) |}.

Definition rpc_insertion (n root : Z) (hashes : list Z) (u : StateUpdates)
    : @Insertion unit (Receipt unit) (TypedTransactionExecutionInfo unit) := {|
  ins_block := {| sbs_block := {| sb_hash := 100 + n; sb_header := {|
      parent_hash := 99 + n; number := n; state_diff_commitment := 0; transactions_commitment := 0;
      receipts_commitment := 0; events_commitment := 0; state_root := root; transaction_count := 0;
      events_count := 0; state_diff_length := 0; timestamp := n; sequencer_address := 1;
      l1_gas_prices := GasPrice_MIN; l1_data_gas_prices := GasPrice_MIN;
      l2_gas_prices := GasPrice_MIN; l1_da_mode := Blob;
      protocol_version := protocol_version Header_default |}; sb_body := map sample_tx hashes |};
                  sbs_status := AcceptedOnL2 |};
  ins_states := {| state_updates := u; classes := [] |};
  ins_receipts := map (fun h => rpc_receipt_of (Z.odd h)) hashes;
  ins_executions := map (fun _ => InfoInvoke tt) hashes |}.

Definition rpc_updates (nonces deployed : list (Z * Z)) (storage : list (Z * list (Z * Z)))
    : StateUpdates := {|
  nonce_updates := nonces; storage_updates := storage; deployed_contracts := deployed;
  declared_classes := []; deprecated_declared_classes := []; replaced_classes := [] |}.

(** Contract 5 is deployed in block 0, sends a transaction in block 1; contract 6 is
    deployed in block 2 and sends none. *)
Definition rpc_chain : list (@Insertion unit (Receipt unit) (TypedTransactionExecutionInfo unit)) :=
  [rpc_insertion 0 70 [11; 12] (rpc_updates [] [(5, 9)] [(5, [(7, 70)])]);
   rpc_insertion 1 71 [13] (rpc_updates [(5, 1)] [] [(5, [(7, 71)])]);
   rpc_insertion 2 72 [] (rpc_updates [] [(6, 9)] [])].

Definition no_tries : Tries := mkTries (fun _ _ => 0) (fun _ _ _ => ∅).
Definition rpc_server (pool : Z -> option (ExecutableTxWithHash unit))
    (producer : option (@ProducerMode unit unit unit unit)) : StarknetApi unit unit unit unit :=
  mkStarknetApi pool (fun _ => Ok None) (db_of rpc_chain) no_tries None producer None None.
Definition idle_server := rpc_server (fun _ => None) None.

Lemma rpc_chain_wf : wf_chain rpc_chain.
Proof. split; [by repeat constructor|]. repeat constructor; set_solver || done. Qed.
Lemma rpc_chain_rows : wf_rows rpc_chain.
Proof. repeat constructor; set_solver. Qed.
Lemma rpc_chain_deployed : nonces_deployed rpc_chain.
Proof.
  intros n a. unfold value_at, rpc_chain, nonce_log, class_log. cbn.
  repeat case_decide; subst; try lia; try done; by intros [].
Qed.

Definition rpc_block (n : nat) := nth n rpc_chain (rpc_insertion 0 0 [] (rpc_updates [] [] [])).
Definition sum (l : list Z) : Z := fold_right Z.add 0 l.

Lemma rpc_state_refines_witness :
  storage_at sum idle_server 5 7 (IdNumber 0) = ret 70 /\
  storage_at sum idle_server 5 7 (IdHash 101) = ret 71 /\
  class_hash_at_address sum idle_server (IdNumber 0) 6 = fail ContractNotFound /\
  nonce_at sum idle_server (IdNumber 2) 5 = ret 1 /\
  nonce_at sum idle_server (IdTag Latest) 6 = ret 0 /\
  nonce_at sum idle_server (IdHash 102) 6 = fail ContractNotFound /\
  nonce_at sum idle_server (IdTag PendingTag) 5 = fail ContractNotFound.
Proof.
  assert (forall id a, names_block idle_server rpc_chain id (rpc_block 2) -> _) as Hlast
    by exact (fun id a => rpc_state_refines sum rpc_chain idle_server (take 2 rpc_chain) (rpc_block 2)
                [] id a 0 rpc_chain_wf rpc_chain_rows eq_refl rpc_chain_deployed eq_refl).
  split_and!; [| | |apply Hlast; by left|apply Hlast; right; right; by auto
                   |apply Hlast; by right; left|apply Hlast; right; right; by auto].
  - apply (rpc_state_refines sum rpc_chain idle_server [] (rpc_block 0) (drop 1 rpc_chain)
             (IdNumber 0) 5 7 rpc_chain_wf rpc_chain_rows eq_refl rpc_chain_deployed eq_refl).
    by left.
  - apply (rpc_state_refines sum rpc_chain idle_server (take 1 rpc_chain) (rpc_block 1)
             (drop 2 rpc_chain) (IdHash 101) 5 7 rpc_chain_wf rpc_chain_rows eq_refl
             rpc_chain_deployed eq_refl).
    by right; left.
  - apply (rpc_state_refines sum rpc_chain idle_server [] (rpc_block 0) (drop 1 rpc_chain)
             (IdNumber 0) 6 0 rpc_chain_wf rpc_chain_rows eq_refl rpc_chain_deployed eq_refl).
    by left.
Defined.

Lemma rpc_unknown_block_witness :
  storage_at sum idle_server 5 7 (IdNumber 9) = fail BlockNotFound /\
  nonce_at sum idle_server (IdHash 9) 5 = fail BlockNotFound.
Proof.
  destruct (rpc_unknown_block sum (fun _ => Some tt) rpc_chain idle_server (IdNumber 9) 5 7
              rpc_chain_wf eq_refl) as (H1 & _); [by exists (rpc_block 2)|].
  destruct (rpc_unknown_block sum (fun _ => Some tt) rpc_chain idle_server (IdHash 9) 5 7
              rpc_chain_wf eq_refl) as (_ & H2 & _); [by repeat constructor|].
  split; [exact H1|exact H2].
Defined.

Lemma rpc_fresh_nonce_by_hash_witness :
  nonce_at sum idle_server (IdNumber 2) 6 = ret 0 /\
  nonce_at sum idle_server (IdHash 102) 6 = fail ContractNotFound.
Proof.
  destruct (rpc_fresh_nonce_by_hash sum rpc_chain idle_server (take 2 rpc_chain) (rpc_block 2) 6 9
              rpc_chain_wf rpc_chain_rows eq_refl eq_refl eq_refl eq_refl) as (H1 & _ & H3).
  split; [exact H1|exact H3].
Defined.

Lemma rpc_deploys_wire_ok hashes : Forall wire_ok (map sample_tx hashes).
Proof. apply Forall_map, Forall_true. by intros h l. Qed.

Lemma rpc_block_refines_witness :
  block_tx_count idle_server (IdTag Latest) = ret 0 /\
  exists b, block_with_txs idle_server (IdHash 100) = ret (MinedRpcBlock b).
Proof.
  split.
  - apply (rpc_block_refines rpc_chain idle_server (take 2 rpc_chain) (rpc_block 2) [] (IdTag Latest)
             rpc_chain_wf rpc_chain_rows eq_refl eq_refl); [|apply (rpc_deploys_wire_ok [])].
    right. right. split; [by left|done].
  - destruct (rpc_block_refines rpc_chain idle_server [] (rpc_block 0) (drop 1 rpc_chain) (IdHash 100)
                rpc_chain_wf rpc_chain_rows eq_refl eq_refl) as [(r & Hr & _) _];
      [by right; left|apply (rpc_deploys_wire_ok [11; 12])|]. exists r. exact Hr.
Defined.

Lemma rpc_transaction_refines_witness :
  api_transaction_status idle_server 12 = ret (StatusAcceptedOnL2 Succeeded) /\
  api_transaction_status idle_server 11 = ret (StatusAcceptedOnL2 (Reverted [1])).
Proof.
  split.
  - destruct (rpc_transaction_refines rpc_chain idle_server [] (rpc_block 0) (drop 1 rpc_chain)
                (IdNumber 0) 1 (sample_tx 12) (rpc_receipt_of false) rpc_chain_wf rpc_chain_rows
                eq_refl eq_refl) as (t & _ & _ & _ & _ & Hs); [by left|done..|by intros l|exact Hs].
  - destruct (rpc_transaction_refines rpc_chain idle_server [] (rpc_block 0) (drop 1 rpc_chain)
                (IdNumber 0) 0 (sample_tx 11) (rpc_receipt_of true) rpc_chain_wf rpc_chain_rows
                eq_refl eq_refl) as (t & _ & _ & _ & _ & Hs); [by left|done..|by intros l|exact Hs].
Defined.

Definition rpc_env : BlockEnv := {|
  env_number := 3; env_timestamp := 3; env_l2_gas_prices := GasPrice_MIN;
  env_l1_gas_prices := GasPrice_MIN; env_l1_data_gas_prices := GasPrice_MIN;
  env_sequencer_address := 1 |}.
(** Transaction 21 succeeded, 22 failed. *)
Definition rpc_pending : PendingExecutor unit unit unit unit :=
  mkPendingExecutor rpc_env
    [(sample_tx 21, Success (rpc_receipt_of false) tt); (sample_tx 22, Failed tt)]
    (db_state sum (db_of rpc_chain) no_tries LatestState).
Definition interval_server := rpc_server (fun _ => None) (Some (ModeInterval rpc_pending)).

Lemma rpc_pending_transaction_witness :
  api_transaction_status interval_server 22 = ret StatusRejected /\
  api_receipt interval_server 22 = fail TxnHashNotFound.
Proof.
  destruct (rpc_pending_transaction interval_server rpc_pending (sample_tx 22) (Failed tt))
    as (_ & H1 & H2); [done|done|by repeat constructor; set_solver|by vm_compute|done|by intros l|].
  split; [exact H1|exact H2].
Defined.

Definition pooled_tx : ExecutableTxWithHash unit :=
  {| ewh_hash := 31; ewh_transaction := ExInvoke (InvokeV0 {|
       iv0_contract_address := 5; iv0_entry_point_selector := 0; iv0_calldata := [];
       iv0_signature := []; iv0_max_fee := 0 |}) |}.
Definition pooled (h : Z) : option (ExecutableTxWithHash unit) :=
  if Z.eqb h 31 then Some pooled_tx else None.

Lemma rpc_pooled_transaction_witness :
  api_transaction_status (rpc_server pooled None) 31 = ret StatusReceived /\
  api_transaction_status (rpc_server pooled (Some (ModeInterval rpc_pending))) 31
    = fail TxnHashNotFound.
Proof.
  split.
  - apply (rpc_pooled_transaction (rpc_server pooled None) pooled_tx);
      [done|by vm_compute|by intros l|done].
  - apply (rpc_pooled_transaction (rpc_server pooled (Some (ModeInterval rpc_pending))) pooled_tx);
      [done|by vm_compute|by intros l|done].
Defined.

Lemma rpc_state_update_refines_witness :
  exists u, api_state_update sum idle_server (IdNumber 1) = ret (MinedStateUpdate u) /\
    rsu_old_root u = 70 /\ rsu_new_root u = 71.
Proof.
  destruct (rpc_state_update_refines sum rpc_chain idle_server [] (rpc_block 0) (rpc_block 1)
              (drop 2 rpc_chain) (IdNumber 1) rpc_chain_wf rpc_chain_rows eq_refl eq_refl)
    as (u & Hu & _ & Ho & Hn & _); [done|done|done|by left|by repeat constructor..|].
  exists u. split_and!; [exact Hu|exact Ho|exact Hn].
Defined.

Lemma state_update_unknown_hash_panics_witness : api_state_update sum idle_server (IdHash 9) = None.
Proof.
  apply (state_update_unknown_hash_panics sum rpc_chain idle_server 9 eq_refl). by repeat constructor.
Defined.

Lemma rpc_pending_block_witness :
  block_tx_count interval_server (IdTag PendingTag) = ret 2 /\
  exists b, api_block_with_tx_hashes interval_server (IdTag PendingTag) = ret (PendingRpcBlock b) /\
    rpb_transactions b = [21].
Proof.
  destruct (rpc_pending_block (take 2 rpc_chain) interval_server (rpc_block 2) rpc_pending)
    as (_ & _ & (b & Hb & _ & Ht) & Hc); [done|done|exact rpc_chain_wf|apply (rpc_deploys_wire_ok [21])|].
  split; [exact Hc|]. exists b. split; [exact Hb|exact Ht].
Defined.

(** The timestamp 1000 is set; a query at 50 shows it, a block mined at 60 gets 1010. *)
Lemma pending_query_uses_timestamp_witness :
  exists env gen,
    api_block_env_at sampled_starknet 50 idle_server (IdTag PendingTag) (mkContextGen 0 1000)
      = ret (env, gen) /\
    env_timestamp env = 1000 /\
    env_timestamp (update_block_env sampled_starknet 60 gen rpc_env).1 = 1010.
Proof.
  destruct (pending_query_uses_timestamp sampled_starknet
              sampled_starknet 50 60
              (take 2 rpc_chain) idle_server (rpc_block 2) (mkContextGen 0 1000) rpc_env eq_refl
              eq_refl rpc_chain_wf rpc_chain_rows) as (env & gen & H1 & H2 & _ & H3); [done|].
  exists env, gen. split_and!; [exact H1|exact H2|exact H3].
Defined.
