(* ===== verification/PendingState.v ===== *)
(** * The state of the pending block (executor/src/implementation/blockifier/state.rs)

    The executor runs on blockifier's cached state over a state provider
    ([StateProviderDb]), and shows what it has executed so far as a state provider
    again ([CachedState]).  Blockifier's cache is a class: what was written, and that a
    read is of what was written, else of the reader below. *)

From Stdlib Require Import ZArith Lia String.
From stdpp Require Import base numbers list gmap.
From S2P Require Import Prelude BTreeMap Felt Tx Version Block Receipt Codec Versioned Mdbx DbProvider DbState ChangeLog DbHistory DbLatest DbBlocks RpcError RpcEvents Backend RpcTypes RpcForking RpcStarknet RpcStarknetProofs.

Inductive StateError :=
  | StateReadError (e : ProviderError)        (* by its text *)
  | UndeclaredClassHash (class_hash : Z).

(** blockifier's [StateReader], less the classes; [None]: the provider below panics. *)
Record StateReader := mkStateReader {
  sr_get_class_hash_at : Z -> option (result StateError Z);
  sr_get_nonce_at : Z -> option (result StateError Z);
  sr_get_storage_at : Z -> Z -> option (result StateError Z);
  sr_get_compiled_class_hash : Z -> option (result StateError Z);
}.

(** What was written over a reader. *)
Record Written := mkWritten {
  wr_class_hash : Z -> option Z;
  wr_nonce : Z -> option Z;
  wr_storage : Z -> Z -> option Z;
  wr_compiled_class_hash : Z -> option Z;
}.
Definition over {E A} (w : option A) (below : option (result E A)) : option (result E A) :=
  match w with Some a => Some (Ok a) | None => below end.

(** [cached_state::CachedState]: its reads and what they are. *)
Class BlockifierCache (W : Type) := {
  bc_reader : W -> StateReader -> StateReader;
  bc_written : W -> Written;
  bc_class_hash w r a :
    sr_get_class_hash_at (bc_reader w r) a = over (wr_class_hash (bc_written w) a) (sr_get_class_hash_at r a);
  bc_nonce w r a :
    sr_get_nonce_at (bc_reader w r) a = over (wr_nonce (bc_written w) a) (sr_get_nonce_at r a);
  bc_storage w r a k :
    sr_get_storage_at (bc_reader w r) a k = over (wr_storage (bc_written w) a k) (sr_get_storage_at r a k);
  bc_compiled w r h :
    sr_get_compiled_class_hash (bc_reader w r) h
    = over (wr_compiled_class_hash (bc_written w) h) (sr_get_compiled_class_hash r h);
}.

Section PendingState.
Context {C W : Type} `{BC : BlockifierCache W}.

(** Addresses and keys are felts; blockifier's are those its [PatriciaKey] accepts, and
    the conversion is unwrapped. *)
Context (is_patricia_key : Z -> bool).

(** ** [StateReader for StateProviderDb] *)
Definition read_error {A} (m : ProviderResult A) : result StateError A := map_err StateReadError m.
Definition or_zero (m : ProviderResult (option Z)) : result StateError Z :=
  default 0 <$> read_error m.

Definition db_get_class_hash_at (p : StateProvider C) (address : Z) : option (result StateError Z) :=
  option_map or_zero (sp_class_hash_of_contract p address).
Definition db_get_nonce_at (p : StateProvider C) (address : Z) : option (result StateError Z) :=
  option_map or_zero (sp_nonce p address).
Definition db_get_storage_at (p : StateProvider C) (address key : Z) : option (result StateError Z) :=
  option_map or_zero (sp_storage p address key).
Definition db_get_compiled_class_hash (p : StateProvider C) (class_hash : Z)
    : option (result StateError Z) :=
  let! hash := Some (read_error (sp_compiled_class_hash p class_hash)) in
  match hash with Some h => ret h | None => fail (UndeclaredClassHash class_hash) end.

Definition state_provider_db (p : StateProvider C) : StateReader :=
  mkStateReader (db_get_class_hash_at p) (db_get_nonce_at p) (db_get_storage_at p)
    (db_get_compiled_class_hash p).

(** ** [CachedState] as a state provider *)
Record CachedState := mkCachedState {
  cs_provider : StateProvider C;
  cs_cache : W;
  cs_declared_classes : list (Z * C);
}.
Implicit Types (s : CachedState) (address hash : Z).

Definition cs_reader s : StateReader := bc_reader (cs_cache s) (state_provider_db (cs_provider s)).

Definition cs_class s hash : ProviderResult (option C) :=
  match btree_get hash (cs_declared_classes s) with
  | Some class => Ok (Some class)
  | None => sp_class (cs_provider s) hash
  end.

(** A read that fails or gives zero is no hash. *)
Definition nonzero_hash (m : result StateError Z) : ProviderResult (option Z) :=
  match m with
  | Ok hash => if Z.eqb hash 0 then Ok None else Ok (Some hash)
  | Err _ => Ok None
  end.
(** The compiled class hashes of a provider do not panic. *)
Definition cs_compiled_class_hash s hash : ProviderResult (option Z) :=
  match sr_get_compiled_class_hash (cs_reader s) hash with
  | Some m => nonzero_hash m
  | None => Ok None
  end.
Definition cs_class_hash_of_contract s address : option (ProviderResult (option Z)) :=
  if is_patricia_key address
  then option_map nonzero_hash (sr_get_class_hash_at (cs_reader s) address)
  else None.

(** [ProviderError::Other] with the error's text. *)
Definition found_or_other (m : result StateError Z) : ProviderResult (option Z) :=
  Some <$> map_err (fun _ => OtherProviderError []) m.

Definition cs_nonce s address : option (ProviderResult (option Z)) :=
  let! class_hash := cs_class_hash_of_contract s address in
  match class_hash with
  | None => ret None
  | Some _ => option_map found_or_other (sr_get_nonce_at (cs_reader s) address)
  end.

Definition cs_storage s address (key : Z) : option (ProviderResult (option Z)) :=
  let! class_hash := cs_class_hash_of_contract s address in
  match class_hash with
  | None => ret None
  | Some _ =>
      if is_patricia_key key
      then option_map found_or_other (sr_get_storage_at (cs_reader s) address key)
      else None
  end.

(** The executor's state for the API; proofs and roots are the traits' defaults. *)
Definition cached_provider s : StateProvider C := {|
  sp_class := cs_class s; sp_compiled_class_hash := cs_compiled_class_hash s;
  sp_nonce := cs_nonce s; sp_class_hash_of_contract := cs_class_hash_of_contract s;
  sp_storage := cs_storage s;
  sp_state_root := Some (Err StateRootNotFound); sp_classes_root := Err StateRootNotFound;
  sp_contracts_root := Err StateRootNotFound; sp_storage_root _ := Ok None;
  sp_class_multiproof _ := Err StateProofNotSupported;
  sp_contract_multiproof _ := Err StateProofNotSupported;
  sp_storage_multiproof _ _ := Err StateProofNotSupported |}.

(** ** What the pending state shows *)

(** The value after the writes, over a provider that answers. *)
Definition value_over (w : option Z) (below : option Z) : Z := default (default 0 below) w.

Lemma over_ok (w below : option Z) :
  over w (option_map or_zero (Some (Ok below))) = Some (Ok (value_over w below)).
Proof. by destruct w. Qed.

Section Reads.
Variables (s : CachedState) (a k : Z) (class nonce value : option Z).
Hypothesis Ha : is_patricia_key a = true.
Hypothesis Hclass : sp_class_hash_of_contract (cs_provider s) a = Some (Ok class).
Abbreviation w := (bc_written (cs_cache s)).
Abbreviation class_now := (value_over (wr_class_hash w a) class).

Lemma cs_class_hash_value :
  cs_class_hash_of_contract s a = ret (if Z.eqb class_now 0 then None else Some class_now).
Proof.
  unfold cs_class_hash_of_contract, cs_reader. rewrite Ha, bc_class_hash. simpl.
  unfold db_get_class_hash_at. rewrite Hclass, over_ok. simpl. by destruct (Z.eqb class_now 0).
Qed.

Lemma cs_nonce_value :
  sp_nonce (cs_provider s) a = Some (Ok nonce) ->
  cs_nonce s a = ret (if Z.eqb class_now 0 then None else Some (value_over (wr_nonce w a) nonce)).
Proof.
  intros Hnonce. unfold cs_nonce. rewrite cs_class_hash_value. simpl.
  destruct (Z.eqb class_now 0); [done|].
  unfold cs_reader. rewrite bc_nonce. simpl. unfold db_get_nonce_at. by rewrite Hnonce, over_ok.
Qed.

Lemma cs_storage_value :
  is_patricia_key k = true -> sp_storage (cs_provider s) a k = Some (Ok value) ->
  cs_storage s a k = ret (if Z.eqb class_now 0 then None else Some (value_over (wr_storage w a k) value)).
Proof.
  intros Hk Hvalue. unfold cs_storage. rewrite cs_class_hash_value. simpl.
  destruct (Z.eqb class_now 0); [done|].
  unfold cs_reader. rewrite Hk, bc_storage. simpl. unfold db_get_storage_at. by rewrite Hvalue, over_ok.
Qed.
End Reads.
End PendingState.
Arguments CachedState : clear implicits.

(** ** The pending state through the API *)
Section Server.
Context `{MD : Mdbx} `{RT : RoaringTreemap} `{FP : FeltPostcard} {C W Vm Info ExecErr : Type}.
Context `{BC : BlockifierCache W} (poseidon : list Z -> Z) (is_patricia_key : Z -> bool).
Abbreviation Ins := (@Insertion C (Receipt Vm) (TypedTransactionExecutionInfo Info)).
Abbreviation Server := (StarknetApi C Vm Info ExecErr).

(** A node in interval mode whose pending block was opened on the last block [i]. *)
Record pending_over (chain : list Ins) (i : Ins) (api : Server) (exec : PendingExecutor C Vm Info ExecErr)
    (s : CachedState C W) : Prop := {
  po_wf : wf_chain chain;
  po_rows : wf_rows chain;
  po_deployed : nonces_deployed chain;
  po_last : last chain = Some i;
  po_db : sa_db api = db_of chain;
  po_pending : pending_executor api = Some exec;
  po_state : pe_state exec = cached_provider is_patricia_key s;
  po_provider : cs_provider s = db_state poseidon (db_of chain) (sa_tries api) LatestState;
}.

Variables (chain : list Ins) (i : Ins) (api : Server) (exec : PendingExecutor C Vm Info ExecErr)
  (s : CachedState C W).
Hypothesis H : pending_over chain i api exec s.

Lemma latest_shows : shows chain (ins_number i) LatestState.
Proof. right. split; [done|]. apply last_bounds; [apply H|]. apply (po_last _ _ _ _ _ H). Qed.

Lemma pending_below_class a :
  sp_class_hash_of_contract (cs_provider s) a = Some (Ok (value_at (class_log chain) (ins_number i) a)).
Proof.
  rewrite (po_provider _ _ _ _ _ H). simpl sp_class_hash_of_contract. f_equal.
  apply (shown_class chain (po_wf _ _ _ _ _ H) _ _ _ (po_deployed _ _ _ _ _ H) latest_shows).
Qed.

Lemma pending_below_storage a k :
  sp_storage (cs_provider s) a k
  = Some (Ok (value_at (storage_log chain) (ins_number i) {| csk_contract_address := a; csk_key := k |})).
Proof.
  rewrite (po_provider _ _ _ _ _ H). simpl sp_storage. f_equal.
  apply (shown_storage chain (po_wf _ _ _ _ _ H) _ _ _ _ latest_shows).
Qed.

Lemma pending_api_state :
  api_state poseidon api (IdTag PendingTag) = ret (cached_provider is_patricia_key s).
Proof. unfold api_state. rewrite (po_pending _ _ _ _ _ H), (po_state _ _ _ _ _ H). done. Qed.

(** The contract's class hash after the pending transactions, zero if it has none. *)
Definition pending_class (a : Z) : Z :=
  value_over (wr_class_hash (bc_written (cs_cache s)) a) (value_at (class_log chain) (ins_number i) a).

Lemma pending_class_hash a :
  is_patricia_key a = true ->
  cs_class_hash_of_contract is_patricia_key s a
  = ret (if Z.eqb (pending_class a) 0 then None else Some (pending_class a)).
Proof. intros Ha. by rewrite (cs_class_hash_value is_patricia_key s a _ Ha (pending_below_class a)). Qed.

Lemma pending_storage a k :
  is_patricia_key a = true -> is_patricia_key k = true ->
  cs_storage is_patricia_key s a k
  = ret (if Z.eqb (pending_class a) 0 then None
         else Some (value_over (wr_storage (bc_written (cs_cache s)) a k)
                      (value_at (storage_log chain) (ins_number i)
                         {| csk_contract_address := a; csk_key := k |}))).
Proof.
  intros Ha Hk.
  by rewrite (cs_storage_value is_patricia_key s a k _ _ Ha (pending_below_class a) Hk
                (pending_below_storage a k)).
Qed.
End Server.

Section ServerTheorems.
Context `{MD : Mdbx} `{RT : RoaringTreemap} `{FP : FeltPostcard} {C W Vm Info ExecErr : Type}.
Context `{BC : BlockifierCache W} (poseidon : list Z -> Z) (is_patricia_key : Z -> bool).
Abbreviation Ins := (@Insertion C (Receipt Vm) (TypedTransactionExecutionInfo Info)).
Abbreviation Server := (StarknetApi C Vm Info ExecErr).
Implicit Types (chain : list Ins) (i : Ins) (api : Server) (exec : PendingExecutor C Vm Info ExecErr)
  (s : CachedState C W).

(** C12. State queries for the pending block answer for the chain with the writes of the
    pending transactions over it.  The class hash of a contract and its storage are what
    was written last, else what the last block left; a contract without a class is not
    found, except the system contract 0x1, whose class hash is answered as zero and whose
    storage, as long as it has no class, as all zero; an address that is not a Patricia
    key makes both handlers panic (the class hash of 0x1 apart), and so does such a key
    for the storage of a contract that has a class.  The nonce is the pool's, not the
    pending block's. *)
Theorem rpc_pending_state_refines chain i api exec s a k :
  pending_over poseidon is_patricia_key chain i api exec s ->
  let class := pending_class chain i s a in
  class_hash_at_address poseidon api (IdTag PendingTag) a
    = (if Z.eqb a 1 then ret 0
       else if negb (is_patricia_key a) then None
       else if Z.eqb class 0 then fail ContractNotFound
       else ret class) /\
  storage_at poseidon api a k (IdTag PendingTag)
    = (if negb (is_patricia_key a) then None
       else if Z.eqb class 0 then (if Z.eqb a 1 then ret 0 else fail ContractNotFound)
       else if negb (is_patricia_key k) then None
       else ret (value_over (wr_storage (bc_written (cs_cache s)) a k)
                   (value_at (storage_log chain) (ins_number i)
                      {| csk_contract_address := a; csk_key := k |}))) /\
  nonce_at poseidon api (IdTag PendingTag) a
    = match sa_pool_nonce api a with
      | Ok nonce => required nonce ContractNotFound
      | Err e => fail (UnexpectedError (ReasonError e))
      end.
Proof.
  intros H. cbn zeta. unfold class_hash_at_address, storage_at.
  rewrite (pending_api_state poseidon is_patricia_key _ _ _ _ _ H).
  cbn [hbind ret sp_class_hash_of_contract sp_storage cached_provider].
  split_and!; [..|unfold nonce_at; by destruct (sa_pool_nonce api a)].
  - destruct (Z.eqb a 1); [done|]. destruct (is_patricia_key a) eqn:Ha; simpl.
    + rewrite (pending_class_hash poseidon is_patricia_key _ _ _ _ _ H a Ha).
      by destruct (Z.eqb (pending_class chain i s a) 0).
    + unfold cs_class_hash_of_contract. by rewrite Ha.
  - destruct (is_patricia_key a) eqn:Ha; simpl;
      [|unfold cs_storage, cs_class_hash_of_contract; rewrite Ha; by destruct (Z.eqb a 1)].
    rewrite (pending_class_hash poseidon is_patricia_key _ _ _ _ _ H a Ha).
    destruct (is_patricia_key k) eqn:Hk.
    + rewrite (pending_storage poseidon is_patricia_key _ _ _ _ _ H a k Ha Hk).
      by destruct (Z.eqb (pending_class chain i s a) 0), (Z.eqb a 1).
    + unfold cs_storage. rewrite (pending_class_hash poseidon is_patricia_key _ _ _ _ _ H a Ha), Hk.
      by destruct (Z.eqb (pending_class chain i s a) 0), (Z.eqb a 1).
Qed.

(** The storage of the system contract 0x1, where the hashes of past blocks are kept, is
    all zero in the pending state, whatever it is after the last block. *)
Theorem pending_system_storage_hidden chain i api exec s k :
  pending_over poseidon is_patricia_key chain i api exec s ->
  is_patricia_key 1 = true -> pending_class chain i s 1 = 0 ->
  storage_at poseidon api 1 k (IdTag PendingTag) = ret 0 /\
  storage_at poseidon api 1 k (IdTag Latest)
    = ret (default 0 (value_at (storage_log chain) (ins_number i)
                        {| csk_contract_address := 1; csk_key := k |})).
Proof.
  intros H H1 Hc. split.
  - unfold storage_at. rewrite (pending_api_state poseidon is_patricia_key _ _ _ _ _ H).
    cbn [hbind ret Z.eqb Pos.eqb sp_storage cached_provider]. unfold cs_storage.
    rewrite (pending_class_hash poseidon is_patricia_key _ _ _ _ _ H 1 H1), Hc. done.
  - destruct (proj1 (last_Some _ _) (po_last _ _ _ _ _ _ _ H)) as [pre Hpre].
    apply (class_and_storage_answered poseidon chain api pre i [] (IdTag Latest) 1 k);
      [apply H|apply H|apply H|apply H|done|].
    right. right. split; [by left|apply (po_last _ _ _ _ _ _ _ H)].
Qed.

(** An address or a key that is a felt and not a Patricia key makes the handler panic
    when the pending state is asked. *)
Theorem pending_large_key_panics chain i api exec s a k :
  pending_over poseidon is_patricia_key chain i api exec s ->
  is_patricia_key a = false \/ (pending_class chain i s a <> 0 /\ is_patricia_key k = false) ->
  storage_at poseidon api a k (IdTag PendingTag) = None.
Proof.
  intros H Hbad. unfold storage_at. rewrite (pending_api_state poseidon is_patricia_key _ _ _ _ _ H).
  cbn [hbind ret sp_class_hash_of_contract sp_storage cached_provider]. unfold cs_storage.
  destruct (is_patricia_key a) eqn:Ha.
  - destruct Hbad as [|[Hc Hk]]; [done|].
    rewrite (pending_class_hash poseidon is_patricia_key _ _ _ _ _ H a Ha).
    rewrite (proj2 (Z.eqb_neq _ _) Hc), Hk. by destruct (Z.eqb a 1).
  - unfold cs_class_hash_of_contract. rewrite Ha. by destruct (Z.eqb a 1).
Qed.
End ServerTheorems.

(** ** A concrete pending state *)
Definition read_through (w : Written) (r : StateReader) : StateReader :=
  mkStateReader (fun a => over (wr_class_hash w a) (sr_get_class_hash_at r a))
    (fun a => over (wr_nonce w a) (sr_get_nonce_at r a))
    (fun a k => over (wr_storage w a k) (sr_get_storage_at r a k))
    (fun h => over (wr_compiled_class_hash w h) (sr_get_compiled_class_hash r h)).
#[export] Instance written_cache : BlockifierCache Written := {
  bc_reader := read_through; bc_written w := w;
  bc_class_hash w r a := eq_refl; bc_nonce w r a := eq_refl; bc_storage w r a k := eq_refl;
  bc_compiled w r h := eq_refl }.

(** Key 7 of contract 5 was written; block 1 left a value in the system contract. *)
Definition pending_writes : Written :=
  mkWritten (fun _ => None) (fun _ => None)
    (fun a k => if Z.eqb a 5 && Z.eqb k 7 then Some 99 else None) (fun _ => None).
Definition below_2_251 (z : Z) : bool := Z.ltb z (2 ^ 251).
Definition system_chain : list (@Insertion unit (Receipt unit) (TypedTransactionExecutionInfo unit)) :=
  [rpc_insertion 0 70 [11] (rpc_updates [] [(5, 9)] [(5, [(7, 70); (8, 80)])]);
   rpc_insertion 1 71 [] (rpc_updates [] [] [(1, [(0, 100)])])].
Definition pending_cached : CachedState unit Written :=
  mkCachedState (db_state sum (db_of system_chain) no_tries LatestState) pending_writes [].
Definition system_exec : PendingExecutor unit unit unit unit :=
  mkPendingExecutor rpc_env [] (cached_provider below_2_251 pending_cached).
Definition system_server : StarknetApi unit unit unit unit :=
  mkStarknetApi (fun _ => None) (fun _ => Ok None) (db_of system_chain) no_tries None
    (Some (ModeInterval system_exec)) None None.

Lemma system_pending :
  pending_over sum below_2_251 system_chain (nth 1 system_chain (rpc_insertion 0 0 [] (rpc_updates [] [] [])))
    system_server system_exec pending_cached.
Proof.
  split; try done.
  - split; [by repeat constructor|]. repeat constructor; set_solver || done.
  - repeat constructor; set_solver.
  - intros n a. unfold value_at, system_chain, nonce_log, class_log. cbn.
    repeat case_decide; subst; try lia; try done; by intros [].
Qed.

Lemma rpc_pending_state_refines_witness :
  storage_at sum system_server 5 7 (IdTag PendingTag) = ret 99 /\
  storage_at sum system_server 5 8 (IdTag PendingTag) = ret 80 /\
  storage_at sum system_server 1 0 (IdTag PendingTag) = ret 0 /\
  storage_at sum system_server 6 0 (IdTag PendingTag) = fail ContractNotFound.
Proof.
  assert (forall a k, _) as Hall
    by exact (fun a k => proj1 (proj2 (rpc_pending_state_refines sum below_2_251 system_chain _
                system_server system_exec pending_cached a k system_pending))).
  split_and!; apply Hall.
Defined.

Lemma pending_system_storage_hidden_witness :
  storage_at sum system_server 1 0 (IdTag PendingTag) = ret 0 /\
  storage_at sum system_server 1 0 (IdTag Latest) = ret 100.
Proof.
  apply (pending_system_storage_hidden sum below_2_251 system_chain _ system_server system_exec
           pending_cached 0 system_pending); done.
Defined.

Lemma pending_large_key_panics_witness :
  storage_at sum system_server 5 (2 ^ 251) (IdTag PendingTag) = None.
Proof.
  apply (pending_large_key_panics sum below_2_251 system_chain _ system_server system_exec
           pending_cached 5 (2 ^ 251) system_pending). right. done.
Defined.
