(* ===== verification/RpcTrace.v ===== *)
(** * Execution traces on the wire (rpc/rpc-types/src/trace.rs)

    The conversion of blockifier's execution infos.  A call's class hash is unwrapped,
    and so is the execute call of some transactions: [None] is the panic. *)

From Stdlib Require Import ZArith Lia.
From stdpp Require Import base numbers list option.
From S2P Require Import Prelude Felt Tx Version Block Receipt Backend Processor RpcTypes.

Record RpcOrderedEvent := mkRpcOrderedEvent { roe_order : Z; roe_keys : list Z; roe_data : list Z }.
Record RpcOrderedMessage := mkRpcOrderedMessage {
  rom_order : Z;
  rom_from_address : Z;
  rom_to_address : Z;
  rom_payload : list Z;
}.
Record InnerResources := mkInnerResources { ir_l1_gas : Z; ir_l2_gas : Z }.
Inductive FunctionInvocation := mkInvocation {
  fi_contract_address : Z;
  fi_entry_point_selector : Z;
  fi_calldata : list Z;
  fi_caller_address : Z;
  fi_class_hash : Z;
  fi_entry_point_type : EntryPointType;
  fi_call_type : CallType;
  fi_result : list Z;
  fi_events : list RpcOrderedEvent;
  fi_messages : list RpcOrderedMessage;
  fi_execution_resources : InnerResources;
  fi_is_reverted : bool;
  fi_calls : list FunctionInvocation;
}.
Inductive ExecuteInvocation :=
  | InvocationSuccess (i : FunctionInvocation)
  | InvocationReverted (revert_reason : list Z).
(** The state diff of a trace is not computed. *)
Inductive TransactionTrace :=
  | TraceInvoke (fee_transfer validate : option FunctionInvocation) (execute : ExecuteInvocation)
      (resources : RpcExecutionResources) (state_diff : option StateDiff)
  | TraceDeclare (fee_transfer validate : option FunctionInvocation)
      (resources : RpcExecutionResources) (state_diff : option StateDiff)
  | TraceDeployAccount (fee_transfer validate : option FunctionInvocation)
      (constructor : FunctionInvocation) (resources : RpcExecutionResources)
      (state_diff : option StateDiff)
  | TraceL1Handler (function : FunctionInvocation) (resources : RpcExecutionResources)
      (state_diff : option StateDiff).

Definition to_inner_execution_resources (resources : TrackedResource) (gas_consumed : Z)
    : InnerResources :=
  match resources with
  | CairoSteps => mkInnerResources gas_consumed 0
  | SierraGas => mkInnerResources 0 gas_consumed
  end.

Fixpoint to_function_invocation (info : CallInfo) : option FunctionInvocation :=
  let contract_address := ci_storage_address info in
  let call := ci_call info in
  let events := map (fun e => mkRpcOrderedEvent (oe_order e) (oe_keys e) (oe_data e)) (ci_events info) in
  let messages :=
    map (fun m => mkRpcOrderedMessage (om_order m) contract_address (om_to_address m) (om_payload m))
      (ci_l2_to_l1_messages info) in
  let execution_resources :=
    to_inner_execution_resources (ci_tracked_resource info) (ci_gas_consumed info) in
  calls ← mapM to_function_invocation (ci_inner_calls info);
  class_hash ← call_class_hash call;
  Some {|
    fi_contract_address := contract_address;
    fi_entry_point_selector := call_entry_point_selector call;
    fi_calldata := call_calldata call; fi_caller_address := call_caller_address call;
    fi_class_hash := class_hash; fi_entry_point_type := call_entry_point_type call;
    fi_call_type := call_call_type call; fi_result := ci_retdata info; fi_events := events;
    fi_messages := messages; fi_execution_resources := execution_resources;
    fi_is_reverted := ci_failed info; fi_calls := calls |}.

Section Trace.
Context {Vm : Type}.

Definition trace_resources (receipt : TransactionReceipt Vm) : RpcExecutionResources :=
  mkRpcResources (gv_l1_gas (tr_gas receipt)) (gv_l1_data_gas (tr_gas receipt))
    (gv_l2_gas (tr_gas receipt)).

(** [Option::map(to_function_invocation)]. *)
Definition invocation_of (call : option CallInfo) : option (option FunctionInvocation) :=
  match call with
  | None => Some None
  | Some call => Some <$> to_function_invocation call
  end.

Definition to_rpc_trace (trace : TypedTransactionExecutionInfo (TransactionExecutionInfo Vm))
    : option TransactionTrace :=
  let info := typed_info trace in
  let resources := trace_resources (info_receipt info) in
  fee_transfer ← invocation_of (fee_transfer_call_info info);
  validate ← invocation_of (validate_call_info info);
  execute ← invocation_of (execute_call_info info);
  match trace with
  | InfoInvoke _ =>
      execute ← match revert_error info with
                | Some reason => Some (InvocationReverted reason)
                | None => InvocationSuccess <$> execute
                end;
      Some (TraceInvoke fee_transfer validate execute resources None)
  | InfoDeclare _ => Some (TraceDeclare fee_transfer validate resources None)
  | InfoDeployAccount _ =>
      constructor ← execute;
      Some (TraceDeployAccount fee_transfer validate constructor resources None)
  | InfoL1Handler _ => function ← execute; Some (TraceL1Handler function resources None)
  end.

Record FeeEstimate := mkFeeEstimate {
  fe_l1_gas_consumed : Z;
  fe_l1_gas_price : Z;
  fe_l2_gas_consumed : Z;
  fe_l2_gas_price : Z;
  fe_l1_data_gas_consumed : Z;
  fe_l1_data_gas_price : Z;
  fe_overall_fee : Z;
  fe_unit : PriceUnit;
}.
Definition to_rpc_fee_estimate (resources : ExecutionResources Vm) (fee : FeeInfo) : FeeEstimate := {|
  fe_l1_gas_consumed := felt_of (gu_l1_gas (er_gas resources));
  fe_l1_gas_price := felt_of (fee_l1_gas_price fee);
  fe_l2_gas_consumed := felt_of (gu_l2_gas (er_gas resources));
  fe_l2_gas_price := felt_of (fee_l2_gas_price fee);
  fe_l1_data_gas_consumed := felt_of (gu_l1_data_gas (er_gas resources));
  fe_l1_data_gas_price := felt_of (fee_l1_data_gas_price fee);
  fe_overall_fee := felt_of (overall_fee fee); fe_unit := fee_unit fee |}.

(** ** When the conversion does not panic *)

(** Every call was given the hash of the class it ran. *)
Fixpoint classes_known (info : CallInfo) : bool :=
  match call_class_hash (ci_call info) with None => false | Some _ => true end
  && forallb classes_known (ci_inner_calls info).

(** Induction over a call and the calls it made. *)
Lemma call_info_ind (P : CallInfo -> Prop) :
  (forall info, Forall P (ci_inner_calls info) -> P info) -> forall info, P info.
Proof.
  intros IH. fix go 1. intros [a c e m r f g t inner]. apply IH. simpl. clear IH.
  induction inner as [|x inner Hin]; constructor; [apply go|exact Hin].
Qed.

Lemma invocation_some info : is_Some (to_function_invocation info) <-> classes_known info = true.
Proof.
  induction info as [info IH] using call_info_ind. destruct info as [a c e m r f g t inner]. simpl in *.
  rewrite andb_true_iff.
  assert (is_Some (mapM to_function_invocation inner) <-> forallb classes_known inner = true) as Hin.
  { induction IH as [|x inner Hx _ IHin]; simpl; [done|]. rewrite andb_true_iff, <- Hx, <- IHin.
    split.
    - intros (l & (y & Hy & (ys & Hys & _)%bind_Some)%bind_Some). split; [by exists y|by exists ys].
    - intros [[y Hy] [ys Hys]]. rewrite Hy. simpl. rewrite Hys. by eexists. }
  rewrite <- Hin. split.
  - intros (y & (l & Hl & (h & Hh & _)%bind_Some)%bind_Some). split; [by rewrite Hh|by exists l].
  - intros [Hh [l Hl]]. rewrite Hl. simpl. destruct (call_class_hash c); [by eexists|done].
Qed.

Definition call_known (call : option CallInfo) : bool :=
  match call with Some call => classes_known call | None => true end.

Lemma invocation_of_some call : is_Some (invocation_of call) <-> call_known call = true.
Proof.
  destruct call as [call|]; simpl; [|done]. rewrite <- invocation_some.
  destruct (to_function_invocation call); simpl; split; intros [? ?]; done || by eexists.
Qed.

(** The execute call the conversion takes for granted: an invoke transaction's unless it
    reverted, a deploy account's and an L1 handler's always. *)
Definition execute_there (trace : TypedTransactionExecutionInfo (TransactionExecutionInfo Vm)) : bool :=
  let info := typed_info trace in
  let there := match execute_call_info info with Some _ => true | None => false end in
  match trace with
  | InfoInvoke _ => match revert_error info with Some _ => true | None => there end
  | InfoDeclare _ => true
  | InfoDeployAccount _ | InfoL1Handler _ => there
  end.

(** The trace of a transaction can be shown exactly when every call knows its class and
    the execute call is there: an L1 handler that reverted without one makes the handler
    panic, as the outcome of the execution is only looked at for invoke transactions. *)
Theorem to_rpc_trace_defined trace :
  is_Some (to_rpc_trace trace) <->
  call_known (fee_transfer_call_info (typed_info trace)) = true /\
  call_known (validate_call_info (typed_info trace)) = true /\
  call_known (execute_call_info (typed_info trace)) = true /\
  execute_there trace = true.
Proof.
  rewrite <- !invocation_of_some. unfold to_rpc_trace, execute_there.
  destruct (invocation_of (fee_transfer_call_info (typed_info trace))) as [f|]; simpl;
    [|split; [by intros []|by intros ([] & _)]].
  destruct (invocation_of (validate_call_info (typed_info trace))) as [v|]; simpl;
    [|split; [by intros []|by intros (_ & [] & _)]].
  assert (forall e, invocation_of (execute_call_info (typed_info trace)) = Some e ->
            (match execute_call_info (typed_info trace) with Some _ => true | None => false end = true
             <-> is_Some e)) as Hthere.
  { intros e. destruct (execute_call_info (typed_info trace)) as [c|]; simpl.
    - destruct (to_function_invocation c); [|done]. intros [= <-]. done.
    - intros [= <-]. split; [done|by intros []]. }
  destruct (invocation_of (execute_call_info (typed_info trace))) as [e|] eqn:He; simpl;
    [|split; [by intros []|by intros (_ & _ & [] & _)]].
  specialize (Hthere e eq_refl).
  assert (forall A B (m : option A) (g : A -> B), is_Some (x ← m; Some (g x)) <-> is_Some m) as Hb.
  { intros A B [x|] g; simpl; split; intros []; done || by eexists. }
  destruct trace as [info|info|info|info]; simpl in *.
  - rewrite Hb. destruct (revert_error info); [split; [done|by eexists]|].
    rewrite Hthere. destruct e; simpl; split; naive_solver.
  - split; [done|by eexists].
  - rewrite Hb, Hthere. naive_solver.
  - rewrite Hb, Hthere. naive_solver.
Qed.
End Trace.
