(* ===== verification/RpcWrite.v ===== *)
(** * Submitting transactions (rpc/rpc/src/starknet/write.rs) and the developer's clock
    (rpc/rpc/src/dev.rs)

    The handlers that put transactions into the pool, against the interface
    [TransactionPool], which the pool of [Pool] implements; and those that move the
    timestamp of the next block. *)

From Stdlib Require Import ZArith Lia String.
From stdpp Require Import base numbers list gmap.
From S2P Require Import Prelude BTreeMap Felt Tx TxHash Version Block Receipt PoolTypes BTreeSet Pool PoolProofs PoolOrder Executor Validator Codec Versioned Mdbx DbProvider DbState Events RpcError RpcEvents GasOracle Backend Processor RpcTypes RpcForking RpcStarknet RpcStarknetProofs.

(** ** The pool, as the write API uses it *)
Class TransactionPool (P T : Type) `{PoolTransaction T} := {
  tp_add : Z -> T -> P -> option (result PoolError Z * P);
  tp_get : Z -> P -> option T;
  tp_ok : P -> Prop;
  tp_added now tx p h p' : tp_ok p -> tp_add now tx p = Some (Ok h, p') ->
    tp_ok p' /\ h = pt_hash tx /\ (tp_get h p = None -> tp_get h p' = Some tx);
  tp_refused now tx p e p' : tp_ok p -> tp_add now tx p = Some (Err e, p') ->
    tp_ok p' /\ forall h, tp_get h p' = tp_get h p;
}.

(** A validator that accepts a transaction as it is; [TxValidator] is one. *)
Class KeepingValidator {V T} (VA : Validator V T) : Prop :=
  validate_keeps v tx tx' v' : validate v tx = Some (Ok (Valid tx'), v') -> tx' = tx.

#[export] Instance tx_validator_keeps {C St BlockEnv CfgEnv} cls nonce perform fee exec join box :
  KeepingValidator (@TxValidator_Validator C St BlockEnv CfgEnv cls nonce perform fee exec join box).
Proof.
  intros v tx tx' v'. cbn [validate TxValidator_Validator]. unfold tx_validate.
  destruct (pt_nonce tx) as [n|]; [|done]. unfold declare_check.
  assert (forall sv sf, validate_inner perform fee exec join box v tx sv sf = Ok (Valid tx') -> tx' = tx)
    as Hin.
  { intros sv sf. unfold validate_inner. repeat case_match; intros; by simplify_eq. }
  repeat case_match; intros; simplify_eq; eauto.
Qed.

(** The pool of [Pool], with such a validator. *)
Section PoolInstance.
Context {T V O L : Type}.
Context `{PT : PoolTransaction T} `{VA : Validator V T} `{PO : PoolOrd O T}.
Context `{BT : BTreeSetImpl} `{CH : UnboundedChannel (PendingTx T (PriorityValue O T))}.
Context `{KV : !KeepingValidator VA} (try_send : L -> Z -> TrySend * L).

Lemma find_perm_unique {A} (f : A -> bool) (x : A) l l' :
  l' ≡ₚ x :: l -> f x = true -> List.find f l = None -> List.find f l' = Some x.
Proof.
  intros Hp Hx Hn. destruct (List.find f l') as [y|] eqn:Hy.
  - apply find_some in Hy as [Hin Hfy]. apply list_elem_of_In in Hin. rewrite Hp in Hin.
    apply elem_of_cons in Hin as [->|Hin]; [done|].
    eapply find_none in Hn; [|by apply list_elem_of_In]. congruence.
  - exfalso. assert (x ∈ l') as Hin by (rewrite Hp; left).
    eapply find_none in Hy; [|by apply list_elem_of_In]. congruence.
Qed.

Lemma pool_added now tx (p : Pool T V O L) h p' :
  pool_wf p -> add_transaction try_send now tx p = Some (Ok h, p') ->
  pool_wf p' /\ h = pt_hash tx /\ (pool_get h p = None -> pool_get h p' = Some tx).
Proof.
  intros Hwf Hadd. destruct (pt_nonce tx) as [nonce|] eqn:Hn.
  2: { unfold add_transaction in Hadd. by rewrite Hn in Hadd. }
  destruct (validate (validator p) tx) as [[r v']|] eqn:Hv.
  2: { unfold add_transaction in Hadd. by rewrite Hn, Hv in Hadd. }
  destruct r as [[tx'|tx' e|tx' n c]|e];
    try (unfold add_transaction in Hadd; by rewrite Hn, Hv in Hadd).
  pose proof (validate_keeps _ _ _ _ Hv) as ->.
  destruct (add_transaction_valid_spec try_send now _ _ _ _ _ Hwf Hn Hv) as (q & Hq & Ht & _ & _ & Hwf').
  rewrite Hq in Hadd. injection Hadd as <- <-. split_and!; [done|done|].
  unfold pool_get. intros Hnone. apply fmap_None in Hnone.
  rewrite (find_perm_unique _ (pending_of now tx nonce tx p) (transactions p) (transactions q));
    [done| |simpl; apply Z.eqb_refl|done].
  rewrite Ht. apply bts_insert_perm. auto with katana.
Qed.

Lemma pool_refused now tx (p : Pool T V O L) e p' :
  pool_wf p -> add_transaction try_send now tx p = Some (Err e, p') ->
  pool_wf p' /\ forall h, pool_get h p' = pool_get h p.
Proof.
  intros Hwf Hadd. split; [by eapply add_transaction_wf|].
  unfold add_transaction in Hadd. destruct (pt_nonce tx) as [nonce|]; [|done].
  destruct (validate (validator p) tx) as [[[[tx'|tx' err|tx' n c]|err] v']|];
    [|injection Hadd as <- <-; done..|done].
  destruct (priority _ tx') as [prio o]. by destruct (notify _ _ _).
Qed.

#[export] Instance Pool_TransactionPool : TransactionPool (Pool T V O L) T := {
  tp_add := add_transaction try_send; tp_get := pool_get; tp_ok := pool_wf;
  tp_added := pool_added; tp_refused := pool_refused }.
End PoolInstance.

(** ** Submitting *)
Section Write.
Context {C W P : Type} `{TP : !TransactionPool P (ExecutableTxWithHash C)}.
Context (pedersen poseidon : list Z -> Z) (get_contract_address : Z -> Z -> list Z -> Z -> Z).
Context (class_hash_of : W -> Z) (class_try_from : W -> option C) (chain : ChainId).

(** [ExecutableTxWithHash::new] and the pool's [add_transaction], the result made into
    the answer with [f]. *)
Definition submit {A} (f : Z -> A) (now : Z) (tx : ExecutableTx C) (p : P)
    : option (result StarknetApiError A * P) :=
  match executable_new pedersen poseidon tx with
  | None => None
  | Some tx =>
      match tp_add now tx p with
      | None => None
      | Some (Ok hash, p) => Some (Ok (f hash), p)
      | Some (Err e, p) => Some (Err (api_of_pool e), p)
      end
  end.

Definition add_invoke_transaction_impl (now : Z) (tx : BroadcastedInvokeTx) (p : P)
    : option (result StarknetApiError Z * P) :=
  if bi_is_query tx then Some (Err UnsupportedTransactionVersion, p)
  else submit (fun hash => hash) now (ExInvoke (invoke_into_tx_with_chain_id tx chain)) p.

Definition add_declare_transaction_impl (now : Z) (tx : BroadcastedDeclareTx W) (p : P)
    : option (result StarknetApiError (Z * Z) * P) :=
  if bc_is_query tx then Some (Err UnsupportedTransactionVersion, p)
  else
    match declare_try_into_tx_with_chain_id class_hash_of class_try_from tx chain with
    | None => None
    | Some d =>
        let class_hash := declare_class_hash (dwc_transaction d) in
        submit (fun hash => (hash, class_hash)) now (ExDeclare d) p
    end.

Definition add_deploy_account_transaction_impl (now : Z) (tx : BroadcastedDeployAccountTx) (p : P)
    : option (result StarknetApiError (Z * Z) * P) :=
  if bd_is_query tx then Some (Err UnsupportedTransactionVersion, p)
  else
    let tx := deploy_account_into_tx_with_chain_id get_contract_address tx chain in
    let contract_address := deploy_account_contract_address tx in
    submit (fun hash => (hash, contract_address)) now (ExDeployAccount tx) p.
End Write.

(** ** The developer's clock *)
Inductive DevApiError := PendingTransactions.

Section Dev.
Context {C Vm Info ExecErr : Type}.
Implicit Types (mode : @ProducerMode C Vm Info ExecErr) (gen : BlockContextGenerator).

Definition has_pending_transactions mode : bool :=
  match mode with
  | ModeInstant => false
  | ModeInterval exec => negb (bool_decide (length (pe_transactions exec) = 0%nat))
  end.

Definition set_next_block_timestamp mode (timestamp : Z) gen
    : result DevApiError unit * BlockContextGenerator :=
  if has_pending_transactions mode then (Err PendingTransactions, gen)
  else (Ok tt, mkContextGen (block_timestamp_offset gen) timestamp).

(** [block_timestamp_offset += offset as i64]. *)
Definition increase_next_block_timestamp mode (offset : Z) gen
    : result DevApiError unit * BlockContextGenerator :=
  if has_pending_transactions mode then (Err PendingTransactions, gen)
  else (Ok tt, mkContextGen (wrap_i64 (block_timestamp_offset gen + wrap_i64 offset))
                 (next_block_start_time gen)).
End Dev.

(** ** Submitting and reading back *)
Section WriteProofs.
Context `{MD : Mdbx} `{RT : RoaringTreemap} `{FP : FeltPostcard} {C W P Vm Info ExecErr : Type}.
Context `{TP : !TransactionPool P (ExecutableTxWithHash C)}.
Context (pedersen poseidon : list Z -> Z) (get_contract_address : Z -> Z -> list Z -> Z -> Z).
Context (class_hash_of : W -> Z) (class_try_from : W -> option C) (chain : ChainId).
Implicit Types (api : StarknetApi C Vm Info ExecErr) (p : P).

(** The server over the pool as it is now. *)
Definition over_pool api p : StarknetApi C Vm Info ExecErr :=
  mkStarknetApi (fun h => tp_get h p) (sa_pool_nonce api) (sa_db api) (sa_tries api)
    (sa_forked_client api) (sa_block_producer api) (sa_max_event_page_size api)
    (sa_max_proof_keys api).

(** A hash no part of the server knows: not the pool, the chain or the pending block. *)
Record unknown_hash api p (h : Z) : Prop := {
  uh_pool : tp_get h p = None;
  uh_stored : not_stored api h;
  uh_pending : match pending_executor api with
               | None => True
               | Some exec => find_pending exec h = None
               end;
}.

Lemma submit_added {A} (f : Z -> A) now tx p a p' :
  tp_ok p -> submit pedersen poseidon f now tx p = Some (Ok a, p') ->
  exists h, executable_calculate_hash pedersen poseidon tx false = Some h /\ a = f h /\ tp_ok p' /\
    (tp_get h p = None -> tp_get h p' = Some {| ewh_hash := h; ewh_transaction := tx |}).
Proof.
  intros Hok. unfold submit, executable_new, executable_new_query.
  destruct (executable_calculate_hash pedersen poseidon tx false) as [h|] eqn:Hh; [|done].
  destruct (tp_add now _ p) as [[[h'|e] q]|] eqn:Ha; [|done..]. intros [= <- <-].
  destruct (tp_added _ _ _ _ _ Hok Ha) as (Hq & -> & Hget). exists h. auto.
Qed.

Lemma submit_refused {A} (f : Z -> A) now tx p e p' :
  tp_ok p -> submit pedersen poseidon f now tx p = Some (Err e, p') ->
  tp_ok p' /\ forall h, tp_get h p' = tp_get h p.
Proof.
  intros Hok. unfold submit, executable_new, executable_new_query.
  destruct (executable_calculate_hash pedersen poseidon tx false) as [h|]; [|done].
  destruct (tp_add now _ p) as [[[h'|e'] q]|] eqn:Ha; [done| |done]. intros [= <- <-].
  apply (tp_refused _ _ _ _ _ Hok Ha).
Qed.

Lemma same_pool_same_answers api p p' h :
  (forall h, tp_get h p' = tp_get h p) ->
  transaction (over_pool api p') h = transaction (over_pool api p) h.
Proof. intros Hg. unfold transaction. simpl. by rewrite Hg. Qed.

(** What the pool holds is shown, where no other part of the server knows the hash. *)
Lemma pooled_shown api p tx h t :
  sa_forked_client api = None -> tp_get h p = Some {| ewh_hash := h; ewh_transaction := tx |} ->
  not_stored api h ->
  match pending_executor api with None => True | Some exec => find_pending exec h = None end ->
  rpc_tx_from {| twh_hash := h; twh_transaction := tx_of_executable tx |} = Some t ->
  transaction (over_pool api p) h = ret t.
Proof.
  intros Hf Hp Hns Hpend Ht. destruct (not_stored_reads api _ Hns) as (H1 & _). unfold transaction.
  change (sa_db (over_pool api p)) with (sa_db api). rewrite H1. simpl. unfold or_forked.
  change (pending_executor (over_pool api p)) with (pending_executor api).
  destruct (pending_executor api); simpl; rewrite ?Hpend, Hf, Hp; cbn -[rpc_tx_from];
    unfold tx_with_hash_of_executable; simpl ewh_hash; simpl ewh_transaction; by rewrite Ht.
Qed.

(** On a forked node the remote network is asked for it. *)
Lemma pooled_remote api p client h :
  sa_forked_client api = Some client -> not_stored api h ->
  match pending_executor api with None => True | Some exec => find_pending exec h = None end ->
  transaction (over_pool api p) h = Some (map_err api_of_fork (fork_transaction_by_hash client h)).
Proof.
  intros Hf Hns Hpend. destruct (not_stored_reads api _ Hns) as (H1 & _). unfold transaction.
  change (sa_db (over_pool api p)) with (sa_db api). rewrite H1. simpl. unfold or_forked.
  change (pending_executor (over_pool api p)) with (pending_executor api).
  by destruct (pending_executor api); simpl; rewrite ?Hpend, Hf.
Qed.

Definition hash_answered (m : option (result StarknetApiError (Z * Z) * P))
    : option (result StarknetApiError Z * P) :=
  option_map (fun '(r, p) => (fst <$> r, p)) m.

(** The answer to a submission, and the transaction as the sender wrote it. *)
Definition submitted (now : Z) (tx : BroadcastedTx W) p : option (result StarknetApiError Z * P) :=
  match tx with
  | BroadcastedInvoke tx => add_invoke_transaction_impl pedersen poseidon chain now tx p
  | BroadcastedDeclare tx =>
      hash_answered
        (add_declare_transaction_impl pedersen poseidon class_hash_of class_try_from chain now tx p)
  | BroadcastedDeployAccount tx =>
      hash_answered
        (add_deploy_account_transaction_impl pedersen poseidon get_contract_address chain now tx p)
  end.
Definition as_sent (h : Z) (tx : BroadcastedTx W) : RpcTx :=
  match tx with
  | BroadcastedInvoke tx =>
      RpcTxInvoke (RpcInvokeV3 h (bi_sender_address tx) (bi_calldata tx)
        (bi_account_deployment_data tx) (bi_fields tx))
  | BroadcastedDeclare tx =>
      RpcTxDeclare (RpcDeclareV3 h (bc_sender_address tx) (bc_compiled_class_hash tx)
        (class_hash_of (bc_contract_class tx)) (bc_account_deployment_data tx) (bc_fields tx))
  | BroadcastedDeployAccount tx =>
      RpcTxDeployAccount (RpcDeployAccountV3 h (bd_contract_address_salt tx)
        (bd_constructor_calldata tx) (bd_class_hash tx) (bd_fields tx))
  end.

Definition asks_query (tx : BroadcastedTx W) : bool :=
  match tx with
  | BroadcastedInvoke tx => bi_is_query tx
  | BroadcastedDeclare tx => bc_is_query tx
  | BroadcastedDeployAccount tx => bd_is_query tx
  end.

(** What the server answers for the hash of a transaction that only its pool has: the
    transaction as it was sent, or on a forked node what the remote network answers. *)
Definition pooled_answer api (h : Z) (tx : BroadcastedTx W) : handler RpcTx :=
  match sa_forked_client api with
  | None => ret (as_sent h tx)
  | Some client => Some (map_err api_of_fork (fork_transaction_by_hash client h))
  end.

Lemma submit_served {A} (f : Z -> A) (g : A -> Z) api now ex tx p ra p' :
  tp_ok p -> submit pedersen poseidon f now ex p = Some (ra, p') ->
  (forall h, g (f h) = h) ->
  (forall h, rpc_tx_from {| twh_hash := h; twh_transaction := tx_of_executable ex |}
             = Some (as_sent h tx)) ->
  tp_ok p' /\
  match g <$> ra with
  | Ok h => unknown_hash api p h -> transaction (over_pool api p') h = pooled_answer api h tx
  | Err _ => forall h, transaction (over_pool api p') h = transaction (over_pool api p) h
  end.
Proof.
  intros Hok Hsub Hg Hshow. destruct ra as [a|e]; simpl.
  - destruct (submit_added f now ex p a p' Hok Hsub) as (h & _ & -> & Hok' & Hget). rewrite Hg.
    split; [done|]. intros [U1 U2 U3]. unfold pooled_answer.
    destruct (sa_forked_client api) as [client|] eqn:Hf; [|by apply (pooled_shown api p' ex); auto].
    by apply pooled_remote.
  - destruct (submit_refused f now ex p e p' Hok Hsub) as [Hok' Hget].
    split; [done|]. intros h. by apply same_pool_same_answers.
Qed.

Lemma query_refused now tx p :
  asks_query tx = true -> submitted now tx p = Some (Err UnsupportedTransactionVersion, p).
Proof.
  unfold submitted, add_invoke_transaction_impl, add_declare_transaction_impl,
    add_deploy_account_transaction_impl.
  by destruct tx; simpl; intros ->.
Qed.

(** C17. A transaction the node accepts is served under the hash it answered, field by field
    as it was sent, until it is executed: as long as neither the chain nor the pending
    block has the hash, and on a node that is not forked; a forked node asks the remote
    network for it instead of its pool.  A transaction of a query version is refused as
    unsupported and the pool is not touched; any other refusal leaves what the pool
    serves as it was. *)
Theorem submitted_served api now tx p r p' :
  tp_ok p -> submitted now tx p = Some (r, p') ->
  tp_ok p' /\
  (asks_query tx = true -> r = Err UnsupportedTransactionVersion /\ p' = p) /\
  match r with
  | Ok h => unknown_hash api p h -> transaction (over_pool api p') h = pooled_answer api h tx
  | Err _ => forall h, transaction (over_pool api p') h = transaction (over_pool api p) h
  end.
Proof.
  intros Hok Hs. destruct (asks_query tx) eqn:Hq.
  { rewrite (query_refused now tx p Hq) in Hs. by injection Hs as <- <-. }
  enough (tp_ok p' /\ match r with Ok h => _ | Err _ => _ end) as [H1 H2]
    by (split_and!; [exact H1|done|exact H2]).
  destruct tx as [tx|tx|tx]; simpl in Hs, Hq.
  - unfold add_invoke_transaction_impl in Hs. rewrite Hq in Hs.
    destruct (submit_served _ id api _ _ (BroadcastedInvoke tx) _ _ _ Hok Hs) as [H1 H2];
      [done|intros h; apply invoke_shown|].
    split; [done|]. destruct r; apply H2.
  - apply fmap_Some in Hs as ([ra q] & Hs & [= -> ->]). unfold add_declare_transaction_impl in Hs.
    rewrite Hq in Hs.
    destruct (declare_try_into_tx_with_chain_id _ _ tx chain) as [d|] eqn:Hd; [|done].
    destruct (submit_served _ fst api _ _ (BroadcastedDeclare tx) _ _ _ Hok Hs) as [H1 H2];
      [done|intros h; apply (declare_shown _ _ _ _ _ _ Hd)|].
    split; [done|]. destruct ra; simpl in H2 |- *; apply H2.
  - apply fmap_Some in Hs as ([ra q] & Hs & [= -> ->]). unfold add_deploy_account_transaction_impl in Hs.
    rewrite Hq in Hs.
    destruct (submit_served _ fst api _ _ (BroadcastedDeployAccount tx) _ _ _ Hok Hs) as [H1 H2];
      [done|intros h; apply deploy_account_shown|].
    split; [done|]. destruct ra; simpl in H2 |- *; apply H2.
Qed.

(** ** The clock *)

(** A timestamp that was set is the next block's, and time runs on from it: a block
    opened [d] seconds later has a timestamp larger by [d].  Setting zero is accepted and
    changes nothing, zero being how the generator says that no timestamp was set. *)
Theorem next_timestamp_served mode oracle gen now d ts env env' :
  has_pending_transactions (mode : @ProducerMode C Vm Info ExecErr) = false ->
  0 <= now -> 0 <= d -> 0 < ts -> now + d < 2 ^ 63 -> ts + d < 2 ^ 63 -> next_block_start_time gen = 0 ->
  let gen' := (set_next_block_timestamp mode ts gen).2 in
  let next := update_block_env oracle now gen' env in
  (set_next_block_timestamp mode ts gen).1 = Ok tt /\
  env_timestamp next.1 = ts /\
  env_timestamp (update_block_env oracle (now + d) next.2 env').1 = ts + d /\
  set_next_block_timestamp mode 0 gen = (Ok tt, gen).
Proof.
  intros Hp Hn Hd Ht Hnd Htd Hg. unfold set_next_block_timestamp. rewrite Hp. simpl.
  split_and!; [done|..].
  - unfold update_block_env. simpl. by rewrite (proj2 (Z.eqb_neq ts 0)) by lia.
  - unfold update_block_env. simpl. rewrite (proj2 (Z.eqb_neq ts 0)) by lia. simpl.
    unfold wrap_i64, wrap64. rewrite (Z.mod_small (ts - now + 2 ^ 63)) by lia.
    rewrite Z.mod_small; unfold u64_bound; lia.
  - destruct gen as [o n]. simpl in *. by rewrite Hg.
Qed.
End WriteProofs.

(** ** Witnesses: the pool that accepts everything, and the small chain *)
#[local] Instance noop_keeps T : KeepingValidator (Noop_Validator T).
Proof. by intros v tx tx' v' [= ->]. Qed.
Abbreviation WritePool := (Pool (ExecutableTxWithHash unit) NoopValidator FiFo bool).
#[local] Instance write_pool : TransactionPool WritePool (ExecutableTxWithHash unit) :=
  Pool_TransactionPool demo_try_send.
Definition no_pool : WritePool := pool_new mkNoopValidator FiFo_new.

Definition sent_fields : RpcV3Fields :=
  mkV3 0 [1; 2] (mkRpcMapping (mkRpcBounds 1 2) (mkRpcBounds 3 4) (mkRpcBounds 5 6)) 7 [] RpcL1 RpcL2.
Definition sent_invoke (query : bool) : BroadcastedTx unit :=
  BroadcastedInvoke (mkBroadcastedInvoke 5 [8; 9] [] sent_fields query).
Definition send (tx : BroadcastedTx unit) : option (result StarknetApiError Z * WritePool) :=
  submitted sum sum (fun _ _ _ _ => 3) (fun _ => 4) Some (Id 1) 0 tx no_pool.
Definition sent : Z * WritePool :=
  match send (sent_invoke false) with Some (Ok h, p) => (h, p) | _ => (0, no_pool) end.

Lemma no_pool_ok : tp_ok no_pool.
Proof. by repeat constructor. Qed.

Lemma sent_accepted : send (sent_invoke false) = Some (Ok sent.1, sent.2).
Proof.
  assert (match send (sent_invoke false) with Some (Ok _, _) => true | _ => false end = true) as H
    by (vm_compute; reflexivity).
  unfold sent. by destruct (send (sent_invoke false)) as [[[h|e] p]|].
Qed.
Lemma sent_unknown : unknown_hash idle_server no_pool sent.1.
Proof. split; [done|vm_compute; reflexivity|exact I]. Qed.

Lemma submitted_served_witness :
  transaction (over_pool idle_server sent.2) sent.1
    = ret (as_sent (fun _ => 4) sent.1 (sent_invoke false)) /\
  (forall r p', send (sent_invoke true) = Some (r, p') ->
     r = Err UnsupportedTransactionVersion /\ p' = no_pool).
Proof.
  destruct (submitted_served sum sum (fun _ _ _ _ => 3) (fun _ => 4) Some (Id 1) idle_server 0
              (sent_invoke false) no_pool (Ok sent.1) sent.2 no_pool_ok sent_accepted)
    as (_ & _ & H).
  split; [exact (H sent_unknown)|]. intros r p' Hs.
  apply (submitted_served sum sum (fun _ _ _ _ => 3) (fun _ => 4) Some (Id 1) idle_server 0
              (sent_invoke true) no_pool r p' no_pool_ok Hs). reflexivity.
Defined.

Lemma next_timestamp_served_witness :
  let gen := mkContextGen 5 0 in
  let mode : @ProducerMode unit unit unit unit := ModeInstant in
  let next := update_block_env sampled_starknet 100 (set_next_block_timestamp mode 1000 gen).2 rpc_env in
  env_timestamp next.1 = 1000 /\
  env_timestamp (update_block_env sampled_starknet (100 + 7) next.2 rpc_env).1 = 1007.
Proof.
  destruct (next_timestamp_served (ModeInstant : @ProducerMode unit unit unit unit) sampled_starknet
              (mkContextGen 5 0) 100 7 1000 rpc_env rpc_env) as (_ & H1 & H2 & _); [done|lia..|done|].
  split; [exact H1|exact H2].
Defined.
