(* ===== verification/RpcExecution.v ===== *)
(** * Estimating, simulating, calling, tracing (rpc/rpc/src/starknet/blockifier.rs, read.rs,
    trace.rs, mod.rs; executor's blockifier/call.rs)

    The handlers that execute transactions or calls on a state without a block, and those
    that show the traces of what was executed.  Blockifier is the class of [Processor];
    its cached state over a state provider ([CachedState::new]), the execution of a call
    and the revert trace it extracts are parameters.  A handler that asks for the
    environment of a block also returns the block context generator, which the question
    may change.  The paymaster hook of fee estimation is left out: without a paymaster it
    is the identity. *)

From Stdlib Require Import ZArith Lia String.
From stdpp Require Import base numbers list gmap.
From S2P Require Import Prelude BTreeMap Felt Tx TxHash Version Block Receipt PoolTypes Executor Codec Versioned Mdbx DbProvider DbBlocks DbState Events RpcError RpcEvents GasOracle Backend Processor RpcTypes RpcForking RpcStarknet RpcStarknetProofs RpcTrace.

Inductive SimulationFlagForEstimateFee := EstimateSkipValidate.
Inductive SimulationFlag := SkipValidate | SkipFeeCharge.
#[export] Instance EstimateFlag_eq_dec : EqDecision SimulationFlagForEstimateFee.
Proof. solve_decision. Defined.
#[export] Instance SimulationFlag_eq_dec : EqDecision SimulationFlag.
Proof. solve_decision. Defined.

Section Execution.
Context `{MD : Mdbx} `{RT : RoaringTreemap} `{FP : FeltPostcard}.
Context {S B C W Vm ExecErr CallErr : Type} {BF : Blockifier S B C Vm ExecErr}.
Context (pedersen poseidon : list Z -> Z) (get_contract_address : Z -> Z -> list Z -> Z -> Z).
Context (class_hash_of : W -> Z) (class_try_from : W -> option C) (chain : ChainId).
Context (compute_l2_to_l1_message_hash : Z -> Z -> list Z -> Z).
Context (cached_state_new : StateProvider C -> S).
Abbreviation Info := (TransactionExecutionInfo Vm).
Abbreviation Result := (ExecutionResult Vm Info ExecErr).
Abbreviation Server := (StarknetApi C Vm Info ExecErr).
Implicit Types (api : Server) (id : BlockIdOrTag) (gen : BlockContextGenerator).
Implicit Types (flags : ExecutionFlags) (tx : ExecutableTxWithHash C).

(** [ExecutionError]: [TransactionReverted], or what the executor gave. *)
Inductive ExecutionError :=
  | TransactionReverted (revert_error : list Z)
  | ExecutionFailure (e : ExecErr).
(** Their [to_string]. *)
Context (error_text : ExecutionError -> Reason).

(** ** Executing without a block (blockifier.rs) *)

(** [transact] with no bouncer. *)
Definition transact_unbounded (state : S) (ctx : BlockInfo) flags tx : Result * S :=
  let transaction := to_executor_tx tx flags in
  match bf_execute ctx transaction state with
  | (Ok info, tx_state) =>
      (Success (build_receipt (ewh_transaction tx) (transact_fee ctx transaction info) info) info,
       tx_state)
  | (Err e, tx_state) => (Failed e, tx_state)
  end.

Fixpoint simulate_loop (ctx : BlockInfo) flags (txs : list (ExecutableTxWithHash C)) (state : S)
    : list Result :=
  match txs with
  | [] => []
  | tx :: txs =>
      let '(result, state) := transact_unbounded state ctx flags tx in
      result :: simulate_loop ctx flags txs state
  end.
Definition simulate (state : StateProvider C) (env : BlockEnv) (txs : list (ExecutableTxWithHash C))
    flags : list Result :=
  simulate_loop (block_context_from_envs env) flags txs (cached_state_new state).

(** The estimate of a receipt. *)
Definition estimate_of (receipt : Receipt Vm) : FeeEstimate :=
  let fee := receipt_fee receipt in
  let resources := resources_used receipt in {|
    fe_unit := fee_unit fee; fe_overall_fee := felt_of (overall_fee fee);
    fe_l2_gas_price := felt_of (fee_l2_gas_price fee);
    fe_l1_gas_price := felt_of (fee_l1_gas_price fee);
    fe_l2_gas_consumed := felt_of (gu_l2_gas (er_gas resources));
    fe_l1_gas_consumed := felt_of (gu_l1_gas (er_gas resources));
    fe_l1_data_gas_price := felt_of (fee_l1_data_gas_price fee);
    fe_l1_data_gas_consumed := felt_of (gu_l1_data_gas (er_gas resources)) |}.

Fixpoint estimate_loop (ctx : BlockInfo) flags (txs : list (ExecutableTxWithHash C)) (state : S)
    : list (result ExecutionError FeeEstimate) :=
  match txs with
  | [] => []
  | tx :: txs =>
      match transact_unbounded state ctx flags tx with
      | (Failed error, _) => [Err (ExecutionFailure error)]
      | (Success receipt _, state) =>
          match revert_reason receipt with
          | Some reason => [Err (TransactionReverted reason)]
          | None => Ok (estimate_of receipt) :: estimate_loop ctx flags txs state
          end
      end
  end.
Definition estimate_fees (state : StateProvider C) (env : BlockEnv)
    (txs : list (ExecutableTxWithHash C)) flags : list (result ExecutionError FeeEstimate) :=
  estimate_loop (block_context_from_envs env) (with_fee flags false) txs (cached_state_new state).

(** ** The handlers *)

(** [let state = self.state(&id)?; let env = self.block_env_at(&id)?; ..]. *)
Definition with_env {A} (oracle : GasOracle) (now : Z) api id gen
    (k : StateProvider C -> BlockEnv -> handler A) : handler A * BlockContextGenerator :=
  match api_state poseidon api id with
  | None => (None, gen)
  | Some (Err e) => (fail e, gen)
  | Some (Ok state) =>
      match api_block_env_at oracle now api id gen with
      | None => (None, gen)
      | Some (Err e) => (fail e, gen)
      | Some (Ok (env, gen)) => (k state env, gen)
      end
  end.

(** The estimates up to the first error, which is reported with its position. *)
Fixpoint collect_estimates (i : nat) (results : list (result ExecutionError FeeEstimate))
    : handler (list FeeEstimate) :=
  match results with
  | [] => ret []
  | Ok fee :: results => let! fees := collect_estimates (i + 1) results in ret (fee :: fees)
  | Err err :: _ => fail (RpcError.TransactionExecutionError (Z.of_nat i) (error_text err))
  end.

Definition estimate_fee_with oracle now api (txs : list (ExecutableTxWithHash C)) id flags gen
    : handler (list FeeEstimate) * BlockContextGenerator :=
  with_env oracle now api id gen
    (fun state env => collect_estimates 0 (estimate_fees state env txs flags)).

(** The transaction to execute, hashed as a query if it was sent as one. *)
Definition to_executable (tx : BroadcastedTx W) : option (ExecutableTxWithHash C) :=
  match tx with
  | BroadcastedInvoke tx =>
      executable_new_query pedersen poseidon (ExInvoke (invoke_into_tx_with_chain_id tx chain))
        (bi_is_query tx)
  | BroadcastedDeclare tx =>
      d ← declare_try_into_tx_with_chain_id class_hash_of class_try_from tx chain;
      executable_new_query pedersen poseidon (ExDeclare d) (bc_is_query tx)
  | BroadcastedDeployAccount tx =>
      executable_new_query pedersen poseidon
        (ExDeployAccount (deploy_account_into_tx_with_chain_id get_contract_address tx chain))
        (bd_is_query tx)
  end.

(** [contains]. *)
Definition has_flag {F} `{EqDecision F} (flag : F) (flags : list F) : bool :=
  existsb (fun f => bool_decide (f = flag)) flags.

(** [node] are the flags the executor factory was built with. *)
Definition estimate_flags (node : ExecutionFlags)
    (simulation_flags : list SimulationFlagForEstimateFee) : ExecutionFlags :=
  let skip_validate := has_flag EstimateSkipValidate simulation_flags in
  with_nonce_check
    (with_account_validation ExecutionFlags_new
       (negb skip_validate && fl_account_validation node)%bool) false.

Definition estimate_fee oracle now api (node : ExecutionFlags) (request : list (BroadcastedTx W))
    (simulation_flags : list SimulationFlagForEstimateFee) id gen : handler (list FeeEstimate) * BlockContextGenerator :=
  match mapM to_executable request with
  | None => (None, gen)
  | Some txs => estimate_fee_with oracle now api txs id (estimate_flags node simulation_flags) gen
  end.

Definition estimate_message_fee oracle now api (message : MsgFromL1) id gen
    : handler FeeEstimate * BlockContextGenerator :=
  let tx := message_into_tx_with_chain_id compute_l2_to_l1_message_hash message chain in
  let hash := l1_handler_calculate_hash pedersen tx in
  let '(result, gen) :=
    estimate_fee_with oracle now api [{| ewh_hash := hash; ewh_transaction := ExL1Handler tx |}] id
      ExecutionFlags_new gen in
  (let! fees := result in
   required (last fees) (UnexpectedError (ReasonText "Fee estimation result should exist")), gen).

(** ** Simulating (trace.rs) *)
Record SimulatedTransaction := mkSimulated {
  sim_transaction_trace : TransactionTrace;
  sim_fee_estimation : FeeEstimate;
}.

Definition simulate_flags (node : ExecutionFlags) (simulation_flags : list SimulationFlag)
    : ExecutionFlags :=
  let should_validate :=
    (negb (has_flag SkipValidate simulation_flags) && fl_account_validation node)%bool in
  let should_charge_fee := (negb (has_flag SkipFeeCharge simulation_flags) && fl_fee node)%bool in
  with_nonce_check
    (with_fee (with_account_validation ExecutionFlags_new should_validate) should_charge_fee) false.

Fixpoint collect_simulated (i : nat) (results : list Result) : handler (list SimulatedTransaction) :=
  match results with
  | [] => ret []
  | Success receipt trace :: results =>
      let! trace := expect (typed_info_new (receipt_type receipt) trace) in
      let! transaction_trace := expect (to_rpc_trace trace) in
      let fee_estimation := to_rpc_fee_estimate (resources_used receipt) (receipt_fee receipt) in
      let! simulated := collect_simulated (i + 1) results in
      ret (mkSimulated transaction_trace fee_estimation :: simulated)
  | Failed error :: _ =>
      fail (RpcError.TransactionExecutionError (Z.of_nat i) (error_text (ExecutionFailure error)))
  end.

Definition simulate_txs oracle now api (node : ExecutionFlags) id (txs : list (BroadcastedTx W))
    (simulation_flags : list SimulationFlag) gen
    : handler (list SimulatedTransaction) * BlockContextGenerator :=
  match mapM to_executable txs with
  | None => (None, gen)
  | Some executables =>
      let flags := simulate_flags node simulation_flags in
      with_env oracle now api id gen
        (fun state env => collect_simulated 0 (simulate state env executables flags))
  end.

(** ** Traces of what was executed (trace.rs) *)
Record TransactionTraceWithHash := mkTraceWithHash {
  twt_transaction_hash : Z;
  twt_trace_root : TransactionTrace;
}.

(** The trace of a transaction of the pending block, where its execution succeeded. *)
Definition pending_trace (e : TxWithHash * Result) : option (option TransactionTrace) :=
  match result_trace e.2 with
  | None => Some None
  | Some trace => Some <$> (typed_info_new (tx_type (twh_transaction e.1)) trace ≫= to_rpc_trace)
  end.

Definition stored_traces api (block_id : BlockHashOrNumber) : handler (list TransactionTraceWithHash) :=
  let db := sa_db api in
  let! indices := provided (block_body_indices db block_id) in
  let! indices := required indices BlockNotFound in
  let! tx_hashes := provided (transaction_hashes_in_range db (body_range indices)) in
  let! traces := provided (transaction_executions_by_block db block_id) in
  let! traces := required traces BlockNotFound in
  expect (mapM (fun '(h, trace) => mkTraceWithHash h <$> to_rpc_trace trace) (zip tx_hashes traces)).

Definition block_traces api id : handler (list TransactionTraceWithHash) :=
  let db := sa_db api in
  let stored := stored_traces api in
  match id with
  | IdTag PendingTag =>
      match pending_executor api with
      | Some exec =>
          let! traces := expect (mapM (fun e => option_map (mkTraceWithHash (twh_hash e.1)) <$> pending_trace e)
                                   (pe_transactions exec)) in
          ret (omap (fun t => t) traces)
      | None => let! num := provided (latest_number db) in stored (BNum num)
      end
  | IdTag Latest => let! num := provided (latest_number db) in stored (BNum num)
  | IdNumber num => stored (BNum num)
  | IdHash hash => stored (BHash hash)
  end.

Definition trace api (tx_hash : Z) : handler TransactionTrace :=
  let! pending :=
    match exec ← pending_executor api; find_pending exec tx_hash with
    | Some e => expect (pending_trace e)
    | None => ret None
    end in
  match pending with
  | Some trace => ret trace
  | None =>
      let! trace := provided (transaction_execution (sa_db api) tx_hash) in
      let! trace := required trace TxnHashNotFound in
      expect (to_rpc_trace trace)
  end.

(** ** Calling (executor's call.rs, read.rs) *)
Record EntryPointCall := mkEntryPointCall {
  epc_contract_address : Z;
  epc_entry_point_selector : Z;
  epc_calldata : list Z;
}.
(** The errors [execute_call_inner] makes itself, and blockifier's. *)
Inductive CallError :=
  | EntryPointNotFound (selector : Z)
  | CallExecutionFailed (error_trace : Z)
  | CallFailure (e : CallErr).
(** Blockifier's execution of a call to an address with the given gas; the trailing revert
    trace of a call; [ENTRYPOINT_NOT_FOUND_ERROR]; the texts of the errors. *)
Context (call_execute : BlockInfo -> Z -> CallEntryPoint -> Z -> S -> result CallErr CallInfo).
Context (revert_trace : CallInfo -> Z) (entrypoint_not_found : Z) (call_error_text : CallError -> Reason).
Context (is_patricia_key : Z -> bool).

(** [None] is the panic of [to_blk_address]. *)
Definition execute_call_inner (request : EntryPointCall) (state : S) (ctx : BlockInfo) (max_gas : Z)
    : option (result CallError CallInfo) :=
  if is_patricia_key (epc_contract_address request) then
    let call := mkCallEntryPoint None 0 (epc_calldata request) (epc_entry_point_selector request)
                  EntryExternal CallTypeCall in
    match call_execute ctx (epc_contract_address request) call max_gas state with
    | Err e => fail (CallFailure e)
    | Ok call_info =>
        if ci_failed call_info then
          match ci_retdata call_info with
          | [error_code] =>
              if Z.eqb error_code entrypoint_not_found
              then fail (EntryPointNotFound (epc_entry_point_selector request))
              else fail (CallExecutionFailed (revert_trace call_info))
          | _ => fail (CallExecutionFailed (revert_trace call_info))
          end
        else ret call_info
    end
  else None.

Definition execute_call (request : EntryPointCall) (state : S) (ctx : BlockInfo) (max_gas : Z)
    : option (result CallError (list Z)) :=
  let! res := execute_call_inner request state ctx max_gas in ret (ci_retdata res).

Definition call oracle now api (max_call_gas : option Z) (request : EntryPointCall) id gen
    : handler (list Z) * BlockContextGenerator :=
  with_env oracle now api id gen (fun state env =>
    option_map (map_err (fun err => ContractError (call_error_text err)))
      (execute_call request (cached_state_new state) (block_context_from_envs env)
         (default 1000000000 max_call_gas))).
End Execution.
