(* ===== verification/RpcExecutionProofs.v ===== *)
(** * Estimates, simulations and traces: what they answer

    Fee estimation, which stops at the first transaction that fails, answers as the
    simulation of the whole request would; the fees agree with those of a simulation that
    charges none; the traces of a stored block are those of its insertion. *)

From Stdlib Require Import ZArith Lia String.
From stdpp Require Import base numbers list gmap.
From S2P Require Import Prelude BTreeMap Felt Tx TxHash Version Block Receipt PoolTypes Executor Codec Versioned Mdbx DbProvider DbState ChangeLog DbHistory DbLatest DbBlocks Events RpcError RpcEvents GasOracle Backend Processor RpcTypes RpcForking RpcStarknet RpcStarknetProofs RpcTrace RpcWrite RpcExecution.

Section Execution.
Context `{MD : Mdbx} `{RT : RoaringTreemap} `{FP : FeltPostcard}.
Context {S B C W Vm ExecErr : Type} {BF : Blockifier S B C Vm ExecErr}.
Context (pedersen poseidon : list Z -> Z) (get_contract_address : Z -> Z -> list Z -> Z -> Z).
Context (class_hash_of : W -> Z) (class_try_from : W -> option C) (chain_id : ChainId).
Context (cached_state_new : StateProvider C -> S) (error_text : @ExecutionError ExecErr -> Reason).
Abbreviation Info := (TransactionExecutionInfo Vm).
Abbreviation Result := (ExecutionResult Vm Info ExecErr).
Abbreviation Server := (StarknetApi C Vm Info ExecErr).
Abbreviation executable :=
  (to_executable pedersen poseidon get_contract_address class_hash_of class_try_from chain_id).
Implicit Types (api : Server) (id : BlockIdOrTag) (gen : BlockContextGenerator).

(** ** Estimation *)

(** Why a transaction has no estimate: it failed, or it was reverted. *)
Definition estimate_error (r : Result) : option (@ExecutionError ExecErr) :=
  match r with
  | Failed e => Some (ExecutionFailure e)
  | Success receipt _ => TransactionReverted <$> revert_reason receipt
  end.
Definition fee_of (r : Result) : option FeeEstimate := estimate_of <$> result_receipt r.

(** The reference, which executes everything: the error of the first transaction that has
    one, with its position counted from [n], or all the estimates. *)
Definition first_failure (n : nat) (rs : list Result) : handler (list FeeEstimate) :=
  match list_find (fun r => is_Some (estimate_error r)) rs with
  | Some (i, r) =>
      match estimate_error r with
      | Some e => fail (RpcError.TransactionExecutionError (Z.of_nat (n + i)) (error_text e))
      | None => ret []
      end
  | None => ret (omap fee_of rs)
  end.

Lemma first_failure_cons n r rs :
  first_failure n (r :: rs)
  = match estimate_error r with
    | Some e => fail (RpcError.TransactionExecutionError (Z.of_nat n) (error_text e))
    | None => let! fees := first_failure (n + 1) rs in ret (option_list (fee_of r) ++ fees)
    end.
Proof.
  unfold first_failure. cbn [list_find]. destruct (estimate_error r) as [e|] eqn:He.
  - rewrite decide_True by done. by rewrite He, Nat.add_0_r.
  - rewrite decide_False by (intros [? ?]; congruence).
    destruct (list_find _ rs) as [[i r']|] eqn:Hf; simpl.
    + apply list_find_Some in Hf as (_ & [e He'] & _). rewrite He'. simpl.
      by replace (n + 1 + i)%nat with (n + Datatypes.S i)%nat by lia.
    + by destruct (fee_of r).
Qed.

Lemma estimate_loop_first ctx flags txs st n :
  collect_estimates error_text n (estimate_loop ctx flags txs st)
  = first_failure n (simulate_loop ctx flags txs st).
Proof.
  revert st n. induction txs as [|tx txs IH]; intros st n; [done|]. cbn [estimate_loop simulate_loop].
  destruct (transact_unbounded st ctx flags tx) as [[receipt info|e] st']; rewrite first_failure_cons;
    [|done].
  cbn [estimate_error fee_of result_receipt]. destruct (revert_reason receipt); [done|].
  cbn [collect_estimates fmap option_fmap option_map]. by rewrite IH.
Qed.

(** C21. Estimation stops at the first transaction that fails or reverts, and answers as if it
    had not: with the estimates of all the transactions executed one after the other
    without charging fees, or with the error and the position of the first that has one. *)
Theorem estimate_is_first_failure oracle now api txs id flags gen :
  estimate_fee_with poseidon cached_state_new error_text oracle now api txs id flags gen
  = with_env poseidon oracle now api id gen
      (fun state env =>
         first_failure 0 (simulate cached_state_new state env txs (with_fee flags false))).
Proof.
  unfold estimate_fee_with, with_env.
  destruct (api_state poseidon api id) as [[state|e]|]; [|done..].
  destruct (api_block_env_at oracle now api id gen) as [[[env gen']|e]|]; [|done..].
  f_equal. apply estimate_loop_first.
Qed.

(** ** Simulation *)

(** The trace of an execution can be shown. *)
Definition showable (r : Result) : Prop :=
  match r with
  | Success receipt info => is_Some (typed_info_new (receipt_type receipt) info ≫= to_rpc_trace)
  | Failed _ => True
  end.

Lemma fee_of_estimate (receipt : Receipt Vm) :
  estimate_of receipt = to_rpc_fee_estimate (resources_used receipt) (receipt_fee receipt).
Proof. done. Qed.

Lemma collect_simulated_fees n m rs fees :
  first_failure n rs = ret fees -> Forall showable rs ->
  exists sims, collect_simulated error_text m rs = ret sims /\ map sim_fee_estimation sims = fees.
Proof.
  revert n m fees. induction rs as [|r rs IH]; intros n m fees.
  { intros [= <-] _. by exists []. }
  rewrite first_failure_cons. intros Hf [Hs Hrs]%Forall_cons.
  destruct r as [receipt info|e]; [|done]. cbn [estimate_error] in Hf. destruct (revert_reason receipt); [done|].
  cbn [fmap option_fmap option_map fee_of result_receipt] in Hf.
  destruct (first_failure (n + 1) rs) as [[fees'|e]|] eqn:Hrec; [|done..]. injection Hf as <-.
  destruct (IH _ (m + 1)%nat _ Hrec Hrs) as (sims & Hsims & Hmap).
  destruct Hs as (t & (typed & Ht & Htr)%bind_Some).
  eexists. split; [cbn [collect_simulated]; rewrite Ht; cbn [expect hbind ret]; rewrite Htr; cbn [hbind ret]; rewrite Hsims; reflexivity|].
  by cbn; rewrite Hmap.
Qed.

(** The simulation flags that ask for what fee estimation does. *)
Definition as_estimate (flags : list SimulationFlagForEstimateFee) : list SimulationFlag :=
  SkipFeeCharge :: map (fun _ => SkipValidate) flags.

Lemma as_estimate_flags node flags :
  simulate_flags node (as_estimate flags) = with_fee (estimate_flags node flags) false.
Proof.
  unfold simulate_flags, estimate_flags, as_estimate.
  assert (has_flag SkipValidate (SkipFeeCharge :: map (fun _ => SkipValidate) flags)
          = has_flag EstimateSkipValidate flags) as ->; [|done].
  induction flags as [|[] flags IH]; done.
Qed.

(** Where a request is estimated, its simulation without fees succeeds, with the same
    fees and the same effect on the block context generator, provided its traces can be
    shown. *)
Theorem estimate_agrees_with_simulation oracle now api node request flags id gen fees gen' :
  estimate_fee pedersen poseidon get_contract_address class_hash_of class_try_from chain_id
    cached_state_new error_text oracle now api node request flags id gen = (ret fees, gen') ->
  (forall txs state env, mapM executable request = Some txs ->
     Forall showable (simulate cached_state_new state env txs (simulate_flags node (as_estimate flags)))) ->
  exists sims,
    simulate_txs pedersen poseidon get_contract_address class_hash_of class_try_from chain_id
      cached_state_new error_text oracle now api node id request (as_estimate flags) gen
    = (ret sims, gen') /\
    map sim_fee_estimation sims = fees.
Proof.
  unfold estimate_fee, simulate_txs. destruct (mapM executable request) as [txs|]; [|done].
  unfold estimate_fee_with, with_env. intros He Hs.
  destruct (api_state poseidon api id) as [[state|e]|]; [|done..].
  destruct (api_block_env_at oracle now api id gen) as [[[env g]|e]|]; [|done..].
  injection He as He <-. unfold estimate_fees in He. rewrite estimate_loop_first, <- as_estimate_flags in He.
  destruct (collect_simulated_fees 0 0 _ fees He (Hs txs state env eq_refl)) as (sims & Hsims & Hm).
  exists sims. unfold simulate. by rewrite Hsims.
Qed.

(** ** Traces *)
Abbreviation Ins := (@Insertion C (Receipt Vm) (TypedTransactionExecutionInfo Info)).

Lemma zip_traces (hashes : list Z) (xs : list (TypedTransactionExecutionInfo Info)) ts :
  length hashes = length xs -> mapM to_rpc_trace xs = Some ts ->
  mapM (fun '(h, x) => mkTraceWithHash h <$> to_rpc_trace x) (zip hashes xs)
  = Some (zip_with mkTraceWithHash hashes ts).
Proof.
  revert xs ts. induction hashes as [|h hashes IH]; intros [|x xs] ts; try done.
  intros [= Hlen] (t & Ht & (ts' & Hts & [= <-])%bind_Some)%bind_Some. simpl.
  rewrite Ht. simpl. by rewrite (IH xs ts' Hlen Hts).
Qed.

Lemma stored_traces_of (chain : list Ins) api pre i post bid traces :
  wf_rows chain -> sa_db api = db_of chain -> chain = pre ++ i :: post ->
  bid = BNum (ins_number i) \/ bid = BHash (ins_hash i) ->
  mapM to_rpc_trace (ins_executions i) = Some traces ->
  stored_traces api bid = ret (zip_with mkTraceWithHash (map twh_hash (ins_body i)) traces).
Proof.
  intros Hrows Hdb Hc Hid Hts. destruct (block_lengths chain pre post i Hrows Hc) as [_ Hx].
  destruct (block_read_back chain pre i post bid Hrows Hc Hid) as (_ & _ & _ & _ & Hex & _).
  unfold stored_traces. rewrite Hdb, (block_body_indices_of chain pre post i Hrows Hc bid Hid). simpl.
  rewrite (hashes_in_range chain pre post i Hrows Hc). simpl. rewrite Hex. simpl.
  rewrite (zip_traces _ _ traces); [done|by rewrite length_map|done].
Qed.

(** The traces of a stored block are those of its insertion, each with the hash of its
    transaction, in order; a transaction's trace, asked for by hash, is the one at its
    position. *)
Theorem stored_traces_shown (chain : list Ins) api pre i post id traces :
  wf_chain chain -> wf_rows chain -> sa_db api = db_of chain ->
  chain = pre ++ i :: post -> names_block api chain id i ->
  mapM to_rpc_trace (ins_executions i) = Some traces ->
  block_traces api id = ret (zip_with mkTraceWithHash (map twh_hash (ins_body i)) traces) /\
  forall m tx, ins_body i !! m = Some tx ->
    match pending_executor api with
    | None => True
    | Some exec => find_pending exec (twh_hash tx) = None
    end ->
    exists t, traces !! m = Some t /\ trace api (twh_hash tx) = ret t.
Proof.
  intros Hwf Hrows Hdb Hc Hid Hts.
  assert (forall bid, bid = BNum (ins_number i) \/ bid = BHash (ins_hash i) ->
            stored_traces api bid = ret (zip_with mkTraceWithHash (map twh_hash (ins_body i)) traces)) as Hst
    by (intros; by eapply stored_traces_of).
  split.
  - unfold block_traces. destruct Hid as [->|[->|[Hid [l Hl]%last_Some]]]; [apply Hst; auto..|].
    assert (latest_number (sa_db api) = Ok (ins_number i)) as Hn.
    { rewrite Hdb, Hl. apply latest_number_last. by rewrite <- Hl. }
    destruct Hid as [->|[-> ->]]; rewrite Hn; simpl; apply Hst; auto.
  - intros m tx Hm Hp. destruct (block_lengths chain pre post i Hrows Hc) as [_ Hx].
    destruct (transaction_read_back chain pre i post m tx Hrows Hc Hm) as (_ & _ & _ & _ & _ & Hex).
    pose proof (lookup_lt_Some _ _ _ Hm) as Hlt.
    destruct (lookup_lt_is_Some_2 (ins_executions i) m) as [x Ex]; [lia|].
    apply mapM_Some in Hts. destruct (Forall2_lookup_l _ _ _ _ _ Hts Ex) as (t & Et & Ht).
    exists t. split; [done|]. unfold trace. rewrite Hdb, Hex, Ex.
    destruct (pending_executor api); simpl; rewrite ?Hp; simpl; by rewrite Ht.
Qed.
End Execution.

(** ** Witnesses: a machine that counts what it executes, and a chain with traces *)
Definition counted_info : TransactionExecutionInfo unit :=
  mkExecutionInfo None
    (Some (mkCallInfo 5 (mkCallEntryPoint (Some 9) 0 [8; 9] 0 EntryExternal CallTypeCall)
             [] [] [] false 0 CairoSteps [])) None None
    (mkTransactionReceipt 3 (mkGasVector 1 2 3) (mkGasVector 0 0 0) tt).
(** The second transaction is reverted. *)
#[local] Instance reverting_blockifier : Blockifier nat nat unit unit unit := {
  bf_to_state_diff s := mkStateMaps [] [] [] [];
  bf_provider_class s h := None;
  bf_execute ctx tx s :=
    (Ok (mkExecutionInfo None (execute_call_info counted_info) None
           (if Nat.eqb s 1 then Some [1] else None) (info_receipt counted_info)), (s + 1)%nat);
  bf_try_update s s' info b := Ok b;
  bf_fee_type tx := FeeStrk;
  bf_tip tx := 0;
  bf_get_fee_by_gas_vector ctx g f tip := 0;
  bf_n_steps v := 0;
}.

Abbreviation TracedIns :=
  (@Insertion unit (Receipt unit) (TypedTransactionExecutionInfo (TransactionExecutionInfo unit))).
Definition traced (i : @Insertion unit (Receipt unit) (TypedTransactionExecutionInfo unit)) : TracedIns := {|
  ins_block := ins_block i; ins_states := ins_states i; ins_receipts := ins_receipts i;
  ins_executions := map (fun _ => InfoInvoke counted_info) (ins_executions i) |}.
Definition traced_chain : list TracedIns := map traced rpc_chain.
Definition traced_server : StarknetApi unit unit (TransactionExecutionInfo unit) unit :=
  mkStarknetApi (fun _ => None) (fun _ => Ok None) (db_of traced_chain) no_tries None None None None.
Definition no_text (e : @ExecutionError unit) : Reason := ReasonText EmptyString.

Definition estimates (request : list (BroadcastedTx unit)) :=
  estimate_fee sum sum (fun _ _ _ _ => 3) (fun _ => 4) Some (Id 1) (fun _ => 0%nat) no_text
    sampled_starknet 10 traced_server ExecutionFlags_new request [] (IdNumber 1) (mkContextGen 0 0).

Lemma estimates_stop :
  (match (estimates [sent_invoke true]).1 with Some (Ok fees) => length fees | _ => 0%nat end) = 1%nat /\
  (estimates [sent_invoke true; sent_invoke false; sent_invoke false]).1
    = fail (RpcError.TransactionExecutionError 1 (ReasonText EmptyString)).
Proof. by vm_compute. Qed.

Definition estimated : list FeeEstimate :=
  match (estimates [sent_invoke true]).1 with Some (Ok fees) => fees | _ => [] end.

Lemma estimate_agrees_with_simulation_witness :
  exists sims,
    (simulate_txs sum sum (fun _ _ _ _ => 3) (fun _ => 4) Some (Id 1) (fun _ => 0%nat) no_text
       sampled_starknet 10 traced_server ExecutionFlags_new (IdNumber 1) [sent_invoke true]
       [SkipFeeCharge] (mkContextGen 0 0)).1 = ret sims /\
    map sim_fee_estimation sims = estimated.
Proof.
  destruct (estimate_agrees_with_simulation sum sum (fun _ _ _ _ => 3) (fun _ => 4) Some (Id 1)
              (fun _ => 0%nat) no_text sampled_starknet 10 traced_server ExecutionFlags_new
              [sent_invoke true] [] (IdNumber 1) (mkContextGen 0 0) estimated (mkContextGen 0 0))
    as (sims & Hs & Hm).
  - vm_compute. reflexivity.
  - intros txs state env Htx. vm_compute in Htx. injection Htx as <-.
    constructor; [|constructor]. vm_compute. by eexists.
  - exists sims. split; [exact (f_equal fst Hs)|exact Hm].
Defined.

Lemma traced_chain_wf : wf_chain traced_chain.
Proof. split; [by repeat constructor|]. repeat constructor; set_solver || done. Qed.
Lemma traced_chain_rows : wf_rows traced_chain.
Proof. repeat constructor; set_solver. Qed.
Definition counted_trace : TransactionTrace :=
  default (TraceDeclare None None (mkRpcResources 0 0 0) None) (to_rpc_trace (InfoInvoke counted_info)).

Lemma stored_traces_shown_witness :
  block_traces traced_server (IdHash 100)
    = ret [mkTraceWithHash 11 counted_trace; mkTraceWithHash 12 counted_trace].
Proof.
  destruct (stored_traces_shown traced_chain traced_server [] (traced (rpc_block 0)) (drop 1 traced_chain)
              (IdHash 100) [counted_trace; counted_trace] traced_chain_wf traced_chain_rows eq_refl eq_refl)
    as [H _]; [by right; left|done|exact H].
Defined.
