(* ===== verification/Genesis.v ===== *)
(** * The genesis of a development chain (primitives/src/genesis/, chain-spec/src/dev.rs)

    Allocations, the genesis configuration and what a development chain starts from: its
    first block, and the state that declares the classes, deploys the allocations and gives
    them their balances in both fee tokens.  The contract classes built into the binary,
    their hashes, the key derivation of the curve and the random generator are
    parameters. *)

From Stdlib Require Import ZArith Lia String.
From stdpp Require Import base numbers list gmap.
From S2P Require Import Prelude BTreeMap Felt Tx Version Block Mdbx DbProvider.

(** ** Constants (genesis/constant.rs) *)
Definition DEFAULT_UDC_ADDRESS : Z := 0x041a78e741e5af2fec34b695679bc6891742439f7afb8484ecd7766661ad02bf.
Definition DEFAULT_ETH_FEE_TOKEN_ADDRESS : Z :=
  0x049d36570d4e46f48e99674bd3fcc84644ddd6b96f7c741b1562b82f9e004dc7.
Definition DEFAULT_STRK_FEE_TOKEN_ADDRESS : Z :=
  0x04718f5a0fc34cc1af16a1cdee98ffb20c31f5cd61d6ab07201858f4287c938d.
Definition DEFAULT_ACCOUNT_CLASS_PUBKEY_STORAGE_SLOT : Z :=
  0x1379ac0624b939ceb9dede92211d7db5ee174fe28be72245b0a1a2abd81c98f.
Definition ERC20_NAME_STORAGE_SLOT : Z :=
  0x0341c1bdfd89f69748aa00b5742b03adbffd79b8e80cab5c50d91cd8c2a79be1.
Definition ERC20_SYMBOL_STORAGE_SLOT : Z :=
  0x00b6ce5410fca59d078ee9b2a4371a9d684c530d697c64fbef0ae6d5e8f0ac72.
Definition ERC20_DECIMAL_STORAGE_SLOT : Z :=
  0x01f0d4aa99431d246bac9b8e48c33e888245b15e9678f64f9bdfc8823dc8f979.
Definition ERC20_TOTAL_SUPPLY_STORAGE_SLOT : Z :=
  0x110e2f729c9c2b988559994a3daccd838cf52faf88e18101373e67dd061455a.
Definition DEFAULT_LEGACY_ERC20_CLASS_HASH : Z :=
  0xa2475bc66197c751d854ea8c39c6ad9781eb284103bcd856b58e6b500078ac.
Definition DEFAULT_LEGACY_UDC_CLASS_HASH : Z :=
  0x07b3e05f48f0c69e4a65ce5e076a66271a527aff2c34ce1083ec6e1526997a69.
Definition DEFAULT_ACCOUNT_CLASS_HASH : Z :=
  0x07dc7899aa655b0aae51eadff6d801a58e97dd99cf4666ee59e704249e51adf2.
Definition DEFAULT_PREFUNDED_ACCOUNT_BALANCE : Z := 10 * 10 ^ 21.

(** [split_u256]: the low and the high half. *)
Definition split_u256 (value : Z) : Z * Z :=
  (felt_of (Z.land value (2 ^ 128 - 1)), felt_of (Z.shiftr value 128)).

(** ** Allocations (genesis/allocation.rs) *)
Record GenesisContractAlloc := mkContractAlloc {
  gca_class_hash : option Z;
  gca_balance : option Z;                 (* U256 *)
  gca_nonce : option Z;
  gca_storage : option (list (Z * Z));
}.
Record GenesisAccount := mkGenesisAccount {
  gac_public_key : Z;
  gac_class_hash : Z;
  gac_balance : option Z;
  gac_nonce : option Z;
  gac_storage : option (list (Z * Z));
  gac_salt : Z;
}.
Record DevGenesisAccount := mkDevAccount { dga_private_key : Z; dga_inner : GenesisAccount }.
Inductive GenesisAccountAlloc :=
  | AllocAccount (a : GenesisAccount)
  | AllocDevAccount (a : DevGenesisAccount).
Inductive GenesisAllocation :=
  | AllocatedAccount (a : GenesisAccountAlloc)
  | AllocatedContract (c : GenesisContractAlloc).

(** The accessors of [GenesisAccountAlloc] all read the inner account. *)
Definition account_of (a : GenesisAccountAlloc) : GenesisAccount :=
  match a with AllocAccount a => a | AllocDevAccount a => dga_inner a end.
Definition account_private_key (a : GenesisAccountAlloc) : option Z :=
  match a with AllocAccount _ => None | AllocDevAccount a => Some (dga_private_key a) end.

Definition alloc_public_key (a : GenesisAllocation) : option Z :=
  match a with AllocatedContract _ => None | AllocatedAccount a => Some (gac_public_key (account_of a)) end.
Definition alloc_class_hash (a : GenesisAllocation) : option Z :=
  match a with
  | AllocatedContract c => gca_class_hash c
  | AllocatedAccount a => Some (gac_class_hash (account_of a))
  end.
Definition alloc_balance (a : GenesisAllocation) : option Z :=
  match a with AllocatedContract c => gca_balance c | AllocatedAccount a => gac_balance (account_of a) end.
Definition alloc_nonce (a : GenesisAllocation) : option Z :=
  match a with AllocatedContract c => gca_nonce c | AllocatedAccount a => gac_nonce (account_of a) end.
Definition alloc_storage (a : GenesisAllocation) : option (list (Z * Z)) :=
  match a with AllocatedContract c => gca_storage c | AllocatedAccount a => gac_storage (account_of a) end.

Definition GenesisAccount_DEFAULT_SALT : Z := 666.
Definition genesis_account_new_with_salt (public_key class_hash salt : Z) : GenesisAccount :=
  mkGenesisAccount public_key class_hash None None None salt.
Definition genesis_account_new (public_key class_hash : Z) : GenesisAccount :=
  genesis_account_new_with_salt public_key class_hash GenesisAccount_DEFAULT_SALT.
Definition genesis_account_with_balance (balance : option Z) (a : GenesisAccount) : GenesisAccount :=
  mkGenesisAccount (gac_public_key a) (gac_class_hash a) balance (gac_nonce a) (gac_storage a)
    (gac_salt a).

Section Accounts.
(** The public key of a private key; [get_contract_address]; the 32 bytes the generator
    seeded with 32 bytes gives first. *)
Context (public_key_from_private_key : Z -> Z) (get_contract_address : Z -> Z -> list Z -> Z -> Z).
Context (small_rng : list Z -> list Z).

Definition account_address (a : GenesisAccount) : Z :=
  get_contract_address (gac_salt a) (gac_class_hash a) [gac_public_key a] 0.

Definition dev_account_new (private_key class_hash : Z) : DevGenesisAccount :=
  mkDevAccount private_key (genesis_account_new (public_key_from_private_key private_key) class_hash).
Definition dev_account_new_with_balance (private_key class_hash balance : Z) : DevGenesisAccount :=
  let account := dev_account_new private_key class_hash in
  mkDevAccount (dga_private_key account)
    (genesis_account_with_balance (Some balance) (dga_inner account)).

Record DevAllocationsGenerator := mkGenerator {
  dag_total : nat;                        (* u16 *)
  dag_seed : list Z;                      (* 32 bytes *)
  dag_balance : option Z;
  dag_class_hash : Z;
}.
Definition generator_new (total : nat) : DevAllocationsGenerator :=
  mkGenerator total (replicate 32 0) None DEFAULT_ACCOUNT_CLASS_HASH.
Definition with_balance (balance : Z) (g : DevAllocationsGenerator) : DevAllocationsGenerator :=
  mkGenerator (dag_total g) (dag_seed g) (Some balance) (dag_class_hash g).
Definition with_seed (seed : list Z) (g : DevAllocationsGenerator) : DevAllocationsGenerator :=
  mkGenerator (dag_total g) seed (dag_balance g) (dag_class_hash g).

(** [private_key_bytes[0] %= 0x8]. *)
Definition next_key_bytes (seed : list Z) : list Z :=
  match small_rng seed with [] => [] | b :: bytes => b mod 8 :: bytes end.

(** The accounts in the order they are made; the map they are collected into keeps the
    last of an address. *)
Fixpoint generate_from (g : DevAllocationsGenerator) (n : nat) (seed : list Z)
    : list (Z * DevGenesisAccount) :=
  match n with
  | O => []
  | S n =>
      let bytes := next_key_bytes seed in
      let private_key := felt_from_bytes_be bytes in
      let account :=
        match dag_balance g with
        | Some amount => dev_account_new_with_balance private_key (dag_class_hash g) amount
        | None => dev_account_new private_key (dag_class_hash g)
        end in
      (account_address (dga_inner account), account) :: generate_from g n bytes
  end.
Definition generate (g : DevAllocationsGenerator) : gmap Z DevGenesisAccount :=
  fold_left (fun m e => <[e.1 := e.2]> m) (generate_from g (dag_total g) (dag_seed g)) ∅.
End Accounts.

(** ** The genesis configuration (genesis/mod.rs) *)
Section Genesis.
Context {C : Type}.

Record Genesis := mkGenesis {
  gen_parent_hash : Z;
  gen_state_root : Z;
  gen_number : Z;
  gen_timestamp : Z;
  gen_sequencer_address : Z;
  gen_gas_prices : GasPrice;
  gen_classes : list (Z * C);
  gen_allocations : list (Z * GenesisAllocation);
}.

Definition extend_allocations (allocs : list (Z * GenesisAllocation)) (g : Genesis) : Genesis :=
  mkGenesis (gen_parent_hash g) (gen_state_root g) (gen_number g) (gen_timestamp g)
    (gen_sequencer_address g) (gen_gas_prices g) (gen_classes g)
    (fold_left (fun m e => btree_insert e.1 e.2 m) allocs (gen_allocations g)).

Definition gen_contracts (g : Genesis) : list GenesisContractAlloc :=
  omap (fun e => match e.2 with AllocatedContract c => Some c | _ => None end) (gen_allocations g).
Definition gen_accounts (g : Genesis) : list (Z * GenesisAccountAlloc) :=
  omap (fun e => match e.2 with AllocatedAccount a => Some (e.1, a) | _ => None end) (gen_allocations g).

(** The classes built into the binary, and what is asked of a class. *)
Context (DEFAULT_LEGACY_ERC20_CLASS DEFAULT_LEGACY_UDC_CLASS DEFAULT_ACCOUNT_CLASS : C).
Context (is_legacy : C -> bool) (casm_hash : C -> option Z).
Context (get_storage_var_address : string -> list Z -> Z).

Definition Genesis_default : Genesis :=
  mkGenesis 0 0 0 0 0 GasPrice_MIN
    (btree_collect [(DEFAULT_LEGACY_ERC20_CLASS_HASH, DEFAULT_LEGACY_ERC20_CLASS);
                    (DEFAULT_LEGACY_UDC_CLASS_HASH, DEFAULT_LEGACY_UDC_CLASS);
                    (DEFAULT_ACCOUNT_CLASS_HASH, DEFAULT_ACCOUNT_CLASS)]) [].

(** ** The first block and state of a development chain (dev.rs) *)
Definition dev_block (g : Genesis) : Block := {|
  block_header := {|
    state_diff_length := 0; protocol_version := CURRENT_STARKNET_VERSION; number := gen_number g;
    timestamp := gen_timestamp g; events_count := 0; transaction_count := 0;
    events_commitment := 0; receipts_commitment := 0; state_diff_commitment := 0;
    transactions_commitment := 0; state_root := gen_state_root g; parent_hash := gen_parent_hash g;
    l1_da_mode := Calldata; l1_gas_prices := gen_gas_prices g; l2_gas_prices := GasPrice_MIN;
    l1_data_gas_prices := gen_gas_prices g; sequencer_address := gen_sequencer_address g |};
  block_body := [] |}.

Definition get_fee_token_balance_base_storage_address (address : Z) : Z :=
  get_storage_var_address "ERC20_balances" [address].

(** [entry(k).or_insert(v)]. *)
Definition or_insert {V} (k : Z) (v : V) (m : list (Z * V)) : list (Z * V) :=
  match btree_get k m with Some _ => m | None => btree_insert k v m end.

Abbreviation States := (StateUpdatesWithClasses C).

Definition with_classes (f : list (Z * C) -> list (Z * C)) (s : States) : States :=
  {| state_updates := state_updates s; classes := f (classes s) |}.
Definition with_updates (f : StateUpdates -> StateUpdates) (s : States) : States :=
  {| state_updates := f (state_updates s); classes := classes s |}.
Definition declare_deprecated (hash : Z) (u : StateUpdates) : StateUpdates := {|
  nonce_updates := nonce_updates u; storage_updates := storage_updates u;
  deployed_contracts := deployed_contracts u; declared_classes := declared_classes u;
  deprecated_declared_classes := sorted_insert hash (deprecated_declared_classes u);
  replaced_classes := replaced_classes u |}.
Definition declare_class (hash casm : Z) (u : StateUpdates) : StateUpdates := {|
  nonce_updates := nonce_updates u; storage_updates := storage_updates u;
  deployed_contracts := deployed_contracts u;
  declared_classes := btree_insert hash casm (declared_classes u);
  deprecated_declared_classes := deprecated_declared_classes u;
  replaced_classes := replaced_classes u |}.
Definition with_contracts (f : list (Z * Z) -> list (Z * Z)) (u : StateUpdates) : StateUpdates := {|
  nonce_updates := nonce_updates u; storage_updates := storage_updates u;
  deployed_contracts := f (deployed_contracts u); declared_classes := declared_classes u;
  deprecated_declared_classes := deprecated_declared_classes u;
  replaced_classes := replaced_classes u |}.
Definition set_nonce (address nonce : Z) (u : StateUpdates) : StateUpdates := {|
  nonce_updates := btree_insert address nonce (nonce_updates u);
  storage_updates := storage_updates u; deployed_contracts := deployed_contracts u;
  declared_classes := declared_classes u;
  deprecated_declared_classes := deprecated_declared_classes u;
  replaced_classes := replaced_classes u |}.
Definition set_storage (address : Z) (storage : list (Z * Z)) (u : StateUpdates) : StateUpdates := {|
  nonce_updates := nonce_updates u;
  storage_updates := btree_insert address storage (storage_updates u);
  deployed_contracts := deployed_contracts u; declared_classes := declared_classes u;
  deprecated_declared_classes := deprecated_declared_classes u;
  replaced_classes := replaced_classes u |}.

Definition States_default : States := {|
  state_updates := {| nonce_updates := []; storage_updates := []; deployed_contracts := [];
                      declared_classes := []; deprecated_declared_classes := [];
                      replaced_classes := [] |}; classes := [] |}.

(** [None] is the panic of a class that does not compile. *)
Definition add_class (s : States) (e : Z * C) : option States :=
  let '(class_hash, class) := e in
  s ← (if is_legacy class then Some (with_updates (declare_deprecated class_hash) s)
       else casm ← casm_hash class; Some (with_updates (declare_class class_hash casm) s));
  Some (with_classes (btree_insert class_hash class) s).

Definition add_allocation (u : StateUpdates) (e : Z * GenesisAllocation) : StateUpdates :=
  let '(address, alloc) := e in
  let u := match alloc_class_hash alloc with
           | Some hash => with_contracts (btree_insert address hash) u
           | None => u
           end in
  let u := match alloc_nonce alloc with Some nonce => set_nonce address nonce u | None => u end in
  let storage := default [] (alloc_storage alloc) in
  let storage :=
    match alloc_public_key alloc with
    | Some pub_key => btree_insert DEFAULT_ACCOUNT_CLASS_PUBKEY_STORAGE_SLOT pub_key storage
    | None => storage
    end in
  set_storage address storage u.

(** The balances of the allocations and their sum, which wraps at 256 bits. *)
Definition add_balance (acc : list (Z * Z) * Z) (e : Z * GenesisAllocation) : list (Z * Z) * Z :=
  let '(storage, total_supply) := acc in
  match alloc_balance e.2 with
  | None => acc
  | Some balance =>
      let total_supply := (total_supply + balance) mod 2 ^ 256 in
      let '(low, high) := split_u256 balance in
      let bal_base_storage_var := get_fee_token_balance_base_storage_address e.1 in
      (btree_insert (felt_add bal_base_storage_var 1) high
         (btree_insert bal_base_storage_var low storage), total_supply)
  end.
Definition fee_token_storage (name symbol : string) (decimals : Z)
    (allocations : list (Z * GenesisAllocation)) : list (Z * Z) :=
  let '(storage, total_supply) := fold_left add_balance allocations ([], 0) in
  let '(total_supply_low, total_supply_high) := split_u256 total_supply in
  let storage := btree_insert ERC20_NAME_STORAGE_SLOT (short_string name) storage in
  let storage := btree_insert ERC20_SYMBOL_STORAGE_SLOT (short_string symbol) storage in
  let storage := btree_insert ERC20_DECIMAL_STORAGE_SLOT decimals storage in
  let storage := btree_insert ERC20_TOTAL_SUPPLY_STORAGE_SLOT total_supply_low storage in
  btree_insert (felt_add ERC20_TOTAL_SUPPLY_STORAGE_SLOT 1) total_supply_high storage.

Definition add_fee_token (name symbol : string) (decimals address class_hash : Z)
    (allocations : list (Z * GenesisAllocation)) (s : States) : States :=
  let storage := fee_token_storage name symbol decimals allocations in
  with_updates (fun u => set_storage address storage
                  (with_contracts (btree_insert address class_hash) u)) s.

Definition add_default_fee_tokens (g : Genesis) (s : States) : States :=
  let s := with_classes (or_insert DEFAULT_LEGACY_ERC20_CLASS_HASH DEFAULT_LEGACY_ERC20_CLASS) s in
  let s := add_fee_token "Ether" "ETH" 18 DEFAULT_ETH_FEE_TOKEN_ADDRESS
             DEFAULT_LEGACY_ERC20_CLASS_HASH (gen_allocations g) s in
  add_fee_token "Starknet Token" "STRK" 18 DEFAULT_STRK_FEE_TOKEN_ADDRESS
    DEFAULT_LEGACY_ERC20_CLASS_HASH (gen_allocations g) s.

Definition add_default_udc (s : States) : States :=
  let s := with_classes (or_insert DEFAULT_LEGACY_UDC_CLASS_HASH DEFAULT_LEGACY_UDC_CLASS) s in
  let s := with_updates (declare_deprecated DEFAULT_LEGACY_UDC_CLASS_HASH) s in
  with_updates (with_contracts (or_insert DEFAULT_UDC_ADDRESS DEFAULT_LEGACY_UDC_CLASS_HASH)) s.

Definition dev_state_updates (g : Genesis) : option States :=
  s ← fold_left (fun s e => s ← s; add_class s e) (gen_classes g) (Some States_default);
  let s := with_updates (fun u => fold_left add_allocation (gen_allocations g) u) s in
  Some (add_default_udc (add_default_fee_tokens g s)).
End Genesis.
Arguments Genesis : clear implicits.
