(* ===== verification/GenesisProofs.v ===== *)
(** * What a development chain starts from

    Every allocation is deployed with its class, nonce and storage, and holds its balance
    in both fee tokens, whose total supply is the sum of the balances; the generated
    private keys are field elements. *)

From Stdlib Require Import ZArith Lia String.
From stdpp Require Import base numbers list gmap.
From S2P Require Import Prelude BTreeMap Felt Tx Version Block Mdbx DbProvider Genesis.

(** ** Halves *)
Lemma split_u256_spec v :
  0 <= v < 2 ^ 256 ->
  0 <= (split_u256 v).1 < 2 ^ 128 /\ 0 <= (split_u256 v).2 < 2 ^ 128 /\
  (split_u256 v).1 + 2 ^ 128 * (split_u256 v).2 = v.
Proof.
  intros Hv. unfold split_u256. cbn [fst snd].
  replace (2 ^ 128 - 1) with (Z.ones 128) by done. rewrite Z.land_ones by lia.
  rewrite Z.shiftr_div_pow2 by lia.
  pose proof (Z.mod_pos_bound v (2 ^ 128) ltac:(lia)) as Hm.
  assert (0 <= v / 2 ^ 128 < 2 ^ 128) as Hd.
  { split; [apply Z.div_pos; lia|]. apply Z.div_lt_upper_bound; lia. }
  assert (2 ^ 128 < P) as HP by done.
  unfold felt_of. rewrite (Z.mod_small (v mod 2 ^ 128)), (Z.mod_small (v / 2 ^ 128)) by lia.
  split_and!; try lia. pose proof (Z.div_mod v (2 ^ 128) ltac:(lia)). lia.
Qed.

(** ** Balances *)
Section Balances.
Context (get_storage_var_address : string -> list Z -> Z).
Abbreviation base_slot := (get_fee_token_balance_base_storage_address get_storage_var_address).
Abbreviation token_storage := (fee_token_storage get_storage_var_address).
Implicit Types allocs : list (Z * GenesisAllocation).

(** The slots of the balances of the allocations and of the token's own variables. *)
Definition balance_slots (a : Z) : list Z := [base_slot a; felt_add (base_slot a) 1].
Definition token_slots : list Z :=
  [ERC20_NAME_STORAGE_SLOT; ERC20_SYMBOL_STORAGE_SLOT; ERC20_DECIMAL_STORAGE_SLOT;
   ERC20_TOTAL_SUPPLY_STORAGE_SLOT; felt_add ERC20_TOTAL_SUPPLY_STORAGE_SLOT 1].
Definition slots_apart allocs : Prop :=
  NoDup (flat_map (fun e => balance_slots e.1) allocs ++ token_slots).

(** What the allocations hold together. *)
Definition supply allocs : Z := fold_right Z.add 0 (omap (fun e => alloc_balance e.2) allocs).

Lemma supply_cons a alloc allocs :
  supply ((a, alloc) :: allocs) = default 0 (alloc_balance alloc) + supply allocs.
Proof. unfold supply. simpl. by destruct (alloc_balance alloc). Qed.

Lemma add_balance_total allocs storage total :
  0 <= total < 2 ^ 256 ->
  (fold_left (add_balance get_storage_var_address) allocs (storage, total)).2
  = (total + supply allocs) mod 2 ^ 256.
Proof.
  revert storage total. induction allocs as [|[a alloc] allocs IH]; intros storage total Ht.
  { simpl. unfold supply. simpl. by rewrite Z.add_0_r, Z.mod_small. }
  cbn [fold_left]. rewrite supply_cons. unfold add_balance at 2. cbn [snd fst].
  destruct (alloc_balance alloc) as [b|]; [|by apply IH].
  destruct (split_u256 b) as [lo hi]. rewrite IH by (apply Z.mod_pos_bound; lia).
  rewrite Zplus_mod_idemp_l. simpl. f_equal. lia.
Qed.

(** A slot none of the allocations has keeps its value. *)
Lemma add_balance_other allocs storage total k :
  ~ k ∈ flat_map (fun e => balance_slots e.1) allocs ->
  btree_get k (fold_left (add_balance get_storage_var_address) allocs (storage, total)).1
  = btree_get k storage.
Proof.
  revert storage total. induction allocs as [|[a alloc] allocs IH]; intros storage total Hk; [done|].
  cbn [fold_left flat_map] in *. rewrite elem_of_app in Hk. unfold add_balance at 2. simpl in Hk |- *.
  destruct (alloc_balance alloc) as [b|]; [|apply IH; tauto].
  destruct (split_u256 b) as [lo hi]. rewrite IH by tauto. rewrite !btree_get_insert.
  unfold balance_slots in Hk. destruct (Z.eqb_spec k (felt_add (base_slot a) 1)); [set_solver|].
  destruct (Z.eqb_spec k (base_slot a)); [set_solver|done].
Qed.

Lemma add_balance_held allocs storage total a alloc b :
  NoDup (flat_map (fun e => balance_slots e.1) allocs) ->
  (a, alloc) ∈ allocs -> alloc_balance alloc = Some b ->
  let s := (fold_left (add_balance get_storage_var_address) allocs (storage, total)).1 in
  btree_get (base_slot a) s = Some (split_u256 b).1 /\
  btree_get (felt_add (base_slot a) 1) s = Some (split_u256 b).2.
Proof.
  revert storage total. induction allocs as [|[a' alloc'] allocs IH]; intros storage total Hnd Hin Hb;
    [set_solver|].
  cbn [flat_map] in Hnd. apply NoDup_app in Hnd as (Hnd1 & Hsep & Hnd).
  apply elem_of_cons in Hin as [[= <- <-]|Hin].
  - cbn [fold_left]. unfold add_balance at 2 4. simpl. rewrite Hb.
    destruct (split_u256 b) as [lo hi]. simpl in Hsep |- *.
    rewrite !add_balance_other by (apply Hsep; set_solver). rewrite !btree_get_insert, !Z.eqb_refl.
    destruct (Z.eqb_spec (base_slot a) (felt_add (base_slot a) 1)) as [Heq|]; [|done].
    unfold balance_slots in Hnd1. simpl in Hnd1. rewrite <- Heq in Hnd1.
    apply NoDup_cons in Hnd1 as [[] _]. by left.
  - cbn [fold_left]. destruct (add_balance _ _ _) as [s t]. by apply IH.
Qed.

(** The storage of a fee token: every allocation's balance in its two slots, the sum of
    them in the slots of the total supply. *)
Lemma token_storage_held name symbol decimals allocs :
  slots_apart allocs ->
  (forall a alloc b, (a, alloc) ∈ allocs -> alloc_balance alloc = Some b ->
     btree_get (base_slot a) (token_storage name symbol decimals allocs) = Some (split_u256 b).1 /\
     btree_get (felt_add (base_slot a) 1) (token_storage name symbol decimals allocs)
       = Some (split_u256 b).2) /\
  btree_get ERC20_TOTAL_SUPPLY_STORAGE_SLOT (token_storage name symbol decimals allocs)
    = Some (split_u256 (supply allocs mod 2 ^ 256)).1 /\
  btree_get (felt_add ERC20_TOTAL_SUPPLY_STORAGE_SLOT 1) (token_storage name symbol decimals allocs)
    = Some (split_u256 (supply allocs mod 2 ^ 256)).2.
Proof.
  intros (Hnd & Hsep & Hnt)%NoDup_app. unfold fee_token_storage.
  pose proof (add_balance_total allocs [] 0 ltac:(lia)) as Htot. rewrite Z.add_0_l in Htot.
  destruct (fold_left (add_balance get_storage_var_address) allocs ([], 0)) as [s t] eqn:Hf.
  simpl in Htot. subst t. destruct (split_u256 (supply allocs mod 2 ^ 256)) as [lo hi].
  split; [|split].
  - intros a alloc b Hin Hb.
    pose proof (add_balance_held allocs [] 0 a alloc b Hnd Hin Hb) as Hh. rewrite Hf in Hh. simpl in Hh.
    assert (forall k, k ∈ balance_slots a -> ~ k ∈ token_slots) as Hk.
    { intros k Hk. apply Hsep. apply list_elem_of_In, in_flat_map. exists (a, alloc).
      split; by apply list_elem_of_In. }
    assert (forall k, k ∈ balance_slots a -> forall k', k' ∈ token_slots -> Z.eqb k k' = false) as Hne.
    { intros k Hk1 k' Hk2. apply Z.eqb_neq. intros ->. by apply (Hk k'). }
    rewrite !btree_get_insert, !Hne by (unfold balance_slots, token_slots; set_solver). exact Hh.
  - rewrite !btree_get_insert. by vm_compute.
  - rewrite !btree_get_insert. by vm_compute.
Qed.
End Balances.

(** ** The state *)
Section States.
Context {C : Type} (erc20 udc : C) (is_legacy : C -> bool) (casm_hash : C -> option Z).
Context (get_storage_var_address : string -> list Z -> Z).
Abbreviation genesis_states := (dev_state_updates erc20 udc is_legacy casm_hash get_storage_var_address).
Abbreviation base_slot := (get_fee_token_balance_base_storage_address get_storage_var_address).

(** The class can be declared. *)
Definition declarable (c : C) : Prop := is_legacy c = true \/ is_Some (casm_hash c).

(** Declaring the classes touches nothing else. *)
Definition only_classes (u : StateUpdates) : Prop :=
  nonce_updates u = [] /\ storage_updates u = [] /\ deployed_contracts u = [].

Lemma add_classes_spec classes0 s :
  Forall (fun e => declarable e.2) classes0 -> only_classes (state_updates s) ->
  exists s', fold_left (fun s e => s ← s; add_class is_legacy casm_hash s e) classes0 (Some s) = Some s' /\
    only_classes (state_updates s').
Proof.
  revert s. induction classes0 as [|[h c] cs IH]; intros s Hf Hs; [by exists s|].
  apply Forall_cons in Hf as [Hc Hf]. cbn [fold_left]. unfold add_class at 2. simpl in Hc |- *.
  destruct (is_legacy c) eqn:Hl; simpl; [by apply IH|].
  destruct Hc as [|[casm Hcasm]]; [congruence|]. rewrite Hcasm. simpl. by apply IH.
Qed.

(** An allocation, as the state holds it. *)
Definition alloc_slots (alloc : GenesisAllocation) : list (Z * Z) :=
  let storage := default [] (alloc_storage alloc) in
  match alloc_public_key alloc with
  | Some pub_key => btree_insert DEFAULT_ACCOUNT_CLASS_PUBKEY_STORAGE_SLOT pub_key storage
  | None => storage
  end.
Definition allocated (u : StateUpdates) (a : Z) (alloc : GenesisAllocation) : Prop :=
  btree_get a (deployed_contracts u) = alloc_class_hash alloc /\
  btree_get a (nonce_updates u) = alloc_nonce alloc /\
  btree_get a (storage_updates u) = Some (alloc_slots alloc).
Definition untouched (u : StateUpdates) (a : Z) : Prop :=
  btree_get a (deployed_contracts u) = None /\ btree_get a (nonce_updates u) = None /\
  btree_get a (storage_updates u) = None.

Lemma add_allocation_other u a e :
  a <> e.1 ->
  btree_get a (deployed_contracts (add_allocation u e)) = btree_get a (deployed_contracts u) /\
  btree_get a (nonce_updates (add_allocation u e)) = btree_get a (nonce_updates u) /\
  btree_get a (storage_updates (add_allocation u e)) = btree_get a (storage_updates u).
Proof.
  destruct e as [a' alloc]. simpl. intros Hne%Z.eqb_neq.
  destruct (alloc_class_hash alloc), (alloc_nonce alloc); simpl; by rewrite !btree_get_insert, Hne.
Qed.

Lemma add_allocation_same u a alloc :
  untouched u a -> allocated (add_allocation u (a, alloc)) a alloc.
Proof.
  intros (H1 & H2 & H3). unfold allocated, add_allocation.
  destruct (alloc_class_hash alloc), (alloc_nonce alloc); simpl;
    by rewrite !btree_get_insert, !Z.eqb_refl.
Qed.

Lemma add_allocations_keep allocs u a :
  ~ a ∈ map fst allocs ->
  let u' := fold_left add_allocation allocs u in
  btree_get a (deployed_contracts u') = btree_get a (deployed_contracts u) /\
  btree_get a (nonce_updates u') = btree_get a (nonce_updates u) /\
  btree_get a (storage_updates u') = btree_get a (storage_updates u).
Proof.
  revert u. induction allocs as [|e allocs IH]; intros u Ha; [done|]. simpl in *.
  apply not_elem_of_cons in Ha as [Hne Ha]. destruct (IH (add_allocation u e) Ha) as (-> & -> & ->).
  by apply add_allocation_other.
Qed.

Lemma add_allocations_spec allocs u a alloc :
  NoDup (map fst allocs) -> (a, alloc) ∈ allocs -> untouched u a ->
  allocated (fold_left add_allocation allocs u) a alloc.
Proof.
  revert u. induction allocs as [|e allocs IH]; intros u Hnd Hin Hu; [set_solver|]. simpl in *.
  apply NoDup_cons in Hnd as [Hni Hnd]. apply elem_of_cons in Hin as [<-|Hin].
  - simpl in Hni. destruct (add_allocation_same u a alloc Hu) as (H1 & H2 & H3).
    destruct (add_allocations_keep allocs (add_allocation u (a, alloc)) a Hni) as (K1 & K2 & K3).
    unfold allocated. by rewrite K1, K2, K3.
  - apply IH; [done..|]. destruct (add_allocation_other u a e) as (K1 & K2 & K3).
    { intros ->. apply Hni, list_elem_of_fmap. by exists (e.1, alloc). }
    unfold untouched. by rewrite K1, K2, K3.
Qed.

Definition fee_tokens : list Z := [DEFAULT_ETH_FEE_TOKEN_ADDRESS; DEFAULT_STRK_FEE_TOKEN_ADDRESS].

(** A token's storage holds an amount in the two slots from [k]. *)
Definition holds (storage : list (Z * Z)) (k amount : Z) : Prop :=
  exists low high, btree_get k storage = Some low /\ btree_get (felt_add k 1) storage = Some high /\
    low + 2 ^ 128 * high = amount.

Lemma or_insert_kept {V} k k' (v v' : V) m :
  btree_get k m = Some v -> btree_get k (or_insert k' v' m) = Some v.
Proof.
  intros Hk. unfold or_insert. destruct (btree_get k' m) eqn:Hk'; [done|].
  rewrite btree_get_insert. destruct (Z.eqb_spec k k') as [->|]; [congruence|done].
Qed.

Lemma token_storage_holds name symbol decimals allocs :
  slots_apart get_storage_var_address allocs ->
  let storage := fee_token_storage get_storage_var_address name symbol decimals allocs in
  (forall a alloc b, (a, alloc) ∈ allocs -> alloc_balance alloc = Some b ->
     0 <= b < 2 ^ 256 -> holds storage (base_slot a) b) /\
  holds storage ERC20_TOTAL_SUPPLY_STORAGE_SLOT (supply allocs mod 2 ^ 256).
Proof.
  intros Hslots. destruct (token_storage_held _ name symbol decimals allocs Hslots) as (Hb & Hl & Hh).
  split.
  - intros a alloc b Hin Hbal Hr. destruct (Hb a alloc b Hin Hbal) as [H1 H2].
    eexists _, _. split; [done|]. split; [done|]. by apply split_u256_spec.
  - eexists _, _. split; [done|]. split; [done|]. apply split_u256_spec, Z.mod_pos_bound. lia.
Qed.

(** The state after the classes, the allocations, the tokens and the deployer. *)
Lemma dev_genesis_deployed g s :
  Forall (fun e => declarable e.2) (gen_classes g) -> NoDup (map fst (gen_allocations g)) ->
  genesis_states g = Some s ->
  (forall a alloc, (a, alloc) ∈ gen_allocations g -> ~ a ∈ fee_tokens ->
     is_Some (alloc_class_hash alloc) -> allocated (state_updates s) a alloc) /\
  (forall token, token ∈ fee_tokens ->
     btree_get token (deployed_contracts (state_updates s)) = Some DEFAULT_LEGACY_ERC20_CLASS_HASH).
Proof.
  intros Hcls Hnd.
  destruct (add_classes_spec (gen_classes g) States_default Hcls) as (s0 & Hs & Ho); [done|].
  unfold dev_state_updates. rewrite Hs. intros [= <-]. split.
  - intros a alloc Hin Ht [h Hh].
    destruct (add_allocations_spec (gen_allocations g) (state_updates s0) a alloc Hnd Hin) as (H1 & H2 & H3).
    { destruct Ho as (H1 & H2 & H3). unfold untouched. by rewrite H1, H2, H3. }
    assert (Z.eqb a DEFAULT_ETH_FEE_TOKEN_ADDRESS = false /\ Z.eqb a DEFAULT_STRK_FEE_TOKEN_ADDRESS = false)
      as [He Hk] by (unfold fee_tokens in Ht; rewrite !Z.eqb_neq; set_solver).
    unfold allocated. cbn -[btree_get btree_insert or_insert fold_left DEFAULT_UDC_ADDRESS].
    rewrite !btree_get_insert, He, Hk, H2, H3. split; [|done]. rewrite Hh in H1 |- *.
    apply or_insert_kept. by rewrite !btree_get_insert, He, Hk.
  - intros token Htok. unfold fee_tokens in Htok.
    apply elem_of_cons in Htok as [->|[->|[]%not_elem_of_nil]%elem_of_cons];
      apply or_insert_kept; cbn -[btree_get btree_insert fold_left]; by rewrite !btree_get_insert.
Qed.

Lemma dev_genesis_token g s token :
  genesis_states g = Some s -> token ∈ fee_tokens ->
  exists name symbol, btree_get token (storage_updates (state_updates s))
    = Some (fee_token_storage get_storage_var_address name symbol 18 (gen_allocations g)).
Proof.
  unfold dev_state_updates. intros (s0 & _ & [= <-])%bind_Some Htok. unfold fee_tokens in Htok.
  apply elem_of_cons in Htok as [->|[->|[]%not_elem_of_nil]%elem_of_cons];
    [exists "Ether"%string, "ETH"%string|exists "Starknet Token"%string, "STRK"%string];
    cbn -[btree_get btree_insert fold_left fee_token_storage]; by rewrite !btree_get_insert.
Qed.

(** C20. The state a development chain starts from exists when its classes can be declared.
    In it every allocation but one at the address of a fee token is deployed with its
    class, nonce and storage, the public key of an account included; both fee tokens are
    deployed, each allocation holds its balance in both, and the total supply is the sum
    of the balances, as 256-bit integers, provided the slots of the balances do not
    collide. *)
Theorem dev_genesis_states g :
  Forall (fun e => declarable e.2) (gen_classes g) -> NoDup (map fst (gen_allocations g)) ->
  slots_apart get_storage_var_address (gen_allocations g) ->
  exists s, genesis_states g = Some s /\
    (forall a alloc, (a, alloc) ∈ gen_allocations g -> ~ a ∈ fee_tokens ->
       is_Some (alloc_class_hash alloc) -> allocated (state_updates s) a alloc) /\
    (forall token, token ∈ fee_tokens ->
       btree_get token (deployed_contracts (state_updates s)) = Some DEFAULT_LEGACY_ERC20_CLASS_HASH /\
       exists storage, btree_get token (storage_updates (state_updates s)) = Some storage /\
         (forall a alloc b, (a, alloc) ∈ gen_allocations g -> alloc_balance alloc = Some b ->
            0 <= b < 2 ^ 256 -> holds storage (base_slot a) b) /\
         holds storage ERC20_TOTAL_SUPPLY_STORAGE_SLOT (supply (gen_allocations g) mod 2 ^ 256)).
Proof.
  intros Hcls Hnd Hslots.
  destruct (add_classes_spec (gen_classes g) States_default Hcls) as (s0 & Hs & _); [done|].
  assert (exists s, genesis_states g = Some s) as [s Hg].
  { unfold dev_state_updates. rewrite Hs. by eexists. }
  exists s. destruct (dev_genesis_deployed g s Hcls Hnd Hg) as [Ha Ht]. split_and!; [done|done|].
  intros token Htok. split; [by apply Ht|].
  destruct (dev_genesis_token g s token Hg Htok) as (name & symbol & Hst).
  eexists. split; [exact Hst|]. by apply token_storage_holds.
Qed.
End States.

(** ** Witness: an account with a balance of over 128 bits, and a contract without one *)
Definition demo_slot (name : string) (args : list Z) : Z := felt_of (1000 + 10 * fold_right Z.add 0 args).
Definition demo_genesis : Genesis Z :=
  extend_allocations
    [(7, AllocatedContract (mkContractAlloc (Some 3) None (Some 1) (Some [(1, 2)])));
     (5, AllocatedAccount (AllocAccount (mkGenesisAccount 99 4 (Some (2 ^ 128 + 9)) None None 666)))]
    (Genesis_default 1 2 3).
Definition demo_legacy (c : Z) : bool := Z.ltb c 3.
Definition demo_casm (c : Z) : option Z := if Z.eqb c 3 then Some 30 else None.

Lemma demo_slots_apart : slots_apart demo_slot (gen_allocations demo_genesis).
Proof. apply (bool_decide_unpack _). vm_compute. exact I. Qed.
Lemma demo_declarable : Forall (fun e => declarable demo_legacy demo_casm e.2) (gen_classes demo_genesis).
Proof.
  apply List.Forall_cons; [by left|]. apply List.Forall_cons; [by left|].
  apply List.Forall_cons; [right; by exists 30|apply List.Forall_nil].
Qed.

Lemma dev_genesis_states_witness :
  exists s, dev_state_updates 1 2 demo_legacy demo_casm demo_slot demo_genesis = Some s /\
    allocated (state_updates s) 5
      (AllocatedAccount (AllocAccount (mkGenesisAccount 99 4 (Some (2 ^ 128 + 9)) None None 666))).
Proof.
  destruct (dev_genesis_states 1 2 demo_legacy demo_casm demo_slot demo_genesis demo_declarable)
    as (s & Hs & Ha & _); [apply (bool_decide_unpack _); vm_compute; exact I|exact demo_slots_apart|].
  exists s. split; [exact Hs|]. apply Ha; [set_solver|by apply (bool_decide_unpack _)|by eexists].
Defined.
