(* ===== verification/GenesisTxs.v ===== *)
(** * The genesis transactions of a rollup (chain-spec/src/rollup/utils.rs, rollup/mod.rs)

    A rollup starts from a block of transactions, so that its first state can be proved: a
    master account is declared and deployed, it deploys the universal deployer and the fee
    token, then the allocated accounts are deployed and get their balances by transfer.
    The builder's cells are the fields of a state that each step passes on; [None] is a
    panic.  The classes built into the binary, class hashes, addresses, selectors, keys and
    signatures are parameters. *)

From Stdlib Require Import ZArith Lia String.
From stdpp Require Import base numbers list gmap.
From S2P Require Import Prelude BTreeMap Felt Tx TxHash Version Block Backend Genesis.

Section Builder.
Context {C : Type} (GENESIS_ACCOUNT_CLASS DEFAULT_LEGACY_UDC_CLASS DEFAULT_LEGACY_ERC20_CLASS
                    DEFAULT_ACCOUNT_CLASS : C).
Context (is_legacy : C -> bool) (class_hash_of casm_hash : C -> option Z).
Context (pedersen poseidon : list Z -> Z) (get_contract_address : Z -> Z -> list Z -> Z -> Z).
Context (get_selector_from_name : string -> Z) (sign : Z -> Z -> Z * Z) (verifying_key : Z -> Z).

(** The rollup's [ChainSpec], less the settlement layer, which genesis does not read. *)
Record RollupSpec := mkRollupSpec { rs_id : ChainId; rs_genesis : Genesis C }.

Record GenesisTransactionsBuilder := mkTxsBuilder {
  gtb_fee_token : option Z;
  gtb_master_address : option Z;
  gtb_master_nonce : Z;
  gtb_transactions : list (ExecutableTxWithHash C);
  gtb_declared_classes : gset Z;
}.
Implicit Types b : GenesisTransactionsBuilder.

Definition builder_new : GenesisTransactionsBuilder := mkTxsBuilder None None 0 [] ∅.
Definition MASTER_KEY : Z := 0xa55.

Definition push (hash : Z) (tx : ExecutableTx C) b : GenesisTransactionsBuilder :=
  mkTxsBuilder (gtb_fee_token b) (gtb_master_address b) (gtb_master_nonce b)
    (gtb_transactions b ++ [{| ewh_hash := hash; ewh_transaction := tx |}]) (gtb_declared_classes b).
Definition declared (class_hash : Z) b : GenesisTransactionsBuilder :=
  mkTxsBuilder (gtb_fee_token b) (gtb_master_address b) (gtb_master_nonce b) (gtb_transactions b)
    ({[class_hash]} ∪ gtb_declared_classes b).
Definition with_master_nonce (nonce : Z) b : GenesisTransactionsBuilder :=
  mkTxsBuilder (gtb_fee_token b) (gtb_master_address b) nonce (gtb_transactions b)
    (gtb_declared_classes b).
(** [OnceCell::set(..).expect(..)]. *)
Definition set_master_address (address : Z) b : option GenesisTransactionsBuilder :=
  match gtb_master_address b with
  | Some _ => None
  | None => Some (mkTxsBuilder (gtb_fee_token b) (Some address) (gtb_master_nonce b)
                    (gtb_transactions b) (gtb_declared_classes b))
  end.
Definition set_fee_token (address : Z) b : option GenesisTransactionsBuilder :=
  match gtb_fee_token b with
  | Some _ => None
  | None => Some (mkTxsBuilder (Some address) (gtb_master_address b) (gtb_master_nonce b)
                    (gtb_transactions b) (gtb_declared_classes b))
  end.
Definition signature_of (key hash : Z) : list Z := let '(r, s) := sign key hash in [r; s].

Definition legacy_declare (spec : RollupSpec) (class : C) b : option (Z * GenesisTransactionsBuilder) :=
  if is_legacy class then
    class_hash ← class_hash_of class;
    if bool_decide (class_hash ∈ gtb_declared_classes b) then Some (class_hash, b)
    else
      let transaction := ExDeclare {| dwc_class := class; dwc_transaction := DeclareV0 {|
        dv0_sender_address := 1; dv0_chain_id := rs_id spec; dv0_signature := [];
        dv0_class_hash := class_hash; dv0_max_fee := 0 |} |} in
      tx_hash ← executable_calculate_hash pedersen poseidon transaction false;
      Some (class_hash, push tx_hash transaction (declared class_hash b))
  else None.

Definition declare (spec : RollupSpec) (class : C) b : option (Z * GenesisTransactionsBuilder) :=
  let nonce := gtb_master_nonce b in
  let b := with_master_nonce (felt_add nonce 1) b in
  sender_address ← gtb_master_address b;
  class_hash ← class_hash_of class;
  if bool_decide (class_hash ∈ gtb_declared_classes b) then Some (class_hash, b)
  else
    compiled_class_hash ← casm_hash class;
    let transaction signature := {|
      dv2_chain_id := rs_id spec; dv2_signature := signature;
      dv2_compiled_class_hash := compiled_class_hash; dv2_sender_address := sender_address;
      dv2_class_hash := class_hash; dv2_max_fee := 0; dv2_nonce := nonce |} in
    let hash := declare_calculate_hash pedersen poseidon (DeclareV2 (transaction [])) false in
    let signature := signature_of MASTER_KEY hash in
    Some (class_hash,
          declared class_hash
            (push hash (ExDeclare {| dwc_class := class;
                                     dwc_transaction := DeclareV2 (transaction signature) |}) b)).

Definition invoke (spec : RollupSpec) (contract : Z) (function : string) (args : list Z) b
    : option GenesisTransactionsBuilder :=
  let nonce := gtb_master_nonce b in
  let b := with_master_nonce (felt_add nonce 1) b in
  sender_address ← gtb_master_address b;
  let selector := get_selector_from_name function in
  let args_len := Z.of_nat (length args) in
  let calldata := [1; contract; selector; 0; args_len; args_len] ++ args in
  let transaction signature := InvokeV1 {|
    iv1_chain_id := rs_id spec; iv1_signature := signature; iv1_sender_address := sender_address;
    iv1_max_fee := 0; iv1_calldata := calldata; iv1_nonce := nonce |} in
  tx_hash ← invoke_calculate_hash pedersen poseidon (transaction []) false;
  Some (push tx_hash (ExInvoke (transaction (signature_of MASTER_KEY tx_hash))) b).

Definition deploy (spec : RollupSpec) (class : Z) (ctor_args : list Z) (salt : Z) b
    : option (Z * GenesisTransactionsBuilder) :=
  master_address ← gtb_master_address b;
  let contract_address := get_contract_address salt class ctor_args 0 in
  let args := [class; salt; Z.of_nat (length ctor_args)] ++ ctor_args ++ [1] in
  b ← invoke spec master_address "deploy_contract" args b;
  Some (contract_address, b).

(** The deploy account transaction of an account with the given key. *)
Definition deploy_account (spec : RollupSpec) (key class_hash salt : Z) b
    : option (Z * GenesisTransactionsBuilder) :=
  let calldata := [verifying_key key] in
  let account_address := get_contract_address salt class_hash calldata 0 in
  let tx_hash := compute_deploy_account_v1_tx_hash pedersen account_address calldata class_hash salt 0
                   (chain_id (rs_id spec)) 0 false in
  let transaction := ExDeployAccount (DeployAccountV1 {|
    da1_signature := signature_of key tx_hash; da1_contract_address := account_address;
    da1_constructor_calldata := calldata; da1_chain_id := rs_id spec;
    da1_contract_address_salt := salt; da1_nonce := 0; da1_max_fee := 0;
    da1_class_hash := class_hash |}) in
  tx_hash ← executable_calculate_hash pedersen poseidon transaction false;
  Some (account_address, push tx_hash transaction b).

Definition deploy_predeployed_dev_account (spec : RollupSpec) (account : DevGenesisAccount) b
    : option (Z * GenesisTransactionsBuilder) :=
  let inner := dga_inner account in
  deploy_account spec (dga_private_key account) (gac_class_hash inner) (gac_salt inner) b.

Definition deploy_predeployed_account (spec : RollupSpec) (salt public_key : Z) b
    : option (Z * GenesisTransactionsBuilder) :=
  deploy spec DEFAULT_ACCOUNT_CLASS_HASH [public_key] salt b.

(** The master's address is set before its transaction is signed. *)
Definition build_master_account (spec : RollupSpec) b : option GenesisTransactionsBuilder :=
  '(account_class_hash, b) ← legacy_declare spec GENESIS_ACCOUNT_CLASS b;
  b ← set_master_address
        (get_contract_address 1 account_class_hash [verifying_key MASTER_KEY] 0) b;
  '(_, b) ← deploy_account spec MASTER_KEY account_class_hash 1 b;
  Some (with_master_nonce 1 b).

Definition build_core_contracts (spec : RollupSpec) b : option GenesisTransactionsBuilder :=
  '(udc_class_hash, b) ← legacy_declare spec DEFAULT_LEGACY_UDC_CLASS b;
  '(_, b) ← deploy spec udc_class_hash [] 0 b;
  master_address ← gtb_master_address b;
  let ctor_args := [short_string "Starknet Token"; short_string "STRK"; 18; 2 ^ 128 - 1; 2 ^ 128 - 1;
                    master_address] in
  '(erc20_class_hash, b) ← legacy_declare spec DEFAULT_LEGACY_ERC20_CLASS b;
  '(fee_token_address, b) ← deploy spec erc20_class_hash ctor_args 0 b;
  set_fee_token fee_token_address b.

Definition transfer_balance (spec : RollupSpec) (recipient balance : Z) b
    : option GenesisTransactionsBuilder :=
  fee_token ← gtb_fee_token b;
  let '(low_amount, high_amount) := split_u256 balance in
  invoke spec fee_token "transfer" [recipient; low_amount; high_amount] b.

(** One account; the debug assertion on its address is not compiled into a release. *)
Definition build_account (spec : RollupSpec) (default_account_class_hash : Z)
    (account : GenesisAccountAlloc) b : option GenesisTransactionsBuilder :=
  if Z.eqb (gac_class_hash (account_of account)) default_account_class_hash then
    '(address, b) ← match account with
                    | AllocDevAccount account => deploy_predeployed_dev_account spec account b
                    | AllocAccount account =>
                        deploy_predeployed_account spec (gac_salt account) (gac_public_key account) b
                    end;
    match gac_balance (account_of account) with
    | Some amount => transfer_balance spec address amount b
    | None => Some b
    end
  else None.

Fixpoint build_accounts (spec : RollupSpec) (default_account_class_hash : Z)
    (accounts : list (Z * GenesisAccountAlloc)) b : option GenesisTransactionsBuilder :=
  match accounts with
  | [] => Some b
  | (_, account) :: accounts =>
      b ← build_account spec default_account_class_hash account b;
      build_accounts spec default_account_class_hash accounts b
  end.

Definition build_allocated_accounts (spec : RollupSpec) b : option GenesisTransactionsBuilder :=
  '(default_account_class_hash, b) ← declare spec DEFAULT_ACCOUNT_CLASS b;
  build_accounts spec default_account_class_hash (gen_accounts (rs_genesis spec)) b.

Definition build (spec : RollupSpec) : option (list (ExecutableTxWithHash C)) :=
  b ← build_master_account spec builder_new;
  b ← build_core_contracts spec b;
  b ← build_allocated_accounts spec b;
  Some (gtb_transactions b).

(** [rollup::ChainSpec::block]. *)
Definition rollup_block (spec : RollupSpec)
    : option (PartialHeader * list (ExecutableTxWithHash C)) :=
  let g := rs_genesis spec in
  transactions ← build spec;
  Some ({| ph_protocol_version := CURRENT_STARKNET_VERSION; ph_number := gen_number g;
           ph_timestamp := gen_timestamp g; ph_parent_hash := gen_parent_hash g;
           ph_l1_da_mode := Calldata; ph_l2_gas_prices := GasPrice_MIN;
           ph_l1_gas_prices := gen_gas_prices g; ph_l1_data_gas_prices := gen_gas_prices g;
           ph_sequencer_address := gen_sequencer_address g |}, transactions).
End Builder.
