(* ===== verification/GenesisTxsProofs.v ===== *)
(** * The genesis transactions of a rollup: what they do, in order

    The builder never panics on a genesis whose accounts have the default class; its
    transactions, decoded, are the declarations, deployments and transfers the genesis asks
    for, in order, with the master's nonces consecutive and every hash the transaction's
    own. *)

From Stdlib Require Import ZArith Lia String.
From stdpp Require Import base numbers list gmap.
From S2P Require Import Prelude BTreeMap Felt Tx TxHash Version Block Backend Genesis GenesisTxs.

(** What a transaction asks for: a class, an account, or one call by the master. *)
Inductive Step :=
  | DeclareStep (sender class_hash : Z)
  | DeployAccountStep (address class_hash salt : Z) (calldata : list Z)
  | CallStep (sender contract selector : Z) (args : list Z).

Definition step_of {C} (tx : ExecutableTxWithHash C) : option Step :=
  match ewh_transaction tx with
  | ExDeclare d =>
      match dwc_transaction d with
      | DeclareV0 d => Some (DeclareStep (dv0_sender_address d) (dv0_class_hash d))
      | DeclareV2 d => Some (DeclareStep (dv2_sender_address d) (dv2_class_hash d))
      | _ => None
      end
  | ExDeployAccount (DeployAccountV1 d) =>
      Some (DeployAccountStep (da1_contract_address d) (da1_class_hash d) (da1_contract_address_salt d)
              (da1_constructor_calldata d))
  | ExInvoke (InvokeV1 i) =>
      match iv1_calldata i with
      | 1 :: contract :: selector :: 0 :: n :: n' :: args =>
          if Z.eqb n (Z.of_nat (length args)) && Z.eqb n' n
          then Some (CallStep (iv1_sender_address i) contract selector args) else None
      | _ => None
      end
  | _ => None
  end.
(** The nonce of a transaction signed with a nonce by the master. *)
Definition master_nonce_of {C} (tx : ExecutableTxWithHash C) : option Z :=
  match ewh_transaction tx with
  | ExInvoke (InvokeV1 i) => Some (iv1_nonce i)
  | ExDeclare d => match dwc_transaction d with DeclareV2 d => Some (dv2_nonce d) | _ => None end
  | _ => None
  end.

Section Builder.
Context {C : Type} (GENESIS_ACCOUNT_CLASS DEFAULT_LEGACY_UDC_CLASS DEFAULT_LEGACY_ERC20_CLASS
                    DEFAULT_ACCOUNT_CLASS : C).
Context (is_legacy : C -> bool) (class_hash_of casm_hash : C -> option Z).
Context (pedersen poseidon : list Z -> Z) (get_contract_address : Z -> Z -> list Z -> Z -> Z).
Context (get_selector_from_name : string -> Z) (sign : Z -> Z -> Z * Z) (verifying_key : Z -> Z).
Abbreviation Builder := (@GenesisTransactionsBuilder C).
Abbreviation Spec := (@RollupSpec C).
Implicit Types (b : Builder) (spec : Spec).

Definition nonces_from_one (n : nat) : list Z := map (fun i => felt_of (Z.of_nat i)) (seq 1 n).
Definition own_hash (tx : ExecutableTxWithHash C) : Prop :=
  executable_calculate_hash pedersen poseidon (ewh_transaction tx) false = Some (ewh_hash tx).

(** The builder after [n] transactions with a nonce and the given steps. *)
Record built b (master fee : option Z) (nonce : Z) (n : nat) (classes : gset Z) (steps : list Step)
    : Prop := {
  bu_master : gtb_master_address b = master;
  bu_fee : gtb_fee_token b = fee;
  bu_nonce : gtb_master_nonce b = nonce;
  bu_nonces : omap master_nonce_of (gtb_transactions b) = nonces_from_one n;
  bu_classes : gtb_declared_classes b = classes;
  bu_steps : map step_of (gtb_transactions b) = map Some steps;
  bu_hashes : Forall own_hash (gtb_transactions b);
}.

Lemma nonces_from_one_snoc n :
  nonces_from_one (n + 1) = nonces_from_one n ++ [felt_of (Z.of_nat (n + 1))].
Proof. unfold nonces_from_one. rewrite seq_app, map_app. simpl. by rewrite Nat.add_comm. Qed.

Lemma next_nonce n : felt_add (felt_of (Z.of_nat (n + 1))) 1 = felt_of (Z.of_nat (n + 1 + 1)).
Proof.
  unfold felt_add, felt_of. rewrite Zplus_mod_idemp_l. f_equal. lia.
Qed.

Lemma invoke_built spec b m fee n classes steps contract function args :
  built b (Some m) fee (felt_of (Z.of_nat (n + 1))) n classes steps ->
  exists b', invoke pedersen poseidon get_selector_from_name sign spec contract function args b = Some b' /\
    built b' (Some m) fee (felt_of (Z.of_nat (n + 1 + 1))) (n + 1) classes
      (steps ++ [CallStep m contract (get_selector_from_name function) args]).
Proof.
  intros [Hm Hf Hn Hns Hc Hs Hh]. unfold invoke. simpl. rewrite Hm. simpl.
  eexists. split; [reflexivity|]. split; simpl; try done.
  - by rewrite Hn, next_nonce.
  - rewrite omap_app, Hns, nonces_from_one_snoc. simpl. by rewrite Hn.
  - rewrite !map_app, Hs. simpl. unfold step_of. simpl. by rewrite !Z.eqb_refl.
  - apply Forall_app_2; [done|]. by repeat constructor.
Qed.

Lemma deploy_built spec b m fee n classes steps class args salt :
  built b (Some m) fee (felt_of (Z.of_nat (n + 1))) n classes steps ->
  exists b', deploy pedersen poseidon get_contract_address get_selector_from_name sign spec class args salt b
             = Some (get_contract_address salt class args 0, b') /\
    built b' (Some m) fee (felt_of (Z.of_nat (n + 1 + 1))) (n + 1) classes
      (steps ++ [CallStep m m (get_selector_from_name "deploy_contract")
                   ([class; salt; Z.of_nat (length args)] ++ args ++ [1])]).
Proof.
  intros Hb. unfold deploy. rewrite (bu_master _ _ _ _ _ _ _ Hb). cbn [mbind option_bind].
  destruct (invoke_built spec b m fee n classes steps m "deploy_contract"
              ([class; salt; Z.of_nat (length args)] ++ args ++ [1]) Hb) as (b' & Hi & Hb').
  exists b'. by rewrite Hi.
Qed.

Lemma deploy_account_built spec b m fee k n classes steps key class salt :
  built b m fee k n classes steps ->
  let calldata := [verifying_key key] in
  let address := get_contract_address salt class calldata 0 in
  exists b', deploy_account pedersen poseidon get_contract_address sign verifying_key spec key class salt b
             = Some (address, b') /\
    built b' m fee k n classes (steps ++ [DeployAccountStep address class salt calldata]).
Proof.
  intros [Hm Hf Hn Hns Hc Hs Hh]. eexists. split; [reflexivity|]. split; simpl; try done.
  - by rewrite omap_app, Hns, app_nil_r.
  - by rewrite !map_app, Hs.
  - apply Forall_app_2; [done|]. by repeat constructor.
Qed.

Lemma legacy_declare_built spec b m fee k n classes steps class h :
  built b m fee k n classes steps -> is_legacy class = true -> class_hash_of class = Some h ->
  ~ h ∈ classes ->
  exists b', legacy_declare is_legacy class_hash_of pedersen poseidon spec class b = Some (h, b') /\
    built b' m fee k n ({[h]} ∪ classes) (steps ++ [DeclareStep 1 h]).
Proof.
  intros [Hm Hf Hn Hns Hc Hs Hh] Hl Hch Hni. unfold legacy_declare. rewrite Hl, Hch. simpl.
  rewrite Hc, bool_decide_false by done. eexists. split; [reflexivity|]. split; simpl; try done.
  - by rewrite omap_app, Hns, app_nil_r.
  - by rewrite Hc.
  - by rewrite !map_app, Hs.
  - apply Forall_app_2; [done|]. by repeat constructor.
Qed.

Lemma declare_built spec b m fee n classes steps class h casm :
  built b (Some m) fee (felt_of (Z.of_nat (n + 1))) n classes steps ->
  class_hash_of class = Some h -> casm_hash class = Some casm -> ~ h ∈ classes ->
  exists b', declare class_hash_of casm_hash pedersen poseidon sign spec class b = Some (h, b') /\
    built b' (Some m) fee (felt_of (Z.of_nat (n + 1 + 1))) (n + 1) ({[h]} ∪ classes)
      (steps ++ [DeclareStep m h]).
Proof.
  intros [Hm Hf Hn Hns Hc Hs Hh] Hch Hcasm Hni. unfold declare. simpl. rewrite Hm, Hch. simpl.
  rewrite Hc, bool_decide_false by done. rewrite Hcasm. simpl.
  eexists. split; [reflexivity|]. split; simpl; try done.
  - by rewrite Hn, next_nonce.
  - rewrite omap_app, Hns, nonces_from_one_snoc. simpl. by rewrite Hn.
  - by rewrite Hc.
  - by rewrite !map_app, Hs.
  - apply Forall_app_2; [done|]. by repeat constructor.
Qed.

(** What the genesis asks for: an account with a known key deploys itself, another is
    deployed by the master; each gets its balance from the master. *)
Definition deployed_address (account : GenesisAccountAlloc) : Z :=
  match account with
  | AllocAccount a => get_contract_address (gac_salt a) DEFAULT_ACCOUNT_CLASS_HASH [gac_public_key a] 0
  | AllocDevAccount a =>
      get_contract_address (gac_salt (dga_inner a)) (gac_class_hash (dga_inner a))
        [verifying_key (dga_private_key a)] 0
  end.
Definition account_steps (m fee : Z) (account : GenesisAccountAlloc) : list Step :=
  match account with
  | AllocAccount a =>
      CallStep m m (get_selector_from_name "deploy_contract")
        [DEFAULT_ACCOUNT_CLASS_HASH; gac_salt a; 1; gac_public_key a; 1]
  | AllocDevAccount a =>
      DeployAccountStep (deployed_address account) (gac_class_hash (dga_inner a))
        (gac_salt (dga_inner a)) [verifying_key (dga_private_key a)]
  end ::
  match gac_balance (account_of account) with
  | Some amount =>
      [CallStep m fee (get_selector_from_name "transfer")
         [deployed_address account; (split_u256 amount).1; (split_u256 amount).2]]
  | None => []
  end.

Lemma transfer_built spec b m fee n classes steps recipient amount :
  built b (Some m) (Some fee) (felt_of (Z.of_nat (n + 1))) n classes steps ->
  exists b', transfer_balance pedersen poseidon get_selector_from_name sign spec recipient amount b = Some b' /\
    built b' (Some m) (Some fee) (felt_of (Z.of_nat (n + 1 + 1))) (n + 1) classes
      (steps ++ [CallStep m fee (get_selector_from_name "transfer")
                   [recipient; (split_u256 amount).1; (split_u256 amount).2]]).
Proof.
  intros Hb. unfold transfer_balance. rewrite (bu_fee _ _ _ _ _ _ _ Hb). cbn [mbind option_bind].
  destruct (split_u256 amount) as [lo hi]. by apply invoke_built.
Qed.

Lemma account_built spec b m fee n classes steps h account :
  built b (Some m) (Some fee) (felt_of (Z.of_nat (n + 1))) n classes steps ->
  gac_class_hash (account_of account) = h ->
  exists b' n', build_account pedersen poseidon get_contract_address get_selector_from_name sign
                  verifying_key spec h account b = Some b' /\
    built b' (Some m) (Some fee) (felt_of (Z.of_nat (n' + 1))) n' classes
      (steps ++ account_steps m fee account).
Proof.
  intros Hb Hh. unfold build_account. rewrite Hh, Z.eqb_refl.
  assert (exists b1 n1 step,
            match account with
            | AllocDevAccount a => deploy_predeployed_dev_account pedersen poseidon get_contract_address
                                     sign verifying_key spec a b
            | AllocAccount a => deploy_predeployed_account pedersen poseidon get_contract_address
                                  get_selector_from_name sign spec (gac_salt a) (gac_public_key a) b
            end = Some (deployed_address account, b1) /\
            built b1 (Some m) (Some fee) (felt_of (Z.of_nat (n1 + 1))) n1 classes (steps ++ [step]) /\
            head (account_steps m fee account) = Some step) as (b1 & n1 & step & -> & Hb1 & Hstep).
  { destruct account as [a|a].
    - destruct (deploy_built spec b m (Some fee) n classes steps DEFAULT_ACCOUNT_CLASS_HASH
                  [gac_public_key a] (gac_salt a) Hb) as (b1 & H1 & H2).
      by exists b1, (n + 1)%nat; eexists.
    - destruct (deploy_account_built spec b (Some m) (Some fee) _ n classes steps (dga_private_key a)
                  (gac_class_hash (dga_inner a)) (gac_salt (dga_inner a)) Hb) as (b1 & H1 & H2).
      by exists b1, n; eexists. }
  unfold account_steps in *. simpl in Hstep. injection Hstep as ->. cbn [mbind option_bind].
  destruct (gac_balance (account_of account)) as [amount|]; [|by exists b1, n1].
  destruct (transfer_built spec b1 m fee n1 classes _ (deployed_address account) amount Hb1)
    as (b2 & H2 & Hb2).
  exists b2, (n1 + 1)%nat. split; [done|]. by rewrite <- app_assoc in Hb2.
Qed.

Lemma accounts_built spec m fee classes h accounts b n steps :
  built b (Some m) (Some fee) (felt_of (Z.of_nat (n + 1))) n classes steps ->
  Forall (fun e => gac_class_hash (account_of e.2) = h) accounts ->
  exists b' n', build_accounts pedersen poseidon get_contract_address get_selector_from_name sign
                  verifying_key spec h accounts b = Some b' /\
    built b' (Some m) (Some fee) (felt_of (Z.of_nat (n' + 1))) n' classes
      (steps ++ flat_map (fun e => account_steps m fee e.2) accounts).
Proof.
  revert b n steps. induction accounts as [|[a account] accounts IH]; intros b n steps Hb Hall.
  { exists b, n. simpl. by rewrite app_nil_r. }
  apply Forall_cons in Hall as [Hh Hall].
  destruct (account_built spec b m fee n classes steps h account Hb Hh) as (b1 & n1 & H1 & Hb1).
  destruct (IH b1 n1 _ Hb1 Hall) as (b2 & n2 & H2 & Hb2). exists b2, n2.
  cbn [build_accounts flat_map snd]. rewrite H1. cbn [mbind option_bind]. by rewrite H2, app_assoc.
Qed.

(** The classes built into the binary: three legacy ones and the account class, with
    distinct hashes. *)
Record builtin_classes (account udc erc20 default casm : Z) : Prop := {
  bc_account : is_legacy GENESIS_ACCOUNT_CLASS = true /\ class_hash_of GENESIS_ACCOUNT_CLASS = Some account;
  bc_udc : is_legacy DEFAULT_LEGACY_UDC_CLASS = true /\ class_hash_of DEFAULT_LEGACY_UDC_CLASS = Some udc;
  bc_erc20 : is_legacy DEFAULT_LEGACY_ERC20_CLASS = true /\ class_hash_of DEFAULT_LEGACY_ERC20_CLASS = Some erc20;
  bc_default : class_hash_of DEFAULT_ACCOUNT_CLASS = Some default /\ casm_hash DEFAULT_ACCOUNT_CLASS = Some casm;
  bc_distinct : NoDup [account; udc; erc20; default];
}.
Definition master_of (account : Z) : Z :=
  get_contract_address 1 account [verifying_key MASTER_KEY] 0.
Definition token_args (m : Z) : list Z :=
  [short_string "Starknet Token"; short_string "STRK"; 18; 2 ^ 128 - 1; 2 ^ 128 - 1; m].
Definition genesis_steps (account udc erc20 default : Z) (accounts : list (Z * GenesisAccountAlloc))
    : list Step :=
  let m := master_of account in
  let fee := get_contract_address 0 erc20 (token_args m) 0 in
  let deploy class args :=
    CallStep m m (get_selector_from_name "deploy_contract")
      ([class; 0; Z.of_nat (length args)] ++ args ++ [1]) in
  [DeclareStep 1 account; DeployAccountStep m account 1 [verifying_key MASTER_KEY];
   DeclareStep 1 udc; deploy udc []; DeclareStep 1 erc20; deploy erc20 (token_args m);
   DeclareStep m default] ++ flat_map (fun e => account_steps m fee e.2) accounts.

Abbreviation deploy_selector := (get_selector_from_name "deploy_contract").

Lemma master_built spec account :
  is_legacy GENESIS_ACCOUNT_CLASS = true -> class_hash_of GENESIS_ACCOUNT_CLASS = Some account ->
  exists b, build_master_account GENESIS_ACCOUNT_CLASS is_legacy class_hash_of pedersen poseidon
              get_contract_address sign verifying_key spec builder_new = Some b /\
    built b (Some (master_of account)) None (felt_of (Z.of_nat (0 + 1))) 0 {[account]}
      [DeclareStep 1 account; DeployAccountStep (master_of account) account 1 [verifying_key MASTER_KEY]].
Proof.
  intros A1 A2. assert (built builder_new None None 0 0 ∅ []) as H0 by done.
  unfold build_master_account.
  destruct (legacy_declare_built spec _ _ _ _ _ _ _ _ _ H0 A1 A2) as (b1 & -> & H1); [set_solver|].
  cbn [mbind option_bind]. unfold set_master_address. rewrite (bu_master _ _ _ _ _ _ _ H1).
  cbn [mbind option_bind].
  destruct (deploy_account_built spec (mkTxsBuilder (gtb_fee_token b1) (Some (master_of account))
              (gtb_master_nonce b1) (gtb_transactions b1) (gtb_declared_classes b1))
              (Some (master_of account)) None 0 0 ({[account]} ∪ ∅) [DeclareStep 1 account] MASTER_KEY account 1) as (b2 & H2 & Hb2).
  { destruct H1. split; done. }
  fold (master_of account). rewrite H2. eexists. split; [done|].
  destruct Hb2 as [Hm Hf Hn Hns Hc Hs Hh]. split; try done. simpl. by rewrite Hc, union_empty_r_L.
Qed.

Lemma core_built spec b account udc erc20 :
  let m := master_of account in
  built b (Some m) None (felt_of (Z.of_nat (0 + 1))) 0 {[account]}
      [DeclareStep 1 account; DeployAccountStep (master_of account) account 1 [verifying_key MASTER_KEY]] ->
  is_legacy DEFAULT_LEGACY_UDC_CLASS = true -> class_hash_of DEFAULT_LEGACY_UDC_CLASS = Some udc ->
  is_legacy DEFAULT_LEGACY_ERC20_CLASS = true -> class_hash_of DEFAULT_LEGACY_ERC20_CLASS = Some erc20 ->
  udc <> account -> erc20 <> account -> erc20 <> udc ->
  exists b', build_core_contracts DEFAULT_LEGACY_UDC_CLASS DEFAULT_LEGACY_ERC20_CLASS is_legacy
               class_hash_of pedersen poseidon get_contract_address get_selector_from_name sign spec b
             = Some b' /\
    built b' (Some m) (Some (get_contract_address 0 erc20 (token_args m) 0))
      (felt_of (Z.of_nat (2 + 1))) 2 ({[erc20]} ∪ ({[udc]} ∪ {[account]}))
      [DeclareStep 1 account; DeployAccountStep m account 1 [verifying_key MASTER_KEY];
       DeclareStep 1 udc; CallStep m m deploy_selector [udc; 0; 0; 1];
       DeclareStep 1 erc20; CallStep m m deploy_selector ([erc20; 0; 6] ++ token_args m ++ [1])].
Proof.
  intros m Hb U1 U2 E1 E2 N1 N2 N3. unfold build_core_contracts.
  destruct (legacy_declare_built spec _ _ _ _ _ _ _ _ _ Hb U1 U2) as (b1 & -> & H1); [set_solver|].
  cbn [mbind option_bind].
  destruct (deploy_built spec b1 m None 0 _ _ udc [] 0 H1) as (b2 & -> & H2).
  cbn [mbind option_bind]. rewrite (bu_master _ _ _ _ _ _ _ H2). cbn [mbind option_bind].
  destruct (legacy_declare_built spec _ _ _ _ _ _ _ _ _ H2 E1 E2) as (b3 & -> & H3); [set_solver|].
  cbn [mbind option_bind].
  destruct (deploy_built spec b3 m None 1 _ _ erc20 (token_args m) 0 H3) as (b4 & Hd & H4).
  unfold token_args in Hd. rewrite Hd. cbn [mbind option_bind]. unfold set_fee_token.
  rewrite (bu_fee _ _ _ _ _ _ _ H4). eexists. split; [done|]. destruct H4. by split.
Qed.

(** C19. The builder does not panic on a genesis whose accounts all have the default account
    class.  Decoded, its transactions are the steps of the genesis in order: the master
    account, the universal deployer, the fee token whose supply the master holds, then each
    account's deployment followed by the transfer of its balance.  The transactions the
    master signs with a nonce have the nonces 1, 2, 3 and so on, and every transaction is
    under its own hash. *)
Theorem rollup_genesis_steps spec account udc erc20 default casm :
  builtin_classes account udc erc20 default casm ->
  Forall (fun e => gac_class_hash (account_of e.2) = default) (gen_accounts (rs_genesis spec)) ->
  exists txs n,
    build GENESIS_ACCOUNT_CLASS DEFAULT_LEGACY_UDC_CLASS DEFAULT_LEGACY_ERC20_CLASS
      DEFAULT_ACCOUNT_CLASS is_legacy class_hash_of casm_hash pedersen poseidon get_contract_address
      get_selector_from_name sign verifying_key spec = Some txs /\
    map step_of txs = map Some (genesis_steps account udc erc20 default (gen_accounts (rs_genesis spec))) /\
    omap master_nonce_of txs = nonces_from_one n /\
    Forall own_hash txs.
Proof.
  intros [[A1 A2] [U1 U2] [E1 E2] [D1 D2] Hnd] Hacc.
  rewrite !NoDup_cons in Hnd. destruct Hnd as (N1 & N2 & N3 & _).
  destruct (master_built spec account A1 A2) as (b1 & Hm & H1). unfold build. rewrite Hm. cbn [mbind option_bind].
  destruct (core_built spec b1 account udc erc20 H1 U1 U2 E1 E2) as (b2 & Hc & H2); [set_solver..|].
  rewrite Hc. cbn [mbind option_bind]. unfold build_allocated_accounts.
  destruct (declare_built spec b2 _ _ _ _ _ _ default casm H2 D1 D2) as (b3 & -> & H3); [set_solver|].
  cbn [mbind option_bind].
  destruct (accounts_built spec _ _ _ default (gen_accounts (rs_genesis spec)) b3 _ _ H3 Hacc)
    as (b4 & n & -> & H4).
  exists (gtb_transactions b4), n. split; [done|]. destruct H4 as [_ _ _ Hns _ Hs Hh]. by rewrite Hs.
Qed.
End Builder.

(** ** Witness: an account with a key and a balance, and one without either *)
Definition demo_spec : @RollupSpec Z :=
  mkRollupSpec (Id 1)
    (mkGenesis 0 0 0 0 0 GasPrice_MIN []
       [(5, AllocatedAccount (AllocDevAccount (mkDevAccount 77 (mkGenesisAccount 154 14 (Some (2 ^ 128 + 9)) None None 666))));
        (7, AllocatedAccount (AllocAccount (mkGenesisAccount 99 14 None None None 1)))]).
Definition demo_sum (l : list Z) : Z := fold_right Z.add 0 l.
Definition demo_address (salt class : Z) (args : list Z) (deployer : Z) : Z := salt + class + demo_sum args.
Definition demo_selector (name : string) : Z := short_string name.
Definition demo_class_hash (c : Z) : option Z := Some (c + 10).

Lemma demo_builtin :
  builtin_classes 1 2 3 4 (fun c => Z.ltb c 4) demo_class_hash Some 11 12 13 14 4.
Proof. split; try done. apply (bool_decide_unpack _). done. Qed.

Lemma rollup_genesis_steps_witness :
  exists txs n,
    build 1 2 3 4 (fun c => Z.ltb c 4) demo_class_hash Some demo_sum demo_sum demo_address demo_selector
      (fun k h => (k, h)) (Z.mul 2) demo_spec = Some txs /\
    omap master_nonce_of txs = nonces_from_one n /\ length txs = 10%nat.
Proof.
  destruct (rollup_genesis_steps 1 2 3 4 (fun c => Z.ltb c 4) demo_class_hash Some demo_sum demo_sum
              demo_address demo_selector (fun k h => (k, h)) (Z.mul 2) demo_spec 11 12 13 14 4 demo_builtin)
    as (txs & n & Hb & Hs & Hn & _); [by repeat constructor|].
  exists txs, n. split; [exact Hb|]. split; [exact Hn|].
  apply (f_equal length) in Hs. by rewrite !length_map in Hs.
Defined.
