(* ===== verification/GenesisServed.v ===== *)
(** * A development chain, from its specification to the answers of its node

    The state a development chain starts from is well formed, so the block that holds it
    can be stored, and the node over the stored block answers with it: each allocation has
    its class, and its balance in both fee tokens. *)

From Stdlib Require Import ZArith Lia String.
From stdpp Require Import base numbers list gmap sorting.
From S2P Require Import Prelude BTreeMap Felt Tx Version Block Receipt PoolTypes Codec Versioned Mdbx DbProvider DbState ChangeLog DbHistory DbLatest DbBlocks Events RpcError RpcEvents GasOracle Backend RpcTypes RpcForking RpcStarknet RpcStarknetProofs Genesis GenesisProofs.

(** ** Well-formed maps *)
Section Maps.
Context {V : Type} (Pv : V -> Prop).
Definition wf_map (m : list (Z * V)) : Prop := btree_sorted m /\ Forall (fun e => is_felt e.1 /\ Pv e.2) m.

Lemma wf_map_nil : wf_map [].
Proof. repeat constructor. Qed.

Lemma wf_map_insert k v m : is_felt k -> Pv v -> wf_map m -> wf_map (btree_insert k v m).
Proof.
  intros Hk Hv [Hs Hf]. split; [by apply btree_insert_sorted|]. rewrite Forall_forall in *.
  intros e [->|[He _]]%elem_of_btree_insert; [done|auto|done].
Qed.

Lemma wf_map_or_insert k v m : is_felt k -> Pv v -> wf_map m -> wf_map (or_insert k v m).
Proof. intros. unfold or_insert. destruct (btree_get k m); [done|by apply wf_map_insert]. Qed.

Lemma wf_map_keys m : wf_map m -> NoDup (map fst m) /\ Forall is_felt (map fst m).
Proof.
  intros [Hs Hf]. split; [by apply btree_sorted_NoDup|]. apply Forall_map.
  eapply Forall_impl; [exact Hf|]. by intros e [].
Qed.
End Maps.
Create HintDb genesis.
#[export] Hint Resolve wf_map_nil wf_map_insert wf_map_or_insert : genesis.

Definition wf_slots (s : list (Z * Z)) : Prop := wf_map (fun _ => True) s.
Record wf_states (u : StateUpdates) : Prop := {
  ws_nonces : wf_slots (nonce_updates u);
  ws_deployed : wf_slots (deployed_contracts u);
  ws_storage : wf_map wf_slots (storage_updates u);
}.

Lemma assoc_btree {V} (m : list (Z * V)) a : assoc a m = btree_get a m.
Proof.
  induction m as [|[k v] m IH]; simpl; [done|]. rewrite IH.
  destruct (Z.eqb_spec a k); [by rewrite decide_True|by rewrite decide_False].
Qed.

Lemma elem_of_storage_entries u a k v :
  ({| csk_contract_address := a; csk_key := k |}, v) ∈ storage_entries u
  <-> exists s, (a, s) ∈ u /\ (k, v) ∈ s.
Proof.
  unfold storage_entries. rewrite list_elem_of_In, in_flat_map. split.
  - intros ([a' s] & Hin & ([k' v'] & [= -> -> ->] & Hkv)%in_map_iff). exists s.
    split; by apply list_elem_of_In.
  - intros (s & Hin & Hkv). exists (a, s). split; [by apply list_elem_of_In|].
    apply in_map_iff. exists (k, v). split; [done|]. by apply list_elem_of_In.
Qed.

Lemma storage_entries_NoDup u : wf_map wf_slots u -> NoDup (map fst (storage_entries u)).
Proof.
  intros [Hs Hf]. induction Hs as [|[a s] u Hs IH Hall]; [constructor|].
  apply Forall_cons in Hf as [[_ [Hss _]] Hf]. unfold storage_entries. cbn [flat_map fst snd]. rewrite map_app.
  apply NoDup_app. split_and!; [..|by apply IH].
  - rewrite map_map. simpl. apply btree_sorted_NoDup in Hss.
    rewrite <- (map_map fst (fun k => {| csk_contract_address := a; csk_key := k |})).
    apply NoDup_fmap_2; [|done]. by intros x y [= ->].
  - intros key Hk Hk'. rewrite map_map in Hk. apply list_elem_of_fmap in Hk as (e & -> & He).
    apply list_elem_of_fmap in Hk' as ([key v] & Heq & Hin). simpl in Heq. subst key.
    apply elem_of_storage_entries in Hin as (s' & Hin & _). rewrite Forall_forall in Hall.
    specialize (Hall _ Hin). simpl in Hall. lia.
Qed.

(** Reading one entry of the storage of the state. *)
Lemma assoc_storage u a k s v :
  wf_map wf_slots u -> btree_get a u = Some s -> btree_get k s = Some v ->
  assoc {| csk_contract_address := a; csk_key := k |} (storage_entries u) = Some v.
Proof.
  intros Hwf Ha Hk. pose proof Hwf as [Hs Hf]. apply assoc_elem; [by apply storage_entries_NoDup|].
  apply btree_get_elem in Ha; [|done]. apply elem_of_storage_entries. exists s. split; [done|].
  rewrite Forall_forall in Hf. destruct (Hf _ Ha) as [_ [Hss _]]. by apply btree_get_elem in Hk.
Qed.

Lemma wf_states_updates u : wf_states u -> wf_updates u.
Proof.
  intros [Hn Hd Hs]. destruct (wf_map_keys _ _ Hn), (wf_map_keys _ _ Hd).
  unfold wf_updates. split_and!; try done; [by apply storage_entries_NoDup|].
  apply Forall_map, Forall_forall. intros [[a k] v] (s & Ha & Hk)%elem_of_storage_entries.
  destruct Hs as [_ Hf]. rewrite Forall_forall in Hf. destruct (Hf _ Ha) as [Hfa [_ Hfs]].
  rewrite Forall_forall in Hfs. destruct (Hfs _ Hk) as [Hfk _]. by split.
Qed.

(** ** The genesis state is well formed *)
Section Genesis.
Context {C : Type} (erc20 udc : C) (is_legacy : C -> bool) (casm_hash : C -> option Z).
Context (get_storage_var_address : string -> list Z -> Z).
Hypothesis slot_felt : forall name args, is_felt (get_storage_var_address name args).
Abbreviation genesis_states := (dev_state_updates erc20 udc is_legacy casm_hash get_storage_var_address).
Abbreviation base_slot := (get_fee_token_balance_base_storage_address get_storage_var_address).

(** The maps of the configuration are ordered maps over field elements, and every
    allocation has a class. *)
Record wf_genesis (g : Genesis C) : Prop := {
  wg_classes : Forall (fun e => declarable is_legacy casm_hash e.2) (gen_classes g);
  wg_allocations :
    wf_map (fun alloc => wf_slots (default [] (alloc_storage alloc)) /\ is_Some (alloc_class_hash alloc))
      (gen_allocations g);
  wg_slots : slots_apart get_storage_var_address (gen_allocations g);
}.

Lemma set_storage_wf u a s : is_felt a -> wf_slots s -> wf_states u -> wf_states (set_storage a s u).
Proof. intros Ha Hs [H1 H2 H3]. split; simpl; auto with genesis. Qed.
Lemma set_nonce_wf u a n : is_felt a -> wf_states u -> wf_states (set_nonce a n u).
Proof. intros Ha [H1 H2 H3]. split; simpl; [|done..]. by apply wf_map_insert. Qed.
Lemma with_contracts_wf u f :
  (forall m, wf_slots m -> wf_slots (f m)) -> wf_states u -> wf_states (with_contracts f u).
Proof. intros Hf [H1 H2 H3]. split; simpl; auto. Qed.

Lemma felt_constant z : bool_decide (is_felt z) = true -> is_felt z.
Proof. apply bool_decide_eq_true_1. Qed.

Lemma add_allocation_wf u a alloc :
  is_felt a -> wf_slots (default [] (alloc_storage alloc)) -> wf_states u ->
  wf_states (add_allocation u (a, alloc)).
Proof.
  intros Ha Hs Hu. unfold add_allocation. apply set_storage_wf; [done|..].
  - destruct (alloc_public_key alloc); [|done]. by apply wf_map_insert; [apply felt_constant|..].
  - destruct (alloc_class_hash alloc), (alloc_nonce alloc); try apply set_nonce_wf;
      try apply with_contracts_wf; try done; intros; by apply wf_map_insert.
Qed.

Lemma token_storage_wf name symbol decimals allocs :
  wf_slots (fee_token_storage get_storage_var_address name symbol decimals allocs).
Proof using slot_felt.
  unfold fee_token_storage.
  assert (forall s t, wf_slots s ->
            wf_slots (fold_left (add_balance get_storage_var_address) allocs (s, t)).1) as Hb.
  { induction allocs as [|[a alloc] allocs IH]; intros s t Hs; [done|]. cbn [fold_left].
    unfold add_balance at 2. simpl. destruct (alloc_balance alloc) as [b|]; [|by apply IH].
    destruct (split_u256 b). apply IH.
    apply wf_map_insert; [apply Z.mod_pos_bound; reflexivity|done|]. apply wf_map_insert; [apply slot_felt|done..]. }
  specialize (Hb [] 0 (wf_map_nil _)).
  destruct (fold_left (add_balance get_storage_var_address) allocs ([], 0)) as [s t]. simpl in Hb.
  destruct (split_u256 t). repeat (apply wf_map_insert; [by apply felt_constant|done|]). done.
Qed.

(** The state before the fee tokens and the universal deployer are added. *)
Lemma genesis_allocated g s :
  wf_genesis g -> genesis_states g = Some s ->
  exists u, only_classes u /\
    nonce_updates (state_updates s) = nonce_updates (fold_left add_allocation (gen_allocations g) u) /\
    (wf_states (fold_left add_allocation (gen_allocations g) u) -> wf_states (state_updates s)).
Proof using slot_felt.
  intros [Hcls _ _]. unfold dev_state_updates.
  destruct (add_classes_spec is_legacy casm_hash (gen_classes g) States_default Hcls) as (s0 & -> & Ho);
    [done|].
  cbn [mbind option_bind]. intros [= <-]. exists (state_updates s0). split_and!; [done|done|]. intros Hw.
  cbn -[fold_left or_insert]. apply with_contracts_wf.
  { intros m Hm. by apply wf_map_or_insert; [apply felt_constant|..]. }
  assert (forall a st u, is_felt a -> wf_slots st -> wf_states u ->
            wf_states (set_storage a st (with_contracts (btree_insert a DEFAULT_LEGACY_ERC20_CLASS_HASH) u)))
    as Hstep.
  { intros a st u Ha Hst Hu. apply set_storage_wf; [done..|]. apply with_contracts_wf; [|done].
    intros m Hm. by apply wf_map_insert. }
  assert (forall h u, wf_states u -> wf_states (declare_deprecated h u)) as Hdep by (by intros h u []).
  apply Hdep. apply Hstep; [by apply felt_constant|apply token_storage_wf|].
  apply Hstep; [by apply felt_constant|apply token_storage_wf|done].
Qed.

Lemma genesis_wf g s : wf_genesis g -> genesis_states g = Some s -> wf_states (state_updates s).
Proof using slot_felt.
  intros Hg Hs. destruct (genesis_allocated g s Hg Hs) as (u & (H1 & H2 & H3) & _ & Hw). apply Hw.
  assert (wf_states u) as Hu by (split; rewrite ?H1, ?H2, ?H3; apply wf_map_nil).
  destruct Hg as [_ [_ Hf] _]. clear Hw H1 H2 H3. revert u Hu. induction Hf as [|[a alloc] l [Ha [Hst _]] _ IH];
    intros u Hu; [done|]. simpl. apply IH. by apply add_allocation_wf.
Qed.

(** A contract of the genesis that has a nonce has a class. *)
Lemma genesis_nonce_known g s a :
  wf_genesis g -> genesis_states g = Some s ->
  is_Some (btree_get a (nonce_updates (state_updates s))) ->
  is_Some (btree_get a (deployed_contracts (state_updates s))).
Proof using slot_felt.
  intros Hg Hs Hn. destruct (genesis_allocated g s Hg Hs) as (u & (H1 & _) & Hnu & _).
  rewrite Hnu in Hn.
  destruct (dev_genesis_deployed erc20 udc is_legacy casm_hash get_storage_var_address g s) as [Ha Ht];
    [apply Hg|apply btree_sorted_NoDup, Hg|done|].
  destruct (decide (a ∈ map fst (gen_allocations g))) as [Hin|Hni].
  - destruct (decide (a ∈ fee_tokens)) as [Htok|Htok]; [by rewrite (Ht a Htok)|].
    apply list_elem_of_fmap in Hin as ([a' alloc] & -> & Hin).
    destruct (wg_allocations g Hg) as [_ Hf]. rewrite Forall_forall in Hf. destruct (Hf _ Hin) as [_ [_ Hc]].
    destruct (Ha _ alloc Hin Htok Hc) as (Hd & _). simpl in *. by rewrite Hd.
  - destruct (add_allocations_keep (gen_allocations g) u a Hni) as (_ & Hk & _). rewrite Hk, H1 in Hn.
    by destruct Hn.
Qed.
End Genesis.

(** ** The node over the genesis block *)
Section Served.
Context `{MD : Mdbx} `{RT : RoaringTreemap} `{FP : FeltPostcard} {C Vm Info ExecErr T : Type}.
Context `{TW : !TrieWriter T} (poseidon : list Z -> Z).
Context (erc20 udc : C) (is_legacy : C -> bool) (casm_hash : C -> option Z).
Context (get_storage_var_address : string -> list Z -> Z).
Abbreviation genesis_states := (dev_state_updates erc20 udc is_legacy casm_hash get_storage_var_address).
Abbreviation base_slot := (get_fee_token_balance_base_storage_address get_storage_var_address).
Implicit Types (api : StarknetApi C Vm Info ExecErr).
Abbreviation Ins := (@Insertion C (Receipt Vm) (TypedTransactionExecutionInfo Info)).

(** The genesis block is the only one, and it holds the state. *)
Lemma genesis_inserted (g : Genesis C) s (t : T) c :
  init_dev_genesis (Vm := Vm) (Trace := Info) poseidon (gen_number g) (dev_block g) s
    (mkChain Db_empty t) = Ok c ->
  exists i : Ins, chain_db c = db_of [i] /\ ins_states i = s /\ ins_number i = gen_number g /\
    ins_body i = [] /\ ins_receipts i = [] /\ ins_executions i = [].
Proof.
  unfold init_dev_genesis, block_hash_by_num. simpl. rewrite t_get_empty. simpl.
  intros ([r1 t1] & _ & Hinit)%bind_ok. apply bind_ok in Hinit as ([r2 t2] & _ & [= <-]).
  match goal with |- context [insert_block_with_states_and_receipts ?b _ _ _ _] =>
    exists (mkInsertion b s [] []) end.
  done.
Qed.

Section OneBlock.
Variables (i : Ins) (g : Genesis C) (s : StateUpdatesWithClasses C).
Hypothesis Hst : ins_states i = s.
Hypothesis Hnum : ins_number i = gen_number g.
Hypothesis Hwf : wf_states (state_updates s).
Hypothesis Hknown : forall a, is_Some (btree_get a (nonce_updates (state_updates s))) ->
  is_Some (btree_get a (deployed_contracts (state_updates s))).

Lemma one_block_wf : wf_chain [i].
Proof using Hst Hwf.
  split; [repeat constructor|]. repeat constructor; unfold ins_updates; rewrite Hst;
    apply wf_states_updates in Hwf; apply Hwf.
Qed.

Lemma one_block_classes n a :
  value_at (class_log [i]) n a
  = if decide (gen_number g <= n) then btree_get a (deployed_contracts (state_updates s)) else None.
Proof using Hst Hnum.
  unfold class_log, ins_updates, value_at. simpl. rewrite Hnum, Hst, assoc_btree.
  case_decide; [by destruct (btree_get _ _)|done].
Qed.

Lemma one_block_nonces : nonces_deployed [i].
Proof using Hst Hnum Hknown.
  intros n a. rewrite one_block_classes. unfold nonce_log, ins_updates, value_at. simpl.
  rewrite Hnum, Hst, assoc_btree. case_decide; [|by intros []]. specialize (Hknown a).
  destruct (btree_get a (nonce_updates _)); [intros _; by apply Hknown|by intros []].
Qed.

Lemma one_block_storage key :
  value_at (storage_log [i]) (gen_number g) key
  = assoc key (storage_entries (storage_updates (state_updates s))).
Proof using Hst Hnum.
  unfold storage_log, ins_updates, value_at. simpl. rewrite Hnum, Hst, decide_True by done.
  by destruct (assoc _ _).
Qed.
End OneBlock.

(** What the node over the genesis block answers. *)
Lemma genesis_reads (g : Genesis C) s (t : T) c api id a k :
  (forall name args, is_felt (get_storage_var_address name args)) ->
  wf_genesis is_legacy casm_hash get_storage_var_address g -> genesis_states g = Some s ->
  init_dev_genesis (Vm := Vm) (Trace := Info) poseidon (gen_number g) (dev_block g) s
    (mkChain Db_empty t) = Ok c ->
  sa_db api = chain_db c ->
  id = IdNumber (gen_number g) \/ id = IdTag Latest \/
    (id = IdTag PendingTag /\ pending_executor api = None) ->
  let class := btree_get a (deployed_contracts (state_updates s)) in
  class_hash_at_address poseidon api id a
    = (if Z.eqb a 1 then ret 0 else required class ContractNotFound) /\
  storage_at poseidon api a k id
    = (if Z.eqb a 1 || bool_decide (is_Some class)
       then ret (default 0 (assoc {| csk_contract_address := a; csk_key := k |}
                              (storage_entries (storage_updates (state_updates s)))))
       else fail ContractNotFound).
Proof.
  intros Hfelt Hg Hs Hinit Hdb Hid. cbn zeta.
  destruct (genesis_inserted g s t c Hinit) as (i & Hc & Hst & Hnum & Hb & Hr & Hx). rewrite Hc in Hdb.
  pose proof (genesis_wf erc20 udc is_legacy casm_hash get_storage_var_address Hfelt g s Hg Hs) as Hwf.
  assert (wf_rows [i]) as Hrows.
  { unfold wf_rows, all_txs. simpl. rewrite Hb. simpl. split_and!; [apply NoDup_singleton..|constructor|].
    constructor; [|constructor]. by rewrite Hr, Hx, Hb. }
  destruct (class_and_storage_answered poseidon [i] api [] i [] id a k (one_block_wf i s Hst Hwf) Hrows Hdb)
    as [H1 H2].
  - eapply one_block_nonces; [done..|]. intros b.
    by apply (genesis_nonce_known erc20 udc is_legacy casm_hash get_storage_var_address Hfelt g s b).
  - done.
  - rewrite <- Hnum in Hid. destruct Hid as [->|[->|[-> Hp]]]; [by left|by right; right; auto..].
  - rewrite Hnum, (one_block_storage i g s Hst Hnum) in H2.
    rewrite Hnum, (one_block_classes i g s Hst Hnum), decide_True in H1 by done.
    rewrite (one_block_classes i g s Hst Hnum), decide_True in H2 by done. done.
Qed.

(** C18. From the specification to the answers: the node over the genesis block gives every
    allocation, other than a fee token or the system contract 0x1, the class it was
    allocated with, and the storage of both fee tokens holds its balance, low half first. *)
Theorem dev_genesis_served (g : Genesis C) s (t : T) c api id a alloc :
  (forall name args, is_felt (get_storage_var_address name args)) ->
  wf_genesis is_legacy casm_hash get_storage_var_address g -> genesis_states g = Some s ->
  init_dev_genesis (Vm := Vm) (Trace := Info) poseidon (gen_number g) (dev_block g) s
    (mkChain Db_empty t) = Ok c ->
  sa_db api = chain_db c ->
  id = IdNumber (gen_number g) \/ id = IdTag Latest \/
    (id = IdTag PendingTag /\ pending_executor api = None) ->
  (a, alloc) ∈ gen_allocations g ->
  (~ a ∈ fee_tokens -> a <> 1 ->
     class_hash_at_address poseidon api id a = required (alloc_class_hash alloc) ContractNotFound) /\
  (forall token b, token ∈ fee_tokens -> alloc_balance alloc = Some b -> 0 <= b < 2 ^ 256 ->
     exists low high, storage_at poseidon api token (base_slot a) id = ret low /\
       storage_at poseidon api token (felt_add (base_slot a) 1) id = ret high /\
       low + 2 ^ 128 * high = b).
Proof.
  intros Hfelt Hg Hs Hinit Hdb Hid Hin.
  assert (forall a k, _) as Hread by (intros a' k; exact (genesis_reads g s t c api id a' k Hfelt Hg Hs Hinit Hdb Hid)).
  destruct (dev_genesis_deployed erc20 udc is_legacy casm_hash get_storage_var_address g s) as [Ha Ht];
    [apply Hg|apply btree_sorted_NoDup, Hg|done|].
  destruct (wg_allocations _ _ _ g Hg) as [_ Hf]. rewrite Forall_forall in Hf.
  destruct (Hf _ Hin) as [_ [_ Hcls]]. split.
  - intros Htok H1. destruct (Ha a alloc Hin Htok Hcls) as (Hd & _). destruct (Hread a 0) as [-> _].
    by rewrite Hd, (proj2 (Z.eqb_neq a 1) H1).
  - intros token b Htok Hb Hr.
    destruct (dev_genesis_token erc20 udc is_legacy casm_hash get_storage_var_address g s token Hs Htok)
      as (name & symbol & Hst).
    destruct (token_storage_holds get_storage_var_address name symbol 18 (gen_allocations g)) as [Hh _];
      [apply Hg|].
    destruct (Hh a alloc b Hin Hb Hr) as (low & high & Hl & Hhi & Heq). exists low, high.
    pose proof (genesis_wf erc20 udc is_legacy casm_hash get_storage_var_address Hfelt g s Hg Hs) as [_ _ Hws].
    assert (forall k v, btree_get k (fee_token_storage get_storage_var_address name symbol 18 (gen_allocations g)) = Some v ->
              storage_at poseidon api token k id = ret v) as Hslot.
    { intros k v Hk. destruct (Hread token k) as [_ ->]. rewrite (Ht token Htok), bool_decide_true, orb_true_r by done.
      by rewrite (assoc_storage _ _ _ _ _ Hws Hst Hk). }
    split_and!; auto.
Qed.
End Served.

(** ** Witness: the genesis of two allocations *)
#[local] Instance still_trie : TrieWriter unit := {
  trie_insert_declared_classes n c t := Ok (5, tt);
  trie_insert_contract_updates n u t := Ok (6, tt);
}.
Lemma demo_genesis_wf : wf_genesis demo_legacy demo_casm demo_slot demo_genesis.
Proof.
  split; [exact demo_declarable| |exact demo_slots_apart].
  split; [by repeat constructor|]. repeat constructor; (by eexists) || done.
Qed.
Definition demo_states : StateUpdatesWithClasses Z :=
  default States_default (dev_state_updates 1 2 demo_legacy demo_casm demo_slot demo_genesis).
Definition demo_chain : @Chain _ _ Z unit unit unit :=
  match init_dev_genesis (Vm := unit) (Trace := unit) sum (gen_number demo_genesis) (dev_block demo_genesis)
          demo_states (mkChain Db_empty tt) with
  | Ok c => c
  | Err _ => mkChain Db_empty tt
  end.
Definition demo_server : StarknetApi Z unit unit unit :=
  mkStarknetApi (fun _ => None) (fun _ => Ok None) (chain_db demo_chain) no_tries None None None None.

Lemma dev_genesis_served_witness :
  class_hash_at_address sum demo_server (IdTag Latest) 5 = ret 4 /\
  exists low high,
    storage_at sum demo_server DEFAULT_STRK_FEE_TOKEN_ADDRESS (demo_slot "ERC20_balances" [5]) (IdTag Latest)
      = ret low /\
    low + 2 ^ 128 * high = 2 ^ 128 + 9.
Proof.
  destruct (dev_genesis_served sum 1 2 demo_legacy demo_casm demo_slot demo_genesis demo_states tt demo_chain
              demo_server (IdTag Latest) 5
              (AllocatedAccount (AllocAccount (mkGenesisAccount 99 4 (Some (2 ^ 128 + 9)) None None 666))))
    as [Hc Hb].
  - intros name args. apply Z.mod_pos_bound. reflexivity.
  - exact demo_genesis_wf.
  - reflexivity.
  - reflexivity.
  - reflexivity.
  - right. by left.
  - set_solver.
  - split; [apply Hc; [by apply (bool_decide_unpack _)|done]|].
    destruct (Hb DEFAULT_STRK_FEE_TOKEN_ADDRESS (2 ^ 128 + 9)) as (low & high & H1 & _ & H3);
      [set_solver|done|done|]. exists low, high. split; [exact H1|exact H3].
Defined.
