(* ===== verification/StateTrie.v ===== *)
(** * The state tries (provider's db/trie.rs, trie/src/, the genesis writer of core's backend)

    The writers that put a block's updates into the tries of classes, of contracts and of
    each contract's storage, and give the roots.  A Bonsai trie is its contents, a map
    from 251-bit keys, with the root of the contents a parameter.  The contracts trie
    holds, for each contract, the hash of its class, storage root and nonce; what an update
    leaves out is read from the provider's latest state, which is the one before the
    block. *)

From Stdlib Require Import ZArith Lia String.
From stdpp Require Import base numbers list gmap.
From S2P Require Import Prelude BTreeMap Felt Tx Version Block Receipt Codec Versioned Mdbx DbProvider DbState.

(** A key is the last 251 bits of the field element. *)
Definition trie_key (key : Z) : Z := key mod 2 ^ 251.
(** The library takes a zero for the removal of the key; here the key keeps the zero, and
    the root, a parameter, is of the contents with their zeros. *)
Definition bonsai_insert (key value : Z) (trie : gmap Z Z) : gmap Z Z := <[trie_key key := value]> trie.

Record ContractLeaf := mkContractLeaf {
  leaf_class_hash : option Z;
  leaf_storage_root : option Z;
  leaf_nonce : option Z;
}.
Definition ContractLeaf_default : ContractLeaf := mkContractLeaf None None None.
Definition set_leaf_class (class_hash : Z) (l : ContractLeaf) : ContractLeaf :=
  mkContractLeaf (Some class_hash) (leaf_storage_root l) (leaf_nonce l).
Definition set_leaf_root (root : Z) (l : ContractLeaf) : ContractLeaf :=
  mkContractLeaf (leaf_class_hash l) (Some root) (leaf_nonce l).
Definition set_leaf_nonce (nonce : Z) (l : ContractLeaf) : ContractLeaf :=
  mkContractLeaf (leaf_class_hash l) (leaf_storage_root l) (Some nonce).

(** [contract_leafs.entry(address).or_default().field = Some(value)] for each pair. *)
Definition set_leafs {V} (set : V -> ContractLeaf -> ContractLeaf) (updates : list (Z * V))
    (leafs : gmap Z ContractLeaf) : gmap Z ContractLeaf :=
  fold_left (fun leafs e => <[e.1 := set e.2 (default ContractLeaf_default (leafs !! e.1))]> leafs)
    updates leafs.

Record StateTries := mkStateTries {
  st_classes : gmap Z Z;
  st_contracts : gmap Z Z;
  st_storages : gmap Z (gmap Z Z);        (* one trie per contract address *)
}.
Definition StateTries_empty : StateTries := mkStateTries ∅ ∅ ∅.

Section Tries.
Context `{MD : Mdbx} `{RT : RoaringTreemap} `{FP : FeltPostcard} {C R X : Type}.
(** The hashes of two elements; the roots of tries hashed with each. *)
Context (pedersen_hash poseidon_hash : Z -> Z -> Z) (pedersen_root poseidon_root : gmap Z Z -> Z).
Implicit Types (db : Db C R X) (t : StateTries) (u : StateUpdates).

Definition compute_classes_trie_value (compiled_class_hash : Z) : Z :=
  poseidon_hash (short_string "CONTRACT_CLASS_LEAF_V0") compiled_class_hash.
Definition compute_contract_state_hash (class_hash storage_root nonce : Z) : Z :=
  pedersen_hash (pedersen_hash (pedersen_hash class_hash storage_root) nonce) 0.

Definition insert_classes (updates : list (Z * Z)) (trie : gmap Z Z) : gmap Z Z :=
  fold_left (fun trie e => bonsai_insert e.1 (compute_classes_trie_value e.2) trie) updates trie.
Definition insert_values (updates : list (Z * Z)) (trie : gmap Z Z) : gmap Z Z :=
  fold_left (fun trie e => bonsai_insert e.1 e.2 trie) updates trie.

Definition storage_trie t (address : Z) : gmap Z Z := default ∅ (st_storages t !! address).

(** ** [DbProvider] as a [TrieWriter] *)
Definition db_insert_declared_classes (updates : list (Z * Z)) t : Z * StateTries :=
  let trie := insert_classes updates (st_classes t) in
  (poseidon_root trie, mkStateTries trie (st_contracts t) (st_storages t)).

Definition insert_storages (updates : list (Z * list (Z * Z))) t : StateTries :=
  fold_left (fun t e =>
    mkStateTries (st_classes t) (st_contracts t)
      (<[e.1 := insert_values e.2 (storage_trie t e.1)]> (st_storages t))) updates t.

(** The contracts the updates touch, with what they say of the nonce and the class. *)
Definition contract_leafs u : gmap Z ContractLeaf :=
  let leafs := fold_left (fun leafs e => <[e.1 := ContractLeaf_default]> leafs) (storage_updates u) ∅ in
  let leafs := set_leafs set_leaf_nonce (nonce_updates u) leafs in
  let leafs := set_leafs set_leaf_class (deployed_contracts u) leafs in
  set_leafs set_leaf_class (replaced_classes u) leafs.

(** [None] is the panic of a read that fails, or of a root that is not set. *)
Definition contract_state_leaf_hash db (address : Z) (leaf : ContractLeaf) : option Z :=
  match latest_nonce db address, latest_class_hash_of_contract db address, leaf_storage_root leaf with
  | Ok stored_nonce, Ok stored_class, Some storage_root =>
      let nonce := default (default 0 stored_nonce) (leaf_nonce leaf) in
      let class_hash := default (default 0 stored_class) (leaf_class_hash leaf) in
      Some (compute_contract_state_hash class_hash storage_root nonce)
  | _, _, _ => None
  end.

Definition db_insert_contract_updates db u t : option (Z * StateTries) :=
  let t := insert_storages (storage_updates u) t in
  leaf_hashes ← mapM (fun '(address, leaf) =>
                        let leaf := set_leaf_root (pedersen_root (storage_trie t address)) leaf in
                        hash ← contract_state_leaf_hash db address leaf;
                        Some (address, hash)) (map_to_list (contract_leafs u));
  let contracts := insert_values leaf_hashes (st_contracts t) in
  Some (pedersen_root contracts, mkStateTries (st_classes t) contracts (st_storages t)).

(** ** [GenesisTrieWriter]: the same on tries in memory, with nothing stored yet *)
Definition genesis_insert_declared_classes (updates : list (Z * Z)) : Z :=
  poseidon_root (insert_classes updates ∅).

Definition genesis_leafs u : gmap Z ContractLeaf :=
  let leafs := set_leafs set_leaf_nonce (nonce_updates u) ∅ in
  let leafs := set_leafs set_leaf_class (deployed_contracts u) leafs in
  let leafs := set_leafs set_leaf_class (replaced_classes u) leafs in
  set_leafs (fun entries => set_leaf_root (pedersen_root (insert_values entries ∅))) (storage_updates u) leafs.

(** [None] is the [unwrap] of a contract without a class. *)
Definition genesis_leaf_hash (leaf : ContractLeaf) : option Z :=
  class_hash ← leaf_class_hash leaf;
  let nonce := default 0 (leaf_nonce leaf) in
  let storage_root := default 0 (leaf_storage_root leaf) in
  Some (compute_contract_state_hash class_hash storage_root nonce).

Definition genesis_insert_contract_updates u : option Z :=
  leaf_hashes ← mapM (fun '(address, leaf) => hash ← genesis_leaf_hash leaf; Some (address, hash))
                  (map_to_list (genesis_leafs u));
  Some (pedersen_root (insert_values leaf_hashes ∅)).
End Tries.
