(* ===== verification/StateTrieProofs.v ===== *)
(** * What the state tries hold

    After the updates of a chain of blocks the tries hold the state of the chain: each
    storage trie the storage of its contract, the contracts trie the hash of the class,
    storage root and nonce of every contract a block touched, so that the root commits to
    the state after the last block.  The writer that checks a stored genesis gives the roots
    the provider gave when it was stored. *)

From Stdlib Require Import ZArith Lia String.
From stdpp Require Import base numbers list gmap.
From S2P Require Import Prelude BTreeMap Felt Tx Version Block Receipt Codec Versioned Mdbx DbProvider DbState ChangeLog DbHistory DbLatest RpcStarknetProofs StateTrie.

Definition small_key (k : Z) : Prop := 0 <= k < 2 ^ 251.
Lemma trie_key_small k : small_key k -> trie_key k = k.
Proof. apply Z.mod_small. Qed.

(** ** Folds over updates *)
Lemma insert_values_lookup l m k :
  NoDup (map fst l) -> Forall small_key (map fst l) ->
  insert_values l m !! k = match assoc k l with Some v => Some v | None => m !! k end.
Proof.
  revert m. induction l as [|[k' v] l IH]; intros m Hnd Hs; [done|]. simpl in *.
  apply NoDup_cons in Hnd as [Hni Hnd]. apply Forall_cons in Hs as [Hk Hs].
  unfold insert_values in *. simpl. rewrite IH by done. unfold bonsai_insert.
  rewrite trie_key_small by done. destruct (decide (k = k')) as [->|Hne].
  - rewrite (proj2 (assoc_None k' l) Hni). by rewrite lookup_insert_eq.
  - by rewrite lookup_insert_ne by done.
Qed.

Lemma set_leafs_lookup {V} (set : V -> ContractLeaf -> ContractLeaf) l m a :
  NoDup (map fst l) ->
  set_leafs set l m !! a
  = match assoc a l with
    | Some v => Some (set v (default ContractLeaf_default (m !! a)))
    | None => m !! a
    end.
Proof.
  revert m. induction l as [|[a' v] l IH]; intros m Hnd; [done|]. simpl in *.
  apply NoDup_cons in Hnd as [Hni Hnd]. unfold set_leafs in *. simpl. rewrite IH by done.
  destruct (decide (a = a')) as [->|Hne].
  - rewrite (proj2 (assoc_None a' l) Hni). by rewrite lookup_insert_eq.
  - by rewrite !lookup_insert_ne by done.
Qed.

Lemma default_leafs_lookup {V} (l : list (Z * V)) (m : gmap Z ContractLeaf) a :
  fold_left (fun leafs e => <[e.1 := ContractLeaf_default]> leafs) l m !! a
  = match assoc a l with Some _ => Some ContractLeaf_default | None => m !! a end.
Proof.
  revert m. induction l as [|[a' v] l IH]; intros m; [done|]. simpl. rewrite IH.
  destruct (assoc a l) eqn:Ha; [by case_decide|].
  case_decide as Heq; [subst; by rewrite lookup_insert_eq|by rewrite lookup_insert_ne].
Qed.

Lemma mapM_pure {A B} (f : A -> option B) g l :
  (forall x, f x = Some (g x)) -> mapM f l = Some (map g l).
Proof. intros Hf. induction l as [|x l IH]; simpl; [done|]. by rewrite Hf; simpl; rewrite IH. Qed.

Section Tries.
Context `{MD : Mdbx} `{RT : RoaringTreemap} `{FP : FeltPostcard} {C R X : Type}.
Context (pedersen_hash poseidon_hash : Z -> Z -> Z) (pedersen_root poseidon_root : gmap Z Z -> Z).
Implicit Types (db : Db C R X) (t : StateTries) (u : StateUpdates).
Abbreviation Ins := (@Insertion C R X).
Abbreviation state_hash := (compute_contract_state_hash pedersen_hash).

(** The maps of an update are maps, their keys fit the tries, and no class is replaced. *)
Record trie_update u : Prop := {
  tu_storage : NoDup (map fst (storage_updates u)) /\ Forall small_key (map fst (storage_updates u));
  tu_slots : Forall (fun e => NoDup (map fst e.2) /\ Forall small_key (map fst e.2)) (storage_updates u);
  tu_nonces : NoDup (map fst (nonce_updates u)) /\ Forall small_key (map fst (nonce_updates u));
  tu_deployed : NoDup (map fst (deployed_contracts u)) /\ Forall small_key (map fst (deployed_contracts u));
  tu_declared : NoDup (map fst (declared_classes u)) /\ Forall small_key (map fst (declared_classes u));
  tu_replaced : replaced_classes u = [];
}.

Definition touches u (a : Z) : Prop :=
  is_Some (assoc a (storage_updates u)) \/ is_Some (assoc a (nonce_updates u)) \/
  is_Some (assoc a (deployed_contracts u)).
#[local] Instance touches_dec u a : Decision (touches u a).
Proof. unfold touches. apply _. Defined.

(** The leaf of a contract the update touches. *)
Lemma contract_leafs_lookup u a :
  trie_update u ->
  contract_leafs u !! a
  = if decide (touches u a)
    then Some (mkContractLeaf (assoc a (deployed_contracts u)) None (assoc a (nonce_updates u)))
    else None.
Proof.
  intros [_ _ [Hn _] [Hd _] _ Hr]. unfold contract_leafs. rewrite Hr. cbn [set_leafs fold_left].
  rewrite !set_leafs_lookup, default_leafs_lookup, lookup_empty by done.
  case_decide as Ht; unfold touches in Ht;
    destruct (assoc a (deployed_contracts u)), (assoc a (nonce_updates u)), (assoc a (storage_updates u));
    simpl; try done; try (by destruct Ht; eauto); by destruct Ht as [[]|[[]|[]]].
Qed.

Lemma storage_trie_insert cls ctr t a a' trie :
  storage_trie (mkStateTries cls ctr (<[a' := trie]> (st_storages t))) a
  = if decide (a = a') then trie else storage_trie t a.
Proof.
  unfold storage_trie. simpl. case_decide as Ha; [subst; by rewrite lookup_insert_eq|].
  by rewrite lookup_insert_ne by done.
Qed.

Lemma insert_storages_trie (l : list (Z * list (Z * Z))) t a :
  NoDup (map fst l) ->
  storage_trie (insert_storages l t) a
  = match assoc a l with
    | Some entries => insert_values entries (storage_trie t a)
    | None => storage_trie t a
    end /\
  st_classes (insert_storages l t) = st_classes t /\ st_contracts (insert_storages l t) = st_contracts t.
Proof.
  unfold insert_storages. revert t. induction l as [|[a' entries] l IH]; intros t Hnd; [done|]. simpl in *.
  apply NoDup_cons in Hnd as [Hni Hnd].
  destruct (IH (mkStateTries (st_classes t) (st_contracts t)
                  (<[a' := insert_values entries (storage_trie t a')]> (st_storages t))) Hnd) as (Ht & -> & ->).
  split; [|done]. rewrite Ht, storage_trie_insert.
  destruct (decide (a = a')) as [->|Hne]; [by rewrite (proj2 (assoc_None a' l) Hni)|done].
Qed.

Lemma leafs_keys {B} (h : Z -> ContractLeaf -> B) u :
  trie_update u ->
  NoDup (map fst (map (fun '(a, leaf) => (a, h a leaf)) (map_to_list (contract_leafs u)))) /\
  Forall small_key (map fst (map (fun '(a, leaf) => (a, h a leaf)) (map_to_list (contract_leafs u)))).
Proof.
  intros Hu.
  assert (map fst (map (fun '(a, leaf) => (a, h a leaf)) (map_to_list (contract_leafs u)))
          = (map_to_list (contract_leafs u)).*1) as ->.
  { rewrite map_map. apply map_ext. by intros []. }
  split; [apply NoDup_fst_map_to_list|]. apply Forall_forall.
  intros a ([a' leaf] & -> & Hin%elem_of_map_to_list)%list_elem_of_fmap. simpl.
  rewrite contract_leafs_lookup in Hin by done. case_decide as Ht; [|done].
  assert (forall V (l : list (Z * V)), Forall small_key (map fst l) -> is_Some (assoc a' l) -> small_key a') as Hk.
  { intros V l Hl [v Hv]. rewrite Forall_forall in Hl. apply Hl.
    destruct (decide (a' ∈ map fst l)) as [|Hni]; [done|]. apply assoc_None in Hni. congruence. }
  destruct Ht as [Ht|[Ht|Ht]]; eapply Hk; try exact Ht; apply Hu.
Qed.

(** One block: the tries change exactly at what the update touches. *)
Lemma contract_updates_spec db u t :
  trie_update u ->
  exists root t', db_insert_contract_updates pedersen_hash pedersen_root db u t = Some (root, t') /\
    root = pedersen_root (st_contracts t') /\ st_classes t' = st_classes t /\
    (forall a, storage_trie t' a
       = match assoc a (storage_updates u) with
         | Some entries => insert_values entries (storage_trie t a)
         | None => storage_trie t a
         end) /\
    (forall a, st_contracts t' !! a
       = if decide (touches u a)
         then let info := t_get (ContractInfo (db_contracts db)) a in
              Some (state_hash (default (default 0 (gci_class_hash <$> info)) (assoc a (deployed_contracts u)))
                      (pedersen_root (storage_trie t' a))
                      (default (default 0 (gci_nonce <$> info)) (assoc a (nonce_updates u))))
         else st_contracts t !! a).
Proof.
  intros Hu. unfold db_insert_contract_updates.
  set (t1 := insert_storages (storage_updates u) t).
  set (h a leaf := state_hash
            (default (default 0 (gci_class_hash <$> t_get (ContractInfo (db_contracts db)) a))
               (leaf_class_hash leaf)) (pedersen_root (storage_trie t1 a))
            (default (default 0 (gci_nonce <$> t_get (ContractInfo (db_contracts db)) a)) (leaf_nonce leaf))).
  rewrite (mapM_pure _ (fun '(a, leaf) => (a, h a leaf))) by (by intros []).
  eexists _, _. split; [done|]. cbn [st_contracts st_classes].
  assert (forall a, storage_trie (mkStateTries (st_classes t1)
            (insert_values (map (fun '(a, leaf) => (a, h a leaf)) (map_to_list (contract_leafs u))) (st_contracts t1))
            (st_storages t1)) a = storage_trie t1 a) as Hst by done.
  pose proof (fun a => insert_storages_trie (storage_updates u) t a (proj1 (tu_storage u Hu))) as Hins.
  split; [done|]. split; [apply (Hins 0)|]. split; [intros a; apply Hins|]. intros a. rewrite Hst.
  rewrite insert_values_lookup, assoc_map_values, assoc_map_to_list, contract_leafs_lookup by
    (done || by apply leafs_keys).
  assert (st_contracts t1 = st_contracts t) as -> by apply (Hins 0). by destruct (decide (touches u a)).
Qed.

(** ** A chain of blocks *)
Definition write_block db u t : option (Z * Z * StateTries) :=
  let '(class_root, t) := db_insert_declared_classes poseidon_hash poseidon_root (declared_classes u) t in
  '(contract_root, t) ← db_insert_contract_updates pedersen_hash pedersen_root db u t;
  Some (class_root, contract_root, t).

(** Each block's updates are written over the state of the blocks before it. *)
Fixpoint write_chain (pre todo : list Ins) t : option StateTries :=
  match todo with
  | [] => Some t
  | i :: todo =>
      '(_, t) ← write_block (db_of pre) (ins_updates i) t;
      write_chain (pre ++ [i]) todo t
  end.

Definition touched (chain : list Ins) (a : Z) : Prop := Exists (fun i => touches (ins_updates i) a) chain.
#[local] Instance touched_dec chain a : Decision (touched chain a).
Proof. unfold touched. apply _. Defined.
Definition declared_log (chain : list Ins) : list (Z * list (Z * Z)) :=
  map (fun i => (ins_number i, declared_classes (ins_updates i))) chain.

(** The tries hold the state after the chain. *)
Record tries_hold (chain : list Ins) t : Prop := {
  th_storage a k : storage_trie t a !! k
    = latest_of (storage_log chain) {| csk_contract_address := a; csk_key := k |};
  th_contracts a : st_contracts t !! a
    = if decide (touched chain a)
      then Some (state_hash (default 0 (latest_of (class_log chain) a)) (pedersen_root (storage_trie t a))
                   (default 0 (latest_of (nonce_log chain) a)))
      else None;
  th_classes h : st_classes t !! h
    = compute_classes_trie_value poseidon_hash <$> latest_of (declared_log chain) h;
}.

Lemma assoc_entries (l : list (Z * list (Z * Z))) a k :
  NoDup (map fst l) ->
  assoc {| csk_contract_address := a; csk_key := k |} (storage_entries l)
  = match assoc a l with Some entries => assoc k entries | None => None end.
Proof.
  induction l as [|[a' entries] l IH]; [done|]. intros [Hni Hnd]%NoDup_cons.
  cbn [storage_entries flat_map fst snd]. fold (storage_entries l).
  assert (forall (es : list (Z * Z)) rest, assoc {| csk_contract_address := a; csk_key := k |}
            (map (fun e => ({| csk_contract_address := a'; csk_key := e.1 |}, e.2)) es ++ rest)
          = if decide (a = a') then match assoc k es with
                                    | Some v => Some v
                                    | None => assoc {| csk_contract_address := a; csk_key := k |} rest
                                    end
            else assoc {| csk_contract_address := a; csk_key := k |} rest) as Happ.
  { induction es as [|[k' v] es IHes]; intros rest; simpl; [by case_decide|]. rewrite IHes.
    destruct (decide (a = a')) as [->|Hne].
    - destruct (decide (k = k')) as [->|Hk]; [by rewrite decide_True|]. rewrite decide_False; [done|].
      intros [= ->]. done.
    - rewrite decide_False; [done|]. by intros [= ->]. }
  rewrite Happ, IH by done. simpl. destruct (decide (a = a')) as [->|]; [|done].
  rewrite (proj2 (assoc_None a' l) Hni). by destruct (assoc k entries).
Qed.

Lemma touched_snoc chain i a : touched (chain ++ [i]) a <-> touched chain a \/ touches (ins_updates i) a.
Proof. unfold touched. by rewrite Exists_app, Exists_cons, Exists_nil; naive_solver. Qed.

Lemma insert_classes_lookup l m k :
  NoDup (map fst l) -> Forall small_key (map fst l) ->
  insert_classes poseidon_hash l m !! k
  = match assoc k l with
    | Some v => Some (compute_classes_trie_value poseidon_hash v)
    | None => m !! k
    end.
Proof.
  intros Hnd Hs.
  assert (insert_classes poseidon_hash l m
          = insert_values (map (fun e => (e.1, compute_classes_trie_value poseidon_hash e.2)) l) m) as ->.
  { unfold insert_classes, insert_values. clear. revert m. induction l as [|e l IH]; intros m; [done|]. apply IH. }
  rewrite insert_values_lookup by (by rewrite map_map).
  clear. induction l as [|[k' v] l IH]; [done|]. simpl. by case_decide.
Qed.

Lemma write_block_holds chain i t :
  wf_chain chain -> trie_update (ins_updates i) -> tries_hold chain t ->
  exists class_root contract_root t',
    write_block (db_of chain) (ins_updates i) t = Some (class_root, contract_root, t') /\
    class_root = poseidon_root (st_classes t') /\ contract_root = pedersen_root (st_contracts t') /\
    tries_hold (chain ++ [i]) t'.
Proof.
  intros Hwf Hu [Hs Hc Hd]. unfold write_block, db_insert_declared_classes.
  set (t1 := mkStateTries (insert_classes poseidon_hash (declared_classes (ins_updates i)) (st_classes t))
               (st_contracts t) (st_storages t)).
  destruct (contract_updates_spec (db_of chain) (ins_updates i) t1 Hu) as (root & t' & -> & Hroot & Hcls & Hst & Hct).
  eexists _, _, _. split; [done|]. split; [by rewrite Hcls|]. split; [done|].
  assert (forall a, storage_trie t1 a = storage_trie t a) as Ht1 by done.
  split.
  - intros a k. rewrite Hst, Ht1. unfold storage_log. rewrite map_app. cbn [map]. rewrite latest_of_snoc.
    rewrite assoc_entries by apply Hu. destruct (assoc a (storage_updates (ins_updates i))) as [entries|] eqn:Ha;
      [|apply Hs].
    pose proof (tu_slots _ Hu) as Hsl. rewrite Forall_forall in Hsl.
    destruct (Hsl (a, entries)) as [H1 H2].
    { apply assoc_elem in Ha; [done|apply Hu]. }
    simpl in H1, H2. rewrite insert_values_lookup by done. destruct (assoc k entries); [done|apply Hs].
  - intros a. rewrite Hct, contract_infos by done.
    unfold class_log, nonce_log in *. rewrite !map_app. cbn [map]. rewrite !latest_of_snoc.
    destruct (decide (touches (ins_updates i) a)) as [Ht|Ht].
    + rewrite decide_True by (apply touched_snoc; auto). unfold info_of.
      destruct (assoc a (deployed_contracts (ins_updates i))), (assoc a (nonce_updates (ins_updates i)));
        destruct (latest_of (map (fun i => (ins_number i, nonce_updates (ins_updates i))) chain) a),
          (latest_of (map (fun i => (ins_number i, deployed_contracts (ins_updates i))) chain) a); done.
    + assert (touched (chain ++ [i]) a <-> touched chain a) as Hiff by (rewrite touched_snoc; naive_solver).
      rewrite Hst, Ht1. unfold t1 at 1. cbn [st_contracts]. rewrite Hc.
      unfold touches in Ht.
      destruct (assoc a (storage_updates (ins_updates i))); [by destruct Ht; eauto|].
      destruct (assoc a (deployed_contracts (ins_updates i))); [by destruct Ht; eauto|].
      destruct (assoc a (nonce_updates (ins_updates i))); [by destruct Ht; eauto|].
      by rewrite (decide_ext _ _ _ _ Hiff).
  - intros h. rewrite Hcls. unfold declared_log. rewrite map_app. cbn [map]. rewrite latest_of_snoc. unfold t1. cbn [st_classes].
    rewrite insert_classes_lookup by apply Hu. destruct (assoc h (declared_classes (ins_updates i))); [done|].
    apply Hd.
Qed.

Lemma write_chain_holds todo pre t :
  wf_chain (pre ++ todo) -> Forall (fun i => trie_update (ins_updates i)) todo -> tries_hold pre t ->
  exists t', write_chain pre todo t = Some t' /\ tries_hold (pre ++ todo) t'.
Proof.
  revert pre t. induction todo as [|i todo IH]; intros pre t Hwf Hu Ht.
  { exists t. by rewrite app_nil_r. }
  apply Forall_cons in Hu as [Hi Hu].
  destruct (write_block_holds pre i t) as (r1 & r2 & t1 & Hw & _ & _ & Ht1); [|done..|].
  { clear -Hwf. induction (i :: todo) as [|x l IHl] using rev_ind; [by rewrite app_nil_r in Hwf|].
    apply IHl. rewrite app_assoc in Hwf. by apply wf_chain_snoc in Hwf. }
  simpl. rewrite Hw. simpl. rewrite (cons_middle i pre todo), app_assoc in Hwf |- *. by apply IH.
Qed.

(** C7. The state tries after a chain of blocks hold the state after the chain.  Writing never
    fails; each storage trie holds the storage of its contract; the contracts trie holds,
    for every contract a block touched and no other, the hash of its class, storage root
    and nonce; the classes trie the declared classes.  So the roots of the last block are
    those of the state after it. *)
Theorem state_tries_refine chain i :
  wf_chain (chain ++ [i]) -> Forall (fun i => trie_update (ins_updates i)) (chain ++ [i]) ->
  exists t class_root contract_root t',
    write_chain [] chain StateTries_empty = Some t /\
    write_block (db_of chain) (ins_updates i) t = Some (class_root, contract_root, t') /\
    class_root = poseidon_root (st_classes t') /\ contract_root = pedersen_root (st_contracts t') /\
    tries_hold (chain ++ [i]) t'.
Proof.
  intros Hwf [Hu Hi]%Forall_app. apply Forall_cons in Hi as [Hi _]. pose proof (wf_chain_snoc _ _ Hwf) as Hwf'.
  destruct (write_chain_holds chain [] StateTries_empty) as (t & Hw & Ht); [done|done| |].
  { split; [by intros a k|by intros a|by intros h]. }
  destruct (write_block_holds chain i t Hwf' Hi Ht) as (r1 & r2 & t' & Hb & H1 & H2 & Ht').
  by exists t, r1, r2, t'.
Qed.

(** ** The genesis writer *)
Lemma genesis_leafs_lookup u a :
  trie_update u ->
  genesis_leafs pedersen_root u !! a
  = if decide (touches u a)
    then Some (mkContractLeaf (assoc a (deployed_contracts u))
                 ((fun entries => pedersen_root (insert_values entries ∅)) <$> assoc a (storage_updates u))
                 (assoc a (nonce_updates u)))
    else None.
Proof.
  intros [[Hst _] _ [Hn _] [Hd _] _ Hr]. unfold genesis_leafs. rewrite Hr. cbn [set_leafs fold_left].
  rewrite !set_leafs_lookup, lookup_empty by done.
  case_decide as Ht; unfold touches in Ht;
    destruct (assoc a (deployed_contracts u)), (assoc a (nonce_updates u)), (assoc a (storage_updates u));
    simpl; try done; try (by destruct Ht; eauto); by destruct Ht as [[]|[[]|[]]].
Qed.

(** The leaves the genesis writer hashes, where every contract has a class. *)
Lemma genesis_hashes u :
  trie_update u -> (forall a, touches u a -> is_Some (assoc a (deployed_contracts u))) ->
  mapM (fun '(address, leaf) => hash ← genesis_leaf_hash pedersen_hash leaf; Some (address, hash))
    (map_to_list (genesis_leafs pedersen_root u))
  = Some (map (fun '(a, leaf) =>
                 (a, state_hash (default 0 (leaf_class_hash leaf)) (default 0 (leaf_storage_root leaf))
                       (default 0 (leaf_nonce leaf)))) (map_to_list (genesis_leafs pedersen_root u))).
Proof.
  intros Hu Hdep. apply mapM_Some. apply Forall2_fmap_r, Forall_Forall2_diag, Forall_forall.
  intros [a leaf] Hin%elem_of_map_to_list. rewrite genesis_leafs_lookup in Hin by done.
  case_decide as Ht; [|done]. injection Hin as <-. destruct (Hdep a Ht) as [c Hc].
  unfold genesis_leaf_hash. cbn [leaf_class_hash leaf_storage_root leaf_nonce]. by rewrite Hc.
Qed.

Lemma genesis_leafs_keys {B} (h : Z -> ContractLeaf -> B) u :
  trie_update u ->
  NoDup (map fst (map (fun '(a, leaf) => (a, h a leaf)) (map_to_list (genesis_leafs pedersen_root u)))) /\
  Forall small_key (map fst (map (fun '(a, leaf) => (a, h a leaf)) (map_to_list (genesis_leafs pedersen_root u)))).
Proof.
  intros Hu. destruct (leafs_keys h u Hu) as [_ Hs].
  assert (forall A (g : Z -> A -> B) (m : gmap Z A),
            map fst (map (fun '(a, x) => (a, g a x)) (map_to_list m)) = (map_to_list m).*1) as Hk.
  { intros A g m. rewrite map_map. apply map_ext. by intros []. }
  rewrite Hk in *. split; [apply NoDup_fst_map_to_list|]. rewrite Forall_forall in *.
  intros a ([a' leaf] & -> & Hin%elem_of_map_to_list)%list_elem_of_fmap. apply Hs. simpl in *.
  rewrite genesis_leafs_lookup in Hin by done. case_decide as Ht; [|done].
  apply list_elem_of_fmap. eexists (a', _). split; [done|]. apply elem_of_map_to_list.
  rewrite contract_leafs_lookup by done. by rewrite decide_True.
Qed.

Definition all_classed u : Prop := forall a, touches u a -> is_Some (assoc a (deployed_contracts u)).

Lemma genesis_roots_agree u :
  trie_update u -> all_classed u -> pedersen_root ∅ = 0 ->
  exists contract_root t,
    write_block (Db_empty : Db C R X) u StateTries_empty
      = Some (genesis_insert_declared_classes poseidon_hash poseidon_root (declared_classes u), contract_root, t) /\
    genesis_insert_contract_updates pedersen_hash pedersen_root u = Some contract_root.
Proof.
  intros Hu Hdep Hroot. unfold write_block, db_insert_declared_classes.
  destruct (contract_updates_spec (Db_empty : Db C R X) u
              (mkStateTries (insert_classes poseidon_hash (declared_classes u) ∅) ∅ ∅) Hu)
    as (root & t' & Heq & -> & _ & Hst & Hct).
  eexists _, _. split; [cbn [st_classes StateTries_empty st_contracts st_storages]; rewrite Heq; done|].
  unfold genesis_insert_contract_updates. rewrite genesis_hashes by done. cbn [mbind option_bind]. f_equal. f_equal.
  apply map_eq. intros a.
  rewrite insert_values_lookup, assoc_map_values, assoc_map_to_list, Hct, genesis_leafs_lookup by
    (done || by apply genesis_leafs_keys).
  case_decide as Ht; [|done]. destruct (Hdep a Ht) as [c Hc].
  cbn [leaf_class_hash leaf_storage_root leaf_nonce fmap option_fmap option_map]. rewrite Hc, Hst.
  simpl. rewrite t_get_empty. simpl.
  destruct (assoc a (storage_updates u)); simpl; [done|]. unfold storage_trie. simpl. rewrite lookup_empty. simpl. by rewrite Hroot.
Qed.

(** A touched contract without a class makes the genesis writer panic. *)
Lemma genesis_classless_panics u a :
  trie_update u -> touches u a -> assoc a (deployed_contracts u) = None ->
  genesis_insert_contract_updates pedersen_hash pedersen_root u = None.
Proof.
  intros Hu Ht Ha. unfold genesis_insert_contract_updates.
  destruct (mapM _ (map_to_list (genesis_leafs pedersen_root u))) as [l|] eqn:Hm; [exfalso|done].
  assert (is_Some (mapM (fun '(address, leaf) => hash ← genesis_leaf_hash pedersen_hash leaf; Some (address, hash))
            (map_to_list (genesis_leafs pedersen_root u)))) as Hs by eauto.
  apply mapM_is_Some_1 in Hs. rewrite Forall_forall in Hs.
  destruct (Hs (a, mkContractLeaf None
                     ((fun entries => pedersen_root (insert_values entries ∅)) <$> assoc a (storage_updates u))
                     (assoc a (nonce_updates u)))) as [x Hx]; [|done].
  apply elem_of_map_to_list. rewrite genesis_leafs_lookup, decide_True by done. by rewrite Ha.
Qed.

(** C35. The writer that recomputes a stored genesis in memory gives the roots the provider
    gave on an empty database, provided every contract the genesis touches has a class
    and an empty trie has the root zero. *)
Theorem genesis_writer_agrees u :
  trie_update u -> (forall a, touches u a -> is_Some (assoc a (deployed_contracts u))) ->
  pedersen_root ∅ = 0 ->
  exists contract_root t,
    write_block (Db_empty : Db C R X) u StateTries_empty
      = Some (genesis_insert_declared_classes poseidon_hash poseidon_root (declared_classes u), contract_root, t) /\
    genesis_insert_contract_updates pedersen_hash pedersen_root u = Some contract_root.
Proof. apply genesis_roots_agree. Qed.
End Tries.

(** ** Witnesses: the small chain, with sums for hashes and roots *)
Definition sum_root (m : gmap Z Z) : Z := fold_right Z.add 0 (map_to_list m).*2.
Lemma small_key_dec k : bool_decide (0 <= k < 2 ^ 251) = true -> small_key k.
Proof. apply bool_decide_eq_true_1. Qed.
Lemma rpc_chain_tries : Forall (fun i => trie_update (ins_updates i)) rpc_chain.
Proof.
  apply Forall_forall. intros i Hi.
  repeat (apply elem_of_cons in Hi as [->|Hi]; [split; (split || idtac);
    first [apply (bool_decide_unpack _); vm_compute; exact I
          |repeat constructor; first [apply (bool_decide_unpack _); vm_compute; exact I|by apply small_key_dec]
          |done]|]).
  by apply not_elem_of_nil in Hi.
Qed.

Lemma state_tries_refine_witness :
  exists t class_root contract_root t',
    write_chain Z.add Z.add sum_root sum_root [] (take 2 rpc_chain) StateTries_empty = Some t /\
    write_block Z.add Z.add sum_root sum_root (db_of (take 2 rpc_chain)) (ins_updates (rpc_block 2)) t
      = Some (class_root, contract_root, t').
Proof.
  destruct (state_tries_refine Z.add Z.add sum_root sum_root (take 2 rpc_chain) (rpc_block 2) rpc_chain_wf
              rpc_chain_tries) as (t & r1 & r2 & t' & H1 & H2 & _).
  exists t, r1, r2, t'. split; [exact H1|exact H2].
Defined.

Lemma genesis_writer_agrees_witness :
  genesis_insert_contract_updates Z.add sum_root (ins_updates (rpc_block 0)) = Some (70 + 9).
Proof.
  destruct (genesis_writer_agrees (C := unit) (R := unit) (X := unit) Z.add Z.add sum_root sum_root
              (ins_updates (rpc_block 0))) as (r & t & Hw & Hg).
  - apply (proj1 (Forall_cons _ _ _) rpc_chain_tries).
  - intros a Ht. destruct (decide (a = 5)) as [->|Hne]; [by exists 9|]. exfalso.
    destruct Ht as [[x Hx]|[[x Hx]|[x Hx]]]; simpl in Hx; by repeat case_decide.
  - reflexivity.
  - rewrite Hg. vm_compute in Hw. injection Hw as <- _. reflexivity.
Defined.
