(* ===== verification/RollupGenesis.v ===== *)
(** * Starting a rollup (core's backend, [init_rollup_genesis])

    The genesis block of a rollup is executed over the empty state, and what it left is
    stored; on a node that has a genesis block already it is executed again, its state
    root recomputed with a writer in memory, and its hash compared with the stored one.
    The provider's tries and the writer in memory are those of [StateTrie]. *)

From Stdlib Require Import ZArith Lia String.
From stdpp Require Import base numbers list gmap.
From S2P Require Import Prelude BTreeMap Felt Tx TxHash Version Block Receipt Executor Codec Versioned Mdbx DbProvider DbState ChangeLog RpcStarknetProofs GasOracle Backend BackendProofs Processor BlockProducerProofs Genesis GenesisTxs StateTrie StateTrieProofs.

Section Init.
Context `{MD : Mdbx} `{RT : RoaringTreemap} `{FP : FeltPostcard}.
Context {S B C Vm ExecErr T G : Type} {BF : Blockifier S B C Vm ExecErr}.
Context `{TW : !TrieWriter T} `{GW : !TrieWriter G}.
Context (poseidon starknet_keccak : list Z -> Z) (bonsai_root : Z -> list (list Z * Z) -> Z).
Context (is_legacy : C -> bool).
Abbreviation Info := (TransactionExecutionInfo Vm).
Abbreviation NodeChain := (@Chain _ _ C Vm Info T).

Inductive RollupGenesisError :=
  | GenesisExecution (e : ExecutorError)
  | RollupProvider (e : ProviderError)
  | RollupMismatch (local provided : Z).

(** What the genesis block leaves: its header, the state, and the successful transactions
    with receipts and traces. *)
Record GenesisOutput := mkGenesisOutput {
  go_header : PartialHeader;
  go_states : StateUpdatesWithClasses C;
  go_transactions : list TxWithHash;
  go_receipts : list (ReceiptWithTxHash Vm);
  go_traces : list (TypedTransactionExecutionInfo Info);
}.

(** [p] is the executor over the empty state; the outer [None] is a panic. *)
Definition execute_genesis (block : PartialHeader * list (ExecutableTxWithHash C))
    (p : @Processor S B C Vm ExecErr) : option (result RollupGenesisError GenesisOutput) :=
  let '(header, body) := block in
  match execute_block header body p with
  | (Err e, _) => Some (Err (GenesisExecution e))
  | (Ok _, p) =>
      '(output, _) ← take_execution_output is_legacy p;
      '(traces, receipts, transactions) ← split_output (out_transactions output);
      Some (Ok (mkGenesisOutput header (out_states output) transactions receipts traces))
  end.

Definition commit_genesis_block {W} `{!TrieWriter W} (writer : W) (o : GenesisOutput)
    : option (SealedBlock * W) :=
  commit poseidon starknet_keccak bonsai_root (go_header o) (go_transactions o) (go_receipts o)
    (state_updates (go_states o)) writer.

(** [writer] is the [GenesisTrieWriter]. *)
Definition init_rollup_genesis (block : PartialHeader * list (ExecutableTxWithHash C))
    (p : @Processor S B C Vm ExecErr) (writer : G) (c : NodeChain)
    : option (result RollupGenesisError NodeChain) :=
  match execute_genesis block p with
  | None => None
  | Some (Err e) => Some (Err e)
  | Some (Ok o) =>
      match block_hash_by_num (chain_db c) (ph_number (go_header o)) with
      | Err e => Some (Err (RollupProvider e))
      | Ok (Some local_hash) =>
          '(block, _) ← commit_genesis_block writer o;
          if Z.eqb (sb_hash block) local_hash then Some (Ok c)
          else Some (Err (RollupMismatch local_hash (sb_hash block)))
      | Ok None =>
          '(block, t) ← commit_genesis_block (chain_trie c) o;
          let block := {| sbs_block := block; sbs_status := AcceptedOnL2 |} in
          Some (Ok (mkChain (store_block block (go_states o) (map rct_receipt (go_receipts o))
                               (go_traces o) (chain_db c)) t))
      end
  end.

Lemma init_empty block p writer t o b t' :
  execute_genesis block p = Some (Ok o) -> commit_genesis_block t o = Some (b, t') ->
  exists c, init_rollup_genesis block p writer (mkChain Db_empty t) = Some (Ok c) /\
    block_hash_by_num (chain_db c) (ph_number (go_header o)) = Ok (Some (sb_hash b)).
Proof.
  intros He Hb. eexists. split.
  - unfold init_rollup_genesis. rewrite He. unfold block_hash_by_num. simpl. rewrite t_get_empty.
    by rewrite Hb.
  - assert (number (sb_header b) = ph_number (go_header o)) as <-.
    { unfold commit_genesis_block, commit in Hb. by apply bind_Some in Hb as ([r t1] & _ & [= <- _]). }
    unfold block_hash_by_num, store_block. simpl. by rewrite t_get_put, decide_True.
Qed.

Lemma init_again block p writer c o stored :
  execute_genesis block p = Some (Ok o) ->
  block_hash_by_num (chain_db c) (ph_number (go_header o)) = Ok (Some stored) ->
  init_rollup_genesis block p writer c
  = ('(b, _) ← commit_genesis_block writer o;
     Some (if Z.eqb (sb_hash b) stored then Ok c else Err (RollupMismatch stored (sb_hash b)))).
Proof.
  intros He Hs. unfold init_rollup_genesis. rewrite He, Hs.
  destruct (commit_genesis_block writer o) as [[b g]|]; [|done]. simpl. by destruct (Z.eqb _ _).
Qed.
End Init.

(** ** The two writers *)
Section Writers.
Context `{MD : Mdbx} `{RT : RoaringTreemap} `{FP : FeltPostcard} {C R X : Type}.
Context (pedersen_hash poseidon_hash : Z -> Z -> Z) (pedersen_root poseidon_root : gmap Z Z -> Z).

(** A panic inside a writer; the backend panics on an error of either all the same. *)
Definition unwinds {A} (m : option A) : ProviderResult A :=
  match m with Some a => Ok a | None => Err StateRootNotFound end.

(** The provider's tries, over what its database holds. *)
Definition provider_writer (db : Db C R X) : TrieWriter StateTries := {|
  trie_insert_declared_classes _ updates t :=
    Ok (db_insert_declared_classes poseidon_hash poseidon_root updates t);
  trie_insert_contract_updates _ u t :=
    unwinds (db_insert_contract_updates pedersen_hash pedersen_root db u t) |}.

Inductive GenesisTrieWriter := mkGenesisTrieWriter.
Definition genesis_writer : TrieWriter GenesisTrieWriter := {|
  trie_insert_declared_classes _ updates w :=
    Ok (genesis_insert_declared_classes poseidon_hash poseidon_root updates, w);
  trie_insert_contract_updates _ u w :=
    (fun root => (root, w)) <$> unwinds (genesis_insert_contract_updates pedersen_hash pedersen_root u) |}.

Section Roots.
Context (poseidon : list Z -> Z) (n : Z) (u : StateUpdates) (Hu : trie_update u).
Abbreviation stored_root := (compute_new_state_root (TrieWriter0 := provider_writer Db_empty) poseidon n u
                               StateTries_empty).
Abbreviation memory_root := (compute_new_state_root (TrieWriter0 := genesis_writer) poseidon n u
                               mkGenesisTrieWriter).

Lemma stored_root_defined : is_Some stored_root.
Proof using Hu.
  unfold compute_new_state_root. cbn [trie_insert_declared_classes trie_insert_contract_updates provider_writer].
  unfold db_insert_declared_classes.
  destruct (contract_updates_spec pedersen_hash pedersen_root (Db_empty : Db C R X) u
    (mkStateTries (insert_classes poseidon_hash (declared_classes u) ∅) ∅ ∅) Hu) as (root & t' & Hw & _).
  cbn [st_classes StateTries_empty st_contracts st_storages]. rewrite Hw. by eexists.
Qed.

(** The writers give one state root where every contract has a class. *)
Lemma roots_agree root t :
  all_classed u -> pedersen_root ∅ = 0 -> stored_root = Some (root, t) ->
  memory_root = Some (root, mkGenesisTrieWriter).
Proof using Hu.
  intros Hc H0 Hs.
  destruct (genesis_roots_agree (C := C) (R := R) (X := X) pedersen_hash poseidon_hash pedersen_root
              poseidon_root u Hu Hc H0) as (contracts & t' & Hw & Hg).
  unfold write_block in Hw. unfold compute_new_state_root in *.
  cbn [trie_insert_declared_classes trie_insert_contract_updates provider_writer genesis_writer] in *.
  destruct (db_insert_declared_classes _ _ _ _) as [classes t1].
  apply bind_Some in Hw as ([contracts' t2] & Hw & [= -> -> ->]).
  rewrite Hw in Hs. injection Hs as <- _. by rewrite Hg.
Qed.

Lemma classless_root a :
  touches u a -> assoc a (deployed_contracts u) = None -> memory_root = None.
Proof using Hu.
  intros Ht Ha. unfold compute_new_state_root.
  cbn [trie_insert_declared_classes trie_insert_contract_updates genesis_writer].
  by rewrite (genesis_classless_panics pedersen_hash pedersen_root u a Hu Ht Ha).
Qed.
End Roots.
End Writers.

Section Restart.
Context `{MD : Mdbx} `{RT : RoaringTreemap} `{FP : FeltPostcard}.
Context {S B C Vm ExecErr : Type} {BF : Blockifier S B C Vm ExecErr}.
Context (poseidon starknet_keccak : list Z -> Z) (bonsai_root : Z -> list (list Z * Z) -> Z).
Context (pedersen_hash poseidon_hash : Z -> Z -> Z) (pedersen_root poseidon_root : gmap Z Z -> Z).
Context (is_legacy : C -> bool).
Abbreviation NodeChain := (@Chain _ _ C Vm (TransactionExecutionInfo Vm) StateTries).
Abbreviation Output := (@GenesisOutput C Vm).
Abbreviation on_provider db := (provider_writer pedersen_hash poseidon_hash pedersen_root poseidon_root db).
Abbreviation in_memory := (genesis_writer pedersen_hash poseidon_hash pedersen_root poseidon_root).

(** A start of the node on the chain it has. *)
Definition start (block : PartialHeader * list (ExecutableTxWithHash C))
    (p : @Processor S B C Vm ExecErr) (c : NodeChain) : option (result RollupGenesisError NodeChain) :=
  init_rollup_genesis (TW := on_provider (chain_db c)) (GW := in_memory) poseidon starknet_keccak bonsai_root
    is_legacy block p mkGenesisTrieWriter c.
Definition no_chain : NodeChain := mkChain Db_empty StateTries_empty.
Abbreviation executes block p o := (execute_genesis is_legacy block p = Some (Ok o)).
Abbreviation updates o := (state_updates (go_states o)).

Lemma committed_empty (o : Output) :
  trie_update (updates o) ->
  exists b t, commit_genesis_block (TrieWriter0 := on_provider (Db_empty : Db C (Receipt Vm) (TypedTransactionExecutionInfo (TransactionExecutionInfo Vm)))) poseidon starknet_keccak
                bonsai_root StateTries_empty o = Some (b, t) /\
    (all_classed (updates o) -> pedersen_root ∅ = 0 ->
     commit_genesis_block (TrieWriter0 := in_memory) poseidon starknet_keccak bonsai_root
       mkGenesisTrieWriter o = Some (b, mkGenesisTrieWriter)) /\
    (forall a, touches (updates o) a -> assoc a (deployed_contracts (updates o)) = None ->
     commit_genesis_block (TrieWriter0 := in_memory) poseidon starknet_keccak bonsai_root
       mkGenesisTrieWriter o = None).
Proof.
  intros Hu. unfold commit_genesis_block, commit.
  destruct (stored_root_defined (C := C) (R := Receipt Vm)
              (X := TypedTransactionExecutionInfo (TransactionExecutionInfo Vm)) pedersen_hash poseidon_hash
              pedersen_root poseidon_root poseidon (ph_number (go_header o)) (updates o) Hu) as [[root t] Hr].
  rewrite Hr. eexists _, _. split_and!; [done|..].
  - intros Hc H0. by rewrite (roots_agree _ _ _ _ _ _ _ Hu root t Hc H0 Hr).
  - intros a Ht Ha. by rewrite (classless_root _ _ _ _ _ _ _ Hu a Ht Ha).
Qed.

(** C34. A node starts from an empty database and starts again from what it stored.  The
    first start stores a genesis block under its number; the second, which executes the
    block again and recomputes its state root with the writer in memory, accepts it and
    writes nothing, when every contract the genesis touches has a class, and panics when
    one has none.  A second start with another genesis of the same number is accepted
    exactly when that one, had the node started from it, would have been stored under the
    same hash, and else refused with the two hashes.  The maps of the updates have small,
    distinct keys, and an empty trie the root zero. *)
Theorem rollup_genesis_restarts block p o :
  pedersen_root ∅ = 0 -> executes block p o -> trie_update (updates o) ->
  exists c stored,
    start block p no_chain = Some (Ok c) /\
    block_hash_by_num (chain_db c) (ph_number (go_header o)) = Ok (Some stored) /\
    (all_classed (updates o) -> start block p c = Some (Ok c)) /\
    (forall a, touches (updates o) a -> assoc a (deployed_contracts (updates o)) = None ->
       start block p c = None) /\
    forall block' o',
      executes block' p o' -> trie_update (updates o') -> all_classed (updates o') ->
      ph_number (go_header o') = ph_number (go_header o) ->
      exists c' stored',
        start block' p no_chain = Some (Ok c') /\
        block_hash_by_num (chain_db c') (ph_number (go_header o')) = Ok (Some stored') /\
        start block' p c
          = Some (if Z.eqb stored' stored then Ok c else Err (RollupMismatch stored stored')).
Proof.
  intros H0 He Hu. destruct (committed_empty o Hu) as (b & t & Hb & Hm & Hn).
  destruct (init_empty (TW := on_provider Db_empty) (GW := in_memory) poseidon starknet_keccak bonsai_root
              is_legacy block p mkGenesisTrieWriter _ o b t He Hb) as (c & Hstart & Hstored).
  assert (forall block' o', executes block' p o' -> ph_number (go_header o') = ph_number (go_header o) ->
            start block' p c
            = ('(b', _) ← commit_genesis_block (TrieWriter0 := in_memory) poseidon starknet_keccak bonsai_root
                            mkGenesisTrieWriter o';
               Some (if Z.eqb (sb_hash b') (sb_hash b) then Ok c
                     else Err (RollupMismatch (sb_hash b) (sb_hash b'))))) as Hagain.
  { intros block' o' He' Hno. rewrite <- Hno in Hstored. by apply init_again. }
  exists c, (sb_hash b). split_and!; [exact Hstart|exact Hstored|..].
  - intros Hc. rewrite (Hagain block o He eq_refl), (Hm Hc H0). simpl. by rewrite Z.eqb_refl.
  - intros a Ht Ha. by rewrite (Hagain block o He eq_refl), (Hn a Ht Ha).
  - intros block' o' He' Hu' Hc' Hno. destruct (committed_empty o' Hu') as (b' & t' & Hb' & Hm' & _).
    destruct (init_empty (TW := on_provider Db_empty) (GW := in_memory) poseidon starknet_keccak bonsai_root
                is_legacy block' p mkGenesisTrieWriter _ o' b' t' He' Hb') as (c' & Hstart' & Hstored').
    exists c', (sb_hash b'). split_and!; [exact Hstart'|exact Hstored'|].
    by rewrite (Hagain block' o' He' Hno), (Hm' Hc' H0).
Qed.
End Restart.

(** ** Witness: a genesis that deploys contract 5 and writes its storage *)
#[local] Instance deploying_blockifier : Blockifier nat nat Z unit unit := {
  bf_to_state_diff s := mkStateMaps [(5, Z.of_nat s)] [(5, 9)] [((5, 7), 70)] [];
  bf_provider_class s h := None;
  bf_execute ctx tx s :=
    (Ok (mkExecutionInfo None None None None
           (mkTransactionReceipt 1 (mkGasVector 0 0 0) (mkGasVector 0 0 0) tt)), (s + 1)%nat);
  bf_try_update s s' info b := Ok b;
  bf_fee_type tx := FeeStrk;
  bf_tip tx := 0;
  bf_get_fee_by_gas_vector ctx g f tip := 0;
  bf_n_steps v := 0;
}.
Definition empty_header : PartialHeader := {|
  ph_protocol_version := CURRENT_STARKNET_VERSION; ph_number := 0; ph_timestamp := 0; ph_parent_hash := 0;
  ph_l1_da_mode := Calldata; ph_l2_gas_prices := GasPrice_MIN; ph_l1_gas_prices := GasPrice_MIN;
  ph_l1_data_gas_prices := GasPrice_MIN; ph_sequencer_address := 1 |}.
Definition idle_processor : Processor nat nat Z unit unit :=
  mkProcessor (fill_block_env_from_header empty_header) 0%nat [] [] ExecutionFlags_new ExecutionStats_default 0%nat.
Definition genesis_of (txs : list (ExecutableTxWithHash Z)) : PartialHeader * list (ExecutableTxWithHash Z) :=
  (empty_header, txs).
Abbreviation genesis_run txs := (execute_genesis (fun _ : Z => true) (genesis_of txs) idle_processor).
Abbreviation restart := (start sum_hash sum_hash (fun _ _ => 0) Z.add Z.add sum_root sum_root (fun _ => true)).

(** What the genesis with [k] messages leaves. *)
Definition left_by (k : Z) : StateUpdates := rpc_updates [(5, k)] [(5, 9)] [(5, [(7, 70)])].
Lemma genesis_left :
  (exists o, genesis_run [message 1] = Some (Ok o) /\ state_updates (go_states o) = left_by 1 /\
     go_header o = empty_header) /\
  (exists o, genesis_run [message 1; message 2] = Some (Ok o) /\ state_updates (go_states o) = left_by 2 /\
     go_header o = empty_header).
Proof. split; eexists; split; vm_compute; done. Qed.

Lemma left_by_trie k : trie_update (left_by k).
Proof. split; simpl; repeat constructor; unfold small_key; simpl; set_solver || lia. Qed.
Lemma left_by_classed k : all_classed (left_by k).
Proof.
  intros a Ht. destruct (decide (a = 5)) as [->|Hne]; [by exists 9|].
  destruct Ht as [[x Hx]|[[x Hx]|[x Hx]]]; simpl in Hx; by repeat case_decide.
Qed.

Definition stored_hash txs : Z :=
  match restart (genesis_of txs) idle_processor no_chain with
  | Some (Ok c) => match block_hash_by_num (chain_db c) (ph_number empty_header) with Ok (Some h) => h | _ => 0 end
  | _ => 0
  end.
Lemma genesis_hashes_differ : Z.eqb (stored_hash [message 1]) (stored_hash [message 1; message 2]) = false.
Proof. vm_compute. reflexivity. Qed.

Lemma rollup_genesis_restarts_witness :
  exists c, restart (genesis_of [message 1]) idle_processor no_chain = Some (Ok c) /\
    restart (genesis_of [message 1]) idle_processor c = Some (Ok c) /\
    exists local provided, local <> provided /\
      restart (genesis_of [message 1; message 2]) idle_processor c
        = Some (Err (RollupMismatch local provided)).
Proof.
  destruct genesis_left as [(o & He & Ho & Hh) (o' & He' & Ho' & Hh')].
  destruct (rollup_genesis_restarts sum_hash sum_hash (fun _ _ => 0) Z.add Z.add sum_root sum_root (fun _ => true)
              (genesis_of [message 1]) idle_processor o) as (c & h & H1 & H2 & H3 & _ & H5).
  - reflexivity.
  - exact He.
  - rewrite Ho. apply left_by_trie.
  - exists c. rewrite Ho in H3. split_and!; [exact H1|exact (H3 (left_by_classed 1))|].
    destruct (H5 (genesis_of [message 1; message 2]) o' He') as (c' & h' & H1' & H2' & H6).
    + rewrite Ho'. apply left_by_trie.
    + rewrite Ho'. apply left_by_classed.
    + by rewrite Hh, Hh'.
    + exists h, h'. rewrite Hh in H2. rewrite Hh' in H2'.
      assert (h <> h') as Hne.
      { pose proof genesis_hashes_differ as Hd. unfold stored_hash in Hd. rewrite H1, H1', H2, H2' in Hd.
        intros ->. by rewrite Z.eqb_refl in Hd. }
      split; [exact Hne|]. rewrite H6. rewrite (proj2 (Z.eqb_neq _ _)) by congruence. done.
Defined.
