(* ===== verification/GenesisJson.v ===== *)
(** * The genesis file (primitives/src/genesis/json.rs)

    The JSON form of a genesis configuration, and the conversions to and from [Genesis].  An
    artifact, its reading as a Sierra or as a legacy class and its writing are parameters, as
    are class hashes and the file system; the text of the JSON is serde's. *)

From Stdlib Require Import ZArith Lia String.
From stdpp Require Import base numbers list strings gmap.
From S2P Require Import Prelude BTreeMap Felt Tx Version Block Mdbx DbProvider Genesis.

Section Json.
(** Artifacts, paths, classes, and errors of reading. *)
Context {A Pa C IoErr : Type}.

Inductive PathOrFullArtifact := ArtifactPath (path : Pa) | Artifact (value : A).
Record GenesisClassJson := mkClassJson { gcj_class : PathOrFullArtifact; gcj_name : option string }.
Inductive ClassNameOrHash := ClassName (name : string) | ClassHash (hash : Z).
Record GenesisContractJson := mkContractJson {
  gcoj_class : option ClassNameOrHash;
  gcoj_balance : option Z;
  gcoj_nonce : option Z;
  gcoj_storage : option (list (Z * Z));
}.
Record GenesisAccountJson := mkAccountJson {
  gaj_public_key : Z;
  gaj_balance : option Z;
  gaj_nonce : option Z;
  gaj_class : option ClassNameOrHash;
  gaj_storage : option (list (Z * Z));
  gaj_private_key : option Z;
  gaj_salt : option Z;
}.
Inductive GenesisJsonError :=
  | FileNotFound (e : IoErr) (path : Pa)
  | ParsingError (e : IoErr)
  | ComputeClassHash (e : IoErr)
  | MissingClass (hash : Z)
  | UnresolvedClassPath (path : Pa)
  | DuplicateClassName (name : string)
  | UnknownClassName (name : string).
Record GenesisJson := mkGenesisJson {
  gj_parent_hash : Z;
  gj_state_root : Z;
  gj_number : Z;
  gj_timestamp : Z;
  gj_sequencer_address : Z;
  gj_gas_prices : GasPrice;
  gj_classes : list GenesisClassJson;
  gj_accounts : list (Z * GenesisAccountJson);
  gj_contracts : list (Z * GenesisContractJson);
}.

(** Reading an artifact as a Sierra class and as a legacy class; the hash of a class;
    writing a class; the artifact at a path relative to a base. *)
Context (from_sierra : A -> option C) (from_legacy : A -> result IoErr C).
Context (class_hash : C -> result IoErr Z) (to_value : C -> result IoErr A).
Context (class_artifact_at_path : Pa -> Pa -> result GenesisJsonError A).
Context (DEFAULT_ACCOUNT_CLASS : C).

(** ** Resolving paths *)
Fixpoint resolve_classes (base_path : Pa) (entries : list GenesisClassJson)
    : result GenesisJsonError (list GenesisClassJson) :=
  match entries with
  | [] => Ok []
  | entry :: entries =>
      entry ← match gcj_class entry with
              | ArtifactPath rel_path =>
                  artifact ← class_artifact_at_path base_path rel_path;
                  Ok (mkClassJson (Artifact artifact) (gcj_name entry))
              | Artifact _ => Ok entry
              end;
      entries ← resolve_classes base_path entries;
      Ok (entry :: entries)
  end.
Definition resolve_class_artifacts (base_path : Pa) (j : GenesisJson) : result GenesisJsonError GenesisJson :=
  classes ← resolve_classes base_path (gj_classes j);
  Ok (mkGenesisJson (gj_parent_hash j) (gj_state_root j) (gj_number j) (gj_timestamp j)
        (gj_sequencer_address j) (gj_gas_prices j) classes (gj_accounts j) (gj_contracts j)).

(** ** From the file to the configuration *)

(** The class of an artifact, Sierra if it reads as such, and its hash. *)
Definition class_of_artifact (artifact : A) : result GenesisJsonError (Z * C) :=
  class ← match from_sierra artifact with
          | Some class => Ok class
          | None => map_err ParsingError (from_legacy artifact)
          end;
  hash ← map_err ComputeClassHash (class_hash class);
  Ok (hash, class).

(** One class: the names seen so far, and the classes by hash. *)
Definition read_class (acc : gmap string Z * list (Z * C)) (entry : GenesisClassJson)
    : result GenesisJsonError (gmap string Z * list (Z * C)) :=
  let '(class_names, classes) := acc in
  artifact ← match gcj_class entry with
             | Artifact artifact => Ok artifact
             | ArtifactPath path => Err (UnresolvedClassPath path)
             end;
  '(hash, class) ← class_of_artifact artifact;
  class_names ← match gcj_name entry with
                | None => Ok class_names
                | Some name =>
                    match class_names !! name with
                    | Some _ => Err (DuplicateClassName name)
                    | None => Ok (<[name := hash]> class_names)
                    end
                end;
  Ok (class_names, btree_insert hash class classes).

Fixpoint read_all {X S} (f : S -> X -> result GenesisJsonError S) (l : list X) (s : S)
    : result GenesisJsonError S :=
  match l with
  | [] => Ok s
  | x :: l => s ← f s x; read_all f l s
  end.

(** The hash a class identifier stands for; it must be of a known class. *)
Definition find_class (class_names : gmap string Z) (classes : list (Z * C)) (class : ClassNameOrHash)
    : result GenesisJsonError Z :=
  hash ← match class with
         | ClassHash hash => Ok hash
         | ClassName name =>
             match class_names !! name with
             | Some hash => Ok hash
             | None => Err (UnknownClassName name)
             end
         end;
  match btree_get hash classes with Some _ => Ok hash | None => Err (MissingClass hash) end.

(** An account without a class gets the default one, declared if it was not. *)
Definition read_account (class_names : gmap string Z)
    (acc : list (Z * C) * list (Z * GenesisAllocation)) (e : Z * GenesisAccountJson)
    : result GenesisJsonError (list (Z * C) * list (Z * GenesisAllocation)) :=
  let '(classes, allocations) := acc in
  let '(address, account) := e in
  '(hash, classes) ← match gaj_class account with
                     | Some class => hash ← find_class class_names classes class; Ok (hash, classes)
                     | None =>
                         Ok (DEFAULT_ACCOUNT_CLASS_HASH,
                             or_insert DEFAULT_ACCOUNT_CLASS_HASH DEFAULT_ACCOUNT_CLASS classes)
                     end;
  let inner :=
    mkGenesisAccount (gaj_public_key account) hash (gaj_balance account) (gaj_nonce account)
      (gaj_storage account) (default GenesisAccount_DEFAULT_SALT (gaj_salt account)) in
  let alloc := match gaj_private_key account with
               | Some private_key => AllocDevAccount (mkDevAccount private_key inner)
               | None => AllocAccount inner
               end in
  Ok (classes, btree_insert address (AllocatedAccount alloc) allocations).

Definition read_contract (class_names : gmap string Z) (classes : list (Z * C))
    (allocations : list (Z * GenesisAllocation)) (e : Z * GenesisContractJson)
    : result GenesisJsonError (list (Z * GenesisAllocation)) :=
  let '(address, contract) := e in
  class_hash ← match gcoj_class contract with
               | Some class => hash ← find_class class_names classes class; Ok (Some hash)
               | None => Ok None
               end;
  Ok (btree_insert address
        (AllocatedContract (mkContractAlloc class_hash (gcoj_balance contract) (gcoj_nonce contract)
           (gcoj_storage contract))) allocations).

Definition genesis_try_from_json (value : GenesisJson) : result GenesisJsonError (Genesis C) :=
  '(class_names, classes) ← read_all read_class (gj_classes value) (∅, []);
  '(classes, allocations) ← read_all (read_account class_names) (gj_accounts value) (classes, []);
  allocations ← read_all (read_contract class_names classes) (gj_contracts value) allocations;
  Ok (mkGenesis (gj_parent_hash value) (gj_state_root value) (gj_number value) (gj_timestamp value)
        (gj_sequencer_address value) (gj_gas_prices value) classes allocations).

(** ** From the configuration to the file *)
Definition account_to_json (account : GenesisAccountAlloc) : GenesisAccountJson :=
  let acc := account_of account in
  mkAccountJson (gac_public_key acc) (gac_balance acc) (gac_nonce acc)
    (Some (ClassHash (gac_class_hash acc))) (gac_storage acc) (account_private_key account)
    (Some (gac_salt acc)).
Definition contract_to_json (contract : GenesisContractAlloc) : GenesisContractJson :=
  mkContractJson (ClassHash <$> gca_class_hash contract) (gca_balance contract) (gca_nonce contract)
    (gca_storage contract).

Fixpoint classes_to_json (classes : list (Z * C)) : result GenesisJsonError (list GenesisClassJson) :=
  match classes with
  | [] => Ok []
  | (_, class) :: classes =>
      artifact ← map_err ParsingError (to_value class);
      entries ← classes_to_json classes;
      Ok (mkClassJson (Artifact artifact) None :: entries)
  end.

Definition split_allocation (acc : list (Z * GenesisAccountJson) * list (Z * GenesisContractJson))
    (e : Z * GenesisAllocation) : list (Z * GenesisAccountJson) * list (Z * GenesisContractJson) :=
  let '(accounts, contracts) := acc in
  match e.2 with
  | AllocatedAccount account => (btree_insert e.1 (account_to_json account) accounts, contracts)
  | AllocatedContract contract => (accounts, btree_insert e.1 (contract_to_json contract) contracts)
  end.

Definition json_try_from_genesis (value : Genesis C) : result GenesisJsonError GenesisJson :=
  classes ← classes_to_json (gen_classes value);
  let '(accounts, contracts) := fold_left split_allocation (gen_allocations value) ([], []) in
  Ok (mkGenesisJson (gen_parent_hash value) (gen_state_root value) (gen_number value)
        (gen_timestamp value) (gen_sequencer_address value) (gen_gas_prices value) classes accounts contracts).
End Json.
