(* ===== verification/GenesisJsonProofs.v ===== *)
(** * The genesis file: what it gives, and that it can be written back

    A configuration read from a file has a class for every allocation; a configuration
    whose classes are keyed by their hashes is written to a file that reads back as it. *)

From Stdlib Require Import ZArith Lia String.
From stdpp Require Import base numbers list strings gmap sorting.
From S2P Require Import Prelude BTreeMap Felt Tx Version Block Mdbx DbProvider Genesis GenesisProofs GenesisJson.

Section Json.
Context {A Pa C IoErr : Type}.
Context (from_sierra : A -> option C) (from_legacy : A -> result IoErr C).
Context (class_hash : C -> result IoErr Z) (to_value : C -> result IoErr A).
Context (DEFAULT_ACCOUNT_CLASS : C).
Abbreviation Json := (@GenesisJson A Pa).
Abbreviation from_json := (genesis_try_from_json (Pa := Pa) from_sierra from_legacy class_hash DEFAULT_ACCOUNT_CLASS).
Abbreviation to_json := (json_try_from_genesis (Pa := Pa) to_value).
Abbreviation JsonError := (@GenesisJsonError Pa IoErr).

(** ** Soundness *)
Lemma read_all_inv {X S} (f : S -> X -> result JsonError S) (P : S -> Prop) l s s' :
  (forall s x s', P s -> f s x = Ok s' -> P s') -> P s -> read_all f l s = Ok s' -> P s'.
Proof.
  intros Hf. revert s. induction l as [|x l IH]; intros s Hs; simpl; [by intros [= <-]|].
  intros (s1 & H1 & H2)%bind_ok. by eapply IH, H2; eapply Hf.
Qed.

Definition class_known (classes : list (Z * C)) (alloc : GenesisAllocation) : Prop :=
  forall h, alloc_class_hash alloc = Some h -> is_Some (btree_get h classes).
Definition allocs_known (classes : list (Z * C)) (allocs : list (Z * GenesisAllocation)) : Prop :=
  btree_sorted allocs /\ Forall (fun e => class_known classes e.2) allocs.

Lemma allocs_known_insert classes allocs a alloc :
  allocs_known classes allocs -> class_known classes alloc ->
  allocs_known classes (btree_insert a alloc allocs).
Proof.
  intros [Hs Hf] Ha. split; [by apply btree_insert_sorted|]. rewrite Forall_forall in *.
  intros e [->|[He _]]%elem_of_btree_insert; [done|auto|done].
Qed.

Lemma or_insert_sorted {V} k (v : V) m : btree_sorted m -> btree_sorted (or_insert k v m).
Proof. unfold or_insert. destruct (btree_get k m); [done|apply btree_insert_sorted]. Qed.
Lemma or_insert_there {V} k (v : V) m : is_Some (btree_get k (or_insert k v m)).
Proof.
  unfold or_insert. destruct (btree_get k m) eqn:Hk; [by rewrite Hk|].
  by rewrite btree_get_insert, Z.eqb_refl.
Qed.

Lemma find_class_known names (classes : list (Z * C)) class h :
  find_class (Pa := Pa) (IoErr := IoErr) names classes class = Ok h -> is_Some (btree_get h classes).
Proof.
  unfold find_class. intros (h' & _ & H)%bind_ok. destruct (btree_get h' classes) eqn:E; [|done].
  injection H as <-. by rewrite E.
Qed.

Lemma read_account_known names classes allocs e classes' allocs' :
  btree_sorted classes -> allocs_known classes allocs ->
  read_account (Pa := Pa) (IoErr := IoErr) DEFAULT_ACCOUNT_CLASS names (classes, allocs) e = Ok (classes', allocs') ->
  btree_sorted classes' /\ allocs_known classes' allocs'.
Proof.
  intros Hs Ha. unfold read_account. destruct e as [a account].
  intros ([h cls] & Hc & [= <- <-])%bind_ok.
  assert (btree_sorted cls /\ allocs_known cls allocs /\ is_Some (btree_get h cls)) as (H1 & H2 & H3).
  { destruct (gaj_class account) as [class|].
    - apply bind_ok in Hc as (h' & Hf & [= <- <-]). split_and!; [done|done|by eapply find_class_known].
    - injection Hc as <- <-. split_and!; [by apply or_insert_sorted| |apply or_insert_there].
      destruct Ha as [Has Hf]. split; [done|]. eapply Forall_impl; [exact Hf|].
      intros e He h Hh. destruct (He h Hh) as [c Hc]. exists c. by apply or_insert_kept. }
  split; [done|]. apply allocs_known_insert; [done|]. intros h' Hh'.
  destruct (gaj_private_key account); simpl in Hh'; by injection Hh' as <-.
Qed.

(** C33. A configuration read from a file has its classes and allocations as ordered maps, and
    every class an allocation names is one of the classes: the file is refused otherwise,
    and an account that names none has the default class declared for it. *)
Theorem genesis_file_sound (j : Json) g :
  from_json j = Ok g ->
  btree_sorted (gen_classes g) /\ btree_sorted (gen_allocations g) /\
  forall a alloc h, (a, alloc) ∈ gen_allocations g -> alloc_class_hash alloc = Some h ->
    is_Some (btree_get h (gen_classes g)).
Proof.
  unfold genesis_try_from_json. intros ([names classes0] & Hc & H)%bind_ok.
  apply bind_ok in H as ([classes allocs0] & Ha & H). apply bind_ok in H as (allocs & Hcon & [= <-]).
  apply (read_all_inv _ (fun s => btree_sorted s.2)) in Hc; [|..|by constructor].
  2: { intros [n0 cls] e [n1 cls'] Hs (art & _ & H)%bind_ok. apply bind_ok in H as ([h c] & _ & H).
       apply bind_ok in H as (n2 & _ & [= <- <-]). by apply btree_insert_sorted. }
  apply (read_all_inv _ (fun s => btree_sorted s.1 /\ allocs_known s.1 s.2)) in Ha;
    [|intros [] e [] [] He; by eapply read_account_known|split; [done|by repeat constructor]].
  destruct Ha as [Hs Ha]. simpl in *.
  apply (read_all_inv _ (allocs_known classes)) in Hcon; [|..|done].
  2: { intros allocs1 [a con] allocs2 Hk (h & Hh & [= <-])%bind_ok. apply allocs_known_insert; [done|].
       intros h' Hh'. simpl in Hh'. subst h. destruct (gcoj_class con); [|done].
       apply bind_ok in Hh as (h & Hf & [= <-]). by eapply find_class_known. }
  destruct Hcon as [Has Hf]. split_and!; [done|done|]. intros a alloc h Hin Hh. rewrite Forall_forall in Hf.
  by apply (Hf _ Hin).
Qed.

(** ** Round trip *)
Abbreviation collect := (fun l m => fold_left (fun m e => btree_insert e.1 e.2 m) l m).

(** Collecting, in any order, the bindings of an ordered map gives the map. *)
Lemma collect_perm {V} (m l : list (Z * V)) : btree_sorted m -> l ≡ₚ m -> collect l [] = m.
Proof.
  intros Hs Hp. destruct (btree_collect_acc l []) as [Hs' Hin].
  - constructor.
  - intros k v v'. rewrite !app_nil_r, !Hp. intros Hv%btree_get_elem Hv'%btree_get_elem; congruence.
  - apply btree_ext; [done|done|]. intros e. by rewrite Hin, app_nil_r, Hp.
Qed.

Lemma omap_sorted {V W} (f : Z * V -> option (Z * W)) m :
  (forall e e', f e = Some e' -> e'.1 = e.1) -> btree_sorted m -> btree_sorted (omap f m).
Proof.
  intros Hf. induction 1 as [|e m Hs IH Hall]; simpl; [constructor|].
  destruct (f e) as [e'|] eqn:He; [|done]. constructor; [done|]. apply Forall_forall.
  intros x (y & Hy & Hfy)%list_elem_of_omap. rewrite (Hf _ _ He), (Hf _ _ Hfy).
  by apply (proj1 (Forall_forall _ _) Hall).
Qed.

Definition accounts_in (m : list (Z * GenesisAllocation)) : list (Z * GenesisAccountAlloc) :=
  omap (fun e => match e.2 with AllocatedAccount a => Some (e.1, a) | _ => None end) m.
Definition contracts_in (m : list (Z * GenesisAllocation)) : list (Z * GenesisContractAlloc) :=
  omap (fun e => match e.2 with AllocatedContract c => Some (e.1, c) | _ => None end) m.

Lemma allocations_split m :
  map (fun e => (e.1, AllocatedAccount e.2)) (accounts_in m)
    ++ map (fun e => (e.1, AllocatedContract e.2)) (contracts_in m) ≡ₚ m.
Proof.
  induction m as [|[a [acc|con]] m IH]; simpl; [done|by rewrite IH|].
  by rewrite <- Permutation_middle, IH.
Qed.

Lemma split_allocations m accs cons :
  fold_left split_allocation m (accs, cons)
  = (collect (map (fun e => (e.1, account_to_json e.2)) (accounts_in m)) accs,
     collect (map (fun e => (e.1, contract_to_json e.2)) (contracts_in m)) cons).
Proof. revert accs cons. induction m as [|[a [acc|con]] m IH]; intros accs cons; [done|apply IH..]. Qed.

Lemma map_sorted {V W} (f : V -> W) m :
  btree_sorted m -> btree_sorted (map (fun e => (e.1, f e.2)) m).
Proof.
  induction 1 as [|e m Hs IH Hall]; simpl; constructor; [done|]. by apply Forall_map.
Qed.

(** A configuration that a file can hold: ordered maps, classes under their hashes that
    read back as they are written, and allocations with known classes. *)
Record writable (g : Genesis C) : Prop := {
  wr_classes : btree_sorted (gen_classes g);
  wr_artifacts : Forall (fun e => exists v, to_value e.2 = Ok v /\
    class_of_artifact (Pa := Pa) from_sierra from_legacy class_hash v = Ok e) (gen_classes g);
  wr_allocations : allocs_known (gen_classes g) (gen_allocations g);
}.

Lemma classes_roundtrip l m :
  Forall (fun e => exists v, to_value e.2 = Ok v /\
    class_of_artifact (Pa := Pa) from_sierra from_legacy class_hash v = Ok e) l ->
  exists entries, classes_to_json (Pa := Pa) to_value l = Ok entries /\
    read_all (read_class from_sierra from_legacy class_hash) entries (∅, m) = Ok (∅, collect l m).
Proof.
  revert m. induction l as [|[h c] l IH]; intros m Hf; [by exists []|].
  apply Forall_cons in Hf as [(v & Hv & Hc) Hf].
  destruct (IH (btree_insert h c m) Hf) as (entries & He & Hr). simpl in *. rewrite Hv. simpl. rewrite He. simpl.
  eexists. split; [done|]. simpl. rewrite Hc. simpl. exact Hr.
Qed.

Lemma accounts_roundtrip classes l m :
  Forall (fun e => is_Some (btree_get (gac_class_hash (account_of e.2)) classes)) l ->
  read_all (read_account (Pa := Pa) (IoErr := IoErr) DEFAULT_ACCOUNT_CLASS ∅)
    (map (fun e => (e.1, account_to_json e.2)) l) (classes, m)
  = Ok (classes, collect (map (fun e => (e.1, AllocatedAccount e.2)) l) m).
Proof.
  revert m. induction l as [|[a acc] l IH]; intros m Hf; [done|].
  apply Forall_cons in Hf as [[c Hc] Hf]. simpl in *. unfold find_class. simpl. rewrite Hc. simpl.
  rewrite IH by done. do 3 f_equal. destruct acc as [[]|[? []]]; done.
Qed.

Lemma contracts_roundtrip classes l m :
  Forall (fun e => class_known classes (AllocatedContract e.2)) l ->
  read_all (read_contract (Pa := Pa) (IoErr := IoErr) ∅ classes)
    (map (fun e => (e.1, contract_to_json e.2)) l) m
  = Ok (collect (map (fun e => (e.1, AllocatedContract e.2)) l) m).
Proof.
  revert m. induction l as [|[a con] l IH]; intros m Hf; [done|].
  apply Forall_cons in Hf as [Hc Hf]. destruct con as [cls bal nonce st]. simpl in *.
  destruct cls as [h|]; simpl; [|by apply IH]. unfold find_class. simpl.
  destruct (Hc h eq_refl) as [c ->]. simpl. by apply IH.
Qed.

(** C32. A configuration that a file can hold is written to a file that reads back as the same
    configuration. *)
Theorem genesis_file_roundtrip g :
  writable g -> exists j : Json, to_json g = Ok j /\ from_json j = Ok g.
Proof.
  intros [Hs Hart [Has Hak]]. destruct (classes_roundtrip (gen_classes g) [] Hart) as (entries & He & Hr).
  unfold json_try_from_genesis. rewrite He. simpl. rewrite split_allocations. eexists. split; [done|].
  assert (btree_sorted (accounts_in (gen_allocations g)) /\ btree_sorted (contracts_in (gen_allocations g)))
    as [Hsa Hsc].
  { split; (apply omap_sorted; [|done]); intros [a []] [] H; simplify_eq/=; done. }
  unfold genesis_try_from_json. cbn [gj_classes gj_accounts gj_contracts gj_parent_hash gj_state_root
    gj_number gj_timestamp gj_sequencer_address gj_gas_prices].
  rewrite Hr, (collect_perm (gen_classes g)) by done. cbn [mbind result_bind].
  rewrite !(collect_perm _ _ (map_sorted _ _ Hsa) (Permutation_refl _)).
  rewrite !(collect_perm _ _ (map_sorted _ _ Hsc) (Permutation_refl _)).
  rewrite Forall_forall in Hak.
  rewrite accounts_roundtrip; [|apply Forall_forall; intros e ([a [acc|con]] & Hin & [= <-])%list_elem_of_omap;
                                apply (Hak _ Hin); done].
  cbn [mbind result_bind].
  rewrite contracts_roundtrip; [|apply Forall_forall; intros e ([a [acc|con]] & Hin & [= <-])%list_elem_of_omap;
                                 apply (Hak _ Hin)].
  cbn [mbind result_bind]. rewrite <- fold_left_app, (collect_perm (gen_allocations g)) by
    (done || apply allocations_split). by destruct g.
Qed.
End Json.

(** ** Witness: the default classes, an account with a key and a contract without a class *)
Definition file_class_hash (c : Z) : result unit Z :=
  Ok (if Z.eqb c 1 then DEFAULT_LEGACY_ERC20_CLASS_HASH
      else if Z.eqb c 2 then DEFAULT_LEGACY_UDC_CLASS_HASH else DEFAULT_ACCOUNT_CLASS_HASH).
Definition file_sierra (v : Z) : option Z := if Z.eqb v 3 then Some v else None.
Definition file_genesis : Genesis Z :=
  extend_allocations
    [(7, AllocatedContract (mkContractAlloc None (Some 5) None (Some [(1, 2)])));
     (5, AllocatedAccount (AllocDevAccount (mkDevAccount 77
           (mkGenesisAccount 99 DEFAULT_ACCOUNT_CLASS_HASH (Some 9) None None 666))))]
    (Genesis_default 1 2 3).

Lemma file_genesis_writable :
  writable (A := Z) (Pa := unit) (IoErr := unit) file_sierra Ok file_class_hash Ok file_genesis.
Proof.
  split; [by repeat constructor|by repeat (constructor; [by eexists|])|].
  split; [by repeat constructor|]. repeat constructor; intros h Hh; [|done].
  injection Hh as <-. by eexists.
Qed.

Lemma genesis_file_roundtrip_witness :
  exists j, json_try_from_genesis (A := Z) (Pa := unit) (IoErr := unit) Ok file_genesis = Ok j /\
    genesis_try_from_json file_sierra Ok file_class_hash 3 j = Ok file_genesis.
Proof.
  exact (genesis_file_roundtrip file_sierra Ok file_class_hash Ok 3 file_genesis file_genesis_writable).
Defined.

(** A file whose account names no class. *)
Definition plain_file : @GenesisJson Z unit :=
  mkGenesisJson 0 0 0 0 0 GasPrice_MIN [] [(5, mkAccountJson 99 None None None None None None)] [].
Definition plain_genesis : Genesis Z :=
  match genesis_try_from_json file_sierra (Ok (E := unit)) file_class_hash 3 plain_file with
  | Ok g => g
  | Err _ => file_genesis
  end.

Lemma genesis_file_sound_witness :
  is_Some (btree_get DEFAULT_ACCOUNT_CLASS_HASH (gen_classes plain_genesis)).
Proof.
  destruct (genesis_file_sound file_sierra (Ok (E := unit)) file_class_hash 3 plain_file plain_genesis eq_refl)
    as (_ & _ & H).
  apply (H 5 (AllocatedAccount (AllocAccount (mkGenesisAccount 99 DEFAULT_ACCOUNT_CLASS_HASH None None None 666))));
    [by apply list_elem_of_singleton|reflexivity].
Defined.
